(* ===== verification/_CoqProject ===== *)
-Q . S2P
Prelude.v
GoTime.v
Sha256.v
LabelsJson.v
Fingerprint.v
AlertStore.v
Evaluator.v
AlertSpec.v
AlertEffects.v
AlertGuarantees.v
AlertRace.v
TreeMap.v
JobQueue.v
Daemon.v
DaemonSpec.v
DaemonRace.v
OneShot.v
Configs.v
ConfigLaws.v
Agent.v
AgentSpec.v
FileSystem.v
FileOutput.v
HttpOutput.v
HttpPublish.v
HttpSpec.v
Retention.v
Engine.v
Wiring.v
Web.v
AgentRegistry.v
AlertsApi.v
ApiSpec.v
Harvester.v
HarvesterSpec.v
GoFloat.v
Ping.v
PingSpec.v
GoStrings.v
VmClient.v
QueryApi.v
QuerySpec.v
Events.v
Probes.v
Exception.v
ExceptionSpec.v
Collectors.v
Script.v
Keyword.v
KeywordSpec.v
KeywordTail.v
CollectorSpec.v
EventSpec.v
ScriptSpec.v
Json.v
JsonSpec.v
Bodies.v
OffsetSharing.v
Reloader.v
Sender.v
Pipeline.v
Delivery.v
MailHtml.v
MailWire.v
Mail.v
CivilTime.v
TimeText.v
Logging.v
AgentMain.v
AgentSettings.v
Admin.v
ProcSource.v
KeywordSched.v
Lifecycle.v
AlertLoop.v
WebMain.v
