(* ===== verification/Prelude.v ===== *)
(** * monitorbeat: verification of the agent and of the alerting server

    monitorbeat is a monitoring agent (cmd/monitorbeat) and a web server
    (cmd/monitorweb). The agent reads a configuration, builds task objects,
    runs them periodically, and hands the events they emit to its outputs. The
    server receives the agents' heartbeats, evaluates alert rules against
    VictoriaMetrics and answers an HTTP API. Paths below are relative to src/.

    ** The parts and the files that model them

    Agent:
    - configs/, define/config.go, define/task.go: [Configs] - one record and one
      [Clean] per kind of task, all instances of the class [TaskConfig]; the
      global [Config]; [ConfigLaws] - their laws as a class [LawfulConfig] with
      an instance per kind, and the theorems on the whole configuration.
    - the ordered map the schedulers use (a library): [TreeMap]; the sorted job
      list of scheduler/daemon/queue.go and job.go: [JobQueue].
    - scheduler/daemon/scheduler.go, tasks/task_base.go: [Daemon]. Task objects
      live in a heap, because a reload writes through the reference a kept job
      holds. [DaemonSpec] has the theorems about a run of ticks, one tick and a
      reload; [DaemonRace] the interleaving of the ticker's goroutine with a
      reload as the relation [race_step], one atomic action per step.
    - scheduler/checker, scheduler/keyword: [OneShot]; the keyword scheduler with
      its goroutines, refining it: [KeywordSched]. The interfaces define/task.go and
      define/scheduler.go, the base implementations behind them, and what the
      three schedulers and a task promise through them: [Lifecycle].
    - tasks/factory.go, the builders, cmd/monitorbeat/main.go: [Agent] (the tasks
      and the schedulers), [AgentSpec]; the whole of main with its flags and exits,
      and the life of the process through ticks and reloads: [AgentMain]; which
      configuration a task works with: [AgentSettings]; internal/logging: [Logging].
    - http/admin: [Admin]; internal/host: [ProcSource], an interface and its three
      implementations, which nothing calls yet.
    - internal/output/file.go: [FileOutput]; internal/output/http.go:
      [HttpOutput] (requests and retries), [HttpPublish] (formats, fallback file,
      Publish), [HttpSpec], and what becomes of each event, the fallback file's
      rotation included: [Retention]; over [FileSystem], whose system calls may
      fail.
    - internal/engine/engine.go against the interface internal/output/output.go
      (the class [OutputOps]): [Engine]; console.go, the three implementations
      of that interface and wireOutputs of main.go: [Wiring].
    - internal/input/file/harvester.go, registry.go: [Harvester] (the buffered
      reader over a [FileReader] - the file itself, or a decoder's reader of it -,
      the loop between two waits, offsets), [HarvesterSpec].
    - tasks/ping/echo.go, icmp.go, result.go: [Ping] over [GoFloat] (float64 on
      the executable IEEE 754 arithmetic of the Standard Library), [PingSpec].
    - define/event.go, tasks/hostname.go: [Events] - an event as the typed map a
      task builds, and [view], what the HTTP output finds in it.
    - tasks/probe, tasks/tcp, tasks/udp, tasks/http, the ping task's command
      backend and its Run: [Probes].
    - tasks/exceptionbeat: [Exception], with the state kept between runs, and
      [ExceptionSpec]; tasks/basereport, processbeat, socketsnapshot, dmesg,
      selfstats, gatherupbeat: [Collectors], [CollectorSpec].
    - internal/script, tasks/script, tasks/metricbeat: [Script], [ScriptSpec];
      tasks/keyword and internal/regexp/extract: [Keyword] over [Harvester],
      [KeywordSpec]; the two goroutines of a keyword task, step by step:
      [KeywordTail]; several tasks on one offset registry, down to the bytes of the
      file each writes beside it and renames: [OffsetSharing].
    - the tasks' sends under the contexts of their jobs, the bounded channel, the
      engine's loop and the shutdown of main.go as interleaved steps: [Pipeline]; these composed with the engine, its
      outputs and the disk: [Delivery]; internal/reloader and the reload callback
      of main.go: [Reloader]; tasks/registry/sender.go: [Sender], with the theorem
      that joins it, through the bytes of its requests, to the server's
      [AgentRegistry].

    Server:
    - web/alerts/store.go, models.go: [AlertStore] - the tables as finite maps,
      the SQL statements as the type [stmt] with [exec_stmt], the methods in a
      state monad over the database, the clock, driver failures, sent mail and
      the statements that other goroutines execute before each driver call.
      The stored form of labels: [LabelsJson]; fingerprint.go: [Fingerprint] over
      [Sha256].
    - web/alerts/evaluator.go: [Evaluator]; the life cycle of an alert instance
      as a transition table: [AlertSpec]; the effects of the evaluator as
      sequences of statements: [AlertEffects]; the guarantees: [AlertGuarantees];
      requests in the middle of an evaluation: [AlertRace]; the loop over the
      ticker: [AlertLoop].
    - web/alerts/time.go, and the texts of stored times: [TimeText] over
      [CivilTime] (calendar, time.Format and time.Parse for RFC 3339).
    - cmd/monitorweb/main.go, both stores on one database file: [WebMain].
    - web/registry: [AgentRegistry].
    - web/api/alerts.go: [AlertsApi] with [Web] (replies, query parameters),
      [ApiSpec].
    - web/vm/client.go: [VmClient]; web/api/server.go: [QueryApi] (the handlers
      and the mux), [QuerySpec]. A handler runs over a server [Vm] that answers
      each request and logs it.
    - web/smtp, web/config: [Mail], with the template of a mail and html/template's
      escaping in [MailHtml], and the way of its bytes through net/smtp's dot
      writer and the receiver to the screen in [MailWire].
    - encoding/json, as the program uses it: [Json] (values, reader, printer),
      [JsonSpec] (every rendering of a value is read back, and the reader's fuel
      is enough for any text); the bodies of requests and the offset registry's
      file: [Bodies].
    - From the collectors through [HttpPublish] to the expressions of [QueryApi]:
      [EventSpec].

    Shared: this file (errors, the state monad and its rewriting tactic [run],
    the interfaces [MapRange] and [Sorter], list facts, runs of labelled steps),
    [GoTime] (times in nanoseconds, 64-bit durations with their wrap-around, RFC
    3339 seconds) and [GoStrings] (the functions of Go's strings, path and net/url
    that the code calls, on lists of bytes).

    ** Conventions

    A Go call returning [(v, error)] is a [result]. Ranging over a Go map goes
    through [MapRange]: the order is any permutation of the entries, so theorems
    hold for every order. Sorting goes through [Sorter]. Integers are [Z]; where
    the code can overflow, [wrap64] is written out. Failures of the driver, of
    system calls and of the network come from lists or functions in the state,
    and theorems either hold for all of them or say that there are none.
    Loops over lists are structural; the loop of [trySend] has [RetryMax] + 1
    as its measure, the readers of JSON text the length of the text, and those
    bounds are proved sufficient where they matter ([decode_encode_labels],
    [decode_encode_tasks], [parse_enough], [trySend_retries]). [ReadString] and [follow] have
    fuel from the number of bytes the file's reader can still give: every turn of
    [ReadString] fills or empties the buffer, every turn of the loop takes a line;
    [ReadString_fuel] shows that more fuel changes nothing, whatever the reader,
    and [follow_delivers_lines] that nothing is left of a file read as it is.

    ** What is shown

    - Start and life of the agent: -check covers loading and cleaning only; through
      any ticks and reloads there is one job per ident of the tasks in force, but a
      kept task goes on with the settings of the first file.
    - Start of the server: it forgets every rule and keeps every agent. Stored times
      may be kept as seconds: their texts are read back and ordered alike.
    - Alerts: a series that stays is reported within the rule's duration, two
      intervals and three evaluations; one evaluation moves every instance along one transition of the
      table and reports exactly its events; notifications keep their distance and a
      rule's duration is respected, up to a second, while no driver call fails and
      the values are numbers (a NaN cannot be stored and mails at every tick, as
      does a notification whose time cannot be written); acknowledged instances stay
      quiet, and an acknowledgement that arrives in the middle of an evaluation is
      kept, until the rule is updated or deleted or the server restarted; every
      interleaving of calls keeps the database well formed; an evaluation touches
      only its own rule; a deletion in the middle of one leaves a state behind.
    - Scheduling: every job is started once per period, a tick starts exactly the
      due jobs, a reload keeps the schedule of the tasks it keeps, no interleaving
      loses a job, the checker runs in ident order, building skips exactly the
      incomplete entries, reload puts keyword tasks on the wrong scheduler.
    - Channel and shutdown: until the end is signalled every event is published,
      in the channel or about to be sent, unless a reload dropped its job while the
      task ran; the shutdown always finishes, but what is left in the channel is
      lost, and it does not wait for periodic tasks.
    - Delivery: from the tasks' sends to the disk, while no system call fails,
      every event handed to an HTTP output with a fallback file was accepted by the server, is in the fallback
      log, fell off the end of full backups or has no body.
    - Reloading: between two outside events the program makes a bounded number of
      steps, no signal is lost, but a reload can be overtaken by a later one.
    - Outputs: an event acknowledged by the HTTP output is delivered or stored,
      retries are bounded, formats and rotation do what they say (one backup too
      many included), the file output keeps a suffix of what was published, and
      a failed reopen is permanent; the engine serves all outputs; outputs are
      wired in order.
    - Collectors: every event has the types the outputs assert and names its host
      (or what a script or a page calls it), and when it has no metric is known
      exactly; core files are
      reported once, kills from the second nonzero count on, kernel lines by
      occurrence and pattern, the busiest of the wanted processes; the metrics of
      a host report have admissible names. A script's output is read back up to
      the first long line, and one number JSON cannot hold costs the event.
    - From collector to query: the expressions of the probe and summary endpoints
      select exactly the lines the HTTP output makes of a probe's event and of a
      host report, with their values; the root disk's line is there only if a path
      the metrics call root is configured.
    - Queries: every URL asked for a host selects that host and nothing else; a
      range is answered with one series per metric or the first failure; the host
      list and the summary show what was answered.
    - Registry and API: the online listing is the set of last reports within the
      TTL whatever clean-ups ran, and an agent whose requests keep arriving, as
      the JSON text it sends, stays in it;
      reports are listed as sent; rejected requests have no effect; created rules
      are listed; the status reply counts the firing instances; pages cover the
      history. Mails are read back as meant, headers and page, from the
      bytes that arrive, whatever characters their texts have but for line ends in
      the names, the sender and the recipients, which add headers.
    - Log files: a followed file is delivered line by line, none twice; offsets
      survive a restart, but the saved one is ahead of the delivered lines; in every
      interleaving of its two goroutines a keyword task reports the lines in order,
      and all of them if it is left alone, but its reader can be left behind; a
      keyword task reports every matching line with its number, and resumes at
      the saved offset only with from_begin switched off (all this for files of
      whole lines read without a decoder); of several tasks that share a registry
      file only one leaves its offset, and saves that overlap can break the file.
    - Ping: echo payloads are read back; the statistics are those of the answered
      samples; a probe succeeds exactly if one of its requests was answered, and
      counts those that were; the reply may be another probe's.
    - Configuration: cleaning is total, idempotent and conservative; the list of
      a kind is the filtered list; default idents identify kind and id.

    ** What is not modelled

    YAML, the texts of decoding errors, the rendering of replies and of events
    as JSON beyond what [HttpPublish] spells out, regular expressions, the
    Prometheus text parser, text decoders, TLS, HTTP and SMTP transport (but for the
    bytes of a mail's data), SQLite itself (its
    statements are given by [exec_stmt]), the counters of the operating system
    and rendering of floating-point numbers: libraries, taken as arguments where
    a definition needs them. What is logged is left out of the definitions.
    Goroutines are modelled where they share state ([AlertRace], [DaemonRace],
    [KeywordTail], [OffsetSharing], [Reloader], [Pipeline]) and are otherwise the
    sequence of the steps they take. *)
From stdpp Require Export base gmap strings list fin_maps sorting.
From stdpp Require Export options.
From Stdlib Require Export ZArith Lia.

Create HintDb monitor discriminated.
Create Rewrite HintDb run.

Declare Scope go_scope.
Delimit Scope go_scope with go.
Open Scope Z_scope.

(** ** Go errors

    An error value of the program is its message; [Ok] is the [(v, nil)]
    return, [Err] the [(_, err)] return. *)
Definition error := string.

Inductive result (A : Type) : Type :=
| Ok (a : A)
| Err (e : error).
Arguments Ok {A} a.
Arguments Err {A} e.

Definition is_ok {A} (r : result A) : bool :=
  match r with Ok _ => true | Err _ => false end.

(** ** State passing

    Handlers that thread the world through many calls are written in this
    state monad; [loop] is Go's [for _, x := range xs]. *)
Definition ST (S A : Type) : Type := S -> A * S.

Definition ret {S A} (a : A) : ST S A := fun s => (a, s).

Definition bind {S A B} (m : ST S A) (k : A -> ST S B) : ST S B :=
  fun s => let '(a, s') := m s in k a s'.

Definition get {S} : ST S S := fun s => (s, s).

Definition exec {S A} (m : ST S A) (s : S) : S := snd (m s).

Notation "x <- m ;; k" := (bind m (fun x => k))
  (at level 100, m at next level, right associativity) : go_scope.
Notation "m ;;; k" := (bind m (fun _ => k))
  (at level 100, right associativity) : go_scope.
Open Scope go_scope.

Fixpoint loop {S A} (f : A -> ST S unit) (xs : list A) : ST S unit :=
  match xs with
  | [] => ret tt
  | x :: xs' => f x ;;; loop f xs'
  end.

(** [for _, x := range xs { ys = append(ys, f(x)) }] *)
Fixpoint collect {S A B} (f : A -> ST S B) (xs : list A) : ST S (list B) :=
  match xs with
  | [] => ret []
  | x :: xs' => y <- f x;; ys <- collect f xs';; ret (y :: ys)
  end.

Section run_rules.
Context {S : Type}.

Lemma exec_ret {A} (a : A) (s : S) : exec (ret a) s = s.
Proof. done. Qed.

Lemma run_bind {A B} (m : ST S A) (k : A -> ST S B) s :
  (m ;;; k (fst (m s))) s = k (fst (m s)) (exec m s).
Proof. unfold bind, exec. by destruct (m s). Qed.

Lemma exec_bind {A B} (m : ST S A) (k : A -> ST S B) s :
  exec (x <- m ;; k x) s = exec (k (fst (m s))) (exec m s).
Proof. unfold exec, bind. by destruct (m s). Qed.

Lemma exec_seq {A B} (m : ST S A) (k : ST S B) s :
  exec (m ;;; k) s = exec k (exec m s).
Proof. apply exec_bind. Qed.

Lemma exec_loop_nil {A} (f : A -> ST S unit) s : exec (loop f []) s = s.
Proof. done. Qed.

Lemma exec_loop_cons {A} (f : A -> ST S unit) x xs s :
  exec (loop f (x :: xs)) s = exec (loop f xs) (exec (f x) s).
Proof. apply exec_seq. Qed.

Lemma exec_loop_app {A} (f : A -> ST S unit) xs ys s :
  exec (loop f (xs ++ ys)) s = exec (loop f ys) (exec (loop f xs) s).
Proof.
  revert s. induction xs as [|x xs IH]; intros s; [done|].
  by rewrite <-app_comm_cons, !exec_loop_cons, IH.
Qed.

(** A relation kept by every step of the body is kept by the loop. *)
Lemma exec_loop_rel {A} (R : S -> S -> Prop) `{!Reflexive R, !Transitive R}
    (f : A -> ST S unit) xs :
  (forall x s, x ∈ xs -> R s (exec (f x) s)) ->
  forall s, R s (exec (loop f xs) s).
Proof.
  induction xs as [|x xs IH]; intros Hf s; [done|].
  rewrite exec_loop_cons. etrans; [apply Hf; by left|].
  apply IH. intros; apply Hf; by right.
Qed.

Lemma exec_loop_inv {A} (P : S -> Prop) (f : A -> ST S unit) xs :
  (forall x s, x ∈ xs -> P s -> P (exec (f x) s)) ->
  forall s, P s -> P (exec (loop f xs) s).
Proof.
  induction xs as [|x xs IH]; intros Hf s Hs; [done|].
  rewrite exec_loop_cons. apply IH; [|apply Hf; [by left|done]].
  intros; apply Hf; [by right|done].
Qed.

(** A body that only reads. *)
Lemma collect_pure {A B} (f : A -> ST S B) (g : A -> B) xs s :
  (forall x, f x s = (g x, s)) -> collect f xs s = (g <$> xs, s).
Proof.
  intros Hf. induction xs as [|x xs IH]; [done|]. simpl. unfold bind at 1. rewrite Hf.
  unfold bind. by rewrite IH.
Qed.
End run_rules.

#[export] Hint Rewrite @exec_ret @exec_bind @exec_seq @exec_loop_nil @exec_loop_cons
  : run.

Tactic Notation "run" := autorewrite with run.
Tactic Notation "run" "in" hyp(H) := autorewrite with run in H.

(** ** Iteration order

    Ranging over a Go map visits every entry once, in an unspecified order.
    Code that ranges over a map is written against this interface, so what is
    proved about it holds for every order. *)
Class MapRange := {
  range : forall {K : Type} `{Countable K} {A : Type}, gmap K A -> list (K * A);
  range_perm : forall {K : Type} `{Countable K} {A : Type} (m : gmap K A),
    range m ≡ₚ map_to_list m
}.

Definition in_key_order : MapRange :=
  {| range := fun K _ _ A m => map_to_list m;
    range_perm := fun K _ _ A m => reflexivity _ |}.

(** The reverse order: a second, different implementation of the interface. *)
Definition in_reverse_order : MapRange :=
  {| range := fun K _ _ A m => reverse (map_to_list m);
    range_perm := fun K _ _ A m => reverse_Permutation (map_to_list m) |}.

Section range_facts.
Context {R : MapRange} {K : Type} `{Countable K} {A : Type}.

Lemma elem_of_range (m : gmap K A) k a : (k, a) ∈ range m <-> m !! k = Some a.
Proof. by rewrite range_perm, elem_of_map_to_list. Qed.

Lemma NoDup_range_keys (m : gmap K A) : NoDup (range m).*1.
Proof. rewrite (range_perm m). apply NoDup_fst_map_to_list. Qed.

Lemma range_empty : range (∅ : gmap K A) = [].
Proof. apply Permutation_nil. by rewrite range_perm, map_to_list_empty. Qed.
End range_facts.

(** Filling a map entry by entry while ranging over another one. *)
Section range_puts.
Context {R : MapRange} {K : Type} `{Countable K}.

Lemma foldl_put {A B} (f : A -> B) (k : K) (kvs : list (K * A)) (m : gmap K B) :
  NoDup kvs.*1 ->
  foldl (fun m kv => <[kv.1 := f kv.2]> m) m kvs !! k =
    match list_to_map (M := gmap K A) kvs !! k with Some a => Some (f a) | None => m !! k end.
Proof.
  revert m. induction kvs as [|[k' a] kvs IH]; intros m Hnd; simpl in *; [done|].
  apply NoDup_cons in Hnd as [Hni Hnd]. rewrite IH by done.
  destruct (decide (k = k')) as [->|Hne].
  - rewrite lookup_insert_eq, not_elem_of_list_to_map_1 by done.
    by rewrite lookup_insert_eq.
  - by rewrite !lookup_insert_ne by done.
Qed.

Lemma foldl_put_range {A B} (f : A -> B) (k : K) (xs : gmap K A) (m : gmap K B) :
  foldl (fun m kv => <[kv.1 := f kv.2]> m) m (range xs) !! k =
    match xs !! k with Some a => Some (f a) | None => m !! k end.
Proof.
  rewrite foldl_put by apply NoDup_range_keys.
  replace (list_to_map (range xs)) with xs; [done|]. symmetry.
  rewrite <-(list_to_map_to_list xs) at 2. apply list_to_map_proper.
  - apply NoDup_range_keys.
  - apply range_perm.
Qed.

End range_puts.

(** ** Sorting

    What callers rely on in a sorting routine: a permutation, in order. *)
Class Sorter {A : Type} (le : relation A) := {
  sort : list A -> list A;
  sort_perm : forall xs, sort xs ≡ₚ xs;
  sort_sorted : forall xs, StronglySorted le (sort xs)
}.
Arguments sort {A} le {_} xs.

#[export] Instance merge_sorter {A} (le : relation A)
    `{!RelDecision le, !Transitive le, !Total le} : Sorter le :=
  { sort := merge_sort le;
    sort_perm := merge_sort_Permutation le;
    sort_sorted := StronglySorted_merge_sort le }.

(** ** Generic list facts *)
Section list_facts.
Context {A : Type}.

Lemma StronglySorted_app_inv (le : relation A) xs ys :
  StronglySorted le (xs ++ ys) ->
  StronglySorted le xs /\ StronglySorted le ys /\
  forall x y, x ∈ xs -> y ∈ ys -> le x y.
Proof.
  induction xs as [|a xs IH]; simpl.
  - intros H. split_and!; [constructor|done|set_solver].
  - inversion_clear 1 as [|? ? Hs Hall]. apply IH in Hs as (H1 & H2 & H3).
    apply Forall_app in Hall as [Hx Hy]. split_and!; [by constructor|done|].
    intros x y [->|Hin]%elem_of_cons Hiny; [|eauto].
    by eapply Forall_forall in Hiny.
Qed.

Lemma StronglySorted_drop (le : relation A) n xs :
  StronglySorted le xs -> StronglySorted le (drop n xs).
Proof.
  intros H. rewrite <-(take_drop n xs) in H.
  by apply StronglySorted_app_inv in H as (_ & ? & _).
Qed.

Lemma StronglySorted_snoc (le : relation A) xs x :
  StronglySorted le xs -> (forall y, y ∈ xs -> le y x) -> StronglySorted le (xs ++ [x]).
Proof.
  induction 1 as [|y xs Hs IH Hall]; intros Hx; simpl; [by repeat constructor|].
  constructor; [apply IH; intros; apply Hx; by right|].
  apply Forall_app. split; [done|]. constructor; [apply Hx; by left|constructor].
Qed.

Lemma filter_none (P : A -> Prop) `{!forall x, Decision (P x)} xs :
  Forall (fun x => ~ P x) xs -> filter P xs = [].
Proof. induction 1; [done|]. by rewrite filter_cons_False. Qed.

Lemma filter_all (P : A -> Prop) `{!forall x, Decision (P x)} xs :
  Forall P xs -> filter P xs = xs.
Proof. induction 1; [done|]. by rewrite filter_cons_True; f_equal. Qed.

Lemma filter_ext (P Q : A -> Prop) `{!forall x, Decision (P x)} `{!forall x, Decision (Q x)}
    (xs : list A) :
  (forall x, x ∈ xs -> P x <-> Q x) -> filter P xs = filter Q xs.
Proof.
  induction xs as [|x xs IH]; intros HPQ; [done|].
  assert (filter P xs = filter Q xs) as E by (apply IH; intros; apply HPQ; by right).
  assert (P x <-> Q x) as Hx by (apply HPQ; by left).
  rewrite !filter_cons, E. by destruct (decide (P x)), (decide (Q x)); try tauto.
Qed.

(** A field that does not contain its separator is read back uniquely. *)
Lemma app_sep_inj (x : A) a b s t :
  x ∉ a -> x ∉ b -> a ++ x :: s = b ++ x :: t -> a = b /\ s = t.
Proof.
  revert b. induction a as [|y a IH]; intros [|z b] Ha Hb E; simplify_eq/=;
    [done|set_solver|set_solver|].
  edestruct (IH b) as [-> ->]; set_solver.
Qed.
End list_facts.

(** ** Case analysis on the code's tests *)
Tactic Notation "cases" := repeat (case_match || case_decide); simplify_eq/=.

(** ** Runs of a labelled step function

    For the models of interleavings: a run is a list of labels; a property every
    step keeps holds after every run, and a run of steps that make the state
    lighter is at most as long as the state was heavy. *)
Section labelled.
Context {S L : Type} (step : L -> S -> option S).

Fixpoint run_steps (ls : list L) (s : S) : option S :=
  match ls with
  | [] => Some s
  | l :: ls' => match step l s with Some s' => run_steps ls' s' | None => None end
  end.

Lemma run_steps_preserves (P : S -> Prop) ls s s' :
  (forall l s s', P s -> step l s = Some s' -> P s') ->
  P s -> run_steps ls s = Some s' -> P s'.
Proof.
  intros HP. revert s. induction ls as [|l ls IH]; intros s Hs Hr; simpl in Hr; [by simplify_eq|].
  destruct (step l s) as [s1|] eqn:E; [|done]. apply (IH s1); [by eapply HP|done].
Qed.

Lemma run_steps_preserves_on (P : S -> Prop) (ok : L -> Prop) ls s s' :
  (forall l s s', ok l -> P s -> step l s = Some s' -> P s') ->
  Forall ok ls -> P s -> run_steps ls s = Some s' -> P s'.
Proof.
  intros HP Hok. revert s. induction Hok as [|l ls Hl _ IH]; intros s Hs Hr; simpl in Hr;
    [by simplify_eq|].
  destruct (step l s) as [s1|] eqn:E; [|done]. apply (IH s1); [by eapply HP|done].
Qed.

Lemma run_steps_lighter (own : L -> bool) (weight : S -> nat) ls s s' :
  (forall l s s', own l = true -> step l s = Some s' -> (weight s' < weight s)%nat) ->
  Forall (fun l => own l = true) ls -> run_steps ls s = Some s' ->
  (List.length ls + weight s' <= weight s)%nat.
Proof.
  intros Hw Ho. revert s. induction Ho as [|l ls Hl _ IH]; intros s Hr; simpl in *.
  { injection Hr as ->. lia. }
  destruct (step l s) as [s1|] eqn:E; [|discriminate].
  pose proof (Hw _ _ _ Hl E). pose proof (IH _ Hr). lia.
Qed.
End labelled.
