(* ===== verification/GoTime.v ===== *)
(** * Go's time package, as the program uses it

    Instants are nanoseconds since the Unix epoch, a [time.Duration] is an
    [int64] number of nanoseconds whose products wrap around, and
    [Time.Sub] saturates. The databases keep timestamps as RFC3339 text
    in UTC; such a text denotes exactly the instants of one whole second, and
    it is represented here by that second ([rfc3339]): formatting drops the
    sub-second part, parsing gives it back as zero. *)
From S2P Require Import Prelude.

Abbreviation Time := Z (only parsing).
Abbreviation Duration := Z (only parsing).
Abbreviation rfc3339 := Z (only parsing).

Definition wrap (w : Z) (z : Z) : Z :=
  let m := 2 ^ w in (z + m / 2) mod m - m / 2.

Abbreviation wrap64 := (wrap 64).

Definition maxInt64 : Z := 2 ^ 63 - 1.
Definition minInt64 : Z := - 2 ^ 63.

Definition fits64 (z : Z) : Prop := minInt64 <= z <= maxInt64.

#[export] Instance fits64_dec z : Decision (fits64 z).
Proof. unfold fits64. apply _. Defined.

Definition Microsecond : Duration := 1000.
Definition Millisecond : Duration := 1000 * Microsecond.
Definition Second : Duration := 1000 * Millisecond.
Definition Minute : Duration := 60 * Second.
Definition Hour : Duration := 60 * Minute.

(** Durations as numbers, for [lia]. *)
Ltac durations :=
  unfold Hour, Minute, Second, Millisecond, Microsecond in *.

(** [d * unit] on the [int64] representation. *)
Definition dur_mul (n unit : Z) : Duration := wrap64 (n * unit).

(** January 1, year 1, 00:00:00 UTC. *)
Definition zero_time : Time := -62135596800 * Second.
Definition IsZero (t : Time) : bool := t =? zero_time.

Definition Before (t u : Time) : bool := t <? u.
Definition After (t u : Time) : bool := u <? t.
Definition Add (t : Time) (d : Duration) : Time := t + d.
Definition Sub (t u : Time) : Duration := Z.max minInt64 (Z.min maxInt64 (t - u)).

Definition Unix (t : Time) : Z := t / Second.

Definition format_rfc3339 (t : Time) : rfc3339 := t / Second.
Definition parse_rfc3339 (s : rfc3339) : Time := s * Second.

Section arithmetic.
Lemma wrap64_id z : fits64 z -> wrap64 z = z.
Proof.
  unfold fits64, minInt64, maxInt64, wrap. intros H.
  change (2 ^ 64 / 2) with (2 ^ 63). rewrite Z.mod_small; lia.
Qed.

Lemma wrap64_fits z : fits64 (wrap64 z).
Proof.
  unfold fits64, minInt64, maxInt64, wrap. change (2 ^ 64 / 2) with (2 ^ 63).
  pose proof (Z.mod_pos_bound (z + 2 ^ 63) (2 ^ 64)). lia.
Qed.

Lemma dur_mul_exact n u : fits64 (n * u) -> dur_mul n u = n * u.
Proof. apply wrap64_id. Qed.

Lemma Sub_exact t u : fits64 (t - u) -> Sub t u = t - u.
Proof. unfold Sub, fits64, minInt64, maxInt64. lia. Qed.

(** Saturation never turns a short difference into a long one. *)
Lemma Sub_ge t u d : 0 <= d -> d <= Sub t u -> d <= t - u.
Proof. unfold Sub, minInt64, maxInt64. lia. Qed.

Lemma parse_format t : parse_rfc3339 (format_rfc3339 t) = t - t mod Second.
Proof.
  unfold parse_rfc3339, format_rfc3339.
  pose proof (Z.div_mod t Second ltac:(done)). lia.
Qed.

Lemma parse_format_bounds t :
  parse_rfc3339 (format_rfc3339 t) <= t < parse_rfc3339 (format_rfc3339 t) + Second.
Proof. rewrite parse_format. pose proof (Z.mod_pos_bound t Second ltac:(done)). lia. Qed.

Lemma format_parse s : format_rfc3339 (parse_rfc3339 s) = s.
Proof. apply Z.div_mul. done. Qed.

Lemma format_mono t u : t <= u -> format_rfc3339 t <= format_rfc3339 u.
Proof. apply Z.div_le_mono. done. Qed.
End arithmetic.

#[export] Hint Rewrite format_parse : run.
