(* ===== verification/Sha256.v ===== *)
(** * SHA-256 (FIPS 180-4), the digest behind [crypto/sha256] and [encoding/hex]

    The fingerprints of alert instances are SHA-256 digests; the digest is
    defined here so that fingerprints evaluate. Words are integers in
    [0, 2^32). *)
From S2P Require Import Prelude.
From Stdlib Require Import Ascii String.

Definition w32 (z : Z) : Z := z mod 2 ^ 32.
Definition rotr (n x : Z) : Z :=
  Z.lor (Z.shiftr x n) (w32 (Z.shiftl x (32 - n))).

Definition Ch x y z := Z.lxor (Z.land x y) (Z.land (w32 (Z.lnot x)) z).
Definition Maj x y z := Z.lxor (Z.lxor (Z.land x y) (Z.land x z)) (Z.land y z).
Definition S0 x := Z.lxor (Z.lxor (rotr 2 x) (rotr 13 x)) (rotr 22 x).
Definition S1 x := Z.lxor (Z.lxor (rotr 6 x) (rotr 11 x)) (rotr 25 x).
Definition s0 x := Z.lxor (Z.lxor (rotr 7 x) (rotr 18 x)) (Z.shiftr x 3).
Definition s1 x := Z.lxor (Z.lxor (rotr 17 x) (rotr 19 x)) (Z.shiftr x 10).

(** The constants: the first 32 bits of the fractional parts of the cube roots
    of the first 64 primes, and of the square roots of the first eight. *)
Definition is_prime (n : Z) : bool :=
  forallb (fun d => negb (n mod d =? 0)) (Z.of_nat <$> seq 2 (Z.to_nat (Z.sqrt n) - 1)).

Definition primes (count : nat) : list Z :=
  take count (List.filter is_prime (Z.of_nat <$> seq 2 310)).

(** The largest [r < lo + 2 ^ bits] with [r ^ 3 <= n], bit by bit. *)
Fixpoint cube_root (bits : nat) (lo n : Z) : Z :=
  match bits with
  | O => lo
  | S b =>
      let mid := lo + 2 ^ Z.of_nat b in
      cube_root b (if mid ^ 3 <=? n then mid else lo) n
  end.

Definition K256 : list Z :=
  Eval vm_compute in (fun p => w32 (cube_root 40 0 (p * 2 ^ 96))) <$> primes 64.

Definition H256 : list Z :=
  Eval vm_compute in (fun p => w32 (Z.sqrt (p * 2 ^ 64))) <$> primes 8.

Definition byte_of (c : ascii) : Z := Z.of_N (N_of_ascii c).

Fixpoint be_bytes (n : nat) (z : Z) : list Z :=
  match n with
  | O => []
  | S n' => be_bytes n' (Z.shiftr z 8) ++ [Z.land z 255]
  end.

Definition pad (msg : list Z) : list Z :=
  let len := Z.of_nat (List.length msg) in
  let zeros := Z.to_nat ((55 - len) mod 64) in
  msg ++ [0x80] ++ replicate zeros 0 ++ be_bytes 8 (8 * len).

Fixpoint words (bs : list Z) : list Z :=
  match bs with
  | a :: b :: c :: d :: rest =>
      Z.lor (Z.shiftl a 24) (Z.lor (Z.shiftl b 16) (Z.lor (Z.shiftl c 8) d)) :: words rest
  | _ => []
  end.

(** The message schedule, kept newest word first. *)
Fixpoint schedule (n : nat) (rev_w : list Z) : list Z :=
  match n with
  | O => rev rev_w
  | S n' =>
      let at_ k := nth k rev_w 0 in
      schedule n' (w32 (s1 (at_ 1%nat) + at_ 6%nat + s0 (at_ 14%nat) + at_ 15%nat) :: rev_w)
  end.

Definition round (st : list Z) (kw : Z * Z) : list Z :=
  match st with
  | [a; b; c; d; e; f; g; h] =>
      let t1 := h + S1 e + Ch e f g + fst kw + snd kw in
      let t2 := S0 a + Maj a b c in
      [w32 (t1 + t2); a; b; c; w32 (d + t1); e; f; g]
  | _ => st
  end.

Definition compress (hs block : list Z) : list Z :=
  let st := foldl round hs (zip K256 (schedule 48 (rev block))) in
  zip_with (fun x y => w32 (x + y)) hs st.

Fixpoint blocks (fuel : nat) (hs ws : list Z) : list Z :=
  match fuel with
  | O => hs
  | S fuel' => match ws with
               | [] => hs
               | _ => blocks fuel' (compress hs (take 16 ws)) (drop 16 ws)
               end
  end.

Definition Sum256 (msg : list Z) : list Z :=
  let ws := words (pad msg) in
  mjoin (be_bytes 4 <$> blocks (List.length ws) H256 ws).

Definition hex_digit (n : Z) : ascii :=
  ascii_of_N (Z.to_N (if n <? 10 then 48 + n else 87 + n)).

Definition EncodeToString (bs : list Z) : string :=
  string_of_list_ascii
    (mjoin ((fun b => [hex_digit (Z.shiftr b 4); hex_digit (Z.land b 15)]) <$> bs)).

(** The digests of the standard's test vectors. *)
Example sha256_abc :
  EncodeToString (Sum256 (byte_of <$> list_ascii_of_string "abc"))
  = "ba7816bf8f01cfea414140de5dae2223b00361a396177a9cb410ff61f20015ad"%string.
Proof. vm_compute. reflexivity. Qed.

Example sha256_two_blocks :
  EncodeToString (Sum256 (byte_of <$>
    list_ascii_of_string "abcdbcdecdefdefgefghfghighijhijkijkljklmklmnlmnomnopnopq"))
  = "248d6a61d20638b8e5c026930c3e6039a33ce45964ff2167f6ecedd419db06c1"%string.
Proof. vm_compute. reflexivity. Qed.
