(* ===== verification/LabelsJson.v ===== *)
(** * The stored form of a label set (web/alerts/store.go, helpers)

    [encodeLabels] writes a label map as a JSON object with sorted keys and
    [decodeLabels] reads it back. The JSON string syntax is encoding/json's:
    [quote_body] is the escaping of [json.Marshal] on a Go string (HTML-safe
    escapes, U+2028/2029, invalid UTF-8 replaced), [unquote] the inverse
    reading of [json.Unmarshal]. Only the texts [encodeLabels] writes are
    read by the program; the reader covers that syntax (an object of string
    members without white space, no surrogate escapes). *)
From S2P Require Import Prelude.
From Stdlib Require Import Ascii String.

Definition byte (c : ascii) : Z := Z.of_N (N_of_ascii c).
Definition chr (n : Z) : ascii := ascii_of_N (Z.to_N n).

Definition dquote : ascii := "034"%char.
Definition backslash : ascii := "092"%char.

Definition hex_digit (n : Z) : ascii := chr (if n <? 10 then 48 + n else 87 + n).

Definition hex_val (c : ascii) : option Z :=
  let b := byte c in
  if (48 <=? b) && (b <=? 57) then Some (b - 48)
  else if (97 <=? b) && (b <=? 102) then Some (b - 87)
  else if (65 <=? b) && (b <=? 70) then Some (b - 55)
  else None.

(** ** UTF-8 sequences accepted by utf8.DecodeRune *)
Definition cont (c : ascii) : bool := (128 <=? byte c) && (byte c <=? 191).

Definition seq2 (a b : ascii) : bool :=
  (194 <=? byte a) && (byte a <=? 223) && cont b.

Definition seq3 (a b c : ascii) : bool :=
  (224 <=? byte a) && (byte a <=? 239) && cont b && cont c
  && (if byte a =? 224 then 160 <=? byte b else true)
  && (if byte a =? 237 then byte b <=? 159 else true).

Definition seq4 (a b c d : ascii) : bool :=
  (240 <=? byte a) && (byte a <=? 244) && cont b && cont c && cont d
  && (if byte a =? 240 then 144 <=? byte b else true)
  && (if byte a =? 244 then byte b <=? 143 else true).

(** U+2028 and U+2029 *)
Definition line_sep (a b c : ascii) : bool :=
  (byte a =? 226) && (byte b =? 128) && ((byte c =? 168) || (byte c =? 169)).

Definition u_escape (h1 h2 h3 h4 : ascii) : list ascii :=
  [backslash; "u"%char; h1; h2; h3; h4].

Definition escape (c : ascii) : list ascii :=
  let b := byte c in
  if (b =? 34) || (b =? 92) then [backslash; c]
  else if b =? 8 then [backslash; "b"%char]
  else if b =? 12 then [backslash; "f"%char]
  else if b =? 10 then [backslash; "n"%char]
  else if b =? 13 then [backslash; "r"%char]
  else if b =? 9 then [backslash; "t"%char]
  else if (b <? 32) || (b =? 38) || (b =? 60) || (b =? 62)
  then u_escape "0" "0" (hex_digit (Z.shiftr b 4)) (hex_digit (Z.land b 15))
  else [c].

Definition replacement : list ascii := u_escape "f" "f" "f" "d".

Fixpoint quote_body (s : list ascii) : list ascii :=
  match s with
  | [] => []
  | a :: s1 =>
      if byte a <? 128 then escape a ++ quote_body s1 else
      let invalid := replacement ++ quote_body s1 in
      match s1 with
      | b :: s2 =>
          if seq2 a b then a :: b :: quote_body s2 else
          match s2 with
          | c :: s3 =>
              if seq3 a b c then
                if line_sep a b c
                then u_escape "2" "0" "2" (hex_digit (Z.land (byte c) 15)) ++ quote_body s3
                else a :: b :: c :: quote_body s3
              else
              match s3 with
              | d :: s4 => if seq4 a b c d then a :: b :: c :: d :: quote_body s4 else invalid
              | [] => invalid
              end
          | [] => invalid
          end
      | [] => invalid
      end
  end.

(** [json.Marshal] of a string. *)
Definition quote (s : string) : list ascii :=
  dquote :: quote_body (list_ascii_of_string s) ++ [dquote].

Definition utf8_encode (r : Z) : list ascii :=
  if r <? 128 then [chr r]
  else if r <? 2048 then [chr (192 + Z.shiftr r 6); chr (128 + Z.land r 63)]
  else [chr (224 + Z.shiftr r 12); chr (128 + Z.land (Z.shiftr r 6) 63);
        chr (128 + Z.land r 63)].

Definition hex4 (h1 h2 h3 h4 : ascii) : option Z :=
  match hex_val h1, hex_val h2, hex_val h3, hex_val h4 with
  | Some a, Some b, Some c, Some d =>
      let r := a * 4096 + b * 256 + c * 16 + d in
      if (55296 <=? r) && (r <=? 57343) then None else Some r
  | _, _, _, _ => None
  end.

Definition simple_escape (e : ascii) : option ascii :=
  let b := byte e in
  if (b =? 34) || (b =? 92) || (b =? 47) then Some e
  else if b =? 98 then Some (chr 8)
  else if b =? 102 then Some (chr 12)
  else if b =? 110 then Some (chr 10)
  else if b =? 114 then Some (chr 13)
  else if b =? 116 then Some (chr 9)
  else None.

Definition prepend (p : list ascii) (r : option (list ascii * list ascii)) :=
  match r with Some (v, rest) => Some (p ++ v, rest) | None => None end.

(** Reads up to the closing quote; returns the string and what follows. *)
Fixpoint unquote (s : list ascii) : option (list ascii * list ascii) :=
  match s with
  | [] => None
  | c :: rest =>
      if byte c =? 34 then Some ([], rest)
      else if byte c =? 92 then
        match rest with
        | [] => None
        | e :: rest1 =>
            if byte e =? 117 then
              match rest1 with
              | h1 :: h2 :: h3 :: h4 :: rest2 =>
                  match hex4 h1 h2 h3 h4 with
                  | Some r => prepend (utf8_encode r) (unquote rest2)
                  | None => None
                  end
              | _ => None
              end
            else
              match simple_escape e with
              | Some v => prepend [v] (unquote rest1)
              | None => None
              end
        end
      else if byte c <? 32 then None
      else prepend [c] (unquote rest)
  end.

(** ** Label maps *)
Definition sort_strings (ks : list string) : list string := merge_sort String.le ks.

Section codec.
Context {R : MapRange}.

(** [for k := range labels; sort.Strings(keys)] *)
Definition sorted_keys (labels : gmap string string) : list string :=
  sort_strings (range labels).*1.

Definition value_of (labels : gmap string string) (k : string) : string :=
  default EmptyString (labels !! k).

Definition member (labels : gmap string string) (k : string) : list ascii :=
  quote k ++ ":"%char :: quote (value_of labels k).

Fixpoint members (labels : gmap string string) (ks : list string) : list ascii :=
  match ks with
  | [] => []
  | [k] => member labels k
  | k :: ks' => member labels k ++ ","%char :: members labels ks'
  end.

Definition encodeLabels (labels : gmap string string) : string :=
  if decide (size labels = 0)%nat then "{}"%string
  else string_of_list_ascii
         ("{"%char :: members labels (sorted_keys labels) ++ ["}"%char]).
End codec.

Fixpoint read_members (fuel : nat) (s : list ascii) : option (list (string * string)) :=
  match fuel, s with
  | S fuel', q :: s1 =>
      if byte q =? 34 then
        match unquote s1 with
        | Some (k, colon :: q2 :: s2) =>
            if (byte colon =? 58) && (byte q2 =? 34) then
              match unquote s2 with
              | Some (v, sep :: s3) =>
                  let kv := (string_of_list_ascii k, string_of_list_ascii v) in
                  if byte sep =? 44 then cons kv <$> read_members fuel' s3
                  else if (byte sep =? 125) && bool_decide (s3 = []) then Some [kv]
                  else None
              | _ => None
              end
            else None
        | _ => None
        end
      else None
  | _, _ => None
  end.

Definition insert_all (kvs : list (string * string)) : gmap string string :=
  foldl (fun m kv => <[kv.1 := kv.2]> m) ∅ kvs.

Definition decodeLabels (s : string) : gmap string string :=
  match list_ascii_of_string s with
  | [] => ∅
  | o :: body =>
      if byte o =? 123 then
        if decide (body = ["}"%char]) then ∅
        else default ∅ (insert_all <$> read_members (List.length body) body)
      else ∅
  end.

(** ** Facts *)
Definition ascii_char (c : ascii) : Prop := byte c < 128.
Definition ascii_text (s : string) : Prop := Forall ascii_char (list_ascii_of_string s).
Definition ascii_labels (labels : gmap string string) : Prop :=
  map_Forall (fun k v => ascii_text k /\ ascii_text v) labels.

#[export] Instance ascii_text_dec s : Decision (ascii_text s).
Proof. unfold ascii_text, ascii_char. apply _. Defined.
#[export] Instance ascii_labels_dec m : Decision (ascii_labels m).
Proof. unfold ascii_labels. apply _. Defined.

Section strings.
(** An escape sequence is read back as the character it stands for; the
    three shapes [escape] produces are checked on every ASCII character. *)
Definition escape_reads_back (c : ascii) : bool :=
  match escape c with
  | [d] => (32 <=? byte d) && negb (byte d =? 34) && negb (byte d =? 92)
           && bool_decide (d = c)
  | [b; e] => (byte b =? 92) && negb (byte e =? 117)
              && bool_decide (simple_escape e = Some c)
  | [b; u; h1; h2; h3; h4] =>
      (byte b =? 92) && (byte u =? 117)
      && bool_decide (utf8_encode <$> hex4 h1 h2 h3 h4 = Some [c])
  | _ => false
  end.

Lemma escape_ascii c : ascii_char c -> escape_reads_back c = true.
Proof.
  unfold ascii_char.
  destruct c as [[] [] [] [] [] [] [] []]; vm_compute; by intros ?.
Qed.

Lemma unquote_escape c s :
  ascii_char c -> unquote (escape c ++ s) = prepend [c] (unquote s).
Proof.
  intros H%escape_ascii. unfold escape_reads_back in H.
  destruct (escape c) as [|d [|e [|h1 [|h2 [|h3 [|h4 [|]]]]]]]; try done;
    rewrite ?andb_true_iff, ?negb_true_iff, ?Z.eqb_eq, ?Z.eqb_neq, ?Z.leb_le,
      ?bool_decide_eq_true in H; simpl.
  - destruct H as (((Hlow & Hq) & Hb) & ->).
    by rewrite (proj2 (Z.eqb_neq _ _) Hq), (proj2 (Z.eqb_neq _ _) Hb),
      (proj2 (Z.ltb_ge _ _) Hlow).
  - destruct H as ((-> & Hu) & ->). by rewrite (proj2 (Z.eqb_neq _ _) Hu).
  - destruct H as ((-> & ->) & Hx). simpl.
    destruct (hex4 h1 h2 h3 h4); simplify_eq/=. by rewrite Hx.
Qed.

Lemma quote_body_ascii s :
  Forall ascii_char s -> quote_body s = mjoin (escape <$> s).
Proof.
  induction 1 as [|c s Hc _ IH]; [done|]. unfold ascii_char in Hc. simpl.
  rewrite (proj2 (Z.ltb_lt _ _) Hc). by rewrite IH.
Qed.

Lemma unquote_quote_body s rest :
  Forall ascii_char s -> unquote (quote_body s ++ dquote :: rest) = Some (s, rest).
Proof.
  intros Hs. rewrite quote_body_ascii by done.
  induction Hs as [|c s Hc _ IH]; [done|].
  rewrite fmap_cons. simpl. rewrite <-app_assoc, unquote_escape, IH by done. done.
Qed.

Lemma ascii_list_id s : string_of_list_ascii (list_ascii_of_string s) = s.
Proof. apply string_of_list_ascii_of_string. Qed.
End strings.

Section maps.
Context {R : MapRange}.
Implicit Types m : gmap string string.

Lemma sort_strings_unique ks ks' : ks ≡ₚ ks' -> sort_strings ks = sort_strings ks'.
Proof.
  intros Hp. apply (StronglySorted_unique String.le).
  - apply (StronglySorted_merge_sort _).
  - apply (StronglySorted_merge_sort _).
  - unfold sort_strings. by rewrite !merge_sort_Permutation.
Qed.

(** The order in which Go ranges over the map is not observable. *)
Lemma sorted_keys_canonical m :
  sorted_keys m = sort_strings (map_to_list m).*1.
Proof. apply sort_strings_unique. by rewrite (range_perm m). Qed.

Lemma sorted_keys_perm m : sorted_keys m ≡ₚ (map_to_list m).*1.
Proof. rewrite sorted_keys_canonical. apply merge_sort_Permutation. Qed.

Lemma elem_of_sorted_keys m k : k ∈ sorted_keys m <-> is_Some (m !! k).
Proof.
  rewrite sorted_keys_perm, list_elem_of_fmap. split.
  - intros [[? v] [-> Hin%elem_of_map_to_list]]. eauto.
  - intros [v Hv%elem_of_map_to_list]. by exists (k, v).
Qed.

Lemma NoDup_sorted_keys m : NoDup (sorted_keys m).
Proof. rewrite sorted_keys_perm. apply NoDup_fst_map_to_list. Qed.

Lemma sorted_keys_nil m : sorted_keys m = [] <-> m = ∅.
Proof.
  split; intros H.
  - apply map_eq. intros k. rewrite lookup_empty.
    destruct (m !! k) eqn:E; [|done].
    assert (k ∈ sorted_keys m) as Hin by (apply elem_of_sorted_keys; eauto).
    rewrite H in Hin. by apply elem_of_nil in Hin.
  - subst. apply Permutation_nil. symmetry. rewrite sorted_keys_perm.
    by rewrite map_to_list_empty.
Qed.

Definition pairs m (ks : list string) : list (string * string) :=
  (fun k => (k, value_of m k)) <$> ks.

Lemma read_members_spec m ks n :
  ks <> [] -> (List.length ks <= n)%nat ->
  (forall k, k ∈ ks -> ascii_text k /\ ascii_text (value_of m k)) ->
  read_members n (members m ks ++ ["}"%char]) = Some (pairs m ks).
Proof.
  revert n. induction ks as [|k ks IH]; [done|]. intros [|n] _ Hn Hks; [simpl in *; lia|].
  assert (ascii_text k /\ ascii_text (value_of m k)) as [Hk Hv] by (apply Hks; by left).
  assert (forall tl, member m k ++ tl =
    dquote :: quote_body (list_ascii_of_string k) ++ dquote :: ":"%char :: dquote ::
      quote_body (list_ascii_of_string (value_of m k)) ++ dquote :: tl) as Hm.
  { intros tl. unfold member, quote. simpl. repeat (rewrite <-app_assoc; simpl). done. }
  destruct ks as [|k' ks].
  - simpl members. rewrite Hm. simpl read_members.
    rewrite !unquote_quote_body by done. simpl. by rewrite !ascii_list_id.
  - change (members m (k :: k' :: ks))
      with (member m k ++ ","%char :: members m (k' :: ks)).
    rewrite <-app_assoc, Hm, <-app_comm_cons. simpl read_members.
    rewrite !unquote_quote_body by done. simpl.
    rewrite IH; [by rewrite !ascii_list_id|done|simpl in *; lia|].
    intros; apply Hks; by right.
Qed.

Lemma insert_all_snoc kvs kv : insert_all (kvs ++ [kv]) = <[kv.1 := kv.2]> (insert_all kvs).
Proof. unfold insert_all. by rewrite foldl_app. Qed.

Lemma insert_all_lookup kvs k v :
  NoDup kvs.*1 -> insert_all kvs !! k = Some v <-> (k, v) ∈ kvs.
Proof.
  induction kvs as [|[k' v'] kvs IH] using rev_ind; intros Hnd.
  { unfold insert_all. simpl. rewrite lookup_empty. set_solver. }
  rewrite fmap_app, NoDup_app in Hnd. destruct Hnd as (Hnd & Hdis & _).
  rewrite insert_all_snoc, lookup_insert, elem_of_app, list_elem_of_singleton. simpl.
  case_decide as E; [subst k'|rewrite IH by done; split; [by left|intros [?|[=]]; congruence]].
  split; [intros [= ->]; by right|]. intros [Hin|[= ->]]; [|done].
  exfalso. apply (Hdis k); [|set_solver]. apply list_elem_of_fmap. by exists (k, v).
Qed.

Lemma insert_all_pairs m : insert_all (pairs m (sorted_keys m)) = m.
Proof.
  assert ((pairs m (sorted_keys m)).*1 = sorted_keys m) as Hfst.
  { unfold pairs. rewrite <-list_fmap_compose. apply list_fmap_id. }
  apply map_eq. intros k. apply option_eq. intros v.
  rewrite insert_all_lookup by (rewrite Hfst; apply NoDup_sorted_keys).
  unfold pairs. rewrite list_elem_of_fmap. split.
  - intros (k' & [= -> ->] & [v' Hv']%elem_of_sorted_keys).
    unfold value_of. by rewrite Hv'.
  - intros Hv. exists k. unfold value_of. rewrite Hv. split; [done|].
    apply elem_of_sorted_keys; eauto.
Qed.

Lemma members_long m ks : (List.length ks <= List.length (members m ks))%nat.
Proof.
  induction ks as [|k ks IH]; [done|]. destruct ks as [|k' ks].
  - simpl. lia.
  - change (members m (k :: k' :: ks))
      with (member m k ++ ","%char :: members m (k' :: ks)).
    rewrite length_app. simpl List.length in *. lia.
Qed.

(** Reading back what was written gives the same label set. *)
Lemma decode_encode_labels m : ascii_labels m -> decodeLabels (encodeLabels m) = m.
Proof.
  intros Hm. unfold encodeLabels.
  case_decide as Hsz; [apply map_size_empty_inv in Hsz; by subst|].
  assert (sorted_keys m <> []) as Hne.
  { rewrite sorted_keys_nil. intros ->. by rewrite map_size_empty in Hsz. }
  unfold decodeLabels. rewrite list_ascii_of_string_of_list_ascii. simpl.
  assert (forall k, k ∈ sorted_keys m -> ascii_text k /\ ascii_text (value_of m k)) as Hks.
  { intros k [v Hv]%elem_of_sorted_keys. unfold value_of. rewrite Hv. by apply Hm. }
  pose proof (members_long m (sorted_keys m)) as Hlong.
  rewrite decide_False.
  - rewrite read_members_spec by (rewrite ?length_app; first [done|lia]).
    simpl. apply insert_all_pairs.
  - destruct (sorted_keys m); [done|]. intros E%(f_equal List.length).
    rewrite length_app in E. simpl in *. lia.
Qed.
End maps.

#[local] Existing Instance in_key_order.

Example encode_two : encodeLabels
    (<["instance" := "a"]> {["hostname" := "web<1>"]}) =
  string_of_list_ascii ("{"%char ::
    quote "hostname" ++ ":"%char :: quote "web<1>" ++ ","%char ::
    quote "instance" ++ ":"%char :: quote "a" ++ ["}"%char]).
Proof. vm_compute. reflexivity. Qed.
