(* ===== verification/Fingerprint.v ===== *)
(** * Alert instance identity (web/alerts/fingerprint.go)

    The fingerprint of a label set is the SHA-256 digest, in hex, of the
    labels written as [key=value] lines in key order. *)
From S2P Require Import Prelude Sha256 LabelsJson.
From Stdlib Require Import Ascii String.

Definition newline : ascii := "010"%char.
Definition equals : ascii := "="%char.

Definition sha256Hex (s : list ascii) : string := EncodeToString (Sum256 (byte_of <$> s)).

Section fingerprint.
Context {R : MapRange}.

Definition line (labels : gmap string string) (k : string) : list ascii :=
  list_ascii_of_string k ++
    (equals :: list_ascii_of_string (value_of labels k) ++ [newline]).

(** The text that is hashed. *)
Definition preimage (labels : gmap string string) : list ascii :=
  if decide (size labels = 0)%nat then ["{"%char; "}"%char]
  else mjoin (line labels <$> sorted_keys labels).

Definition Fingerprint (labels : gmap string string) : string :=
  sha256Hex (preimage labels).
End fingerprint.

(** Labels that the line format separates: no [=] in a key, no line break in a
    value. *)
Definition separable (labels : gmap string string) : Prop :=
  map_Forall (fun k v => (equals ∉ list_ascii_of_string k)
                         /\ newline ∉ list_ascii_of_string v) labels.

#[export] Instance separable_dec m : Decision (separable m).
Proof. unfold separable. apply _. Defined.

Section facts.
Implicit Types m : gmap string string.

Lemma list_ascii_inj s t : list_ascii_of_string s = list_ascii_of_string t -> s = t.
Proof.
  intros E%(f_equal string_of_list_ascii). by rewrite !ascii_list_id in E.
Qed.

Lemma line_inj m1 m2 k1 k2 s t :
  equals ∉ list_ascii_of_string k1 -> equals ∉ list_ascii_of_string k2 ->
  newline ∉ list_ascii_of_string (value_of m1 k1) ->
  newline ∉ list_ascii_of_string (value_of m2 k2) ->
  line m1 k1 ++ s = line m2 k2 ++ t ->
  (k1, value_of m1 k1) = (k2, value_of m2 k2) /\ s = t.
Proof.
  unfold line. intros Hk1 Hk2 Hv1 Hv2. rewrite <-!app_assoc. simpl.
  rewrite <-!app_assoc. simpl.
  intros [?%list_ascii_inj E]%app_sep_inj; [|done..].
  apply app_sep_inj in E as [?%list_ascii_inj ->]; [|done..].
  split; [congruence|done].
Qed.

Lemma lines_inj m1 m2 ks1 ks2 :
  (forall k, k ∈ ks1 -> (equals ∉ list_ascii_of_string k)
     /\ newline ∉ list_ascii_of_string (value_of m1 k)) ->
  (forall k, k ∈ ks2 -> (equals ∉ list_ascii_of_string k)
     /\ newline ∉ list_ascii_of_string (value_of m2 k)) ->
  mjoin (line m1 <$> ks1) = mjoin (line m2 <$> ks2) ->
  pairs m1 ks1 = pairs m2 ks2.
Proof.
  revert ks2. induction ks1 as [|k1 ks1 IH]; intros [|k2 ks2] H1 H2 E.
  - done.
  - exfalso. apply (f_equal List.length) in E. rewrite fmap_cons in E. simpl in E.
    unfold line in E. rewrite !length_app in E. simpl in E. lia.
  - exfalso. apply (f_equal List.length) in E. rewrite fmap_cons in E. simpl in E.
    unfold line in E. rewrite !length_app in E. simpl in E. lia.
  - rewrite !fmap_cons in E. simpl in E.
    destruct (H1 k1 ltac:(by left)), (H2 k2 ltac:(by left)).
    apply line_inj in E as [Ekv E]; [|done..].
    unfold pairs. rewrite !fmap_cons, Ekv. f_equal.
    apply IH; [intros; apply H1; by right|intros; apply H2; by right|done].
Qed.

Context {R : MapRange}.

Lemma separable_keys m k :
  separable m -> k ∈ sorted_keys m ->
  (equals ∉ list_ascii_of_string k) /\ newline ∉ list_ascii_of_string (value_of m k).
Proof.
  intros Hm [v Hv]%elem_of_sorted_keys. unfold value_of. rewrite Hv. by apply Hm.
Qed.

Lemma preimage_empty_lines m :
  separable m -> size m <> 0%nat ->
  mjoin (line m <$> sorted_keys m) <> ["{"%char; "}"%char].
Proof.
  intros Hm Hsz E. destruct (sorted_keys m) as [|k ks] eqn:Ek.
  { apply Hsz. apply sorted_keys_nil in Ek as ->. apply map_size_empty. }
  rewrite fmap_cons in E. simpl in E. unfold line in E.
  assert (newline ∈ ["{"%char; "}"%char]) as Hin.
  { rewrite <-E. set_solver. }
  repeat (apply elem_of_cons in Hin as [?|Hin]; [done|]). by apply elem_of_nil in Hin.
Qed.

(** The hashed text identifies the label set. *)
Lemma preimage_inj m1 m2 :
  separable m1 -> separable m2 -> preimage m1 = preimage m2 -> m1 = m2.
Proof.
  unfold preimage. intros H1 H2 E.
  destruct (decide (size m1 = 0%nat)) as [e1|], (decide (size m2 = 0%nat)) as [e2|].
  - by rewrite (map_size_empty_inv _ e1), (map_size_empty_inv _ e2).
  - symmetry in E. by apply preimage_empty_lines in E.
  - by apply preimage_empty_lines in E.
  - rewrite <-(insert_all_pairs m1), <-(insert_all_pairs m2). f_equal.
    apply lines_inj; eauto using separable_keys.
Qed.
End facts.

(** The fingerprint does not depend on the order in which Go ranges over
    the label map. *)
Theorem Fingerprint_order_independent (R1 R2 : MapRange) (labels : gmap string string) :
  @Fingerprint R1 labels = @Fingerprint R2 labels.
Proof.
  unfold Fingerprint, preimage.
  by rewrite (@sorted_keys_canonical R1), (@sorted_keys_canonical R2).
Qed.
