(* ===== verification/AlertStore.v ===== *)
(** * Alert rules, alert state and alert history (web/alerts/store.go, models.go)

    The SQLite tables are finite maps keyed by their primary keys (the history
    is kept in insertion order); every SQL statement the store issues is a
    constructor of [stmt] with its effect in [exec_stmt]. The store's methods
    run in the state monad over [World]: the database, the wall clock read by
    [time.Now], and the failures the driver reports. *)
From S2P Require Import Prelude GoTime LabelsJson.
From Stdlib Require Import String SpecFloat.

Definition float64 := spec_float.

(** SQLite stores a NaN as NULL. *)
Definition is_nan (v : float64) : bool := match v with S754_nan => true | _ => false end.

(** ** The Go values (models.go) *)
Record AlertState := {
  st_RuleID : Z;
  st_Fingerprint : string;
  st_Labels : gmap string string;
  st_Hostname : string;
  st_Status : string;
  st_LastValue : float64;
  st_PendingSince : option Time;
  st_FiringSince : option Time;
  st_AcknowledgedAt : option Time;
  st_SilenceUntil : option Time;
  st_LastNotifiedAt : option Time
}.

Record AlertRule := {
  rule_ID : Z;
  rule_Name : string;
  rule_Enabled : bool;
  rule_Expr : string;
  rule_Duration : Z;
  rule_Description : string;
  rule_CreatedAt : Time;
  rule_UpdatedAt : Time;
  rule_States : list AlertState
}.

Record HistoryItem := {
  hi_ID : Z;
  hi_RuleID : Z;
  hi_RuleName : string;
  hi_Fingerprint : string;
  hi_Labels : gmap string string;
  hi_Hostname : string;
  hi_Expr : string;
  hi_MetricValue : float64;
  hi_State : string;
  hi_Acknowledged : bool;
  hi_TriggeredAt : Time
}.

Record CreateRuleRequest := {
  req_Name : string;
  req_Enabled : option bool;
  req_Expr : string;
  req_Duration : Z;
  req_Description : string
}.

(** ** The tables *)
Record RuleRow := {
  r_name : string;
  r_enabled : Z;
  r_expr : string;
  r_duration : Z;
  r_description : string;
  r_created_at : rfc3339;
  r_updated_at : rfc3339
}.

Record StateRow := {
  s_labels_json : string;
  s_status : string;
  s_last_value : float64;
  s_pending_since : option rfc3339;
  s_firing_since : option rfc3339;
  s_acknowledged_at : option rfc3339;
  s_silence_until : option rfc3339;
  s_last_notified_at : option rfc3339
}.

Record HistoryRow := {
  h_id : Z;
  h_rule_id : Z;
  h_rule_name : string;
  h_fingerprint : string;
  h_labels_json : string;
  h_expr : string;
  h_metric_value : float64;
  h_state : string;
  h_acknowledged : Z;
  h_triggered_at : rfc3339
}.

(** [alert_rules.id] and [alert_history.id] are AUTOINCREMENT: the [_seq]
    fields are the largest ids ever handed out. *)
Record DB := {
  alert_rules : gmap Z RuleRow;
  rules_seq : Z;
  alert_state : gmap (Z * string) StateRow;
  alert_history : list HistoryRow;
  history_seq : Z
}.

Definition with_rules (m : gmap Z RuleRow) (db : DB) : DB :=
  {| alert_rules := m; rules_seq := rules_seq db; alert_state := alert_state db;
     alert_history := alert_history db; history_seq := history_seq db |}.
Definition with_state (m : gmap (Z * string) StateRow) (db : DB) : DB :=
  {| alert_rules := alert_rules db; rules_seq := rules_seq db; alert_state := m;
     alert_history := alert_history db; history_seq := history_seq db |}.
Definition with_history (l : list HistoryRow) (seq : Z) (db : DB) : DB :=
  {| alert_rules := alert_rules db; rules_seq := rules_seq db;
     alert_state := alert_state db; alert_history := l; history_seq := seq |}.

(** ** The SQL statements of store.go *)
Inductive stmt :=
| CreateSchema
| InsertRule (name : string) (enabled : Z) (expr : string) (duration : Z)
    (description : string) (created updated : rfc3339)
| UpdateRuleRow (id : Z) (name : string) (enabled : Z) (expr : string) (duration : Z)
    (description : string) (updated : rfc3339)
| DeleteRuleRow (id : Z)
| DeleteStates (rule_id : Z)
| DeleteHistory (rule_id : Z)
| UpsertStateRow (rule_id : Z) (fp labels_json status : string) (last_value : float64)
    (pending_since firing_since : option rfc3339)
| UpdateAck (rule_id : Z) (fp : string) (acknowledged_at : rfc3339)
    (silence_until : option rfc3339)
| NullAck (rule_id : Z) (fp : string)
| UpdateNotified (rule_id : Z) (fp : string) (last_notified_at : rfc3339)
| InsertHistory (rule_id : Z) (rule_name fp labels_json expr : string)
    (metric_value : float64) (state : string) (triggered_at : rfc3339).

Definition empty_db : DB :=
  {| alert_rules := ∅; rules_seq := 0; alert_state := ∅; alert_history := [];
     history_seq := 0 |}.

Definition unique_violation : error :=
  "constraint failed: UNIQUE constraint failed: alert_rules.name (2067)".

(** [last_value] and [metric_value] are NOT NULL. *)
Definition not_null_violation (column : string) : error :=
  "constraint failed: NOT NULL constraint failed: " +:+ column +:+ " (1299)".

(** Another row carries this name. *)
Definition name_taken (db : DB) (id : Z) (name : string) : bool :=
  existsb (fun kv => negb (kv.1 =? id) && bool_decide (r_name kv.2 = name))
    (map_to_list (alert_rules db)).

(** [ON CONFLICT(rule_id, fingerprint) DO UPDATE]: the columns not named keep
    their value; a new row has them NULL. *)
Definition upserted (old : option StateRow) (labels_json status : string)
    (last_value : float64) (ps fs : option rfc3339) : StateRow :=
  {| s_labels_json := labels_json;
     s_status := status;
     s_last_value := last_value;
     s_pending_since := ps;
     s_firing_since := fs;
     s_acknowledged_at := old ≫= s_acknowledged_at;
     s_silence_until := old ≫= s_silence_until;
     s_last_notified_at := old ≫= s_last_notified_at |}.

Definition set_ack (ack su : option rfc3339) (r : StateRow) : StateRow :=
  {| s_labels_json := s_labels_json r; s_status := s_status r;
     s_last_value := s_last_value r; s_pending_since := s_pending_since r;
     s_firing_since := s_firing_since r; s_acknowledged_at := ack;
     s_silence_until := su; s_last_notified_at := s_last_notified_at r |}.

Definition set_notified (ts : rfc3339) (r : StateRow) : StateRow :=
  {| s_labels_json := s_labels_json r; s_status := s_status r;
     s_last_value := s_last_value r; s_pending_since := s_pending_since r;
     s_firing_since := s_firing_since r; s_acknowledged_at := s_acknowledged_at r;
     s_silence_until := s_silence_until r; s_last_notified_at := Some ts |}.

(** The effect of a statement and the last inserted row id. *)
Definition exec_stmt (q : stmt) (db : DB) : result (DB * Z) :=
  match q with
  | CreateSchema => Ok (empty_db, 0)
  | InsertRule name enabled expr duration description created updated =>
      let id := rules_seq db + 1 in
      if name_taken db id name then Err unique_violation
      else Ok ({| alert_rules := <[id := {| r_name := name; r_enabled := enabled;
                    r_expr := expr; r_duration := duration;
                    r_description := description; r_created_at := created;
                    r_updated_at := updated |}]> (alert_rules db);
                  rules_seq := id;
                  alert_state := alert_state db;
                  alert_history := alert_history db;
                  history_seq := history_seq db |}, id)
  | UpdateRuleRow id name enabled expr duration description updated =>
      match alert_rules db !! id with
      | None => Ok (db, 0)
      | Some r =>
          if name_taken db id name then Err unique_violation
          else Ok (with_rules (<[id := {| r_name := name; r_enabled := enabled;
                     r_expr := expr; r_duration := duration;
                     r_description := description; r_created_at := r_created_at r;
                     r_updated_at := updated |}]> (alert_rules db)) db, 0)
      end
  | DeleteRuleRow id => Ok (with_rules (delete id (alert_rules db)) db, 0)
  | DeleteStates rid =>
      Ok (with_state (filter (fun kv => kv.1.1 <> rid) (alert_state db)) db, 0)
  | DeleteHistory rid =>
      Ok (with_history (filter (fun h => h_rule_id h <> rid) (alert_history db))
            (history_seq db) db, 0)
  | UpsertStateRow rid fp lj status v ps fs =>
      if is_nan v then Err (not_null_violation "alert_state.last_value")
      else Ok (with_state (<[(rid, fp) := upserted (alert_state db !! (rid, fp)) lj status v ps fs]>
             (alert_state db)) db, 0)
  | UpdateAck rid fp ack su =>
      Ok (with_state (alter (set_ack (Some ack) su) (rid, fp) (alert_state db)) db, 0)
  | NullAck rid fp =>
      Ok (with_state (alter (set_ack None None) (rid, fp) (alert_state db)) db, 0)
  | UpdateNotified rid fp ts =>
      Ok (with_state (alter (set_notified ts) (rid, fp) (alert_state db)) db, 0)
  | InsertHistory rid name fp lj expr v state ts =>
      let id := history_seq db + 1 in
      if is_nan v then Err (not_null_violation "alert_history.metric_value")
      else Ok (with_history (alert_history db ++ [{| h_id := id; h_rule_id := rid;
             h_rule_name := name; h_fingerprint := fp; h_labels_json := lj; h_expr := expr;
             h_metric_value := v; h_state := state; h_acknowledged := 0;
             h_triggered_at := ts |}]) id db, id)
  end.

(** The statements of the other goroutines, each executed for itself. *)
Fixpoint run_others (qs : list stmt) (db : DB) : DB :=
  match qs with
  | [] => db
  | q :: qs =>
      run_others qs (match exec_stmt q db with Ok (db', _) => db' | Err _ => db end)
  end.

(** ** The world the store runs in

    [time.Now] advances the wall clock by the next tick (by nothing once the
    ticks are used up; ticks may be negative when the clock is set back). The
    evaluator's goroutine and those of the HTTP requests share one [sql.DB]
    and no lock: each driver call takes the next [Turn], which holds the
    statements the other goroutines execute before it and the failure the
    driver reports, which leaves the database as it was. [w_mail] records the
    notifications handed to the e-mail sender, in order. *)
Record Turn := {
  t_others : list stmt;
  t_fault : option error
}.

(** A driver call nothing comes before. *)
Definition undisturbed (fault : option error) : Turn := {| t_others := []; t_fault := fault |}.
Record Mail := {
  m_rule : AlertRule;
  m_hostname : string;
  m_labels : gmap string string;
  m_value : float64;
  m_state : string
}.

Record World := {
  w_db : DB;
  w_now : Time;
  w_ticks : list Z;
  w_turns : list Turn;
  w_mail : list Mail
}.

Abbreviation M := (ST World).

Definition set_db (db : DB) (w : World) : World :=
  {| w_db := db; w_now := w_now w; w_ticks := w_ticks w; w_turns := w_turns w;
     w_mail := w_mail w |}.

(** The other goroutines' statements of this turn are executed. *)
Definition take_turn (w : World) : World :=
  {| w_db := run_others (default [] (t_others <$> head (w_turns w))) (w_db w);
     w_now := w_now w; w_ticks := w_ticks w;
     w_turns := tail (w_turns w); w_mail := w_mail w |}.

Definition next_fault (w : World) : option error := head (w_turns w) ≫= t_fault.

Definition Now : M Time := fun w =>
  let t := w_now w + default 0 (head (w_ticks w)) in
  (t, {| w_db := w_db w; w_now := t; w_ticks := tail (w_ticks w);
         w_turns := w_turns w; w_mail := w_mail w |}).

Definition send (m : Mail) : M unit := fun w =>
  (tt, {| w_db := w_db w; w_now := w_now w; w_ticks := w_ticks w;
          w_turns := w_turns w; w_mail := w_mail w ++ [m] |}).

(** [s.db.Exec] *)
Definition db_exec (q : stmt) : M (result Z) := fun w =>
  match next_fault w with
  | Some e => (Err e, take_turn w)
  | None =>
      match exec_stmt q (w_db (take_turn w)) with
      | Ok (db, id) => (Ok id, set_db db (take_turn w))
      | Err e => (Err e, take_turn w)
      end
  end.

(** [s.db.Query] followed by the scan of its rows *)
Definition db_query {A} (q : DB -> A) : M (result A) := fun w =>
  match next_fault w with
  | Some e => (Err e, take_turn w)
  | None => (Ok (q (w_db (take_turn w))), take_turn w)
  end.

(** ** Conversions *)
Definition boolToInt (b : bool) : Z := if b then 1 else 0.

Definition parsePtrTime (s : option rfc3339) : option Time := parse_rfc3339 <$> s.
Definition formatPtrTime (t : option Time) : option rfc3339 := format_rfc3339 <$> t.

Definition hostname_of (labels : gmap string string) : string :=
  value_of labels "hostname".

Definition scan_rule (id : Z) (r : RuleRow) (states : list AlertState) : AlertRule :=
  {| rule_ID := id; rule_Name := r_name r; rule_Enabled := negb (r_enabled r =? 0);
     rule_Expr := r_expr r; rule_Duration := r_duration r;
     rule_Description := r_description r;
     rule_CreatedAt := parse_rfc3339 (r_created_at r);
     rule_UpdatedAt := parse_rfc3339 (r_updated_at r);
     rule_States := states |}.

Definition scan_state (ruleID : Z) (fp : string) (r : StateRow) : AlertState :=
  let labels := decodeLabels (s_labels_json r) in
  {| st_RuleID := ruleID; st_Fingerprint := fp; st_Labels := labels;
     st_Hostname := hostname_of labels; st_Status := s_status r;
     st_LastValue := s_last_value r;
     st_PendingSince := parsePtrTime (s_pending_since r);
     st_FiringSince := parsePtrTime (s_firing_since r);
     st_AcknowledgedAt := parsePtrTime (s_acknowledged_at r);
     st_SilenceUntil := parsePtrTime (s_silence_until r);
     st_LastNotifiedAt := parsePtrTime (s_last_notified_at r) |}.

Definition scan_history (h : HistoryRow) : HistoryItem :=
  let labels := decodeLabels (h_labels_json h) in
  {| hi_ID := h_id h; hi_RuleID := h_rule_id h; hi_RuleName := h_rule_name h;
     hi_Fingerprint := h_fingerprint h; hi_Labels := labels;
     hi_Hostname := hostname_of labels; hi_Expr := h_expr h;
     hi_MetricValue := h_metric_value h; hi_State := h_state h;
     hi_Acknowledged := negb (h_acknowledged h =? 0);
     hi_TriggeredAt := parse_rfc3339 (h_triggered_at h) |}.

Definition by_id (a b : Z * RuleRow) : Prop := a.1 <= b.1.
#[export] Instance by_id_dec : RelDecision by_id.
Proof. unfold by_id. intros ??. apply _. Defined.
#[export] Instance by_id_trans : Transitive by_id.
Proof. unfold by_id. intros ???. lia. Qed.
#[export] Instance by_id_total : Total by_id.
Proof. unfold by_id. intros ??. lia. Qed.

Definition most_recent_first (a b : HistoryRow) : Prop :=
  h_triggered_at b <= h_triggered_at a.
#[export] Instance most_recent_dec : RelDecision most_recent_first.
Proof. unfold most_recent_first. intros ??. apply _. Defined.
#[export] Instance most_recent_trans : Transitive most_recent_first.
Proof. unfold most_recent_first. intros ???. lia. Qed.
#[export] Instance most_recent_total : Total most_recent_first.
Proof. unfold most_recent_first. intros ??. lia. Qed.

Definition rules_by_id (rules : gmap Z RuleRow) : list (Z * RuleRow) :=
  sort by_id (map_to_list rules).

Definition active (status : string) : bool :=
  bool_decide (status = "pending"%string) || bool_decide (status = "firing"%string).

Section store.
(** The order of rows a query leaves unordered, and of history rows with
    equal timestamps, is the engine's. *)
Context {R : MapRange} {HO : Sorter most_recent_first}.

(** ** Schema *)
Definition migrate : M (result unit) :=
  r <- db_exec CreateSchema;;
  ret (match r with Ok _ => Ok tt | Err e => Err e end).

Definition NewStore : M (result unit) :=
  r <- migrate;;
  ret (match r with Ok _ => Ok tt | Err e => Err ("alert migrate: " +:+ e) end).

(** ** Rules CRUD *)
Definition CreateRule (r : AlertRule) : M (result AlertRule) :=
  t <- Now;;
  let now := format_rfc3339 t in
  let at_ := parse_rfc3339 now in
  res <- db_exec (InsertRule (rule_Name r) (boolToInt (rule_Enabled r)) (rule_Expr r)
                    (rule_Duration r) (rule_Description r) now now);;
  ret (match res with
       | Err e => Err ("create rule: " +:+ e)
       | Ok id => Ok {| rule_ID := id; rule_Name := rule_Name r;
                        rule_Enabled := rule_Enabled r; rule_Expr := rule_Expr r;
                        rule_Duration := rule_Duration r;
                        rule_Description := rule_Description r;
                        rule_CreatedAt := at_; rule_UpdatedAt := at_;
                        rule_States := rule_States r |}
       end).

Definition ErrNoRows : error := "sql: no rows in result set".

Definition GetRule (id : Z) : M (result AlertRule) :=
  r <- db_query (fun db => alert_rules db !! id);;
  ret (match r with
       | Err e => Err e
       | Ok None => Err ErrNoRows
       | Ok (Some row) => Ok (scan_rule id row [])
       end).

Definition UpdateRule (id : Z) (req : CreateRuleRequest) : M (result AlertRule) :=
  t <- Now;;
  let now := format_rfc3339 t in
  let enabled := default true (req_Enabled req) in
  res <- db_exec (UpdateRuleRow id (req_Name req) (boolToInt enabled) (req_Expr req)
                    (req_Duration req) (req_Description req) now);;
  match res with
  | Err e => ret (Err ("update rule: " +:+ e))
  | Ok _ => db_exec (DeleteStates id) ;;; GetRule id
  end.

Definition DeleteRule (id : Z) : M (result unit) :=
  res <- db_exec (DeleteRuleRow id);;
  match res with
  | Err e => ret (Err e)
  | Ok _ => db_exec (DeleteStates id) ;;; db_exec (DeleteHistory id) ;;; ret (Ok tt)
  end.

(** ** Alert state *)
Definition rows_of_rule (ruleID : Z) (db : DB) : list (string * StateRow) :=
  (fun kv => (kv.1.2, kv.2)) <$> filter (fun kv => kv.1.1 = ruleID) (range (alert_state db)).

Definition getStatesForRule (ruleID : Z) : M (list AlertState) :=
  r <- db_query (rows_of_rule ruleID);;
  ret (match r with
       | Err _ => []
       | Ok rows => (fun row => scan_state ruleID row.1 row.2) <$> rows
       end).

Definition ListRules : M (result (list AlertRule)) :=
  r <- db_query (fun db => rules_by_id (alert_rules db));;
  match r with
  | Err e => ret (Err e)
  | Ok rows =>
      out <- collect (fun row : Z * RuleRow =>
               states <- getStatesForRule row.1;; ret (scan_rule row.1 row.2 states)) rows;;
      ret (Ok out)
  end.

Definition GetEnabledRules : M (result (list AlertRule)) :=
  db_query (fun db =>
    (fun row => scan_rule row.1 row.2 []) <$>
      filter (fun row => r_enabled row.2 = 1) (rules_by_id (alert_rules db))).

Definition GetActiveStatesForRule (ruleID : Z) : M (result (list AlertState)) :=
  db_query (fun db =>
    (fun row => scan_state ruleID row.1 row.2) <$>
      filter (fun row => active (s_status row.2) = true) (rows_of_rule ruleID db)).

Definition UpsertState (ruleID : Z) (fingerprint : string) (labels : gmap string string)
    (status : string) (lastValue : float64) (pendingSince firingSince : option Time)
    : M (result unit) :=
  res <- db_exec (UpsertStateRow ruleID fingerprint (encodeLabels labels) status lastValue
                    (formatPtrTime pendingSince) (formatPtrTime firingSince));;
  ret (match res with Ok _ => Ok tt | Err e => Err ("upsert state: " +:+ e) end).

Definition as_unit (r : result Z) : result unit :=
  match r with Ok _ => Ok tt | Err e => Err e end.

Definition SetAcknowledged (ruleID : Z) (fingerprint : string) (silenceUntil : option Time)
    : M (result unit) :=
  t <- Now;;
  res <- db_exec (UpdateAck ruleID fingerprint (format_rfc3339 t) (formatPtrTime silenceUntil));;
  ret (as_unit res).

Definition ClearAck (ruleID : Z) (fingerprint : string) : M (result unit) :=
  res <- db_exec (NullAck ruleID fingerprint);; ret (as_unit res).

Definition SetLastNotified (ruleID : Z) (fingerprint : string) (t : Time) : M (result unit) :=
  res <- db_exec (UpdateNotified ruleID fingerprint (format_rfc3339 t));; ret (as_unit res).

(** ** Alert history *)
Definition AddHistory (ruleID : Z) (ruleName fingerprint : string)
    (labels : gmap string string) (expr : string) (value : float64) (state : string)
    : M (result unit) :=
  t <- Now;;
  res <- db_exec (InsertHistory ruleID ruleName fingerprint (encodeLabels labels) expr value
                    state (format_rfc3339 t));;
  ret (as_unit res).

(** The WHERE clause assembled from the filters that are set. *)
Definition history_where (ruleID : Z) (fingerprint state : string) (h : HistoryRow) : bool :=
  (if 0 <? ruleID then h_rule_id h =? ruleID else true)
  && (if bool_decide (fingerprint = EmptyString) then true
      else bool_decide (h_fingerprint h = fingerprint))
  && (if bool_decide (state = EmptyString) then true
      else bool_decide (h_state h = state)).

Definition history_matching (ruleID : Z) (fingerprint state : string) (db : DB)
    : list HistoryRow :=
  filter (fun h => history_where ruleID fingerprint state h = true) (alert_history db).

Definition ListHistory (ruleID : Z) (fingerprint state : string) (limit offset : Z)
    : M (result (list HistoryItem * Z)) :=
  c <- db_query (fun db => Z.of_nat (List.length (history_matching ruleID fingerprint state db)));;
  match c with
  | Err e => ret (Err e)
  | Ok total =>
      let limit := if limit <=? 0 then 20 else limit in
      let offset := if offset <? 0 then 0 else offset in
      q <- db_query (fun db =>
             take (Z.to_nat limit) (drop (Z.to_nat offset)
               (sort most_recent_first (history_matching ruleID fingerprint state db))));;
      ret (match q with
           | Err e => Err e
           | Ok rows => Ok (scan_history <$> rows, total)
           end)
  end.
End store.
