(* ===== verification/Evaluator.v ===== *)
(** * The alert evaluator (web/alerts/evaluator.go)

    One evaluation queries a rule's expression and reconciles the returned
    series with the rule's persisted state rows. VictoriaMetrics is the
    argument [vm]: the answer it gives to an expression during this tick. *)
From S2P Require Import Prelude GoTime LabelsJson Fingerprint AlertStore.
From Stdlib Require Import String.

(** [vm.Vector]; a nil metric map is [None]. *)
Record Vector := { v_Metric : option (gmap string string); v_Value : float64 }.

Record instance := {
  i_fingerprint : string;
  i_labels : gmap string string;
  i_value : float64
}.

(** The evaluator's wiring that matters to one tick: whether an e-mail sender
    is configured. *)
Record Evaluator := { ev_email : bool }.

Section evaluator.
Context {R : MapRange}.
Context (e : Evaluator).

Definition instance_of (vec : Vector) : instance :=
  let labels := default ∅ (v_Metric vec) in
  {| i_fingerprint := Fingerprint labels; i_labels := labels; i_value := v_Value vec |}.

(** The map [current]: a later series with the same fingerprint replaces an
    earlier one. *)
Definition current_of (results : list Vector) : gmap string instance :=
  foldl (fun m vec => let i := instance_of vec in <[i_fingerprint i := i]> m) ∅ results.

Definition findState (states : list AlertState) (fp : string) : option AlertState :=
  List.find (fun s => bool_decide (st_Fingerprint s = fp)) states.

Definition notify (rule : AlertRule) (labels : gmap string string) (value : float64)
    (state : string) : M unit :=
  if ev_email e
  then send {| m_rule := rule; m_hostname := hostname_of labels; m_labels := labels;
               m_value := value; m_state := state |}
  else ret tt.

Definition fire (rule : AlertRule) (inst : instance) : M unit :=
  AddHistory (rule_ID rule) (rule_Name rule) (i_fingerprint inst) (i_labels inst)
    (rule_Expr rule) (i_value inst) "firing" ;;;
  t <- Now;;
  SetLastNotified (rule_ID rule) (i_fingerprint inst) t ;;;
  notify rule (i_labels inst) (i_value inst) "firing".

Definition recover (rule : AlertRule) (labels : gmap string string) (value : float64) : M unit :=
  let fp := Fingerprint labels in
  AddHistory (rule_ID rule) (rule_Name rule) fp labels (rule_Expr rule) value "recovered" ;;;
  notify rule labels value "recovered".

(** [t != nil && !t.IsZero()] *)
Definition set_time (t : option Time) : option Time :=
  t ≫= fun t => if IsZero t then None else Some t.

Definition notifyInterval : Duration := 5 * Minute.

(** [case h == nil]: a series without an active row. *)
Definition evalNew (rule : AlertRule) (now : Time) (fp : string) (inst : instance) : M unit :=
  if rule_Duration rule =? 0 then
    UpsertState (rule_ID rule) fp (i_labels inst) "firing" (i_value inst) None (Some now) ;;;
    fire rule inst
  else
    UpsertState (rule_ID rule) fp (i_labels inst) "pending" (i_value inst) (Some now) None ;;;
    ret tt.

(** [case h.Status == "pending"] *)
Definition evalPending (rule : AlertRule) (now : Time) (fp : string) (inst : instance)
    (h : AlertState) : M unit :=
  let pendingSince := default now (set_time (st_PendingSince h)) in
  if dur_mul (rule_Duration rule) Second <=? Sub now pendingSince then
    UpsertState (rule_ID rule) fp (i_labels inst) "firing" (i_value inst) None (Some now) ;;;
    fire rule inst
  else
    UpsertState (rule_ID rule) fp (i_labels inst) "pending" (i_value inst)
      (Some pendingSince) None ;;;
    ret tt.

(** [case h.Status == "firing"] *)
Definition evalFiring (rule : AlertRule) (now : Time) (fp : string) (inst : instance)
    (h : AlertState) : M unit :=
  let firingSince := default now (set_time (st_FiringSince h)) in
  let refresh := UpsertState (rule_ID rule) fp (i_labels inst) "firing" (i_value inst)
                   None (Some firingSince) in
  let rate_limited :=
    match set_time (st_LastNotifiedAt h) with
    | Some ln => if Sub now ln <? notifyInterval
                 then refresh ;;; ret tt
                 else refresh ;;; fire rule inst
    | None => refresh ;;; fire rule inst
    end in
  match set_time (st_AcknowledgedAt h) with
  | Some _ => refresh ;;; ret tt
  | None =>
      match set_time (st_SilenceUntil h) with
      | Some su => if Before now su
                   then refresh ;;; ret tt
                   else ClearAck (rule_ID rule) fp ;;; rate_limited
      | None => rate_limited
      end
  end.

(** The body of [for fp, inst := range current]. *)
Definition evalPresent (rule : AlertRule) (historical : list AlertState) (now : Time)
    (fp : string) (inst : instance) : M unit :=
  match findState historical fp with
  | None => evalNew rule now fp inst
  | Some h =>
      if bool_decide (st_Status h = "pending"%string) then evalPending rule now fp inst h
      else if bool_decide (st_Status h = "firing"%string) then evalFiring rule now fp inst h
      else ret tt
  end.

(** The body of the second loop: a persisted row whose series is gone. *)
Definition evalAbsent (rule : AlertRule) (current : gmap string instance) (h : AlertState)
    : M unit :=
  match current !! st_Fingerprint h with
  | Some _ => ret tt
  | None =>
      let clear := UpsertState (rule_ID rule) (st_Fingerprint h) (st_Labels h) "ok"
                     (st_LastValue h) None None in
      if bool_decide (st_Status h = "pending"%string) then clear ;;; ret tt
      else if bool_decide (st_Status h = "firing"%string) then
        clear ;;; ClearAck (rule_ID rule) (st_Fingerprint h) ;;;
        recover rule (st_Labels h) (st_LastValue h)
      else ret tt
  end.

Definition evaluateRule (vm : string -> result (list Vector)) (rule : AlertRule) : M unit :=
  match vm (rule_Expr rule) with
  | Err _ => ret tt
  | Ok results =>
      let current := current_of results in
      hs <- GetActiveStatesForRule (rule_ID rule);;
      match hs with
      | Err _ => ret tt
      | Ok historical =>
          now <- Now;;
          loop (fun fi => evalPresent rule historical now fi.1 fi.2) (range current) ;;;
          loop (evalAbsent rule current) historical
      end
  end.

Definition evaluate (vm : string -> result (list Vector)) : M unit :=
  rs <- GetEnabledRules;;
  match rs with
  | Err _ => ret tt
  | Ok rules => loop (evaluateRule vm) rules
  end.
End evaluator.
