(* ===== verification/AlertSpec.v ===== *)
(** * What the evaluator promises

    The life of one alert instance as a transition relation over its phase
    and marks ([Inst]), following the table at the head of [evaluateRule], and
    the theorem that a failure-free evaluation performs exactly one such
    transition for every instance and reports exactly the events of that
    transition; an instance whose value is no number, which the database cannot
    hold, takes the steps of [unstored] instead. *)
From S2P Require Import Prelude GoTime LabelsJson Fingerprint AlertStore Evaluator.
From Stdlib Require Import String.

(** ** The abstract instance *)
Inductive phase :=
| Inactive
| Pending (since : option Time)
| Firing (since : option Time).

Record Inst := {
  in_phase : phase;
  in_acked : option Time;
  in_silence : option Time;
  in_notified : option Time
}.

(** A timestamp column as the evaluator reads it: NULL and the zero time
    count as absent. *)
Definition time_of (s : option rfc3339) : option Time := set_time (parsePtrTime s).

(** What is read back of an instant that was stored. *)
Definition stamp (t : Time) : option Time := time_of (Some (format_rfc3339 t)).

Definition phase_of (r : StateRow) : phase :=
  if decide (s_status r = "pending"%string) then Pending (time_of (s_pending_since r))
  else if decide (s_status r = "firing"%string) then Firing (time_of (s_firing_since r))
  else Inactive.

Definition view (r : option StateRow) : Inst :=
  match r with
  | None => {| in_phase := Inactive; in_acked := None; in_silence := None; in_notified := None |}
  | Some r => {| in_phase := phase_of r;
                 in_acked := time_of (s_acknowledged_at r);
                 in_silence := time_of (s_silence_until r);
                 in_notified := time_of (s_last_notified_at r) |}
  end.

Definition to_phase (p : phase) (i : Inst) : Inst :=
  {| in_phase := p; in_acked := in_acked i; in_silence := in_silence i;
     in_notified := in_notified i |}.

Definition notified_at (t : Time) (i : Inst) : Inst :=
  {| in_phase := in_phase i; in_acked := in_acked i; in_silence := in_silence i;
     in_notified := stamp t |}.

Definition unmarked (i : Inst) : Inst :=
  {| in_phase := in_phase i; in_acked := None; in_silence := None;
     in_notified := in_notified i |}.

Definition silenced (now : Time) (i : Inst) : Prop :=
  exists u, in_silence i = Some u /\ now < u.

(** A silence that has run out is removed together with the acknowledgement. *)
Definition lift_expired (now : Time) (i : Inst) : Inst :=
  match in_silence i with
  | Some u => if decide (now < u) then i else unmarked i
  | None => i
  end.

Definition keep (now : Time) (since : option Time) : option Time :=
  match since with Some t => Some t | None => stamp now end.

Inductive transition (dur : Z) (now : Time) (tick : Time -> Prop) : bool -> Inst -> Inst -> list string -> Prop :=
| T_enter_pending i :
    in_phase i = Inactive -> dur <> 0 ->
    transition dur now tick true i (to_phase (Pending (stamp now)) i) []
| T_enter_firing i tn :
    in_phase i = Inactive -> dur = 0 -> tick tn ->
    transition dur now tick true i (notified_at tn (to_phase (Firing (stamp now)) i))
      ["firing"%string]
| T_keep_pending i since :
    in_phase i = Pending since -> Sub now (default now since) < dur_mul dur Second ->
    transition dur now tick true i (to_phase (Pending (keep now since)) i) []
| T_escalate i since tn :
    in_phase i = Pending since -> dur_mul dur Second <= Sub now (default now since) ->
    tick tn ->
    transition dur now tick true i (notified_at tn (to_phase (Firing (stamp now)) i))
      ["firing"%string]
| T_acked i since a :
    in_phase i = Firing since -> in_acked i = Some a ->
    transition dur now tick true i (to_phase (Firing (keep now since)) i) []
| T_silenced i since :
    in_phase i = Firing since -> in_acked i = None -> silenced now i ->
    transition dur now tick true i (to_phase (Firing (keep now since)) i) []
| T_limited i since n :
    in_phase i = Firing since -> in_acked i = None -> ~ silenced now i ->
    in_notified i = Some n -> Sub now n < notifyInterval ->
    transition dur now tick true i (lift_expired now (to_phase (Firing (keep now since)) i)) []
| T_repeat i since tn :
    in_phase i = Firing since -> in_acked i = None -> ~ silenced now i ->
    (forall n, in_notified i = Some n -> notifyInterval <= Sub now n) -> tick tn ->
    transition dur now tick true i
      (notified_at tn (lift_expired now (to_phase (Firing (keep now since)) i)))
      ["firing"%string]
| T_drop i since :
    in_phase i = Pending since ->
    transition dur now tick false i (to_phase Inactive i) []
| T_resolve i since :
    in_phase i = Firing since ->
    transition dur now tick false i (unmarked (to_phase Inactive i)) ["recovered"%string]
| T_rest i :
    in_phase i = Inactive -> transition dur now tick false i i [].

Lemma transition_mono dur now (P Q : Time -> Prop) b i i' evs :
  (forall t, P t -> Q t) -> transition dur now P b i i' evs -> transition dur now Q b i i' evs.
Proof.
  intros HPQ [].
  - by apply T_enter_pending.
  - by apply T_enter_firing; auto.
  - by apply T_keep_pending.
  - by eapply T_escalate; auto.
  - by eapply T_acked.
  - by eapply T_silenced.
  - by eapply T_limited.
  - by eapply T_repeat; auto.
  - by eapply T_drop.
  - by eapply T_resolve.
  - by apply T_rest.
Qed.

(** What a series does whose value is a NaN: no row and no history entry is
    written, so its phase stays what it was; what would report it is still
    mailed, and noted on its row if it has one. *)
Inductive unstored (dur : Z) (now : Time) (tick : Time -> Prop) : Inst -> Inst -> list string -> Prop :=
| U_new i :
    in_phase i = Inactive -> dur <> 0 -> unstored dur now tick i i []
| U_new_reported i i' tn :
    in_phase i = Inactive -> dur = 0 -> tick tn -> i' = i \/ i' = notified_at tn i ->
    unstored dur now tick i i' ["firing"%string]
| U_pending i since :
    in_phase i = Pending since -> Sub now (default now since) < dur_mul dur Second ->
    unstored dur now tick i i []
| U_due i since tn :
    in_phase i = Pending since -> dur_mul dur Second <= Sub now (default now since) ->
    tick tn -> unstored dur now tick i (notified_at tn i) ["firing"%string]
| U_acked i since a :
    in_phase i = Firing since -> in_acked i = Some a -> unstored dur now tick i i []
| U_silenced i since :
    in_phase i = Firing since -> in_acked i = None -> silenced now i ->
    unstored dur now tick i i []
| U_limited i since n :
    in_phase i = Firing since -> in_acked i = None -> ~ silenced now i ->
    in_notified i = Some n -> Sub now n < notifyInterval ->
    unstored dur now tick i (lift_expired now i) []
| U_repeat i since tn :
    in_phase i = Firing since -> in_acked i = None -> ~ silenced now i ->
    (forall n, in_notified i = Some n -> notifyInterval <= Sub now n) -> tick tn ->
    unstored dur now tick i (notified_at tn (lift_expired now i)) ["firing"%string].

(** One evaluation of an instance: its value in the answer, if it is there, and
    the events mailed and recorded. *)
Inductive evaluated (dur : Z) (now : Time) (tick : Time -> Prop)
    : option float64 -> Inst -> Inst -> list string -> list string -> Prop :=
| E_stored v i i' evs :
    is_nan v = false -> transition dur now tick true i i' evs ->
    evaluated dur now tick (Some v) i i' evs evs
| E_unstored v i i' evs :
    is_nan v = true -> unstored dur now tick i i' evs ->
    evaluated dur now tick (Some v) i i' evs []
| E_absent i i' evs :
    transition dur now tick false i i' evs -> evaluated dur now tick None i i' evs evs.

Lemma unstored_mono dur now (P Q : Time -> Prop) i i' evs :
  (forall t, P t -> Q t) -> unstored dur now P i i' evs -> unstored dur now Q i i' evs.
Proof.
  intros HPQ [].
  - by apply U_new.
  - eapply U_new_reported; eauto.
  - by eapply U_pending.
  - by eapply U_due; auto.
  - by eapply U_acked.
  - by eapply U_silenced.
  - by eapply U_limited.
  - by eapply U_repeat; auto.
Qed.

Lemma evaluated_mono dur now (P Q : Time -> Prop) v i i' ms hs :
  (forall t, P t -> Q t) -> evaluated dur now P v i i' ms hs -> evaluated dur now Q v i i' ms hs.
Proof.
  intros HPQ []; econstructor; eauto using transition_mono, unstored_mono.
Qed.

Lemma evaluated_number dur now tick v i i' ms hs :
  is_nan v = false -> evaluated dur now tick (Some v) i i' ms hs ->
  transition dur now tick true i i' ms /\ hs = ms.
Proof. intros Hv H. inversion H; subst; [done|congruence]. Qed.

(** ** Observing one instance *)
Definition row (rid : Z) (fp : string) (w : World) : option StateRow :=
  alert_state (w_db w) !! (rid, fp).

(** What is assumed of the clock, kept by every reading of it. *)
Record Clock := {
  tick : Time -> list Z -> Prop;
  tick_next : forall t ds, tick t ds -> tick (t + default 0 (head ds)) (tail ds)
}.

(** Nothing. *)
Definition any_clock : Clock := {| tick _ _ := True; tick_next _ _ H := H |}.

(** It is not set back, and has reached [t0]. *)
Program Definition monotone_clock (t0 : Time) : Clock :=
  {| tick t ds := t0 <= t /\ Forall (Z.le 0) ds |}.
Next Obligation. intros t0 t ds [Ht [|d ds' Hd Hds]]; simpl; split; [lia|done|lia|done]. Qed.

Section observe.
Context {R : MapRange}.

Definition mail_events (rid : Z) (fp : string) (w : World) : list string :=
  m_state <$> filter (fun m => rule_ID (m_rule m) = rid /\ Fingerprint (m_labels m) = fp)
                (w_mail w).

Definition history_events (rid : Z) (fp : string) (w : World) : list string :=
  h_state <$> filter (fun h => h_rule_id h = rid /\ h_fingerprint h = fp)
                (alert_history (w_db w)).

Context (c : Clock).

Definition ticks (t : Time) : Prop := exists ds, tick c t ds.

(** No driver failure and no other goroutine's statement is ahead, and the clock is as assumed. *)
Definition calm (w : World) : Prop := w_turns w = [] /\ tick c (w_now w) (w_ticks w).

(** [w'] is [w] after the instance [(rid, fp)] moved to [i'], with the
    notifications [ms] and the history entries [hs], and nothing else of the
    alert tables changed. *)
Record acted (rid : Z) (fp : string) (w w' : World) (i' : Inst)
    (ms hs : list string) : Prop := {
  act_calm : calm w';
  act_row : view (row rid fp w') = i';
  act_frame : forall k, k <> (rid, fp) ->
    alert_state (w_db w') !! k = alert_state (w_db w) !! k;
  act_mail : forall fp', mail_events rid fp' w' =
    mail_events rid fp' w ++ (if decide (fp' = fp) then ms else []);
  act_history : forall fp', history_events rid fp' w' =
    history_events rid fp' w ++ (if decide (fp' = fp) then hs else [])
}.

(** The notifications of a transition's events: none when no e-mail sender
    is configured. *)
Definition mailed (e : Evaluator) (evs : list string) : list string :=
  if ev_email e then evs else [].
End observe.

Arguments act_calm {_ _ _ _ _ _ _ _ _} _.
Arguments act_row {_ _ _ _ _ _ _ _ _} _.

(** ** Timestamps *)
Section stamps.
Lemma time_of_whole s t : time_of s = Some t -> exists z, s = Some z /\ t = parse_rfc3339 z.
Proof.
  unfold time_of, set_time, parsePtrTime. destruct s as [z|]; [|done]. simpl.
  destruct (IsZero _); [done|]. intros [= <-]. eauto.
Qed.

Lemma stamp_keep now s : stamp (default now (time_of s)) = keep now (time_of s).
Proof.
  destruct (time_of s) as [t|] eqn:E; [|done]. simpl.
  destruct (time_of_whole _ _ E) as (z & -> & ->).
  unfold stamp. by rewrite format_parse.
Qed.

(** A stored instant loses less than a second. *)
Lemma stamp_bounds t t' : stamp t = Some t' -> t' <= t < t' + Second.
Proof.
  intros (z & [= <-] & ->)%time_of_whole. apply parse_format_bounds.
Qed.
End stamps.

(** ** One statement at a time, when the driver reports no failure *)
Section steps.
Context {R : MapRange}.
Context (e : Evaluator).
Context (c : Clock).
Abbreviation calm := (calm c).
Abbreviation ticks := (ticks c).
Abbreviation acted := (acted c).
Implicit Types (w : World) (rid : Z) (fp : string).

Lemma no_turn w : w_turns w = [] -> take_turn w = w.
Proof. destruct w; simpl. by intros ->. Qed.

Lemma db_exec_ok q w db' id :
  w_turns w = [] -> exec_stmt q (w_db w) = Ok (db', id) ->
  db_exec q w = (Ok id, set_db db' w).
Proof.
  intros Hw Hq. unfold db_exec, next_fault. rewrite no_turn, Hw by done. simpl. by rewrite Hq.
Qed.

Lemma db_exec_world q w db' id :
  w_turns w = [] -> exec_stmt q (w_db w) = Ok (db', id) ->
  exec (db_exec q) w = set_db db' w.
Proof. intros Hw Hq. unfold exec. by erewrite db_exec_ok. Qed.

Lemma db_query_ok {A} (q : DB -> A) w :
  w_turns w = [] -> db_query q w = (Ok (q (w_db w)), w).
Proof.
  intros Hw. unfold db_query, next_fault. by rewrite no_turn, Hw by done.
Qed.

Lemma acted_trans rid fp w w1 w2 i1 i2 ms1 ms2 hs1 hs2 :
  acted rid fp w w1 i1 ms1 hs1 -> acted rid fp w1 w2 i2 ms2 hs2 ->
  acted rid fp w w2 i2 (ms1 ++ ms2) (hs1 ++ hs2).
Proof.
  intros [_ _ Hf1 Hm1 Hh1] [Hw2 Hr2 Hf2 Hm2 Hh2].
  split; [done|done|intros; by rewrite Hf2, Hf1|intros fp'..].
  - rewrite Hm2, Hm1. rewrite <-app_assoc. by destruct (decide _).
  - rewrite Hh2, Hh1. rewrite <-app_assoc. by destruct (decide _).
Qed.

Lemma acted_refl rid fp w :
  calm w -> acted rid fp w w (view (row rid fp w)) [] [].
Proof.
  intros Hw. split; [done|done|done|intros fp'..]; by destruct (decide _); rewrite app_nil_r.
Qed.

(** A statement on the state row of the instance. *)
Lemma acted_state rid fp w (m : gmap (Z * string) StateRow) :
  calm w ->
  (forall k, k <> (rid, fp) -> m !! k = alert_state (w_db w) !! k) ->
  acted rid fp w (set_db (with_state m (w_db w)) w) (view (m !! (rid, fp))) [] [].
Proof.
  intros Hw Hm. split; [done|done|done|intros fp'..]; by destruct (decide _); rewrite app_nil_r.
Qed.

Definition upsert_phase (status : string) (ps fs : option Time) : phase :=
  if decide (status = "pending"%string) then Pending (time_of (formatPtrTime ps))
  else if decide (status = "firing"%string) then Firing (time_of (formatPtrTime fs))
  else Inactive.

Lemma view_upserted old lj status v ps fs :
  view (Some (upserted old lj status v (formatPtrTime ps) (formatPtrTime fs)))
  = to_phase (upsert_phase status ps fs) (view old).
Proof. by destruct old. Qed.

(** A value SQLite has no place for. *)
Lemma UpsertState_unstored rid fp labels status v ps fs w :
  w_turns w = [] -> is_nan v = true ->
  exec (UpsertState rid fp labels status v ps fs) w = w.
Proof.
  intros Hw Hv. unfold UpsertState. run. unfold exec, db_exec, next_fault.
  rewrite (no_turn w Hw), Hw. simpl. by rewrite Hv.
Qed.

Lemma AddHistory_unstored rid name fp labels expr v state w :
  w_turns w = [] -> is_nan v = true ->
  exec (AddHistory rid name fp labels expr v state) w = exec Now w.
Proof.
  intros Hw Hv. unfold AddHistory. run. set (w1 := exec Now w).
  assert (w_turns w1 = []) as Hw1 by done. unfold exec, db_exec, next_fault.
  rewrite (no_turn w1 Hw1), Hw1. simpl. by rewrite Hv.
Qed.

Lemma UpsertState_acts rid fp labels status v ps fs w :
  calm w -> is_nan v = false ->
  acted rid fp w (exec (UpsertState rid fp labels status v ps fs) w)
    (to_phase (upsert_phase status ps fs) (view (row rid fp w))) [] []
  /\ is_Some (row rid fp (exec (UpsertState rid fp labels status v ps fs) w)).
Proof.
  intros Hw Hv. unfold UpsertState. run.
  erewrite db_exec_world by (apply Hw || (simpl; rewrite Hv; done)).
  split.
  - rewrite <-(view_upserted (row rid fp w) (encodeLabels labels) status v ps fs).
    rewrite <-(lookup_insert_eq (alert_state (w_db w)) (rid, fp)).
    apply acted_state; [done|]. intros; by rewrite lookup_insert_ne.
  - unfold row. simpl. rewrite lookup_insert_eq. eauto.
Qed.

Lemma ClearAck_acts rid fp w :
  calm w ->
  acted rid fp w (exec (ClearAck rid fp) w) (unmarked (view (row rid fp w))) [] [].
Proof.
  intros Hw. unfold ClearAck. run. erewrite db_exec_world by (apply Hw || done).
  assert (unmarked (view (row rid fp w)) = view (alter (set_ack None None) (rid, fp)
    (alert_state (w_db w)) !! (rid, fp))) as ->.
  { rewrite lookup_alter_eq. unfold row.
    by destruct (alert_state (w_db w) !! (rid, fp)). }
  apply acted_state; [done|]. intros; by rewrite lookup_alter_ne.
Qed.

Lemma calm_Now w : calm w -> calm (exec Now w).
Proof. intros [Hw Ht]. split; [exact Hw|by apply tick_next]. Qed.

Lemma Now_acts rid fp w :
  calm w -> acted rid fp w (exec Now w) (view (row rid fp w)) [] [].
Proof.
  intros Hw. split; [by apply calm_Now|done|done|intros fp'..];
    by destruct (decide _); rewrite app_nil_r.
Qed.

Definition noted (t : Time) (r : option StateRow) : Inst :=
  match r with Some _ => notified_at t (view r) | None => view r end.

Lemma SetLastNotified_notes rid fp t w :
  calm w ->
  acted rid fp w (exec (SetLastNotified rid fp t) w) (noted t (row rid fp w)) [] [].
Proof.
  intros Hw. unfold SetLastNotified. run. erewrite db_exec_world by (apply Hw || done).
  assert (noted t (row rid fp w) = view (alter (set_notified
    (format_rfc3339 t)) (rid, fp) (alert_state (w_db w)) !! (rid, fp))) as ->.
  { rewrite lookup_alter_eq. unfold row. by destruct (_ !! _). }
  apply acted_state; [done|]. intros; by rewrite lookup_alter_ne.
Qed.

Lemma SetLastNotified_acts rid fp t w :
  calm w -> is_Some (row rid fp w) ->
  acted rid fp w (exec (SetLastNotified rid fp t) w)
    (notified_at t (view (row rid fp w))) [] [].
Proof.
  intros Hw [r Hr]. pose proof (SetLastNotified_notes rid fp t w Hw) as H. by rewrite Hr in H |- *.
Qed.

Lemma AddHistory_acts rid name fp labels expr v state w :
  calm w -> is_nan v = false ->
  acted rid fp w (exec (AddHistory rid name fp labels expr v state) w)
    (view (row rid fp w)) [] [state]
  /\ row rid fp (exec (AddHistory rid name fp labels expr v state) w) = row rid fp w.
Proof.
  intros Hw Hv. unfold AddHistory. run.
  erewrite db_exec_world by (apply Hw || (simpl; rewrite Hv; done)).
  split; [|done]. split; [by apply calm_Now in Hw|done|done|intros fp'..].
  - by destruct (decide _); rewrite app_nil_r.
  - unfold history_events. simpl. rewrite filter_app, fmap_app. f_equal.
    rewrite filter_cons, filter_nil. simpl.
    destruct (decide (fp' = fp)) as [->|Hne].
    + by rewrite decide_True.
    + rewrite decide_False; [done|]. intros [_ ?]. by apply Hne.
Qed.

Lemma notify_acts rule fp labels v state w :
  calm w -> Fingerprint labels = fp ->
  acted (rule_ID rule) fp w (exec (notify e rule labels v state) w)
    (view (row (rule_ID rule) fp w)) (mailed e [state]) [].
Proof.
  intros Hw Hfp. unfold notify, mailed. destruct (ev_email e); [|by apply acted_refl].
  split; [done|done|done|intros fp'..].
  - unfold mail_events. simpl. rewrite filter_app, fmap_app. f_equal.
    rewrite filter_cons, filter_nil. simpl.
    destruct (decide (fp' = fp)) as [->|Hne].
    + by rewrite decide_True.
    + rewrite decide_False; [done|]. intros [_ ?]. apply Hne. congruence.
  - by destruct (decide _); rewrite app_nil_r.
Qed.

Definition labelled (fp : string) (inst : instance) : Prop :=
  i_fingerprint inst = fp /\ Fingerprint (i_labels inst) = fp.

(** One the database can hold. *)
Definition storable (fp : string) (inst : instance) : Prop :=
  labelled fp inst /\ is_nan (i_value inst) = false.

(** Reporting a firing instance. *)
Lemma fire_acts rule fp inst w :
  calm w -> storable fp inst -> is_Some (row (rule_ID rule) fp w) ->
  exists tn, ticks tn /\ acted (rule_ID rule) fp w (exec (fire e rule inst) w)
    (notified_at tn (view (row (rule_ID rule) fp w)))
    (mailed e ["firing"%string]) ["firing"%string].
Proof.
  intros Hw [[Hi Hfp] Hv] Hrow. unfold fire. rewrite Hi. run.
  destruct (AddHistory_acts (rule_ID rule) (rule_Name rule) fp (i_labels inst)
    (rule_Expr rule) (i_value inst) "firing" w Hw Hv) as [H1 Hr1].
  set (w1 := exec (AddHistory _ _ _ _ _ _ _) w) in *.
  pose proof (Now_acts (rule_ID rule) fp w1 (act_calm H1)) as H2.
  set (w2 := exec Now w1) in *. set (tn := fst (Now w1)).
  assert (is_Some (row (rule_ID rule) fp w2)) as Hrow2 by (by rewrite <-Hr1 in Hrow).
  pose proof (SetLastNotified_acts _ _ tn w2 (act_calm H2) Hrow2) as H3.
  exists tn. split; [eexists; apply H2|]. rewrite <-Hr1. change (row _ fp w1) with (row (rule_ID rule) fp w2).
  eapply (acted_trans _ _ _ _ _ _ _ [] _ ["firing"%string] []); [apply H1|].
  eapply (acted_trans _ _ _ _ _ _ _ [] _ [] []); [apply H2|].
  eapply (acted_trans _ _ _ _ _ _ _ [] _ [] []); [apply H3|].
  rewrite <-(act_row H3).
  apply notify_acts; [apply H3|done].
Qed.

Lemma recover_acts rule fp labels v w :
  calm w -> is_nan v = false -> Fingerprint labels = fp ->
  acted (rule_ID rule) fp w (exec (recover e rule labels v) w)
    (view (row (rule_ID rule) fp w)) (mailed e ["recovered"%string]) ["recovered"%string].
Proof.
  intros Hw Hv Hfp. unfold recover. rewrite Hfp. run.
  destruct (AddHistory_acts (rule_ID rule) (rule_Name rule) fp labels
    (rule_Expr rule) v "recovered" w Hw Hv) as [H1 Hr1].
  eapply (acted_trans _ _ _ _ _ _ _ [] _ ["recovered"%string] []); [apply H1|].
  rewrite <-Hr1. apply notify_acts; [apply H1|done].
Qed.

Lemma refresh_acts rule fp inst status ps fs w :
  calm w -> storable fp inst ->
  acted (rule_ID rule) fp w
    (exec (UpsertState (rule_ID rule) fp (i_labels inst) status (i_value inst) ps fs ;;;
           ret tt) w)
    (to_phase (upsert_phase status ps fs) (view (row (rule_ID rule) fp w))) [] [].
Proof. intros Hw [_ Hv]. run. by apply UpsertState_acts. Qed.

Lemma upsert_fire_acts rule fp inst ps fs w :
  calm w -> storable fp inst ->
  exists tn, ticks tn /\ acted (rule_ID rule) fp w
    (exec (UpsertState (rule_ID rule) fp (i_labels inst) "firing" (i_value inst) ps fs ;;;
           fire e rule inst) w)
    (notified_at tn (to_phase (Firing (time_of (formatPtrTime fs)))
                       (view (row (rule_ID rule) fp w))))
    (mailed e ["firing"%string]) ["firing"%string].
Proof.
  intros Hw Hl. run.
  destruct (UpsertState_acts (rule_ID rule) fp (i_labels inst) "firing" (i_value inst)
    ps fs w Hw (proj2 Hl)) as [H1 Hsome].
  destruct (fire_acts rule fp inst _ (act_calm H1) Hl Hsome) as (tn & Ht & H2).
  exists tn. split; [done|]. rewrite (act_row H1) in H2.
  by eapply (acted_trans _ _ _ _ _ _ _ [] _ [] _).
Qed.

(** The snapshot the evaluator took agrees with the instance's row. *)
Definition snapshot (rid : Z) (fp : string) (historical : list AlertState) (w : World) :=
  findState historical fp =
    match row rid fp w with
    | Some r => if active (s_status r) then Some (scan_state rid fp r) else None
    | None => None
    end.

(** How the snapshot presents each phase. *)
Inductive seen (rid : Z) (fp : string) (w : World) : option AlertState -> Prop :=
| seen_inactive : in_phase (view (row rid fp w)) = Inactive -> seen rid fp w None
| seen_active r :
    row rid fp w = Some r -> active (s_status r) = true ->
    seen rid fp w (Some (scan_state rid fp r)).

Lemma snapshot_seen rid fp historical w :
  snapshot rid fp historical w -> seen rid fp w (findState historical fp).
Proof.
  unfold snapshot. intros ->. destruct (row rid fp w) as [r|] eqn:E.
  - destruct (active (s_status r)) eqn:Ha; [by econstructor|].
    constructor. rewrite E. simpl. unfold phase_of, active in *.
    rewrite orb_false_iff, !bool_decide_eq_false in Ha. destruct Ha.
    by rewrite !decide_False.
  - constructor. by rewrite E.
Qed.

Lemma active_phase r :
  active (s_status r) = true ->
  (s_status r = "pending"%string /\ phase_of r = Pending (time_of (s_pending_since r))) \/
  (s_status r = "firing"%string /\ phase_of r = Firing (time_of (s_firing_since r))).
Proof.
  unfold active, phase_of. rewrite orb_true_iff, !bool_decide_eq_true.
  intros [Hs|Hs]; rewrite Hs; [left|right]; done.
Qed.

Lemma stamp_of_now now :
  time_of (formatPtrTime (Some now)) = stamp now.
Proof. done. Qed.

Lemma keep_of_stored now s :
  time_of (formatPtrTime (Some (default now (time_of s)))) = keep now (time_of s).
Proof. apply stamp_keep. Qed.

(** ** The three cases of a present series *)
Lemma evalNew_acts rule now fp inst w :
  calm w -> storable fp inst ->
  in_phase (view (row (rule_ID rule) fp w)) = Inactive ->
  exists i' evs, transition (rule_Duration rule) now ticks true
      (view (row (rule_ID rule) fp w)) i' evs /\
    acted (rule_ID rule) fp w (exec (evalNew e rule now fp inst) w) i' (mailed e evs) evs.
Proof.
  intros Hw Hl Hp. unfold evalNew. destruct (Z.eqb_spec (rule_Duration rule) 0) as [Hd|Hd].
  - destruct (upsert_fire_acts rule fp inst None (Some now) w Hw Hl) as (tn & Htn & H).
    eexists _, _. split; [by apply (T_enter_firing _ _ _ _ tn)|done].
  - eexists _, []. split; [by apply T_enter_pending|].
    replace (mailed e []) with (@nil string) by (by unfold mailed; destruct (ev_email e)).
    by apply refresh_acts.
Qed.

Lemma mailed_nil : mailed e [] = [].
Proof. unfold mailed. by destruct (ev_email e). Qed.

Lemma evalPending_acts rule now fp inst w r :
  calm w -> storable fp inst ->
  row (rule_ID rule) fp w = Some r ->
  phase_of r = Pending (time_of (s_pending_since r)) ->
  exists i' evs, transition (rule_Duration rule) now ticks true
      (view (row (rule_ID rule) fp w)) i' evs /\
    acted (rule_ID rule) fp w
      (exec (evalPending e rule now fp inst (scan_state (rule_ID rule) fp r)) w)
      i' (mailed e evs) evs.
Proof.
  intros Hw Hl Hr Hp. unfold evalPending. simpl st_PendingSince.
  fold (time_of (s_pending_since r)).
  assert (in_phase (view (row (rule_ID rule) fp w)) = Pending (time_of (s_pending_since r)))
    as Hph by (by rewrite Hr).
  destruct (Z.leb_spec (dur_mul (rule_Duration rule) Second)
    (Sub now (default now (time_of (s_pending_since r))))) as [Hd|Hd].
  - destruct (upsert_fire_acts rule fp inst None (Some now) w Hw Hl) as (tn & Htn & H).
    eexists _, _. split; [by eapply (T_escalate _ _ _ _ _ tn)|done].
  - eexists _, []. split; [by eapply T_keep_pending|]. rewrite mailed_nil, <-stamp_keep.
    by apply refresh_acts.
Qed.

Lemma rate_limited_acts rule now fp inst w i since notified :
  calm w -> storable fp inst ->
  view (row (rule_ID rule) fp w) = lift_expired now i ->
  in_phase i = Firing (time_of since) -> in_acked i = None -> ~ silenced now i ->
  in_notified i = notified ->
  let refresh := UpsertState (rule_ID rule) fp (i_labels inst) "firing" (i_value inst)
                   None (Some (default now (time_of since))) in
  exists i' evs, transition (rule_Duration rule) now ticks true i i' evs /\
    acted (rule_ID rule) fp w
      (exec (match notified with
             | Some ln => if Sub now ln <? notifyInterval
                          then refresh ;;; ret tt else refresh ;;; fire e rule inst
             | None => refresh ;;; fire e rule inst
             end) w) i' (mailed e evs) evs.
Proof.
  intros Hw Hl Hview Hph Hack Hsil Hnot refresh.
  assert (forall p, to_phase p (lift_expired now i) = lift_expired now (to_phase p i)) as Hlift.
  { intros p. unfold lift_expired. simpl. destruct (in_silence i); [|done].
    by destruct (decide _). }
  assert ((forall n, notified = Some n -> notifyInterval <= Sub now n) ->
    exists i' evs, transition (rule_Duration rule) now ticks true i i' evs /\
      acted (rule_ID rule) fp w (exec (refresh ;;; fire e rule inst) w) i'
        (mailed e evs) evs) as Hfire.
  { intros Hn. destruct (upsert_fire_acts rule fp inst None
      (Some (default now (time_of since))) w Hw Hl) as (tn & Htn & H).
    eexists _, _. split; [|exact H]. rewrite Hview, keep_of_stored, Hlift.
    eapply T_repeat; [done..| |done]. by rewrite Hnot. }
  destruct notified as [n|]; [|by apply Hfire].
  destruct (Z.ltb_spec (Sub now n) notifyInterval) as [Hlt|Hge].
  - eexists _, []. split; [by eapply T_limited|].
    rewrite mailed_nil, <-Hlift, <-Hview, <-keep_of_stored. by apply refresh_acts.
  - apply Hfire. by intros ? [= <-].
Qed.

Lemma evalFiring_acts rule now fp inst w r :
  calm w -> storable fp inst ->
  row (rule_ID rule) fp w = Some r ->
  phase_of r = Firing (time_of (s_firing_since r)) ->
  exists i' evs, transition (rule_Duration rule) now ticks true
      (view (row (rule_ID rule) fp w)) i' evs /\
    acted (rule_ID rule) fp w
      (exec (evalFiring e rule now fp inst (scan_state (rule_ID rule) fp r)) w)
      i' (mailed e evs) evs.
Proof.
  intros Hw Hl Hr Hp. unfold evalFiring. simpl st_FiringSince.
  simpl st_AcknowledgedAt. simpl st_SilenceUntil. simpl st_LastNotifiedAt.
  fold (time_of (s_acknowledged_at r)) (time_of (s_silence_until r))
    (time_of (s_last_notified_at r)) (time_of (s_firing_since r)).
  assert (in_phase (view (row (rule_ID rule) fp w)) = Firing (time_of (s_firing_since r)))
    as Hph by (by rewrite Hr).
  assert (in_acked (view (row (rule_ID rule) fp w)) = time_of (s_acknowledged_at r))
    as Ha by (by rewrite Hr).
  assert (in_silence (view (row (rule_ID rule) fp w)) = time_of (s_silence_until r))
    as Hs by (by rewrite Hr).
  assert (in_notified (view (row (rule_ID rule) fp w)) = time_of (s_last_notified_at r))
    as Hn by (by rewrite Hr).
  destruct (time_of (s_acknowledged_at r)) as [a|].
  { eexists _, []. split; [by eapply T_acked|]. rewrite mailed_nil, <-stamp_keep.
    by apply refresh_acts. }
  destruct (time_of (s_silence_until r)) as [su|] eqn:Esu.
  - unfold Before. destruct (Z.ltb_spec now su) as [Hlt|Hge].
    + eexists _, []. split; [eapply T_silenced; [done..|by exists su]|].
      rewrite mailed_nil, <-stamp_keep. by apply refresh_acts.
    + pose proof (ClearAck_acts (rule_ID rule) fp w Hw) as H1. rewrite exec_seq.
      edestruct (rate_limited_acts rule now fp inst (exec (ClearAck (rule_ID rule) fp) w)
        (view (row (rule_ID rule) fp w)) (s_firing_since r)) as (i' & evs & Ht & H2);
        [apply H1|done| |done|done| |done|].
      * rewrite (act_row H1). unfold lift_expired. rewrite Hs.
        rewrite decide_False by lia. done.
      * intros (u & Hu & ?). rewrite Hs in Hu. simplify_eq. lia.
      * exists i', evs. split; [done|].
        by eapply (acted_trans _ _ _ _ _ _ _ [] _ [] _).
  - edestruct (rate_limited_acts rule now fp inst w
      (view (row (rule_ID rule) fp w)) (s_firing_since r)) as (i' & evs & Ht & H2);
      [done|done| |done|done| |done|].
    * unfold lift_expired. by rewrite Hs.
    * intros (u & Hu & ?). by rewrite Hs in Hu.
    * eauto.
Qed.

(** *** A value the database cannot hold *)
Lemma fire_unstored rule fp inst w :
  calm w -> labelled fp inst -> is_nan (i_value inst) = true ->
  exists tn, ticks tn /\
    acted (rule_ID rule) fp w (exec (fire e rule inst) w) (noted tn (row (rule_ID rule) fp w))
      (mailed e ["firing"%string]) [].
Proof.
  intros Hw [Hi Hfp] Hv. unfold fire. rewrite Hi. run.
  rewrite AddHistory_unstored by (apply Hw || done).
  pose proof (Now_acts (rule_ID rule) fp w Hw) as H1. set (w1 := exec Now w) in *.
  pose proof (Now_acts (rule_ID rule) fp w1 (act_calm H1)) as H2.
  set (w2 := exec Now w1) in *. set (tn := fst (Now w1)).
  pose proof (SetLastNotified_notes (rule_ID rule) fp tn w2 (act_calm H2)) as H3.
  exists tn. split; [eexists; apply H2|].
  change (row (rule_ID rule) fp w) with (row (rule_ID rule) fp w2).
  eapply (acted_trans _ _ _ _ _ _ _ [] _ [] []); [apply H1|].
  eapply (acted_trans _ _ _ _ _ _ _ [] _ [] []); [apply H2|].
  eapply (acted_trans _ _ _ _ _ _ _ [] _ [] []); [apply H3|].
  rewrite <-(act_row H3). apply notify_acts; [apply H3|done].
Qed.

Lemma refresh_unstored {A} rule fp inst status ps fs (k : M A) w :
  calm w -> is_nan (i_value inst) = true ->
  exec (UpsertState (rule_ID rule) fp (i_labels inst) status (i_value inst) ps fs ;;; k) w = exec k w.
Proof. intros Hw Hv. rewrite exec_seq. by rewrite UpsertState_unstored by (apply Hw || done). Qed.

(** What [unstored] says of the tick an evaluation makes. *)
Definition unstored_ok rule now fp w (k : M unit) : Prop :=
  exists i' evs, unstored (rule_Duration rule) now ticks (view (row (rule_ID rule) fp w)) i' evs /\
    acted (rule_ID rule) fp w (exec k w) i' (mailed e evs) [].

Lemma quiet_unstored rule now fp w :
  calm w -> unstored (rule_Duration rule) now ticks (view (row (rule_ID rule) fp w))
    (view (row (rule_ID rule) fp w)) [] ->
  unstored_ok rule now fp w (ret tt).
Proof. intros Hw Hu. eexists _, []. split; [exact Hu|]. rewrite mailed_nil. by apply acted_refl. Qed.

Lemma evalNew_unstored rule now fp inst w :
  calm w -> labelled fp inst -> is_nan (i_value inst) = true ->
  in_phase (view (row (rule_ID rule) fp w)) = Inactive ->
  unstored_ok rule now fp w (evalNew e rule now fp inst).
Proof.
  intros Hw Hl Hv Hp. unfold unstored_ok, evalNew.
  destruct (Z.eqb_spec (rule_Duration rule) 0) as [Hd|Hd]; rewrite refresh_unstored by done.
  - destruct (fire_unstored rule fp inst w Hw Hl Hv) as (tn & Htn & H).
    eexists _, _. split; [|exact H]. eapply U_new_reported; [done..|].
    destruct (row _ fp w); [by right|by left].
  - apply quiet_unstored; [done|]. by apply U_new.
Qed.

Lemma evalPending_unstored rule now fp inst w r :
  calm w -> labelled fp inst -> is_nan (i_value inst) = true ->
  row (rule_ID rule) fp w = Some r -> phase_of r = Pending (time_of (s_pending_since r)) ->
  unstored_ok rule now fp w (evalPending e rule now fp inst (scan_state (rule_ID rule) fp r)).
Proof.
  intros Hw Hl Hv Hr Hp. unfold unstored_ok, evalPending. simpl st_PendingSince.
  fold (time_of (s_pending_since r)).
  destruct (Z.leb_spec (dur_mul (rule_Duration rule) Second)
    (Sub now (default now (time_of (s_pending_since r))))) as [Hd|Hd]; rewrite refresh_unstored by done.
  - destruct (fire_unstored rule fp inst w Hw Hl Hv) as (tn & Htn & H). rewrite Hr in H |- *.
    eexists _, _. split; [|exact H]. by eapply U_due.
  - apply quiet_unstored; [done|]. rewrite Hr. by eapply U_pending.
Qed.

Lemma rate_limited_unstored rule now fp inst w i since notified fs :
  calm w -> labelled fp inst -> is_nan (i_value inst) = true ->
  is_Some (row (rule_ID rule) fp w) -> view (row (rule_ID rule) fp w) = lift_expired now i ->
  in_phase i = Firing since -> in_acked i = None -> ~ silenced now i ->
  in_notified i = notified ->
  let refresh := UpsertState (rule_ID rule) fp (i_labels inst) "firing" (i_value inst) None fs in
  exists i' evs, unstored (rule_Duration rule) now ticks i i' evs /\
    acted (rule_ID rule) fp w
      (exec (match notified with
             | Some ln => if Sub now ln <? notifyInterval
                          then refresh ;;; ret tt else refresh ;;; fire e rule inst
             | None => refresh ;;; fire e rule inst
             end) w) i' (mailed e evs) [].
Proof.
  intros Hw Hl Hv [r Hr] Hview Hph Hack Hsil Hnot refresh.
  assert ((forall n, notified = Some n -> notifyInterval <= Sub now n) ->
    exists i' evs, unstored (rule_Duration rule) now ticks i i' evs /\
      acted (rule_ID rule) fp w (exec (refresh ;;; fire e rule inst) w) i' (mailed e evs) []) as Hfire.
  { intros Hn. unfold refresh. rewrite refresh_unstored by done.
    destruct (fire_unstored rule fp inst w Hw Hl Hv) as (tn & Htn & H).
    rewrite Hr in H. unfold noted in H. rewrite <-Hr, Hview in H.
    eexists _, _. split; [|exact H]. eapply U_repeat; [done..| |done]. by rewrite Hnot. }
  destruct notified as [n|]; [|by apply Hfire].
  destruct (Z.ltb_spec (Sub now n) notifyInterval) as [Hlt|Hge].
  - unfold refresh. rewrite refresh_unstored by done. eexists _, []. split; [by eapply U_limited|].
    rewrite mailed_nil, <-Hview. by apply acted_refl.
  - apply Hfire. by intros ? [= <-].
Qed.

Lemma evalFiring_unstored rule now fp inst w r :
  calm w -> labelled fp inst -> is_nan (i_value inst) = true ->
  row (rule_ID rule) fp w = Some r -> phase_of r = Firing (time_of (s_firing_since r)) ->
  unstored_ok rule now fp w (evalFiring e rule now fp inst (scan_state (rule_ID rule) fp r)).
Proof.
  intros Hw Hl Hv Hr Hp. unfold unstored_ok, evalFiring. simpl st_FiringSince.
  simpl st_AcknowledgedAt. simpl st_SilenceUntil. simpl st_LastNotifiedAt.
  fold (time_of (s_acknowledged_at r)) (time_of (s_silence_until r))
    (time_of (s_last_notified_at r)) (time_of (s_firing_since r)).
  assert (Hi : view (row (rule_ID rule) fp w) = view (Some r)) by (by rewrite Hr).
  destruct (time_of (s_acknowledged_at r)) as [a|] eqn:Ea.
  { rewrite refresh_unstored by done. apply quiet_unstored; [done|]. rewrite Hi. by eapply U_acked. }
  destruct (time_of (s_silence_until r)) as [su|] eqn:Esu.
  - unfold Before. destruct (Z.ltb_spec now su) as [Hlt|Hge].
    + rewrite refresh_unstored by done. apply quiet_unstored; [done|]. rewrite Hi.
      eapply U_silenced; [done..|]. by exists su.
    + pose proof (ClearAck_acts (rule_ID rule) fp w Hw) as H1. rewrite exec_seq.
      edestruct (rate_limited_unstored rule now fp inst (exec (ClearAck (rule_ID rule) fp) w)
        (view (row (rule_ID rule) fp w))) as (i' & evs & Ht & H2);
        [apply H1|done|done| | |by rewrite Hi|by rewrite Hi| |by rewrite Hi|].
      * unfold ClearAck. run. erewrite db_exec_world by (apply Hw || done). unfold row in *. simpl.
        rewrite lookup_alter_eq, Hr. by eexists.
      * rewrite (act_row H1), Hi. unfold lift_expired. simpl. rewrite Esu. by rewrite decide_False by lia.
      * rewrite Hi. intros (u & Hu & ?). simpl in Hu. rewrite Esu in Hu. simplify_eq. lia.
      * exists i', evs. split; [done|]. by eapply (acted_trans _ _ _ _ _ _ _ [] _ [] []).
  - edestruct (rate_limited_unstored rule now fp inst w (view (row (rule_ID rule) fp w)))
      as (i' & evs & Ht & H2);
      [done|done|done|by rewrite Hr| |by rewrite Hi|by rewrite Hi| |by rewrite Hi|by eauto].
    + rewrite Hi. unfold lift_expired. simpl. by rewrite Esu.
    + rewrite Hi. intros (u & Hu & ?). simpl in Hu. by rewrite Esu in Hu.
Qed.

Lemma evalPresent_acts rule historical now fp inst w :
  calm w -> labelled fp inst -> snapshot (rule_ID rule) fp historical w ->
  exists i' ms hs, evaluated (rule_Duration rule) now ticks (Some (i_value inst))
      (view (row (rule_ID rule) fp w)) i' ms hs /\
    acted (rule_ID rule) fp w (exec (evalPresent e rule historical now fp inst) w)
      i' (mailed e ms) hs.
Proof.
  intros Hw Hl Hs%snapshot_seen. destruct (is_nan (i_value inst)) eqn:Hv.
  - enough (unstored_ok rule now fp w (evalPresent e rule historical now fp inst))
      as (i' & evs & Hu & Ha) by (exists i', evs, []; split; [by apply E_unstored|exact Ha]).
    unfold evalPresent. destruct Hs as [Hp|r Hr Hact]; [by apply evalNew_unstored|].
    simpl st_Status. destruct (active_phase r Hact) as [[-> Hp]|[-> Hp]]; simpl.
    + by apply evalPending_unstored.
    + by apply evalFiring_unstored.
  - assert (storable fp inst) as Hst by done.
    enough (exists i' evs, transition (rule_Duration rule) now ticks true
        (view (row (rule_ID rule) fp w)) i' evs /\
      acted (rule_ID rule) fp w (exec (evalPresent e rule historical now fp inst) w)
        i' (mailed e evs) evs) as (i' & evs & Ht & Ha)
      by (exists i', evs, evs; split; [by apply E_stored|exact Ha]).
    unfold evalPresent. destruct Hs as [Hp|r Hr Hact]; [by apply evalNew_acts|].
    simpl st_Status. destruct (active_phase r Hact) as [[-> Hp]|[-> Hp]]; simpl.
    + by apply evalPending_acts.
    + by apply evalFiring_acts.
Qed.

(** ** A persisted row whose series is gone *)
Lemma evalAbsent_acts rule current now fp r w :
  calm w -> current !! fp = None ->
  row (rule_ID rule) fp w = Some r -> active (s_status r) = true ->
  Fingerprint (decodeLabels (s_labels_json r)) = fp -> is_nan (s_last_value r) = false ->
  exists i' evs, transition (rule_Duration rule) now ticks false (view (Some r)) i' evs /\
    acted (rule_ID rule) fp w
      (exec (evalAbsent e rule current (scan_state (rule_ID rule) fp r)) w)
      i' (mailed e evs) evs.
Proof.
  intros Hw Hcur Hr Hact Hfp Hv. unfold evalAbsent. simpl st_Fingerprint. rewrite Hcur.
  set (lbl := decodeLabels (s_labels_json r)) in *. simpl.
  pose proof (UpsertState_acts (rule_ID rule) fp lbl "ok" (s_last_value r) None None w Hw Hv)
    as [H1 _]. rewrite Hr in H1.
  destruct (active_phase r Hact) as [[Hs Hp]|[Hs Hp]].
  - rewrite bool_decide_eq_true_2 by done. eexists _, [].
    split; [by eapply T_drop|]. rewrite mailed_nil. run. exact H1.
  - rewrite bool_decide_eq_false_2 by (by rewrite Hs).
    rewrite bool_decide_eq_true_2 by done. run.
    eexists _, _. split; [by eapply T_resolve|].
    pose proof (ClearAck_acts (rule_ID rule) fp _ (act_calm H1)) as H2.
    pose proof (recover_acts rule fp lbl (s_last_value r) _ (act_calm H2) Hv Hfp)
      as H3.
    rewrite (act_row H2), (act_row H1) in H3.
    eapply (acted_trans _ _ _ _ _ _ _ [] _ [] _); [apply H1|].
    eapply (acted_trans _ _ _ _ _ _ _ [] _ [] _); [apply H2|exact H3].
Qed.

(** ** Loops whose body acts on one instance each *)
Record observed (rid : Z) (fp : string) (w w' : World) (i' : Inst) (ms hs : list string)
    : Prop := {
  ob_row : view (row rid fp w') = i';
  ob_mail : mail_events rid fp w' = mail_events rid fp w ++ ms;
  ob_history : history_events rid fp w' = history_events rid fp w ++ hs
}.

Definition untouched (rid : Z) (fp : string) (w w' : World) : Prop :=
  row rid fp w' = row rid fp w /\ mail_events rid fp w' = mail_events rid fp w /\
  history_events rid fp w' = history_events rid fp w.

Lemma acted_observed rid fp w w' i' ms hs :
  acted rid fp w w' i' ms hs -> observed rid fp w w' i' ms hs.
Proof.
  intros [_ Hr _ Hm Hh]. split; [done|..].
  - rewrite Hm. by rewrite decide_True.
  - rewrite Hh. by rewrite decide_True.
Qed.

Lemma acted_untouched rid fp fp' w w' i' ms hs :
  acted rid fp w w' i' ms hs -> fp' <> fp -> untouched rid fp' w w'.
Proof.
  intros [_ _ Hf Hm Hh] Hne. split_and!.
  - apply Hf. congruence.
  - rewrite Hm, decide_False by done. apply app_nil_r.
  - rewrite Hh, decide_False by done. apply app_nil_r.
Qed.

Lemma untouched_trans rid fp w1 w2 w3 :
  untouched rid fp w1 w2 -> untouched rid fp w2 w3 -> untouched rid fp w1 w3.
Proof. intros (? & ? & ?) (? & ? & ?). split_and!; congruence. Qed.

Lemma untouched_observed rid fp w1 w2 w3 i ms hs :
  untouched rid fp w1 w2 -> observed rid fp w2 w3 i ms hs -> observed rid fp w1 w3 i ms hs.
Proof. intros (Hr & Hm & Hh) []. split; congruence. Qed.

Lemma observed_untouched rid fp w1 w2 w3 i ms hs :
  observed rid fp w1 w2 i ms hs -> untouched rid fp w2 w3 -> observed rid fp w1 w3 i ms hs.
Proof. intros [] (Hr & Hm & Hh). split; congruence. Qed.

Lemma untouched_same rid fp w w' :
  untouched rid fp w w' -> observed rid fp w w' (view (row rid fp w)) [] [].
Proof. intros (Hr & ? & ?). split; rewrite ?app_nil_r; congruence. Qed.

Section loops.
Context {A : Type} (rid : Z) (f : A -> M unit) (key : A -> string)
        (T : A -> Inst -> Inst -> list string -> list string -> Prop).

Definition body_ok (w0 : World) (x : A) : Prop := forall w,
  calm w -> row rid (key x) w = row rid (key x) w0 ->
  exists i' ms hs, T x (view (row rid (key x) w0)) i' ms hs /\
    acted rid (key x) w (exec (f x) w) i' (mailed e ms) hs.

Lemma loop_acts xs w0 :
  calm w0 -> NoDup (key <$> xs) -> (forall x, x ∈ xs -> body_ok w0 x) ->
  calm (exec (loop f xs) w0) /\
  (forall x, x ∈ xs -> exists i' ms hs, T x (view (row rid (key x) w0)) i' ms hs /\
     observed rid (key x) w0 (exec (loop f xs) w0) i' (mailed e ms) hs) /\
  (forall fp, fp ∉ key <$> xs -> untouched rid fp w0 (exec (loop f xs) w0)).
Proof.
  revert w0. induction xs as [|x xs IH]; intros w0 Hw Hnd Hbody.
  { split_and!; [done|intros x Hx; by apply elem_of_nil in Hx|done]. }
  rewrite exec_loop_cons. rewrite fmap_cons, NoDup_cons in Hnd. destruct Hnd as [Hx Hnd].
  destruct (Hbody x ltac:(by left) w0 Hw eq_refl) as (i1 & ms1 & hs1 & HT & H1).
  set (w1 := exec (f x) w0) in *.
  assert (forall y, y ∈ xs -> untouched rid (key y) w0 w1) as Hkeep.
  { intros y Hy. apply (acted_untouched _ _ _ _ _ _ _ _ H1). intros E.
    apply Hx. rewrite <-E. by apply list_elem_of_fmap_2. }
  destruct (IH w1 (act_calm H1) Hnd) as (Hf & Hin & Hout).
  { intros y Hy w Hwf Hr. destruct (Hkeep y Hy) as [Hk _].
    rewrite Hk in Hr |- *. apply Hbody; [by right|done..]. }
  split_and!; [done|..].
  - intros y [->|Hy]%elem_of_cons.
    + exists i1, ms1, hs1. split; [done|].
      eapply observed_untouched; [by apply acted_observed|by apply Hout].
    + destruct (Hin y Hy) as (i' & ms & hs & HT' & Ho). destruct (Hkeep y Hy) as [Hk ?].
      rewrite Hk in HT'. exists i', ms, hs. split; [done|].
      eapply untouched_observed; [|done]. by apply Hkeep.
  - intros fp Hfp. rewrite fmap_cons, not_elem_of_cons in Hfp. destruct Hfp as [Hne Hfp].
    eapply untouched_trans; [by eapply acted_untouched|by apply Hout].
Qed.
End loops.

(** ** The snapshot read at the start of an evaluation *)
Lemma elem_of_rows_of_rule rid db fp r :
  (fp, r) ∈ rows_of_rule rid db <-> alert_state db !! (rid, fp) = Some r.
Proof.
  unfold rows_of_rule. rewrite list_elem_of_fmap, <-elem_of_range. split.
  - intros ([[rid' fp'] r'] & E & Hin). simplify_eq/=.
    apply list_elem_of_filter in Hin as [Hr Hin]. simpl in Hr. by subst.
  - intros Hin. exists ((rid, fp), r). split; [done|]. by apply list_elem_of_filter.
Qed.

Lemma NoDup_rows_of_rule rid db : NoDup (rows_of_rule rid db).*1.
Proof.
  unfold rows_of_rule. rewrite <-list_fmap_compose.
  pose proof (NoDup_range_keys (alert_state db)) as Hnd.
  induction (range (alert_state db)) as [|[[rid' fp'] r'] rows IH]; [constructor|].
  rewrite fmap_cons, NoDup_cons in Hnd. destruct Hnd as [Hx Hnd]. rewrite filter_cons.
  case_decide as Hc; [|by apply IH]. simpl in Hc. subst. rewrite fmap_cons. constructor; [|by apply IH].
  intros Hin. apply Hx. apply list_elem_of_fmap in Hin as ([[rid2 fp2] r2] & E & Hin).
  apply list_elem_of_filter in Hin as [E2 Hin]. simplify_eq/=.
  apply list_elem_of_fmap. by exists (rid, fp2, r2).
Qed.

Definition active_rows (rid : Z) (db : DB) : list (string * StateRow) :=
  filter (fun row => active (s_status row.2) = true) (rows_of_rule rid db).

Definition states_of (rid : Z) (rows : list (string * StateRow)) : list AlertState :=
  (fun row => scan_state rid row.1 row.2) <$> rows.

Lemma states_of_keys rid rows : st_Fingerprint <$> states_of rid rows = rows.*1.
Proof. unfold states_of. rewrite <-list_fmap_compose. by apply list_fmap_ext. Qed.

Lemma NoDup_active_rows rid db : NoDup (active_rows rid db).*1.
Proof.
  eapply sublist_NoDup; [apply NoDup_rows_of_rule|].
  apply fmap_sublist. apply sublist_filter.
Qed.

Lemma findState_rows rid rows fp r :
  NoDup rows.*1 -> (fp, r) ∈ rows ->
  findState (states_of rid rows) fp = Some (scan_state rid fp r).
Proof.
  induction rows as [|[fp' r'] rows IH]; intros Hnd Hin; [by apply elem_of_nil in Hin|].
  rewrite fmap_cons, NoDup_cons in Hnd. destruct Hnd as [Hx Hnd]. unfold findState in *. simpl.
  apply elem_of_cons in Hin as [E|Hin].
  - simplify_eq. by rewrite bool_decide_eq_true_2.
  - rewrite bool_decide_eq_false_2; [by apply IH|]. intros ->.
    apply Hx. apply list_elem_of_fmap. by exists (fp, r).
Qed.

Lemma findState_absent rid rows fp :
  fp ∉ rows.*1 -> findState (states_of rid rows) fp = None.
Proof.
  induction rows as [|[fp' r'] rows IH]; intros Hin; [done|].
  rewrite fmap_cons, not_elem_of_cons in Hin. destruct Hin. unfold findState in *. simpl.
  rewrite bool_decide_eq_false_2 by (simpl in *; congruence). by apply IH.
Qed.

Lemma snapshot_taken rid fp w :
  snapshot rid fp (states_of rid (active_rows rid (w_db w))) w.
Proof.
  unfold snapshot, row. destruct (alert_state (w_db w) !! (rid, fp)) as [r|] eqn:Hr.
  - destruct (active (s_status r)) eqn:Ha.
    + apply findState_rows; [apply NoDup_active_rows|]. apply list_elem_of_filter.
      by rewrite elem_of_rows_of_rule.
    + apply findState_absent. rewrite list_elem_of_fmap. intros ([fp' r'] & -> & Hin).
      apply list_elem_of_filter in Hin as [Ha' Hin%elem_of_rows_of_rule]. simplify_eq/=.
      congruence.
  - apply findState_absent. rewrite list_elem_of_fmap. intros ([fp' r'] & -> & Hin).
    apply list_elem_of_filter in Hin as [_ Hin%elem_of_rows_of_rule]. simplify_eq/=.
Qed.

(** ** The series of one answer *)
Definition series (results : list Vector) : list string :=
  (fun vec => Fingerprint (default ∅ (v_Metric vec))) <$> results.

Lemma current_of_snoc results vec :
  current_of (results ++ [vec]) =
  <[i_fingerprint (instance_of vec) := instance_of vec]> (current_of results).
Proof. unfold current_of. by rewrite foldl_app. Qed.

Lemma current_of_labelled results fp inst :
  current_of results !! fp = Some inst -> labelled fp inst.
Proof.
  induction results as [|vec results IH] using rev_ind; [done|].
  rewrite current_of_snoc, lookup_insert_Some. intros [[<- <-]|[_ ?]]; [done|by apply IH].
Qed.

Lemma current_of_series results fp :
  is_Some (current_of results !! fp) <-> fp ∈ series results.
Proof.
  induction results as [|vec results IH] using rev_ind.
  - split; [by intros [? ?]|by intros ?%elem_of_nil].
  - rewrite current_of_snoc. unfold series in *.
    rewrite fmap_app, elem_of_app, <-IH, lookup_insert_is_Some'. simpl.
    rewrite list_elem_of_singleton. split; (intros [?|?]; subst; [tauto|tauto]).
Qed.

(** The stored labels are those the row's key was computed from, and a stored
    value is a number. *)
Definition rows_stored (db : DB) : Prop := forall rid fp r,
  alert_state db !! (rid, fp) = Some r ->
  Fingerprint (decodeLabels (s_labels_json r)) = fp /\ is_nan (s_last_value r) = false.

(** ** One evaluation *)

(** The value of a series in an answer, the last one of its fingerprint. *)
Definition value_now (results : list Vector) (fp : string) : option float64 :=
  i_value <$> current_of results !! fp.

Lemma value_now_None results fp : value_now results fp = None <-> current_of results !! fp = None.
Proof. unfold value_now. by rewrite fmap_None. Qed.

Lemma evaluateRule_run vm rule results w :
  w_turns w = [] -> vm (rule_Expr rule) = Ok results ->
  let historical := states_of (rule_ID rule) (active_rows (rule_ID rule) (w_db w)) in
  let current := current_of results in
  exec (evaluateRule e vm rule) w =
  exec (loop (evalAbsent e rule current) historical)
    (exec (loop (fun fi => evalPresent e rule historical (fst (Now w)) fi.1 fi.2)
             (range current)) (exec Now w)).
Proof.
  intros Hw Hvm. unfold evaluateRule. rewrite Hvm. cbv zeta.
  rewrite exec_bind. unfold GetActiveStatesForRule.
  unfold exec at 2. rewrite !db_query_ok by done. cbn [fst snd].
  by rewrite exec_bind, exec_seq.
Qed.

Lemma present_loop_acts rule historical now results w :
  calm w ->
  (forall fp, snapshot (rule_ID rule) fp historical w) ->
  let w' := exec (loop (fun fi => evalPresent e rule historical now fi.1 fi.2)
              (range (current_of results))) w in
  calm w' /\
  (forall fp v, value_now results fp = Some v -> exists i' ms hs,
     evaluated (rule_Duration rule) now ticks (Some v) (view (row (rule_ID rule) fp w)) i' ms hs /\
     observed (rule_ID rule) fp w w' i' (mailed e ms) hs) /\
  (forall fp, value_now results fp = None -> untouched (rule_ID rule) fp w w').
Proof.
  intros Hw Hsnap w'.
  destruct (loop_acts (rule_ID rule)
    (fun fi : string * instance => evalPresent e rule historical now fi.1 fi.2) fst
    (fun fi => evaluated (rule_Duration rule) now ticks (Some (i_value fi.2)))
    (range (current_of results)) w Hw (NoDup_range_keys _)) as (Hf & Hin & Hout).
  - intros [fp inst] Hx%elem_of_range. simpl. intros w0 Hw0 Hrow. rewrite <-Hrow.
    apply evalPresent_acts; [done|by eapply current_of_labelled|].
    specialize (Hsnap fp). unfold snapshot in *. by rewrite Hrow.
  - split_and!; [done| |].
    + intros fp v Hv. unfold value_now in Hv. apply fmap_Some in Hv as (inst & Hc & ->).
      by apply (Hin (fp, inst)), elem_of_range.
    + intros fp Hv%value_now_None. apply Hout. rewrite list_elem_of_fmap.
      intros ([fp' inst] & -> & Hc%elem_of_range). simpl in *. congruence.
Qed.

Lemma absent_loop_acts rule now results w0 w :
  let rid := rule_ID rule in
  calm w -> rows_stored (w_db w0) ->
  (forall fp, value_now results fp = None -> row rid fp w = row rid fp w0) ->
  let w' := exec (loop (evalAbsent e rule (current_of results))
              (states_of rid (active_rows rid (w_db w0)))) w in
  calm w' /\ forall fp,
    match value_now results fp with
    | Some _ => observed rid fp w w' (view (row rid fp w)) [] []
    | None => exists i' evs,
        transition (rule_Duration rule) now ticks false (view (row rid fp w)) i' evs /\
        observed rid fp w w' i' (mailed e evs) evs
    end.
Proof.
  intros rid Hw Hlab Hsame w'.
  set (T (h : AlertState) (i i' : Inst) (ms hs : list string) :=
    match value_now results (st_Fingerprint h) with
    | Some _ => i' = i /\ ms = [] /\ hs = []
    | None => transition (rule_Duration rule) now ticks false i i' ms /\ hs = ms
    end).
  destruct (loop_acts rid (evalAbsent e rule (current_of results)) st_Fingerprint T
    (states_of rid (active_rows rid (w_db w0))) w Hw) as (Hcalm & Hin & Hout).
  - rewrite states_of_keys. apply NoDup_active_rows.
  - intros h Hh. apply list_elem_of_fmap in Hh as ([fp' r] & -> & Hin').
    apply list_elem_of_filter in Hin' as [Hact Hr%elem_of_rows_of_rule]. cbn [fst snd] in *.
    intros wx Hwx Hrow. cbn [st_Fingerprint scan_state] in *. unfold T, value_now.
    cbn [st_Fingerprint scan_state].
    destruct (current_of results !! fp') as [inst|] eqn:Hc; simpl.
    + exists (view (row rid fp' w)), [], []. split; [done|]. rewrite mailed_nil, <-Hrow.
      unfold evalAbsent. simpl st_Fingerprint. rewrite Hc. by apply acted_refl.
    + assert (row rid fp' w = Some r) as Hrw by (by rewrite Hsame by by apply value_now_None).
      rewrite Hrw. destruct (Hlab _ _ _ Hr) as [Hl Hv].
      destruct (evalAbsent_acts rule (current_of results) now fp' r wx) as (i' & evs & Ht & Ha);
        [done|done|by etrans; [exact Hrow|]|done|done|done|]. by exists i', evs, evs.
  - split; [done|]. intros fp. rewrite states_of_keys in Hout.
    destruct (decide (fp ∈ (active_rows rid (w_db w0)).*1)) as [Hk|Hk].
    + rewrite <-(states_of_keys rid) in Hk.
      apply list_elem_of_fmap in Hk as (h & -> & Hh).
      destruct (Hin h Hh) as (i' & ms & hs & HT & Hob). unfold T in HT.
      destruct (value_now _ _); [|destruct HT as [? ->]; by eauto]. destruct HT as (-> & -> & ->).
      by rewrite mailed_nil in Hob.
    + pose proof (untouched_same _ _ _ _ (Hout fp Hk)).
      destruct (value_now results fp) eqn:Hs; [done|].
      eexists _, []. split; [apply T_rest|by rewrite mailed_nil].
      rewrite Hsame by done.
      pose proof (snapshot_seen rid fp _ w0 (snapshot_taken rid fp w0)) as Hseen.
      rewrite (findState_absent _ _ _ Hk) in Hseen. by inversion Hseen.
Qed.

Lemma evaluateRule_step vm rule results w :
  let rid := rule_ID rule in
  let w' := exec (evaluateRule e vm rule) w in
  calm (exec Now w) -> vm (rule_Expr rule) = Ok results -> rows_stored (w_db w) ->
  calm w' /\ forall fp, exists i' ms hs,
    evaluated (rule_Duration rule) (fst (Now w)) ticks (value_now results fp)
      (view (row rid fp w)) i' ms hs /\
    observed rid fp w w' i' (mailed e ms) hs.
Proof.
  intros rid w' Hw Hvm Hlab. subst rid. unfold w'. rewrite (evaluateRule_run _ _ results) by (done || apply Hw).
  set (hs := states_of _ _). set (w1 := exec Now w).
  destruct (present_loop_acts rule hs (fst (Now w)) results w1 Hw) as (Hw2 & Hin & Hout).
  { intros fp. exact (snapshot_taken _ fp w). }
  set (w2 := exec (loop _ (range _)) w1) in *.
  destruct (absent_loop_acts rule (fst (Now w)) results w w2 Hw2 Hlab) as (Hw3 & Hfp).
  { intros fp Hfp. by apply Hout. }
  split; [done|]. intros fp. specialize (Hfp fp). destruct (value_now results fp) as [v|] eqn:Hs.
  - destruct (Hin fp v Hs) as (i' & ms & hs' & Ht & Hob).
    exists i', ms, hs'. split; [exact Ht|]. destruct Hob as [Hr Hm Hh], Hfp as [Hr' Hm' Hh'].
    rewrite app_nil_r in Hm', Hh'.
    split; [by etrans|exact (eq_trans Hm' Hm)|exact (eq_trans Hh' Hh)].
  - apply Hout in Hs as Hu. destruct Hfp as (i' & evs & Ht & Hob).
    exists i', evs, evs. split; [|by eapply untouched_observed].
    apply E_absent. destruct Hu as [Hu _]. by rewrite Hu in Ht.
Qed.
End steps.
