(* ===== verification/AlertEffects.v ===== *)
(** * What the store and the evaluator do to the world

    A small program logic over [World]: [does I P m Q] says that, from a world
    satisfying the stable assertion [I], the program [m] only reads the clock,
    meets driver failures, executes statements and sends mails allowed by [P],
    and returns a value satisfying [Q]. Each driver call begins with the other
    goroutines' statements of its turn, which [I] has to say enough about. *)
From S2P Require Import Prelude GoTime LabelsJson Fingerprint AlertStore Evaluator AlertSpec.
From Stdlib Require Import String.

(** The observable steps. *)
Inductive effect :=
| Statement (q : stmt)
| Notification (m : Mail).

Inductive step (P : effect -> Prop) (w : World) : World -> Prop :=
| step_clock : step P w (exec Now w)
| step_turn : step P w (take_turn w)
| step_stmt q db id :
    P (Statement q) -> exec_stmt q (w_db w) = Ok (db, id) -> step P w (set_db db w)
| step_send m : P (Notification m) -> step P w (exec (send m) w).

Lemma step_mono (P P' : effect -> Prop) w w' :
  (forall x, P x -> P' x) -> step P w w' -> step P' w w'.
Proof. intros HP []; econstructor; eauto. Qed.

Lemma steps_mono (P P' : effect -> Prop) w w' :
  (forall x, P x -> P' x) -> rtc (step P) w w' -> rtc (step P') w w'.
Proof. intros HP. induction 1; [done|]. econstructor; [by eapply step_mono|done]. Qed.

(** A property of worlds kept by every step of a kind. *)
Definition stable (P : effect -> Prop) (I : World -> Prop) : Prop :=
  forall w w', step P w w' -> I w -> I w'.

Lemma stable_steps P I w w' : stable P I -> rtc (step P) w w' -> I w -> I w'.
Proof. intros HI. induction 1; eauto. Qed.

Section logic.
Context (P : effect -> Prop) (I : World -> Prop) (HI : stable P I).

Definition does {A} (m : M A) (Q : A -> Prop) : Prop := forall w, I w ->
  rtc (step P) w (exec m w) /\ Q (fst (m w)).

Lemma does_ret {A} (a : A) (Q : A -> Prop) : Q a -> does (ret a) Q.
Proof. intros HQ w _. split; [apply rtc_refl|done]. Qed.

Lemma does_bind {A B} (m : M A) (k : A -> M B) (Q : A -> Prop) (Q' : B -> Prop) :
  does m Q -> (forall a, Q a -> does (k a) Q') -> does (x <- m ;; k x) Q'.
Proof using HI.
  intros Hm Hk w Hw. destruct (Hm w Hw) as [Hs HQ].
  destruct (Hk _ HQ (exec m w)) as [Hs' HQ']; [by eapply stable_steps|].
  split; [rewrite exec_bind; by etrans|]. unfold bind, exec in *. by destruct (m w).
Qed.

Lemma does_weaken {A} (m : M A) (Q Q' : A -> Prop) :
  does m Q -> (forall a, Q a -> Q' a) -> does m Q'.
Proof. intros Hm HQ w Hw. destruct (Hm w Hw). eauto. Qed.

Lemma does_Now : does Now (fun _ => True).
Proof. intros w _. split; [|done]. apply rtc_once, step_clock. Qed.

Lemma does_send m : P (Notification m) -> does (send m) (fun _ => True).
Proof. intros Hm w _. split; [|done]. by apply rtc_once, step_send. Qed.

Lemma does_exec q : P (Statement q) -> does (db_exec q) (fun _ => True).
Proof.
  intros Hq w _. split; [|done]. unfold exec, db_exec.
  pose proof (rtc_once _ _ (step_turn P w)) as Hturn. destruct (next_fault w); [done|].
  destruct (exec_stmt q _) as [[db id]|] eqn:E; [|done].
  eapply rtc_r; [exact Hturn|]. by eapply step_stmt.
Qed.

Lemma does_query {A} (q : DB -> A) (Q : result A -> Prop) :
  (forall err, Q (Err err)) -> (forall w, I (take_turn w) -> Q (Ok (q (w_db (take_turn w))))) ->
  does (db_query q) Q.
Proof using HI.
  intros He HQ w Hw. unfold exec, db_query.
  destruct (next_fault w); (split; [apply rtc_once, step_turn|]); simpl; [done|].
  apply HQ, (HI w); [apply step_turn|done].
Qed.

Lemma does_any_query {A} (q : DB -> A) : does (db_query q) (fun _ => True).
Proof using HI. by apply does_query. Qed.

Lemma does_loop {A} (f : A -> M unit) xs :
  (forall x, x ∈ xs -> does (f x) (fun _ => True)) -> does (loop f xs) (fun _ => True).
Proof using HI.
  induction xs as [|x xs IH]; intros Hf; [by apply does_ret|]. simpl.
  eapply does_bind; [apply Hf; by left|]. intros _ _. apply IH. intros; apply Hf; by right.
Qed.
Lemma collect_any {A B} (f : A -> M B) xs :
  (forall x, does (f x) (fun _ => True)) -> does (collect f xs) (fun _ => True).
Proof using HI.
  intros Hf. induction xs as [|x xs IH]; [by apply does_ret|]. simpl.
  eapply does_bind; [apply Hf|]. intros y _.
  eapply does_bind; [exact IH|]. intros ? _. by apply does_ret.
Qed.
End logic.

(** More is allowed, less is assumed. *)
Lemma does_mono (P P' : effect -> Prop) (I I' : World -> Prop) {A} (m : M A) (Q : A -> Prop) :
  (forall x, P x -> P' x) -> (forall w, I' w -> I w) -> does P I m Q -> does P' I' m Q.
Proof.
  intros HP HI Hm w Hw. destruct (Hm w (HI w Hw)) as [Hs HQ]. split; [|done].
  by eapply steps_mono.
Qed.

(** One call of a program: the clock, a statement that is allowed as it stands,
    or a query whose answer nothing is asked of. *)
Ltac does_simple :=
  first [by apply does_ret | apply does_Now | by apply does_exec; repeat split
        | apply does_any_query; eauto with monitor].
Ltac does_next := eapply does_bind; [eauto with monitor|solve [does_simple]|intros ? ?].

(** ** The statements the program issues *)
Section issued.
Context {R : MapRange}.

Inductive phase_columns : string -> option rfc3339 -> option rfc3339 -> Prop :=
| pc_pending t : phase_columns "pending" (Some t) None
| pc_firing t : phase_columns "firing" None (Some t)
| pc_ok : phase_columns "ok" None None.

Definition zero_or_one (n : Z) : Prop := n = 0 \/ n = 1.

Definition history_event (state : string) : Prop :=
  state = "firing"%string \/ state = "recovered"%string.

(** The text of a label set whose fingerprint is [fp]. *)
Definition stored_labels (fp labels_json : string) : Prop :=
  exists labels, ascii_labels labels /\ labels_json = encodeLabels labels /\
    Fingerprint labels = fp.

(** The arguments with which store.go is ever called. *)
Definition issued_stmt (q : stmt) : Prop :=
  match q with
  | InsertRule _ enabled _ _ _ _ _ => zero_or_one enabled
  | UpdateRuleRow _ _ enabled _ _ _ _ => zero_or_one enabled
  | UpsertStateRow _ fp labels_json status _ ps fs =>
      phase_columns status ps fs /\ stored_labels fp labels_json
  | UpdateAck _ _ acknowledged_at _ => 0 <= acknowledged_at
  | InsertHistory _ _ _ _ _ _ state _ => history_event state
  | _ => True
  end.

Definition issued (x : effect) : Prop :=
  match x with
  | Statement q => issued_stmt q
  | Notification m => history_event (m_state m)
  end.

(** The alert-state and history rows, and the mails, of one instance. *)
Definition about (rid : Z) (fp : string) (x : effect) : Prop :=
  match x with
  | Statement (UpsertStateRow r f _ _ _ _ _) | Statement (NullAck r f)
  | Statement (UpdateNotified r f _) | Statement (InsertHistory r _ f _ _ _ _ _) =>
      r = rid /\ f = fp
  | Statement _ => False
  | Notification m => rule_ID (m_rule m) = rid /\ Fingerprint (m_labels m) = fp
  end.

Definition reconciling (rid : Z) (fp : string) (x : effect) : Prop := issued x /\ about rid fp x.

(** The steps that report an event of the instance. *)
Definition reporting (rid : Z) (fp : string) (x : effect) : Prop :=
  reconciling rid fp x /\
  match x with
  | Statement (UpdateNotified _ _ _) | Statement (InsertHistory _ _ _ _ _ _ _ _)
  | Notification _ => True
  | Statement _ => False
  end.

(** Those of one rule. *)
Definition evaluating (rid : Z) (x : effect) : Prop := exists fp, reconciling rid fp x.

(** ** Well-formed databases *)
Record row_ok (fp : string) (r : StateRow) : Prop := {
  ro_phase : phase_columns (s_status r) (s_pending_since r) (s_firing_since r);
  ro_labels : stored_labels fp (s_labels_json r);
  ro_value : is_nan (s_last_value r) = false;
  ro_ack : forall a, s_acknowledged_at r = Some a -> 0 <= a;
  ro_silence : is_Some (s_silence_until r) -> is_Some (s_acknowledged_at r)
}.

Definition older (a b : HistoryRow) : Prop := h_id a < h_id b.

Record db_ok (db : DB) : Prop := {
  ok_name : forall i j ri rj, alert_rules db !! i = Some ri -> alert_rules db !! j = Some rj ->
    r_name ri = r_name rj -> i = j;
  ok_rule : forall i r, alert_rules db !! i = Some r ->
    i <= rules_seq db /\ zero_or_one (r_enabled r);
  ok_state : forall rid fp r, alert_state db !! (rid, fp) = Some r -> row_ok fp r;
  ok_history : forall h, h ∈ alert_history db ->
    h_id h <= history_seq db /\ history_event (h_state h) /\ is_nan (h_metric_value h) = false;
  ok_history_ids : StronglySorted older (alert_history db)
}.

End issued.

Section well_formed.
Context {R : MapRange}.

Lemma db_ok_empty : db_ok empty_db.
Proof.
  split; simpl; [intros; simplify_map_eq..|intros ? Hh|constructor].
  by apply elem_of_nil in Hh.
Qed.

(** The state table after a statement that rewrites one row. *)
Lemma ok_state_insert rid fp r db :
  db_ok db -> row_ok fp r -> db_ok (with_state (<[(rid, fp) := r]> (alert_state db)) db).
Proof.
  intros [] Hr. split; simpl; try done.
  intros rid' fp' r'. rewrite lookup_insert_Some. intros [[[= <- <-] <-]|[_ ?]]; eauto.
Qed.

Lemma ok_state_alter rid fp f db :
  db_ok db -> (forall r, row_ok fp r -> row_ok fp (f r)) ->
  db_ok (with_state (alter f (rid, fp) (alert_state db)) db).
Proof.
  intros [] Hf. split; simpl; try done.
  intros rid' fp' r'. rewrite lookup_alter_Some.
  intros [([= <- <-] & r & Hr & ->)|[_ ?]]; eauto.
Qed.

Lemma row_ok_upserted old fp lj status v ps fs :
  (forall r, old = Some r -> row_ok fp r) ->
  phase_columns status ps fs -> stored_labels fp lj -> is_nan v = false ->
  row_ok fp (upserted old lj status v ps fs).
Proof.
  intros Hold Hp Hl Hv. destruct old as [r|]; split; simpl; try done;
    intros; by eapply Hold.
Qed.

Lemma name_taken_spec db id name :
  name_taken db id name = false ->
  forall j r, alert_rules db !! j = Some r -> r_name r = name -> j = id.
Proof.
  unfold name_taken. intros Hn j r Hj Hr. destruct (Z.eqb_spec j id) as [|Hne]; [done|].
  enough (existsb (fun kv => negb (kv.1 =? id) && bool_decide (r_name kv.2 = name))
    (map_to_list (alert_rules db)) = true) by congruence.
  apply existsb_exists. exists (j, r). split.
  - by apply list_elem_of_In, elem_of_map_to_list.
  - simpl. rewrite bool_decide_eq_true_2 by done. by apply Z.eqb_neq in Hne as ->.
Qed.

Lemma ok_rule_insert id r seq db :
  db_ok db -> name_taken db id (r_name r) = false ->
  id <= seq -> rules_seq db <= seq -> zero_or_one (r_enabled r) ->
  db_ok {| alert_rules := <[id := r]> (alert_rules db); rules_seq := seq;
           alert_state := alert_state db; alert_history := alert_history db;
           history_seq := history_seq db |}.
Proof.
  intros [Hn Hr] Ht Hid Hseq He. split; simpl; try done.
  - intros i j ri rj. rewrite !lookup_insert_Some.
    intros [[<- <-]|[? Hi]] [[<- <-]|[? Hj]] E; [done|..|by eapply Hn].
    + by eapply name_taken_spec in Ht.
    + symmetry. by eapply name_taken_spec in Ht.
  - intros i ri. rewrite lookup_insert_Some. intros [[<- <-]|[_ Hi]]; [done|].
    apply Hr in Hi as [??]. split; [lia|done].
Qed.

Lemma ok_history_filter P `{!forall h, Decision (P h)} db :
  db_ok db -> db_ok (with_history (filter P (alert_history db)) (history_seq db) db).
Proof.
  intros [? ? ? Hh Hs]. split; simpl; try done.
  - intros h [_ ?]%list_elem_of_filter. by apply Hh.
  - induction Hs as [|h l Hs IH Hall]; [constructor|]. rewrite filter_cons.
    assert (StronglySorted older (filter P l)) by (apply IH; intros; apply Hh; by right).
    destruct (decide (P h)); [|done]. constructor; [done|].
    apply Forall_forall. intros x [_ Hx]%list_elem_of_filter. by eapply Forall_forall in Hall.
Qed.

Lemma ok_history_snoc h db :
  db_ok db -> h_id h = history_seq db + 1 -> history_event (h_state h) ->
  is_nan (h_metric_value h) = false ->
  db_ok (with_history (alert_history db ++ [h]) (history_seq db + 1) db).
Proof.
  intros [? ? ? Hh Hs] Hid He Hv. split; simpl; try done.
  - intros x [Hx| ->%list_elem_of_singleton]%elem_of_app; [|split; [lia|done]].
    apply Hh in Hx as [??]. split; [lia|done].
  - apply StronglySorted_snoc; [done|]. intros x Hx. apply Hh in Hx as [? _].
    unfold older. lia.
Qed.

Lemma ok_delete_rule id db : db_ok db -> db_ok (with_rules (delete id (alert_rules db)) db).
Proof.
  intros [Hn Hr ? ? ?]. split; simpl; try done.
  - intros i j ri rj [_ Hi]%lookup_delete_Some [_ Hj]%lookup_delete_Some. by eapply Hn.
  - intros i r [_ Hi]%lookup_delete_Some. by eapply Hr.
Qed.

Lemma ok_filter_state P `{!forall kv, Decision (P kv)} db :
  db_ok db -> db_ok (with_state (filter P (alert_state db)) db).
Proof.
  intros []. split; simpl; try done.
  intros rid fp r [? _]%map_lookup_filter_Some. eauto.
Qed.

(** Every statement the program issues keeps the database well formed. *)
Lemma exec_stmt_ok q db db' id :
  issued_stmt q -> exec_stmt q db = Ok (db', id) -> db_ok db -> db_ok db'.
Proof.
  intros Hq Hex Hok. destruct q; simpl in Hex, Hq; simplify_eq.
  - apply db_ok_empty.
  - destruct (name_taken _ _ _) eqn:Ht; simplify_eq. by apply ok_rule_insert; simpl; try lia.
  - destruct (alert_rules db !! id0) as [r|] eqn:Hr; simplify_eq; [|done].
    destruct (name_taken _ _ _) eqn:Ht; simplify_eq.
    apply ok_rule_insert; simpl; try done. by apply Hok in Hr as [? _].
  - by apply ok_delete_rule.
  - by apply ok_filter_state.
  - by apply ok_history_filter.
  - destruct (is_nan _) eqn:Hv; simplify_eq. destruct Hq as [Hp Hl]. apply ok_state_insert; [done|]. apply row_ok_upserted; [|done..].
    intros r Hr. by eapply ok_state.
  - apply ok_state_alter; [done|]. intros r []. split; simpl; try done; naive_solver.
  - apply ok_state_alter; [done|]. intros r []. split; simpl; try done.
  - apply ok_state_alter; [done|]. intros r []. by split.
  - destruct (is_nan _) eqn:Hv; simplify_eq. by apply ok_history_snoc.
Qed.
End well_formed.

(** ** The operations *)
Section sound.
Context {R : MapRange}.

(** The other goroutines issue what store.go issues. *)
Definition turn_ok (t : Turn) : Prop := Forall issued_stmt (t_others t).

Definition sound (w : World) : Prop :=
  db_ok (w_db w) /\ tick (monotone_clock 0) (w_now w) (w_ticks w) /\ Forall turn_ok (w_turns w).

Lemma run_others_ok qs db : Forall issued_stmt qs -> db_ok db -> db_ok (run_others qs db).
Proof.
  intros Hqs. revert db. induction Hqs as [|q qs Hq _ IH]; intros db Hdb; [done|]. simpl.
  apply IH. destruct (exec_stmt q db) as [[db' id]|] eqn:Hex; [|done]. by eapply exec_stmt_ok.
Qed.

Lemma take_turn_sound w : sound w -> sound (take_turn w).
Proof.
  intros (Hdb & Ht & Hw). unfold sound, take_turn. simpl.
  destruct Hw as [|t ts Hq Hw]; split; try done. by apply run_others_ok.
Qed.

Lemma sound_stable : stable issued sound.
Proof.
  intros w w' Hs Hw. destruct Hs as [| |q db id Hq Hex|m Hm]; [|by apply take_turn_sound|..];
    destruct Hw as (Hdb & Ht & Hw).
  - split; [done|]. split; [|done]. by apply tick_next.
  - split; [|done]. by eapply exec_stmt_ok.
  - by split.
Qed.

Lemma sound_stable_evaluating rid : stable (evaluating rid) sound.
Proof.
  intros w w' Hs. apply sound_stable. eapply step_mono; [|done]. by intros x (? & ? & _).
Qed.

Lemma sound_stable_reconciling rid fp : stable (reconciling rid fp) sound.
Proof.
  intros w w' Hs. apply sound_stable. eapply step_mono; [|done]. by intros x [? _].
Qed.
End sound.
Lemma sound_stable_reporting {R : MapRange} rid fp : stable (reporting rid fp) sound.
Proof.
  intros w w' Hs. apply sound_stable. eapply step_mono; [|done]. by intros x [[? _] _].
Qed.
#[export] Hint Resolve sound_stable sound_stable_evaluating sound_stable_reconciling
  sound_stable_reporting : monitor.

Section operations.
Context {R : MapRange} {HO : Sorter most_recent_first}.
Context (e : Evaluator).
Abbreviation evals rid := (does (evaluating rid) sound).
Abbreviation moves rid fp := (does (reconciling rid fp) sound).
Abbreviation tells rid fp := (does (reporting rid fp) sound).
Abbreviation calls := (does issued sound).
Abbreviation any := (fun _ => True).

Lemma upsert_moves rid fp labels status v ps fs :
  phase_columns status (formatPtrTime ps) (formatPtrTime fs) ->
  ascii_labels labels -> Fingerprint labels = fp ->
  moves rid fp (UpsertState rid fp labels status v ps fs) any.
Proof.
  intros Hp Ha Hl. eapply does_bind; [eauto with monitor| |intros ? _; by apply does_ret].
  apply does_exec. split; [split; [done|by exists labels]|done].
Qed.

Lemma clear_moves rid fp : moves rid fp (ClearAck rid fp) any.
Proof.
  eapply does_bind; [eauto with monitor|by apply does_exec; repeat split|]. intros ? _. by apply does_ret.
Qed.

Lemma notified_tells rid fp t : tells rid fp (SetLastNotified rid fp t) any.
Proof.
  eapply does_bind; [eauto with monitor|by apply does_exec; repeat split|]. intros ? _. by apply does_ret.
Qed.

Lemma history_tells rid fp name labels expr v state :
  history_event state -> tells rid fp (AddHistory rid name fp labels expr v state) any.
Proof.
  intros Hs. eapply does_bind; [eauto with monitor|apply does_Now|]. intros t _.
  eapply does_bind; [eauto with monitor|by apply does_exec; repeat split|]. intros ? _. by apply does_ret.
Qed.

Lemma notify_tells rule fp labels v state :
  history_event state -> Fingerprint labels = fp -> tells (rule_ID rule) fp (notify e rule labels v state) any.
Proof.
  intros Hs Hl. unfold notify. destruct (ev_email e); [by apply does_send; split|by apply does_ret].
Qed.

Lemma seq_does {A B} P (m : M A) (k : M B) :
  stable P sound -> does P sound m any -> does P sound k any -> does P sound (m ;;; k) any.
Proof. intros HP Hm Hk. by eapply does_bind. Qed.

Lemma fire_tells rule fp inst : labelled fp inst -> tells (rule_ID rule) fp (fire e rule inst) any.
Proof.
  intros [<- Hl]. assert (history_event "firing") by by left.
  apply seq_does; [eauto with monitor|by apply history_tells|].
  eapply does_bind; [eauto with monitor|apply does_Now|]. intros t _.
  apply seq_does; [eauto with monitor|apply notified_tells|by apply notify_tells].
Qed.

Lemma moves_of_tells {A} rid fp (m : M A) Q : tells rid fp m Q -> moves rid fp m Q.
Proof. apply does_mono; [|done]. by intros x [? _]. Qed.

Lemma recover_tells rule labels v :
  tells (rule_ID rule) (Fingerprint labels) (recover e rule labels v) any.
Proof.
  assert (history_event "recovered") by by right.
  apply seq_does; [eauto with monitor|by apply history_tells|by apply notify_tells].
Qed.

Definition ascii_instance (fp : string) (inst : instance) : Prop :=
  labelled fp inst /\ ascii_labels (i_labels inst).

Lemma refresh_moves rule fp inst status ps fs (k : M unit) :
  phase_columns status (formatPtrTime ps) (formatPtrTime fs) -> ascii_instance fp inst ->
  moves (rule_ID rule) fp k any ->
  moves (rule_ID rule) fp
    (UpsertState (rule_ID rule) fp (i_labels inst) status (i_value inst) ps fs ;;; k) any.
Proof.
  intros Hp [[_ Hl] Ha] Hk. apply seq_does; [eauto with monitor| |done].
  by apply upsert_moves.
Qed.

Lemma evalPresent_moves rule historical now fp inst :
  ascii_instance fp inst ->
  moves (rule_ID rule) fp (evalPresent e rule historical now fp inst) any.
Proof.
  intros Hi. assert (moves (rule_ID rule) fp (ret tt) any) as Hret by by apply does_ret.
  pose proof (moves_of_tells _ _ _ _ (fire_tells rule fp inst (proj1 Hi))) as Hfire.
  assert (forall t, phase_columns "firing" None (formatPtrTime (Some t))) as Hf
    by (intros; constructor).
  assert (forall t, phase_columns "pending" (formatPtrTime (Some t)) None) as Hp
    by (intros; constructor).
  unfold evalPresent, evalNew, evalPending, evalFiring. cbv zeta.
  repeat (case_match; try done);
    try (apply seq_does; [eauto with monitor|apply clear_moves|]); by apply refresh_moves.
Qed.

Lemma evalAbsent_moves rule current h :
  ascii_labels (st_Labels h) -> Fingerprint (st_Labels h) = st_Fingerprint h ->
  moves (rule_ID rule) (st_Fingerprint h) (evalAbsent e rule current h) any.
Proof.
  intros Ha Hl.
  assert (moves (rule_ID rule) (st_Fingerprint h) (ret tt) any) as Hret by by apply does_ret.
  unfold evalAbsent. cbv zeta. repeat (case_match; try done);
    (apply seq_does; [eauto with monitor|apply upsert_moves; [constructor|done..]|]);
    [done|].
  apply seq_does; [eauto with monitor|apply clear_moves|rewrite <-Hl; apply moves_of_tells, recover_tells].
Qed.

(** Label names and values in ASCII. *)
Definition ascii_answer (answer : result (list Vector)) : Prop :=
  match answer with
  | Ok results => forall vec, vec ∈ results -> ascii_labels (default ∅ (v_Metric vec))
  | Err _ => True
  end.

Lemma current_of_ascii results fp inst :
  ascii_answer (Ok results) -> current_of results !! fp = Some inst ->
  ascii_instance fp inst.
Proof.
  intros Ha Hc. split; [by eapply current_of_labelled|]. simpl in Ha. revert Hc.
  induction results as [|vec results IH] using rev_ind; [done|].
  rewrite current_of_snoc, lookup_insert_Some. intros [[<- <-]|[_ Hc]].
  - apply Ha, elem_of_app. right. by apply list_elem_of_singleton.
  - apply IH; [|done]. intros v Hv. apply Ha, elem_of_app. by left.
Qed.

Lemma row_ok_labels fp r :
  row_ok fp r ->
  ascii_labels (decodeLabels (s_labels_json r)) /\
  Fingerprint (decodeLabels (s_labels_json r)) = fp.
Proof. intros [_ (labels & Ha & -> & Hl) _ _ _]. by rewrite decode_encode_labels. Qed.

Definition labelled_states (hs : result (list AlertState)) : Prop :=
  match hs with
  | Ok hs => forall h, h ∈ hs ->
      ascii_labels (st_Labels h) /\ Fingerprint (st_Labels h) = st_Fingerprint h
  | Err _ => True
  end.

Lemma active_states_evals rid : evals rid (GetActiveStatesForRule rid) labelled_states.
Proof.
  apply does_query; [eauto with monitor|done|]. intros w [Hdb _] h Hh.
  apply list_elem_of_fmap in Hh as ([fp r] & -> & Hin).
  apply list_elem_of_filter in Hin as [_ Hr%elem_of_rows_of_rule].
  by apply row_ok_labels, (ok_state _ Hdb rid).
Qed.

Lemma does_at {A} rid fp (m : M A) Q : moves rid fp m Q -> evals rid m Q.
Proof. apply does_mono; [|done]. intros x Hx. by exists fp. Qed.

Lemma evaluateRule_evals vm rule :
  ascii_answer (vm (rule_Expr rule)) -> evals (rule_ID rule) (evaluateRule e vm rule) any.
Proof.
  intros Ha. unfold evaluateRule. destruct (vm (rule_Expr rule)) as [results|]; [|by apply does_ret].
  cbv zeta. eapply does_bind; [eauto with monitor|apply active_states_evals|].
  intros [hs|] Hhs; [|by apply does_ret].
  eapply does_bind; [eauto with monitor|apply does_Now|]. intros now _.
  apply seq_does; [eauto with monitor|..]; (apply does_loop; [eauto with monitor|]).
  - intros [fp inst] Hin%elem_of_range. apply (does_at _ fp), evalPresent_moves. by eapply current_of_ascii.
  - intros h [??]%Hhs. by apply (does_at _ (st_Fingerprint h)), evalAbsent_moves.
Qed.

Lemma calls_of_evals {A} rid (m : M A) Q : evals rid m Q -> calls m Q.
Proof. apply does_mono; [|done]. by intros x (? & ? & _). Qed.

Lemma evaluate_calls vm : (forall expr, ascii_answer (vm expr)) -> calls (evaluate e vm) any.
Proof.
  intros Ha. eapply does_bind; [eauto with monitor|apply does_any_query; eauto with monitor|].
  intros [rules|] _; [|by apply does_ret].
  apply does_loop; [eauto with monitor|]. intros rule _.
  by eapply calls_of_evals, evaluateRule_evals.
Qed.

(** *** The HTTP side *)
Lemma NewStore_calls : calls NewStore any.
Proof.
  eapply (does_bind _ _ sound_stable _ _ any); [|intros ? _; by apply does_ret].
  does_next. by apply does_ret.
Qed.

Lemma boolToInt_flag b : zero_or_one (boolToInt b).
Proof. destruct b; [by right|by left]. Qed.

Lemma flag_exec q :
  issued_stmt q -> calls (db_exec q) any.
Proof. intros Hq. by apply does_exec. Qed.

Lemma CreateRule_calls r : calls (CreateRule r) any.
Proof.
  does_next. eapply does_bind; [eauto with monitor|apply flag_exec, boolToInt_flag|].
  intros ? _. by apply does_ret.
Qed.

Lemma GetRule_calls id : calls (GetRule id) any.
Proof. does_next. by apply does_ret. Qed.

Lemma UpdateRule_calls id req : calls (UpdateRule id req) any.
Proof.
  does_next. eapply does_bind; [eauto with monitor|apply flag_exec, boolToInt_flag|].
  intros [] _; [|by apply does_ret]. does_next. apply GetRule_calls.
Qed.

Lemma DeleteRule_calls id : calls (DeleteRule id) any.
Proof.
  does_next. case_match; [|by apply does_ret]. do 2 does_next. by apply does_ret.
Qed.

Lemma SetAcknowledged_calls rid fp su : calls (SetAcknowledged rid fp su) any.
Proof.
  eapply (does_bind _ _ sound_stable _ _ (fun t => 0 <= t)).
  - intros w [_ Ht]. split; [apply rtc_once, step_clock|]. by destruct Ht as [[? _]%tick_next _].
  - intros t Ht. eapply does_bind; [eauto with monitor| |intros ? _; by apply does_ret].
    apply does_exec. simpl. unfold format_rfc3339. by apply Z.div_pos.
Qed.

Lemma ListRules_calls : calls ListRules any.
Proof.
  does_next. case_match; [|by apply does_ret].
  eapply does_bind; [eauto with monitor|apply collect_any; [eauto with monitor|]|intros ? _; by apply does_ret].
  intros row. eapply does_bind; [eauto with monitor| |intros ? _; by apply does_ret].
  unfold getStatesForRule. does_next. apply (does_ret _ _ _ any). done.
Qed.

Lemma ListHistory_calls rid fp state limit offset :
  calls (ListHistory rid fp state limit offset) any.
Proof.
  does_next. case_match; [|by apply does_ret]. cbv zeta. does_next. by apply does_ret.
Qed.
End operations.
