(* ===== verification/AlertGuarantees.v ===== *)
(** * Guarantees of the alert evaluator

    The theorems about whole evaluations and runs of evaluations: the
    refinement of the transition relation, the frame, the rate of
    notifications, the pending delay, and the invariants of the database under
    every sequence of calls and driver failures. *)
From S2P Require Import Prelude GoTime LabelsJson Fingerprint AlertStore Evaluator AlertSpec AlertEffects.
From Stdlib Require Import String SpecFloat.

(** ** A series present at every evaluation, seen from its instance *)
Inductive present_run (dur : Z) : Time -> Inst -> list string -> Inst -> Time -> Prop :=
| run_done t i : present_run dur t i [] i t
| run_tick t now t1 t2 i i1 i2 evs evs' :
    t <= now -> now <= t1 -> transition dur now (fun tn => now <= tn) true i i1 evs ->
    present_run dur t1 i1 evs' i2 t2 ->
    present_run dur t i (evs ++ evs') i2 t2.

Section runs.
Context (dur : Z).

Lemma run_mono t i evs i' t' : present_run dur t i evs i' t' -> t <= t'.
Proof. induction 1; lia. Qed.

Lemma stamp_positive t : 0 <= t -> exists s, stamp t = Some s /\ s <= t < s + Second.
Proof.
  intros Ht. destruct (stamp t) as [s|] eqn:E.
  - exists s. split; [done|]. by apply stamp_bounds.
  - exfalso. unfold stamp, time_of, set_time, parsePtrTime in E. simpl in E.
    destruct (IsZero _) eqn:Hz; [|done]. apply Z.eqb_eq in Hz.
    pose proof (parse_format_bounds t). unfold zero_time, Second in *. lia.
Qed.

(** How one tick changes a firing instance. *)
Lemma firing_tick now i i' evs n :
  0 <= now -> (exists since, in_phase i = Firing since) -> in_notified i = Some n ->
  transition dur now (fun tn => now <= tn) true i i' evs ->
  (exists since, in_phase i' = Firing since) /\
  ((evs = [] /\ in_notified i' = Some n) \/
   (exists n', evs = ["firing"%string] /\ in_notified i' = Some n' /\
      notifyInterval <= now - n /\ now - Second < n')).
Proof.
  intros Hnow [since Hp] Hn Ht.
  assert (forall i, (in_phase (lift_expired now i) = in_phase i) /\
    in_notified (lift_expired now i) = in_notified i) as Hl.
  { intros j. unfold lift_expired. destruct (in_silence j); [|done]. by case_decide. }
  inversion Ht; subst; simplify_eq/=; try congruence;
    rewrite ?(proj1 (Hl _)), ?(proj2 (Hl _)); simpl; (split; [by eexists|]); eauto.
  right. destruct (stamp_positive tn) as (s & -> & ?); [lia|]. exists s. split_and!; try done; [|lia].
  apply Sub_ge; [done|]. eauto.
Qed.

(** After a mail sent at [m], noted on the row as [n]. *)
Lemma firing_rate t i evs i' t' n m :
  0 <= t -> (exists since, in_phase i = Firing since) -> in_notified i = Some n -> m < n + Second ->
  present_run dur t i evs i' t' ->
  evs = [] \/ Z.of_nat (List.length evs) * (notifyInterval - Second) <= t' - m.
Proof.
  intros Ht Hp Hn Hm Hrun. revert n m Ht Hp Hn Hm. induction Hrun as
    [|t now t1 t2 i i1 i2 evs evs' H1 H2 Htr Hrun IH]; intros n m Ht Hp Hn Hm; [by left|].
  pose proof (run_mono _ _ _ _ _ Hrun).
  destruct (firing_tick now i i1 evs n ltac:(lia) Hp Hn Htr)
    as [Hp1 [[-> Hn1]|(n' & -> & Hn1 & Hge & Hlt)]].
  - apply (IH n); [lia|done..].
  - right. destruct (IH n' now ltac:(lia) Hp1 Hn1 ltac:(lia)) as [->|Hle]; simpl List.length;
      unfold notifyInterval in *; durations; lia.
Qed.

(** A tick that reports leaves the instance firing, just notified. *)
Lemma reporting_tick now i i' evs :
  0 <= now -> transition dur now (fun tn => now <= tn) true i i' evs ->
  evs = [] \/ exists n, evs = ["firing"%string] /\
    (exists since, in_phase i' = Firing since) /\
    in_notified i' = Some n /\ now - Second < n.
Proof.
  intros Hnow Ht.
  assert (forall j since tn, in_phase j = Firing since -> now <= tn ->
    ["firing"%string] = [] \/ exists n, ["firing"%string] = ["firing"%string] /\
    (exists since, in_phase (notified_at tn j) = Firing since) /\
    in_notified (notified_at tn j) = Some n /\ now - Second < n) as Hs.
  { intros j since tn Hp Htn. right. destruct (stamp_positive tn) as (s & E & ?); [lia|].
    exists s. split_and!; [done|by exists since|done|lia]. }
  inversion Ht; subst; try (by left); eapply Hs; [done..| |done].
  unfold lift_expired. simpl. destruct (in_silence i); [case_decide|]; done.
Qed.

Lemma any_rate t i evs i' t' :
  0 <= t -> present_run dur t i evs i' t' ->
  evs = [] \/
  (Z.of_nat (List.length evs) - 1) * (notifyInterval - Second) <= t' - t.
Proof.
  intros Ht Hrun. induction Hrun as
    [|t now t1 t2 i i1 i2 evs evs' H1 H2 Htr Hrun IH]; [by left|].
  pose proof (run_mono _ _ _ _ _ Hrun).
  destruct (reporting_tick now i i1 evs ltac:(lia) Htr) as [->|(n & -> & Hp & Hn & Hlt)].
  - destruct IH as [IH|IH]; [lia|by left|right; change ([] ++ evs') with evs'; lia].
  - right. destruct (firing_rate t1 i1 evs' i2 t2 n now ltac:(lia) Hp Hn ltac:(lia) Hrun) as [->|Hle];
      simpl List.length; unfold notifyInterval in *; durations; lia.
Qed.

(** A pending instance stays pending until its duration has elapsed. *)
Lemma pending_waits t i evs i' t' since :
  fits64 (dur * Second) -> in_phase i = Pending (Some since) ->
  t' - since < dur * Second -> 0 <= dur -> present_run dur t i evs i' t' ->
  evs = [] /\ in_phase i' = Pending (Some since).
Proof.
  intros Hfit Hp Hlt Hd Hrun. induction Hrun as
    [|t now t1 t2 i i1 i2 evs evs' H1 H2 Htr Hrun IH]; [done|].
  pose proof (run_mono _ _ _ _ _ Hrun).
  inversion Htr as [| |? s Hs|? s tn Hs Hge| | | | | | |]; subst; simplify_eq/=; try congruence.
  - destruct IH as [-> ?]; [by rewrite Hp in Hs; simplify_eq|done|done].
  - exfalso. rewrite Hp in Hs. simplify_eq/=. rewrite dur_mul_exact in Hge by done.
    apply Sub_ge in Hge; [lia|]. durations. lia.
Qed.

Lemma new_waits t i evs i' t' :
  fits64 (dur * Second) -> 0 < dur -> 0 <= t -> in_phase i = Inactive ->
  t' - t < dur * Second - Second -> present_run dur t i evs i' t' ->
  evs = [] /\ forall since, in_phase i' <> Firing since.
Proof.
  intros Hfit Hd Ht Hp Hlt Hrun. destruct Hrun as
    [|t now t1 t2 i i1 i2 evs evs' H1 H2 Htr Hrun]; [by rewrite Hp|].
  pose proof (run_mono _ _ _ _ _ Hrun).
  inversion Htr; subst; simplify_eq/=; try congruence; try lia.
  destruct (stamp_positive now) as (s & Hs & Hb); [lia|].
  destruct (pending_waits t1 (to_phase (Pending (stamp now)) i) evs' i2 t2 s) as [-> E];
    [done|simpl; by rewrite Hs|lia|lia|done|]. by rewrite E.
Qed.
End runs.

Section evaluations.
Context {R : MapRange} {HO : Sorter most_recent_first}.
Context (e : Evaluator).

Definition ready (w : World) : Prop := sound w /\ w_turns w = [].

Lemma sound_rows_stored w : sound w -> rows_stored (w_db w).
Proof.
  intros [Hdb _] rid fp r Hr. apply (ok_state _ Hdb) in Hr.
  split; [by apply row_ok_labels|by apply (ro_value fp)].
Qed.

Lemma sound_eval vm rule w :
  ascii_answer (vm (rule_Expr rule)) -> sound w -> sound (exec (evaluateRule e vm rule) w).
Proof.
  intros Ha Hw. destruct (evaluateRule_evals e vm rule Ha w Hw) as [Hs _].
  eapply stable_steps; [apply sound_stable_evaluating|exact Hs|done].
Qed.

Lemma evaluateRule_ready vm rule results w :
  let now := fst (Now w) in
  let w' := exec (evaluateRule e vm rule) w in
  ready w -> vm (rule_Expr rule) = Ok results -> ascii_answer (Ok results) ->
  ready w' /\ w_now w <= now /\ now <= w_now w' /\
  forall fp, exists i' ms hs,
    evaluated (rule_Duration rule) now (fun tn => now <= tn) (value_now results fp)
      (view (row (rule_ID rule) fp w)) i' ms hs /\
    observed (rule_ID rule) fp w w' i' (mailed e ms) hs.
Proof.
  intros now w' [Hw Hf] Hvm Ha. pose proof (proj1 (proj2 Hw)) as Ht.
  assert (w_now w <= now /\ Forall (Z.le 0) (w_ticks (exec Now w))) as [Hnow Hds].
  { destruct Ht as [_ Hds]. unfold now. simpl.
    destruct Hds as [|d ds Hd Hds]; simpl; split; [lia|done|lia|done]. }
  destruct (evaluateRule_step e (monotone_clock now) vm rule results w)
    as [[Hf' [Hle _]] Hfp]; [done|done|by apply sound_rows_stored|].
  split_and!; [split; [|done]|done|done|].
  - apply sound_eval; [by rewrite Hvm|done].
  - intros fp. destruct (Hfp fp) as (i' & ms & hs & Htr & Hob). exists i', ms, hs. split; [|done].
    eapply evaluated_mono; [|exact Htr]. by intros t [? [??]].
Qed.

(** The answer has the series, and its value is a number. *)
Definition present_in (rule : AlertRule) (fp : string) (vm : string -> result (list Vector))
    : Prop :=
  exists results, vm (rule_Expr rule) = Ok results /\ ascii_answer (Ok results) /\
    exists v, value_now results fp = Some v /\ is_nan v = false.

Definition evaluations (rule : AlertRule) (answers : list (string -> result (list Vector)))
    : M unit := loop (fun vm => evaluateRule e vm rule) answers.

Lemma evaluations_run rule fp answers w :
  let w' := exec (evaluations rule answers) w in
  ready w -> Forall (present_in rule fp) answers ->
  exists evs,
    present_run (rule_Duration rule) (w_now w) (view (row (rule_ID rule) fp w)) evs
      (view (row (rule_ID rule) fp w')) (w_now w') /\
    mail_events (rule_ID rule) fp w' = mail_events (rule_ID rule) fp w ++ mailed e evs.
Proof.
  revert w. induction answers as [|vm answers IH]; intros w w' Hw Hall.
  { exists []. split; [constructor|]. by rewrite mailed_nil, app_nil_r. }
  inversion Hall as [|? ? (results & Hvm & Ha & v & Hin & Hv) Hall']; subst.
  destruct (evaluateRule_ready vm rule results w Hw Hvm Ha) as (Hw1 & Hle & Hle1 & Hfp).
  destruct (Hfp fp) as (i1 & evs & hs & Htr & Hob).
  rewrite Hin in Htr. destruct (evaluated_number _ _ _ _ _ _ _ _ Hv Htr) as [Htr' ->].
  unfold w', evaluations. rewrite exec_loop_cons. set (w1 := exec (evaluateRule _ _ _) w) in *.
  destruct (IH w1 Hw1 Hall') as (evs' & Hrun & Hm). destruct Hob as [Hr Hm1 _].
  exists (evs ++ evs'). split.
  - eapply run_tick; [done|exact Hle1|exact Htr'|]. by rewrite <-Hr.
  - unfold evaluations in Hm. rewrite Hm, Hm1, <-app_assoc. f_equal.
    unfold mailed. by destruct (ev_email e).
Qed.
End evaluations.

(** ** Helpers of the theorems *)
Section helpers.
Context {R : MapRange} {HO : Sorter most_recent_first}.
Context (e : Evaluator).

(** Nobody else writes; the driver may fail. *)
Definition alone (w : World) : Prop := Forall (fun t => t_others t = []) (w_turns w).

Lemma ready_alone w : ready w -> alone w.
Proof. intros [_ Hf]. unfold alone. rewrite Hf. constructor. Qed.

Lemma take_turn_alone w : alone w -> w_db (take_turn w) = w_db w /\ alone (take_turn w).
Proof.
  unfold alone, take_turn. simpl. intros Hw. destruct Hw as [|t ts Ht Hts]; [done|].
  simpl. by rewrite Ht.
Qed.

Lemma about_frame rid rid' fp w w' :
  alone w -> rid' <> rid -> rtc (step (evaluating rid)) w w' -> untouched rid' fp w w'.
Proof.
  intros Hal Hne Hsteps. revert Hal. induction Hsteps as [|w w1 w2 Hs _ IH]; intros Hal; [done|].
  assert (alone w1) as Hal1 by (destruct Hs; try done; by apply take_turn_alone).
  eapply untouched_trans; [|exact (IH Hal1)]. clear IH w2.
  destruct Hs as [| |q db id (? & _ & Hq) Hex|m (? & _ & Hm)]; [done| |..].
  { unfold untouched, row, history_events, mail_events.
    by rewrite (proj1 (take_turn_alone w Hal)). }
  - destruct q; simpl in Hq, Hex; try done; destruct Hq as [-> _];
      try (destruct (is_nan _); [discriminate|]); simplify_eq/=; split_and!; try done;
      unfold row, history_events; simpl.
    + by rewrite lookup_insert_ne by congruence.
    + by rewrite lookup_alter_ne by congruence.
    + by rewrite lookup_alter_ne by congruence.
    + rewrite filter_app, fmap_app, filter_cons_False, filter_nil; [apply app_nil_r|].
      simpl. intros [? _]. congruence.
  - destruct Hm as [Hm _]. split_and!; [done| |done]. unfold mail_events. simpl.
    rewrite filter_app, fmap_app, filter_cons_False, filter_nil; [apply app_nil_r|].
    intros [? _]. congruence.
Qed.

Lemma transition_det dur now b i i1 i2 evs1 evs2 :
  transition dur now (eq now) b i i1 evs1 -> transition dur now (eq now) b i i2 evs2 ->
  i1 = i2 /\ evs1 = evs2.
Proof.
  intros H1 H2. destruct H1; inversion H2; subst; simplify_eq/=; try congruence;
    try (split; congruence); exfalso;
    repeat match goal with
    | H : in_phase i = _, H' : in_phase i = _ |- _ => rewrite H in H'; simplify_eq
    | H : forall n, in_notified i = Some n -> _, H' : in_notified i = Some _ |- _ =>
        specialize (H _ H')
    end; lia.
Qed.
End helpers.

(** ** The HTTP handlers and the ticker as callers of the store *)
Inductive call :=
| Restart
| Tick (vm : string -> result (list Vector))
| Create (r : AlertRule)
| Update (id : Z) (req : CreateRuleRequest)
| Delete (id : Z)
| Acknowledge (rid : Z) (fp : string) (silenceUntil : option Time)
| Rule (id : Z)
| Rules
| History (rid : Z) (fp state : string) (limit offset : Z).

Section calls.
Context {R : MapRange} {HO : Sorter most_recent_first}.
Context (e : Evaluator).

Definition run_call (c : call) : M unit :=
  match c with
  | Restart => NewStore ;;; ret tt
  | Tick vm => evaluate e vm
  | Create r => CreateRule r ;;; ret tt
  | Update id req => UpdateRule id req ;;; ret tt
  | Delete id => DeleteRule id ;;; ret tt
  | Acknowledge rid fp su => SetAcknowledged rid fp su ;;; ret tt
  | Rule id => GetRule id ;;; ret tt
  | Rules => ListRules ;;; ret tt
  | History rid fp state limit offset => ListHistory rid fp state limit offset ;;; ret tt
  end.

Definition ascii_call (c : call) : Prop :=
  match c with Tick vm => forall expr, ascii_answer (vm expr) | _ => True end.

Lemma run_call_does c : ascii_call c -> does issued sound (run_call c) (fun _ => True).
Proof.
  intros Hc. destruct c; simpl; [..|]; try (eapply seq_does; [eauto with monitor| |by apply does_ret]).
  - apply NewStore_calls.
  - by apply evaluate_calls.
  - apply CreateRule_calls.
  - apply UpdateRule_calls.
  - apply DeleteRule_calls.
  - apply SetAcknowledged_calls.
  - apply GetRule_calls.
  - apply ListRules_calls.
  - apply ListHistory_calls.
Qed.

Definition run_calls (cs : list call) : M unit := loop run_call cs.

Lemma run_calls_sound cs w : Forall ascii_call cs -> sound w -> sound (exec (run_calls cs) w).
Proof.
  intros Hcs. apply exec_loop_inv. intros c w1 Hc Hw.
  destruct (run_call_does c) with w1 as [Hs _]; [by eapply Forall_forall in Hcs|done|].
  by eapply stable_steps; [apply sound_stable|..].
Qed.
End calls.

(** ** The theorems *)
Section theorems.
Context {R : MapRange} {HO : Sorter most_recent_first}.
Context (e : Evaluator).

(** From [w] to [w'] every instance of the rule has been evaluated once, and what
    was mailed and recorded about it is what that evaluation reports. *)
Definition one_transition (c : Clock) rule results (w w' : World) : Prop :=
  forall fp, exists i' ms hs,
    evaluated (rule_Duration rule) (fst (Now w)) (ticks c) (value_now results fp)
      (view (row (rule_ID rule) fp w)) i' ms hs /\
    observed (rule_ID rule) fp w w' i' (mailed e ms) hs.

(** C1: whatever VictoriaMetrics answers, one evaluation without driver
    failures moves every alert instance of the rule along exactly one
    transition of its life cycle - present series along the [true]
    transitions, absent ones along the [false] ones - and mails and records
    exactly the events of that transition, in whatever order Go ranges over
    the series. A present series whose value is a NaN, which the database
    refuses, takes a step of [unstored] instead: no row or history entry is
    written for it, and what is due is mailed. *)
Theorem evaluateRule_refines (c : Clock) vm rule results w :
  calm c w -> vm (rule_Expr rule) = Ok results -> rows_stored (w_db w) ->
  one_transition c rule results w (exec (evaluateRule e vm rule) w).
Proof.
  intros Hw Hvm Hlab fp. by apply (evaluateRule_step e c vm rule results w (calm_Now c w Hw)).
Qed.

(** C2: while a series stays in every answer with a number for its value, and no
    driver call fails and nothing else writes, the mails sent about it are at
    least five minutes apart, up to the second the database rounds
    timestamps by: [k] mails take at least [(k - 1) * (5min - 1s)], over any
    number of evaluations at any times. *)
Theorem notification_rate rule fp answers w :
  ready w -> Forall (present_in rule fp) answers ->
  let w' := exec (evaluations e rule answers) w in
  exists mails, mail_events (rule_ID rule) fp w' = mail_events (rule_ID rule) fp w ++ mails /\
    (mails = [] \/
     (Z.of_nat (List.length mails) - 1) * (notifyInterval - Second) <= w_now w' - w_now w).
Proof.
  intros Hw Hall w'. destruct (evaluations_run e rule fp answers w Hw Hall) as (evs & Hrun & Hm).
  exists (mailed e evs). split; [done|]. unfold mailed. destruct (ev_email e); [|by left].
  eapply any_rate; [|exact Hrun]. apply Hw.
Qed.

(** C3: a rule with a duration reports nothing about a series it has just
    started to see until that series has been there for the duration, less
    the second lost in the database, however often it is evaluated - while no
    driver call fails, nothing else writes, and the series stays in every
    answer with a number for its value. *)
Theorem pending_delay rule fp answers w :
  ready w -> Forall (present_in rule fp) answers ->
  0 < rule_Duration rule -> fits64 (rule_Duration rule * Second) ->
  in_phase (view (row (rule_ID rule) fp w)) = Inactive ->
  let w' := exec (evaluations e rule answers) w in
  w_now w' - w_now w < rule_Duration rule * Second - Second ->
  mail_events (rule_ID rule) fp w' = mail_events (rule_ID rule) fp w /\
  forall since, in_phase (view (row (rule_ID rule) fp w')) <> Firing since.
Proof.
  intros Hw Hall Hd Hfit Hp w' Hlt.
  destruct (evaluations_run e rule fp answers w Hw Hall) as (evs & Hrun & Hm).
  destruct (new_waits _ _ _ _ _ _ Hfit Hd (proj1 (proj1 (proj2 (proj1 Hw)))) Hp Hlt Hrun) as [-> Hn].
  split; [|exact Hn]. unfold w'. by rewrite Hm, mailed_nil, app_nil_r.
Qed.

(** The answer has the series, with a NaN. *)
Definition nan_in (rule : AlertRule) (fp : string) (vm : string -> result (list Vector)) : Prop :=
  exists results, vm (rule_Expr rule) = Ok results /\ ascii_answer (Ok results) /\
    exists v, value_now results fp = Some v /\ is_nan v = true.

(** A series that is no number is never stored, so a rule without a duration mails
    about it at every tick, and its history stays empty. *)
Theorem nan_mails_every_tick rule fp answers w :
  ready w -> Forall (nan_in rule fp) answers -> rule_Duration rule = 0 ->
  in_phase (view (row (rule_ID rule) fp w)) = Inactive ->
  let w' := exec (evaluations e rule answers) w in
  mail_events (rule_ID rule) fp w' =
    mail_events (rule_ID rule) fp w ++ mailed e (replicate (List.length answers) "firing"%string) /\
  history_events (rule_ID rule) fp w' = history_events (rule_ID rule) fp w.
Proof.
  intros Hw Hall Hd. revert w Hw. induction Hall as [|vm answers (results & Hvm & Ha & v & Hin & Hv) _ IH];
    intros w Hw Hp w'.
  { split; [|done]. by rewrite mailed_nil, app_nil_r. }
  destruct (evaluateRule_ready e vm rule results w Hw Hvm Ha) as (Hw1 & _ & _ & Hfp).
  destruct (Hfp fp) as (i1 & ms & hs & Htr & [Hr Hm Hh]). rewrite Hin in Htr.
  assert (ms = ["firing"%string] /\ hs = [] /\ in_phase i1 = Inactive) as (-> & -> & Hp1).
  { inversion Htr as [|? ? ? ? _ Hu|]; subst; [congruence|].
    inversion Hu as [|? ? ? ? ? ? [->| ->]| | | | | |]; subst; try congruence; done. }
  unfold w', evaluations. rewrite exec_loop_cons. set (w1 := exec (evaluateRule _ _ _) w) in *.
  destruct (IH w1 Hw1) as [Hm' Hh']; [by rewrite Hr|]. unfold evaluations in Hm', Hh'.
  rewrite Hm', Hh', Hm, Hh, app_nil_r, <-app_assoc. split; [|done]. f_equal.
  unfold mailed. by destruct (ev_email e).
Qed.

(** C5: every sequence of store calls and evaluator ticks, with any driver
    failures and any statements of concurrent requests between any two of
    their own statements, keeps the database well formed: unique rule names
    and ids, one timestamp per status as the schema's comments say, labels
    matching the row's fingerprint, a silence only next to an
    acknowledgement, history ids strictly increasing. *)
Theorem calls_keep_db_ok cs w :
  Forall ascii_call cs -> sound w -> db_ok (w_db (exec (run_calls e cs) w)).
Proof. intros Hcs Hw. by apply (run_calls_sound e cs w Hcs Hw). Qed.

(** An evaluation touches the states, the history and the mails of its own
    rule only, whatever fails. *)
Theorem evaluateRule_frame vm rule rid fp w :
  sound w -> alone w -> ascii_answer (vm (rule_Expr rule)) -> rid <> rule_ID rule ->
  untouched rid fp w (exec (evaluateRule e vm rule) w).
Proof.
  intros Hw Hal Ha Hne. destruct (evaluateRule_evals e vm rule Ha w Hw) as [Hs _].
  by apply (about_frame (rule_ID rule)).
Qed.
End theorems.

(** ** A concrete run

    One rule with no duration, created on an empty database, and a series that
    VictoriaMetrics returns at every tick; ten seconds pass at every reading of
    the clock. *)
#[local] Existing Instance in_key_order.

Definition demo_labels : gmap string string := {["hostname" := "web1"]}%string.
Definition demo_fp : string := Fingerprint demo_labels.
Definition demo_vm : string -> result (list Vector) := fun _ =>
  Ok [{| v_Metric := Some demo_labels; v_Value := S754_zero false |}].
Definition demo_rule : AlertRule :=
  {| rule_ID := 1; rule_Name := "down"; rule_Enabled := true; rule_Expr := "up == 0";
     rule_Duration := 0; rule_Description := EmptyString; rule_CreatedAt := zero_time;
     rule_UpdatedAt := zero_time; rule_States := [] |}.
Definition slow_rule : AlertRule :=
  {| rule_ID := 1; rule_Name := "down"; rule_Enabled := true; rule_Expr := "up == 0";
     rule_Duration := 300; rule_Description := EmptyString; rule_CreatedAt := zero_time;
     rule_UpdatedAt := zero_time; rule_States := [] |}.
Definition demo_start : World :=
  {| w_db := empty_db; w_now := 1700000000 * Second; w_ticks := replicate 40 (10 * Second);
     w_turns := []; w_mail := [] |}.
Definition demo_mailer : Evaluator := {| ev_email := true |}.
Definition demo_firing : World :=
  exec (run_calls demo_mailer [Create demo_rule; Tick demo_vm]) demo_start.

Lemma demo_start_sound : sound demo_start.
Proof.
  split; [apply db_ok_empty|]. split; [|constructor]. split; [done|]. by apply Forall_replicate.
Qed.

Lemma demo_ascii : ascii_answer (demo_vm EmptyString).
Proof.
  intros vec ->%list_elem_of_singleton. simpl.
  apply (bool_decide_unpack _). vm_compute. exact I.
Qed.

Lemma demo_firing_ready : ready demo_firing.
Proof.
  split; [|vm_compute; reflexivity].
  apply run_calls_sound; [|apply demo_start_sound].
  constructor; [exact I|]. constructor; [|constructor]. intros expr. exact demo_ascii.
Qed.

Lemma demo_present rule n : Forall (present_in rule demo_fp) (replicate n demo_vm).
Proof.
  apply Forall_replicate. eexists. split; [done|]. split; [exact demo_ascii|].
  exists (S754_zero false). split; [vm_compute; reflexivity|done].
Qed.

Lemma evaluateRule_refines_witness : exists i' evs,
  transition 0 (fst (Now demo_firing)) (ticks any_clock) true
    (view (row 1 demo_fp demo_firing)) i' evs /\
  observed 1 demo_fp demo_firing (exec (evaluateRule demo_mailer demo_vm demo_rule) demo_firing)
    i' (mailed demo_mailer evs) evs.
Proof.
  destruct (evaluateRule_refines demo_mailer any_clock demo_vm demo_rule
    [{| v_Metric := Some demo_labels; v_Value := S754_zero false |}] demo_firing)
    with demo_fp as (i' & evs & hs & Ht & Ho).
  - split; [apply demo_firing_ready|exact I].
  - reflexivity.
  - apply sound_rows_stored, demo_firing_ready.
  - assert (value_now [{| v_Metric := Some demo_labels; v_Value := S754_zero false |}] demo_fp
      = Some (S754_zero false)) as E by (vm_compute; reflexivity).
    rewrite E in Ht. apply evaluated_number in Ht as [Ht ->]; [|reflexivity].
    exists i', evs. split; [exact Ht|exact Ho].
Defined.

Lemma notification_rate_witness :
  let w' := exec (evaluations demo_mailer demo_rule (replicate 30 demo_vm)) demo_firing in
  exists mails, mail_events 1 demo_fp w' = mail_events 1 demo_fp demo_firing ++ mails /\
    (mails = [] \/
     (Z.of_nat (List.length mails) - 1) * (notifyInterval - Second)
       <= w_now w' - w_now demo_firing).
Proof.
  exact (notification_rate demo_mailer demo_rule demo_fp (replicate 30 demo_vm) demo_firing
    demo_firing_ready (demo_present demo_rule 30)).
Defined.

Lemma pending_delay_witness :
  let w' := exec (evaluations demo_mailer slow_rule (replicate 20 demo_vm)) demo_start in
  mail_events 1 demo_fp w' = mail_events 1 demo_fp demo_start /\
  forall since, in_phase (view (row 1 demo_fp w')) <> Firing since.
Proof.
  apply (pending_delay demo_mailer slow_rule demo_fp (replicate 20 demo_vm) demo_start).
  - split; [apply demo_start_sound|reflexivity].
  - apply demo_present.
  - reflexivity.
  - split; vm_compute; discriminate.
  - reflexivity.
  - vm_compute. reflexivity.
Defined.

(** The rule is deleted by another request just before its evaluation reads the states,
    and a statement of that request fails. *)
Definition demo_disturbed : World :=
  {| w_db := empty_db; w_now := 1700000000 * Second; w_ticks := replicate 40 (10 * Second);
     w_turns := [undisturbed None; undisturbed None; undisturbed None;
                 {| t_others := [DeleteRuleRow 1; DeleteStates 1]; t_fault := None |};
                 undisturbed (Some "database is locked (5) (SQLITE_BUSY)"%string)];
     w_mail := [] |}.

Lemma calls_keep_db_ok_witness :
  db_ok (w_db (exec (run_calls demo_mailer
    [Restart; Create demo_rule; Tick demo_vm; Acknowledge 1 demo_fp None; Delete 1])
    demo_disturbed)).
Proof.
  apply calls_keep_db_ok.
  - do 2 (constructor; [exact I|]). constructor; [intros expr; exact demo_ascii|].
    do 2 (constructor; [exact I|]). constructor.
  - split; [apply db_ok_empty|]. split; [apply demo_start_sound|].
    repeat constructor.
Defined.

Lemma evaluateRule_frame_witness :
  untouched 2 demo_fp demo_firing (exec (evaluateRule demo_mailer demo_vm demo_rule) demo_firing).
Proof.
  apply evaluateRule_frame; [apply demo_firing_ready| |exact demo_ascii|discriminate].
  vm_compute. constructor.
Defined.

(** When the mail cannot be noted on the row the next tick mails again, ten seconds
    later: only a note that was written holds the five minutes. *)
Definition demo_unnoted : World :=
  let ok := undisturbed None in
  let busy := undisturbed (Some "database is locked (5) (SQLITE_BUSY)"%string) in
  {| w_db := empty_db; w_now := 1700000000 * Second; w_ticks := replicate 40 Second;
     w_turns := [ok; ok; ok; busy; ok; ok; ok; busy]; w_mail := [] |}.

Lemma unnoted_mail_is_repeated :
  let w' := exec (evaluations demo_mailer demo_rule (replicate 2 demo_vm)) demo_unnoted in
  mail_events 1 demo_fp w' = ["firing"; "firing"]%string /\ w_now w' - w_now demo_unnoted < notifyInterval.
Proof. vm_compute. split; reflexivity. Qed.
