(* ===== verification/AlertRace.v ===== *)
(** * Requests that arrive in the middle of an evaluation

    The evaluator and the HTTP handlers share the database and no lock, so an
    acknowledgement can fall between the statement that reads the states of a
    rule and those that write them back. [acknowledged] is kept by every step
    of an evaluation that sees the series, by every driver failure and by
    every statement of a concurrent request other than an update or a
    deletion of the same rule: an acknowledgement is never overwritten. What a
    deletion in the same place leaves behind is shown on a run. *)
From S2P Require Import Prelude GoTime LabelsJson Fingerprint AlertStore Evaluator AlertSpec AlertEffects AlertGuarantees.
From Stdlib Require Import String.

Section instance.
Context {R : MapRange} (rid : Z) (fp expr : string).

(** The statements that leave a firing instance firing and acknowledged: all
    but those that resolve it, that clear its acknowledgement, that give its
    rule another expression or drop its states, and the schema of a restart. *)
Definition spares (q : stmt) : Prop :=
  match q with
  | CreateSchema => False
  | UpdateRuleRow id _ _ ex _ _ _ => id = rid -> ex = expr
  | DeleteStates r => r <> rid
  | UpsertStateRow r f _ status _ _ _ => r = rid -> f = fp -> status = "firing"%string
  | NullAck r f => ~ (r = rid /\ f = fp)
  | _ => True
  end.

(** A step that spares the instance, and says nothing about an acknowledged one. *)
Definition sparing (acked : bool) (x : effect) : Prop :=
  issued x /\
  match x with
  | Statement q => spares q
  | Notification m =>
      acked = true -> ~ (rule_ID (m_rule m) = rid /\ Fingerprint (m_labels m) = fp)
  end.

(** Others issue sparing statements only. *)
Definition considerate (w : World) : Prop :=
  Forall (fun t => Forall spares (t_others t)) (w_turns w).

(** The rule, if it is there, has this expression; its id is used up. *)
Definition rule_reads (db : DB) : Prop :=
  rid <= rules_seq db /\ forall r, alert_rules db !! rid = Some r -> r_expr r = expr.

(** The instance is firing, and acknowledged if [acked]. *)
Definition firing_row (acked : bool) (db : DB) : Prop :=
  rule_reads db /\
  exists r, alert_state db !! (rid, fp) = Some r /\ s_status r = "firing"%string /\
    (acked = true -> is_Some (s_acknowledged_at r)).

Lemma firing_row_upsert acked rid' fp' db lj status v ps fs :
  (rid' = rid -> fp' = fp -> status = "firing"%string) -> firing_row acked db ->
  firing_row acked
    (with_state (<[(rid', fp') := upserted (alert_state db !! (rid', fp')) lj status v ps fs]>
       (alert_state db)) db).
Proof.
  intros Hst (Hrule & r & Hr & Hs & Ha). split; [done|]. simpl.
  destruct (decide ((rid', fp') = (rid, fp))) as [[= -> ->]|Hne].
  - rewrite lookup_insert_eq, Hr. eexists. split; [done|]. simpl. auto.
  - rewrite lookup_insert_ne by congruence. eauto.
Qed.

Lemma firing_row_alter b rid' fp' db f :
  (forall r, s_status (f r) = s_status r) ->
  (rid' = rid -> fp' = fp -> forall r, is_Some (s_acknowledged_at r) -> is_Some (s_acknowledged_at (f r))) ->
  firing_row b db -> firing_row b (with_state (alter f (rid', fp') (alert_state db)) db).
Proof.
  intros Hf Ha (Hrule & r & Hr & Hs & Hb). split; [done|]. simpl.
  destruct (decide ((rid', fp') = (rid, fp))) as [[= -> ->]|Hne].
  - rewrite lookup_alter_eq, Hr. exists (f r). rewrite Hf. split_and!; eauto.
  - rewrite lookup_alter_ne by congruence. eauto.
Qed.

Lemma spares_stmt b q db db' id :
  spares q -> exec_stmt q db = Ok (db', id) -> firing_row b db -> firing_row b db'.
Proof.
  intros Hq Hex Hrow. destruct q; simpl in Hq, Hex; simplify_eq; try done.
  - destruct (name_taken _ _ _); simplify_eq. destruct Hrow as [[Hid Hex] Hrow]. split; [|done].
    split; simpl; [lia|]. intros r. rewrite lookup_insert_ne by lia. apply Hex.
  - destruct (alert_rules db !! _) as [r0|] eqn:Hr0; [|by simplify_eq].
    destruct (name_taken _ _ _); simplify_eq. destruct Hrow as [[Hid Hex] Hrow]. split; [|done].
    split; [done|]. simpl. intros r. rewrite lookup_insert_Some.
    intros [[-> <-]|[_ Hr]]; [by apply Hq|by apply Hex].
  - destruct Hrow as [[Hid Hex] Hrow]. split; [|done]. split; [done|]. simpl.
    intros r [_ Hr]%lookup_delete_Some. by apply Hex.
  - destruct Hrow as (Hrule & r & Hr & Hs). split; [done|]. exists r. split; [|done]. simpl.
    apply map_lookup_filter_Some. split; [done|]. simpl. congruence.
  - destruct (is_nan _); simplify_eq. by apply firing_row_upsert.
  - apply firing_row_alter; [done| |done]. intros _ _ r _. by eexists.
  - apply firing_row_alter; [done| |done]. intros -> ->. by destruct Hq.
  - by apply firing_row_alter.
  - by destruct (is_nan _); simplify_eq.
Qed.

Lemma spares_others b qs db : Forall spares qs -> firing_row b db -> firing_row b (run_others qs db).
Proof.
  intros Hqs. revert db. induction Hqs as [|q qs Hq _ IH]; intros db Hrow; [done|]. simpl. apply IH.
  destruct (exec_stmt q db) as [[db' id]|] eqn:Hex; [|done]. by eapply spares_stmt.
Qed.
End instance.

Section race.
Context {R : MapRange} {HO : Sorter most_recent_first}.
Context (e : Evaluator) (rid : Z) (fp expr : string).
Abbreviation any := (fun _ => True).

Record standing (acked : bool) (ms : list string) (w : World) : Prop := {
  sd_sound : sound w;
  sd_others : considerate rid fp expr w;
  sd_row : firing_row rid fp expr acked (w_db w);
  sd_mail : acked = true -> mail_events rid fp w = ms
}.

Lemma standing_stable acked ms : stable (sparing rid fp expr acked) (standing acked ms).
Proof.
  intros w w' Hs [Hw Ho Hr Hm].
  assert (sound w') as Hw' by (eapply sound_stable; [eapply step_mono; [|done]; by intros x [? _]|done]).
  destruct Hs as [| |q db id [_ Hq] Hex|m [_ Hn]].
  - done.
  - unfold considerate in Ho. split; [done|..|done]; unfold considerate, take_turn; simpl;
      (destruct Ho as [|t ts Ht Ho]; simpl; [done|]); [done|by apply spares_others].
  - split; [done|done|by eapply spares_stmt|done].
  - split; [done|done|done|]. intros Hacked. unfold mail_events in *. simpl.
    rewrite filter_app, fmap_app, filter_cons_False, filter_nil, app_nil_r by auto. by apply Hm.
Qed.

(** The steps of an evaluation about another instance. *)
Lemma sparing_other acked rid' fp' x : (rid', fp') <> (rid, fp) -> reconciling rid' fp' x -> sparing rid fp expr acked x.
Proof.
  intros Hne [Hi Ha]. split; [done|]. destruct x as [q|m]; simpl in Ha.
  - destruct q; simpl in *; try done; destruct Ha as [-> ->]; first [intros ? ? | intros [? ?]]; congruence.
  - destruct Ha as [<- <-]. intros _ [? ?]. congruence.
Qed.

Lemma other_does {A} acked ms rid' fp' (m : M A) Q :
  (rid', fp') <> (rid, fp) -> does (reconciling rid' fp') sound m Q ->
  does (sparing rid fp expr acked) (standing acked ms) m Q.
Proof.
  intros Hne. apply does_mono; [|by intros w []]. intros x. by apply sparing_other.
Qed.

(** What an evaluation reads about the instance. *)
Definition firing_state (acked : bool) (h : AlertState) : Prop :=
  st_Status h = "firing"%string /\
  (acked = true -> is_Some (set_time (st_AcknowledgedAt h))) /\
  (set_time (st_AcknowledgedAt h) = None -> set_time (st_SilenceUntil h) = None).

Definition firing_states (acked : bool) (hs : result (list AlertState)) : Prop :=
  match hs with
  | Ok l => labelled_states (Ok l) /\ exists h, findState l fp = Some h /\ firing_state acked h
  | Err _ => True
  end.

Lemma stored_ack a : 0 <= a -> is_Some (set_time (parsePtrTime (Some a))).
Proof.
  intros Ha. unfold set_time, parsePtrTime, parse_rfc3339. simpl. unfold IsZero.
  destruct (Z.eqb_spec (a * Second) zero_time) as [E|]; [|by eexists].
  unfold zero_time in E. durations. lia.
Qed.

Lemma states_firing acked ms :
  does (sparing rid fp expr acked) (standing acked ms) (GetActiveStatesForRule rid) (firing_states acked).
Proof.
  apply does_query; [apply standing_stable|done|].
  intros w [[Hdb _] _ (_ & r & Hr & Hs & Hack) _]. split.
  - intros h Hh. apply list_elem_of_fmap in Hh as ([fp' r'] & -> & Hin).
    apply list_elem_of_filter in Hin as [_ Hr'%elem_of_rows_of_rule].
    by apply row_ok_labels, (ok_state _ Hdb rid).
  - exists (scan_state rid fp r). split.
    + apply findState_rows; [apply NoDup_active_rows|]. apply list_elem_of_filter.
      rewrite elem_of_rows_of_rule. simpl. by rewrite Hs.
    + apply (ok_state _ Hdb) in Hr. split; [done|]. simpl. split.
      * intros Hacked. destruct (Hack Hacked) as [a Ha]. rewrite Ha.
        apply stored_ack. by apply (ro_ack _ _ Hr).
      * intros Hn. destruct (s_silence_until r) as [su|] eqn:Hsu; [|done]. exfalso.
        destruct (ro_silence _ _ Hr) as [a Ha]; [by rewrite Hsu|]. rewrite Ha in Hn.
        destruct (stored_ack a) as [t Ht]; [by apply (ro_ack _ _ Hr)|congruence].
Qed.

(** A firing instance is refreshed, and reported at most if it is not acknowledged. *)
Lemma evalPresent_firing acked ms rule l h now inst :
  rule_ID rule = rid -> findState l fp = Some h -> firing_state acked h -> ascii_instance fp inst ->
  does (sparing rid fp expr acked) (standing acked ms) (evalPresent e rule l now fp inst) any.
Proof.
  intros Hrid Hf (Hs & Hack & Hsil) [[Hfp Hl] Ha]. unfold evalPresent. rewrite Hf, Hs. simpl.
  pose proof (standing_stable acked ms) as Hst.
  assert (forall k : M unit, does (sparing rid fp expr acked) (standing acked ms) k any ->
    does (sparing rid fp expr acked) (standing acked ms)
      (UpsertState (rule_ID rule) fp (i_labels inst) "firing" (i_value inst) None
         (Some (default now (set_time (st_FiringSince h)))) ;;; k) any) as Hrefresh.
  { intros k Hk. eapply (does_bind _ _ Hst _ _ any); [|done].
    eapply (does_bind _ _ Hst _ _ any); [|intros ? _; by apply does_ret].
    apply does_exec. split; [|done]. split; [constructor|]. by exists (i_labels inst). }
  assert (acked = false -> does (sparing rid fp expr acked) (standing acked ms) (fire e rule inst) any)
    as Hfire.
  { intros ->. eapply does_mono; [| |by apply (fire_tells e rule fp inst)]; [|by intros w []].
    intros x [[Hi _] Hx]. split; [done|]. by destruct x as [[]|]. }
  unfold evalFiring. cbv zeta. destruct (set_time (st_AcknowledgedAt h)) as [t|] eqn:Ht.
  - apply Hrefresh. by apply does_ret.
  - rewrite Hsil by done. destruct acked; [by destruct (Hack eq_refl)|].
    destruct (set_time (st_LastNotifiedAt h)); [case_match|]; apply Hrefresh; auto. by apply does_ret.
Qed.

Lemma evaluateRule_firing acked ms vm rule :
  rule_ID rule = rid -> ascii_answer (vm (rule_Expr rule)) ->
  (forall results, vm (rule_Expr rule) = Ok results -> fp ∈ series results) ->
  does (sparing rid fp expr acked) (standing acked ms) (evaluateRule e vm rule) any.
Proof.
  intros Hrid Ha Hp. unfold evaluateRule.
  destruct (vm (rule_Expr rule)) as [results|]; [|by apply does_ret].
  specialize (Hp _ eq_refl). pose proof (standing_stable acked ms) as Hst.
  cbv zeta. rewrite Hrid. eapply does_bind; [done|apply states_firing|].
  intros [l|] Hl; [|by apply does_ret]. destruct Hl as (Hlab & h & Hf & Hh).
  eapply does_bind; [done|apply does_Now|]. intros now _.
  eapply (does_bind _ _ Hst _ _ any); [|intros _ _]; (apply does_loop; [done|]).
  - intros [fp' inst] Hin%elem_of_range. simpl.
    assert (ascii_instance fp' inst) as Hi by by eapply current_of_ascii.
    destruct (decide (fp' = fp)) as [->|Hne]; [by eapply evalPresent_firing|].
    apply (other_does _ _ (rule_ID rule) fp'); [congruence|by apply evalPresent_moves].
  - intros h' Hh'. destruct (decide (st_Fingerprint h' = fp)) as [E|Hne].
    + unfold evalAbsent. apply current_of_series in Hp as [inst Hi]. rewrite E, Hi. by apply does_ret.
    + destruct (Hlab _ Hh'). apply (other_does _ _ (rule_ID rule) (st_Fingerprint h')); [congruence|].
      by apply evalAbsent_moves.
Qed.

(** A tick's answers: the series is in the one to the rule's expression, if there is one. *)
Definition shows (vm : string -> result (list Vector)) : Prop :=
  (forall ex, ascii_answer (vm ex)) /\
  forall results, vm expr = Ok results -> fp ∈ series results.

Definition reading (rules : result (list AlertRule)) : Prop :=
  match rules with
  | Ok rules => forall rule, rule ∈ rules -> rule_ID rule = rid -> rule_Expr rule = expr
  | Err _ => True
  end.

Lemma rules_reading acked ms :
  does (sparing rid fp expr acked) (standing acked ms) GetEnabledRules reading.
Proof.
  apply does_query; [apply standing_stable|done|].
  intros w [_ _ [[_ Hex] _] _] rule Hin Hid.
  apply list_elem_of_fmap in Hin as ([id row] & -> & Hin).
  apply list_elem_of_filter in Hin as [_ Hin]. unfold rules_by_id in Hin.
  rewrite sort_perm, elem_of_map_to_list in Hin. simpl in *. subst. by apply Hex.
Qed.

Lemma evaluate_firing acked ms vm :
  shows vm -> does (sparing rid fp expr acked) (standing acked ms) (evaluate e vm) any.
Proof.
  intros [Ha Hp]. pose proof (standing_stable acked ms) as Hst.
  eapply does_bind; [done|apply rules_reading|]. intros [rules|] Hr; [|by apply does_ret].
  apply does_loop; [done|]. intros rule Hin. destruct (decide (rule_ID rule = rid)) as [E|Hne].
  - apply evaluateRule_firing; [done|done|]. by rewrite (Hr _ Hin E).
  - eapply does_mono; [| |by apply (evaluateRule_evals e vm rule)]; [|by intros w []].
    intros x [fp' Hx]. eapply sparing_other; [|exact Hx]. congruence.
Qed.

(** The calls that leave the instance alone: everything but a restart, and an update or a
    deletion of its rule. *)
Definition leaves (c : call) : Prop :=
  match c with
  | Restart => False
  | Update id _ | Delete id => id <> rid
  | Tick vm => shows vm
  | _ => True
  end.

Ltac standing_next acked ms := eapply (does_bind _ _ (standing_stable acked ms) _ _ any);
  [first [apply does_Now
         |apply does_exec; split; [first [apply boolToInt_flag|done]|first [done|simpl; congruence]]
         |apply does_any_query, standing_stable]|intros ? _].

Lemma SetAcknowledged_standing acked ms r f su :
  does (sparing rid fp expr acked) (standing acked ms) (SetAcknowledged r f su) any.
Proof.
  pose proof (standing_stable acked ms) as Hst.
  eapply (does_bind _ _ Hst _ _ (fun t => 0 <= t)).
  - intros w [[_ [Ht _]] _ _ _]. split; [apply rtc_once, step_clock|].
    by apply tick_next in Ht as [? _].
  - intros t Ht. eapply (does_bind _ _ Hst _ _ any); [|intros ? _; by apply does_ret].
    apply does_exec. split; [|done]. simpl. unfold format_rfc3339. by apply Z.div_pos.
Qed.

Lemma run_call_firing acked ms c :
  leaves c -> does (sparing rid fp expr acked) (standing acked ms) (run_call e c) any.
Proof.
  intros Hc. pose proof (standing_stable acked ms) as Hst.
  assert (forall A (m : M A), does (sparing rid fp expr acked) (standing acked ms) m any ->
    does (sparing rid fp expr acked) (standing acked ms) (m ;;; ret tt) any) as Hunit.
  { intros A m Hm. eapply does_bind; [done|exact Hm|]. intros ? _. by apply does_ret. }
  destruct c; simpl in *; try done; try apply Hunit.
  - by apply evaluate_firing.
  - do 2 standing_next acked ms. by apply does_ret.
  - standing_next acked ms. standing_next acked ms. case_match; [|by apply does_ret].
    do 2 standing_next acked ms. by apply does_ret.
  - standing_next acked ms. case_match; [|by apply does_ret].
    do 2 standing_next acked ms. by apply does_ret.
  - apply SetAcknowledged_standing.
  - standing_next acked ms. by apply does_ret.
  - unfold ListRules. standing_next acked ms. case_match; [|by apply does_ret].
    eapply (does_bind _ _ Hst _ _ any); [|intros ? _; by apply does_ret].
    apply collect_any; [done|]. intros row. unfold getStatesForRule.
    eapply (does_bind _ _ Hst _ _ any); [|intros ? _; by apply does_ret].
    standing_next acked ms. by apply does_ret.
  - unfold ListHistory. standing_next acked ms. case_match; [|by apply does_ret].
    cbv zeta. standing_next acked ms. by apply does_ret.
Qed.

Lemma run_calls_steps acked ms cs w :
  Forall leaves cs -> standing acked ms w ->
  rtc (step (sparing rid fp expr acked)) w (exec (run_calls e cs) w).
Proof.
  intros Hcs Hw. assert (does (sparing rid fp expr acked) (standing acked ms) (run_calls e cs) any) as Hd.
  { apply does_loop; [apply standing_stable|]. intros c Hc. apply run_call_firing.
    by eapply Forall_forall in Hcs. }
  by destruct (Hd w Hw).
Qed.

Lemma run_calls_standing acked ms cs w :
  Forall leaves cs -> standing acked ms w -> standing acked ms (exec (run_calls e cs) w).
Proof.
  intros Hcs Hw. eapply stable_steps; [apply standing_stable| |done]. by eapply run_calls_steps.
Qed.

(** A firing instance before anything is known of its acknowledgement. *)
Definition alarmed (w : World) : Prop :=
  sound w /\ considerate rid fp expr w /\ firing_row rid fp expr false (w_db w).

Lemma alarmed_standing w : alarmed w -> standing false [] w.
Proof. by intros (? & ? & ?). Qed.

(** A statement that acknowledges the instance. *)
Definition acks (q : stmt) : Prop :=
  match q with UpdateAck r f _ _ => r = rid /\ f = fp | _ => False end.

Lemma acks_stmt q db db' id :
  acks q -> exec_stmt q db = Ok (db', id) -> firing_row rid fp expr false db ->
  firing_row rid fp expr true db'.
Proof.
  intros Hq Hex (Hrule & r & Hr & Hs & _). destruct q; try done. destruct Hq as [-> ->].
  simpl in Hex. simplify_eq. split; [done|]. simpl. rewrite lookup_alter_eq, Hr.
  eexists. split; [done|]. split; [done|]. by eexists.
Qed.

Lemma acks_others qs db :
  Forall (spares rid fp expr) qs -> Exists acks qs -> firing_row rid fp expr false db ->
  firing_row rid fp expr true (run_others qs db).
Proof.
  intros Hqs Hack. revert db. induction Hqs as [|q qs Hq Hqs IH]; intros db Hrow;
    [by apply Exists_nil in Hack|].
  simpl. apply Exists_cons in Hack as [Hack|Hack].
  - apply spares_others; [done|]. destruct (exec_stmt q db) as [[db' id]|] eqn:Hex.
    + by eapply acks_stmt.
    + by destruct q.
  - apply IH; [done|]. destruct (exec_stmt q db) as [[db' id]|] eqn:Hex; [|done].
    by eapply spares_stmt.
Qed.

(** Once another request has acknowledged the instance it is acknowledged. *)
Definition noticed (ts : list Turn) (w : World) : Prop :=
  standing false [] w /\ exists pre, ts = pre ++ w_turns w /\
    (Exists (fun t => Exists acks (t_others t)) pre -> firing_row rid fp expr true (w_db w)).

Lemma noticed_stable ts : stable (sparing rid fp expr false) (noticed ts).
Proof.
  intros w w' Hs [Hw (pre & Hts & Hpre)].
  assert (standing false [] w') as Hw' by by eapply standing_stable.
  split; [done|]. destruct Hs as [| |q db id [_ Hq] Hex|m _]; [by exists pre| | |by exists pre].
  - destruct (w_turns w) as [|t ts'] eqn:E; unfold take_turn in *; rewrite E in *; simpl in *.
    { exists pre. split; [by rewrite Hts|]. exact Hpre. }
    pose proof (sd_others _ _ _ Hw) as Ho. unfold considerate in Ho. rewrite E in Ho.
    apply Forall_cons in Ho as [Ht Ho].
    exists (pre ++ [t]). split; [by rewrite <-app_assoc|].
    intros [Hex|[Hex|?%Exists_nil]%Exists_cons]%Exists_app; [| |done].
    + apply spares_others; [done|by apply Hpre].
    + apply acks_others; [done|done|by apply Hw].
  - exists pre. split; [done|]. intros Hex'. eapply spares_stmt; [done|exact Hex|by apply Hpre].
Qed.
End race.

(** ** The theorems *)
Section theorems.
Context {R : MapRange} {HO : Sorter most_recent_first}.
Context (e : Evaluator) (rid : Z) (fp expr : string).

Lemma SetAcknowledged_acks w su :
  alarmed rid fp expr w -> fst (SetAcknowledged rid fp su w) = Ok tt ->
  standing rid fp expr true (mail_events rid fp w) (exec (SetAcknowledged rid fp su) w).
Proof.
  intros Hw Hok.
  destruct (SetAcknowledged_standing rid fp expr false [] rid fp su w) as [Hs _];
    [by apply alarmed_standing|].
  assert (standing rid fp expr false [] (exec (SetAcknowledged rid fp su) w)) as [Hsd Ho Hrow _]
    by (eapply stable_steps; [apply standing_stable|exact Hs|by apply alarmed_standing]).
  split; [done|done|..]; clear Hs Hsd Ho;
    revert Hrow Hok; unfold SetAcknowledged, db_exec; run; unfold bind, exec;
    destruct Hw as (_ & Hoth & Hrow); cbn [Now fst snd].
  all: match goal with |- context [next_fault ?w1] =>
    destruct (next_fault w1); [done|]; set (w2 := take_turn w1) end.
  all: destruct (exec_stmt _ _) as [[db id]|] eqn:Hex; [|done]; intros _ _.
  - eapply acks_stmt; [|exact Hex|]; [done|]. unfold w2, take_turn. simpl.
    apply spares_others; [|done]. unfold considerate in Hoth.
    by destruct Hoth.
  - done.
Qed.

(** C6: after a request has acknowledged a firing instance, with or without a deadline for
    the silence, nothing is mailed about it and it stays acknowledged - also after the
    deadline, against README.md:285 - over any ticks whose answers contain its series (or
    that get none) and any other requests, before and in the middle of them, except a
    restart and requests that update or delete the rule itself; whatever driver calls
    fail. *)
Theorem acknowledged_stays_quiet su cs w :
  alarmed rid fp expr w -> Forall (leaves rid fp expr) cs ->
  fst (SetAcknowledged rid fp su w) = Ok tt ->
  let w' := exec (run_calls e cs) (exec (SetAcknowledged rid fp su) w) in
  mail_events rid fp w' = mail_events rid fp w /\ firing_row rid fp expr true (w_db w').
Proof.
  intros Hw Hcs Hok w'. pose proof (SetAcknowledged_acks w su Hw Hok) as Hst.
  apply (run_calls_standing e _ _ _ _ _ cs) in Hst as [_ _ Hrow Hm]; [|done]. split; [|done].
  by apply Hm.
Qed.

(** C7: an acknowledgement that arrives in the middle of other requests and of ticks, between
    any two of their statements, is not overwritten by what they have read before it, and
    from the end of those ticks on nothing is mailed about the instance - while every
    answer contains its series, and the rule is not updated or deleted and the server not
    restarted. *)
Theorem concurrent_ack_is_kept cs cs' pre w :
  alarmed rid fp expr w -> Forall (leaves rid fp expr) cs -> Forall (leaves rid fp expr) cs' ->
  let w1 := exec (run_calls e cs) w in
  let w2 := exec (run_calls e cs') w1 in
  w_turns w = pre ++ w_turns w1 -> Exists (fun t => Exists (acks rid fp) (t_others t)) pre ->
  mail_events rid fp w2 = mail_events rid fp w1 /\ firing_row rid fp expr true (w_db w2).
Proof.
  intros Hw Hcs Hcs' w1 w2 Hpre Hack. apply alarmed_standing in Hw.
  pose proof (run_calls_steps e _ _ _ _ _ cs w Hcs Hw) as Hs.
  assert (noticed rid fp expr (w_turns w) w) as Hn.
  { split; [done|]. exists []. split; [done|]. by intros ?%Exists_nil. }
  pose proof (stable_steps _ _ _ _ (noticed_stable _ _ _ _) Hs Hn) as [[Hsd Hoth _ _] (pre' & E & Hrow)]. fold w1 in Hsd, Hoth, E, Hrow.
  assert (pre' = pre) as -> by (eapply (app_inv_tail (w_turns w1)); congruence).
  assert (standing rid fp expr true (mail_events rid fp w1) w1) as Hst by (split; auto).
  apply (run_calls_standing e _ _ _ _ _ cs') in Hst as [_ _ Hr Hm]; [|done]. split; [|done].
  by apply Hm.
Qed.
End theorems.

(** ** Runs

    Another request acknowledges the instance just after a tick has read the states; then
    a statement of the tick fails. *)
#[local] Existing Instance in_key_order.

Definition with_turns (ts : list Turn) (w : World) : World :=
  {| w_db := w_db w; w_now := w_now w; w_ticks := w_ticks w; w_turns := ts; w_mail := w_mail w |}.

Definition ack_turn : Turn := {| t_others := [UpdateAck 1 demo_fp 1700000100 None]; t_fault := None |}.

Definition demo_turns : list Turn :=
  [undisturbed None; undisturbed None; ack_turn; undisturbed (Some "database is locked (5) (SQLITE_BUSY)"%string)].

Definition demo_contended : World := with_turns demo_turns demo_firing.

Lemma demo_alarmed ts :
  Forall (fun t => Forall (fun q => issued_stmt q /\ spares 1 demo_fp "up == 0" q) (t_others t)) ts ->
  alarmed 1 demo_fp "up == 0" (with_turns ts demo_firing).
Proof.
  intros Hts. destruct demo_firing_ready as [(Hdb & Ht & _) _]. split; [|split].
  - split; [exact Hdb|]. split; [exact Ht|]. eapply Forall_impl; [exact Hts|].
    intros t Hq. eapply Forall_impl; [exact Hq|]. by intros q [? _].
  - eapply Forall_impl; [exact Hts|]. intros t Hq. eapply Forall_impl; [exact Hq|]. by intros q [_ ?].
  - split; [split; [vm_compute; discriminate|]|].
    + intros r. vm_compute. by intros [= <-].
    + eexists. split; [vm_compute; reflexivity|]. split; [reflexivity|discriminate].
Qed.

Lemma demo_leaves n : Forall (leaves 1 demo_fp "up == 0") (replicate n (Tick demo_vm)).
Proof.
  apply Forall_replicate. split; [intros ex; exact demo_ascii|].
  intros results [= <-]. by apply list_elem_of_singleton.
Qed.

Lemma acknowledged_stays_quiet_witness :
  let w := with_turns (undisturbed None :: demo_turns) demo_firing in
  let w' := exec (run_calls demo_mailer (replicate 35 (Tick demo_vm)))
              (exec (SetAcknowledged 1 demo_fp (Some (1700000060 * Second))) w) in
  mail_events 1 demo_fp w' = mail_events 1 demo_fp w /\ firing_row 1 demo_fp "up == 0" true (w_db w').
Proof.
  apply (acknowledged_stays_quiet demo_mailer 1 demo_fp "up == 0").
  - apply demo_alarmed. repeat constructor; try done.
  - apply demo_leaves.
  - vm_compute. reflexivity.
Defined.

Lemma concurrent_ack_is_kept_witness :
  let w1 := exec (run_calls demo_mailer [Tick demo_vm; Rules]) demo_contended in
  let w2 := exec (run_calls demo_mailer (replicate 35 (Tick demo_vm))) w1 in
  mail_events 1 demo_fp w2 = mail_events 1 demo_fp w1 /\ firing_row 1 demo_fp "up == 0" true (w_db w2).
Proof.
  apply (concurrent_ack_is_kept demo_mailer 1 demo_fp "up == 0" [Tick demo_vm; Rules]
    (replicate 35 (Tick demo_vm)) demo_turns demo_contended).
  - apply demo_alarmed. repeat constructor; try done.
  - constructor; [exact (Forall_inv (demo_leaves 1))|]. by repeat constructor.
  - apply demo_leaves.
  - vm_compute. reflexivity.
  - do 2 apply Exists_cons_tl. apply Exists_cons_hd, Exists_cons_hd. done.
Defined.

(** A deletion of the rule that falls between the reading of its states and the writing of
    them: the deleted rule's alert is mailed, and leaves a state that no evaluation looks at
    any more, and a history that is listed. *)
Definition deletion_turn : Turn :=
  {| t_others := [DeleteRuleRow 1; DeleteStates 1; DeleteHistory 1]; t_fault := None |}.

Definition demo_deleted : World :=
  exec (run_calls demo_mailer [Tick demo_vm; Tick (fun _ => Ok []); Tick (fun _ => Ok [])])
    (with_turns [undisturbed None; undisturbed None; deletion_turn]
       (exec (run_calls demo_mailer [Create demo_rule]) demo_start)).

Lemma deletion_during_evaluation :
  alert_rules (w_db demo_deleted) = ∅ /\
  s_status <$> row 1 demo_fp demo_deleted = Some "firing"%string /\
  history_events 1 demo_fp demo_deleted = ["firing"%string] /\
  mail_events 1 demo_fp demo_deleted = ["firing"%string].
Proof. vm_compute. auto. Qed.
