(* ===== verification/TreeMap.v ===== *)
(** * Ordered maps

    The schedulers keep their tasks in a red-black tree keyed by strings; what
    they rely on is a finite map whose iterator visits the keys in ascending
    order. *)
From S2P Require Import Prelude.
From Stdlib Require Import String.

Abbreviation treemap := (gmap string).

Definition key_le {A} (a b : string * A) : Prop := String.le a.1 b.1.
#[export] Instance key_le_dec {A} : RelDecision (@key_le A).
Proof. unfold key_le. intros ??. apply _. Defined.
#[export] Instance key_le_trans {A} : Transitive (@key_le A).
Proof. unfold key_le. intros ??? H1 H2. by etrans. Qed.
#[export] Instance key_le_total {A} : Total (@key_le A).
Proof. unfold key_le. intros [k1 a1] [k2 a2]. apply (total String.le). Qed.

Definition Iterator {A} (m : treemap A) : list (string * A) :=
  merge_sort key_le (map_to_list m).

Definition Values {A} (m : treemap A) : list A := (Iterator m).*2.

(** [Put] of each value under its key, in order: a later value replaces an
    earlier one with the same key. *)
Definition put_all {A} (key : A -> string) (xs : list A) (m : treemap A) : treemap A :=
  foldl (fun m x => <[key x := x]> m) m xs.

Section facts.
Context {A : Type}.
Implicit Types m : treemap A.

Lemma Iterator_perm m : Iterator m ≡ₚ map_to_list m.
Proof. apply merge_sort_Permutation. Qed.

Lemma elem_of_Iterator m k a : (k, a) ∈ Iterator m <-> m !! k = Some a.
Proof. by rewrite Iterator_perm, elem_of_map_to_list. Qed.

Lemma Iterator_sorted m : StronglySorted key_le (Iterator m).
Proof. apply (StronglySorted_merge_sort _). Qed.

Lemma NoDup_Iterator m : NoDup (Iterator m).*1.
Proof. rewrite (Iterator_perm m). apply NoDup_fst_map_to_list. Qed.

Lemma put_all_app (key : A -> string) xs ys m :
  put_all key (xs ++ ys) m = put_all key ys (put_all key xs m).
Proof. apply foldl_app. Qed.

Lemma put_all_key (key : A -> string) xs m k a :
  put_all key xs m !! k = Some a -> (a ∈ xs /\ key a = k) \/ m !! k = Some a.
Proof.
  revert m. induction xs as [|x xs IH]; intros m; simpl; [by right|].
  intros [[Hin <-]|Hm]%IH; [left; split; [by right|done]|].
  apply lookup_insert_Some in Hm as [[<- <-]|[_ ?]]; [left; split; [by left|done]|by right].
Qed.

Lemma put_all_is_Some (key : A -> string) xs m k :
  is_Some (put_all key xs m !! k) <-> k ∈ key <$> xs \/ is_Some (m !! k).
Proof.
  revert m. induction xs as [|x xs IH]; intros m; simpl.
  - split; [by right|by intros [?%elem_of_nil|]].
  - rewrite IH, lookup_insert_is_Some', elem_of_cons. intuition congruence.
Qed.
End facts.
