(* ===== verification/JobQueue.v ===== *)
(** * The daemon's jobs and their queue (scheduler/daemon/job.go, queue.go)

    A job is an [IntervalJob]: the task it runs, by reference, and the instant
    it is next due. The queue is the linked list of jobs, kept in order of due
    time; its lock makes each method one atomic operation. The sort of the
    list library (stable or not) is the interface [Sorter]. *)
From S2P Require Import Prelude GoTime.

(** A reference to a task object. *)
Abbreviation TaskRef := nat.

Record Job := {
  j_id : nat;
  j_task : TaskRef;
  j_checkTime : Time
}.

#[export] Instance Job_eq_dec : EqDecision Job.
Proof. solve_decision. Defined.

Definition set_checkTime (t : Time) (j : Job) : Job :=
  {| j_id := j_id j; j_task := j_task j; j_checkTime := t |}.

(** [JobTimeComparator] as an order. *)
Definition not_after (a b : Job) : Prop := j_checkTime a <= j_checkTime b.
#[export] Instance not_after_dec : RelDecision not_after.
Proof. unfold not_after. intros ??. apply _. Defined.
#[export] Instance not_after_trans : Transitive not_after.
Proof. unfold not_after. intros ???. lia. Qed.
#[export] Instance not_after_total : Total not_after.
Proof. unfold not_after. intros ??. lia. Qed.

Definition JobQueue := list Job.

Definition NewLockQueue : JobQueue := [].
Definition First (q : JobQueue) : option Job := head q.
Definition Clear (_ : JobQueue) : JobQueue := [].
Definition Size (q : JobQueue) : nat := length q.
Definition PopAll (q : JobQueue) : list Job * JobQueue := (q, []).

Definition Pop (q : JobQueue) : option Job * JobQueue :=
  match q with
  | [] => (None, [])
  | j :: q' => (Some j, q')
  end.

(** The iterator of [PopUntil]: the jobs before the first one due later. *)
Fixpoint due_prefix (now : Time) (q : JobQueue) : list Job :=
  match q with
  | [] => []
  | j :: q' => if After (j_checkTime j) now then [] else j :: due_prefix now q'
  end.

Definition PopUntil (now : Time) (q : JobQueue) : list Job * JobQueue :=
  let jobs := due_prefix now q in (jobs, drop (length jobs) q).

Section queue.
Context {SO : Sorter not_after}.

Definition Push (js : list Job) (q : JobQueue) : JobQueue := sort not_after (q ++ js).
End queue.

Definition due (now : Time) (j : Job) : Prop := j_checkTime j <= now.
#[export] Instance due_dec now j : Decision (due now j).
Proof. unfold due. apply _. Defined.

Section facts.
Context {SO : Sorter not_after}.
Implicit Types q : JobQueue.

Lemma Push_perm js q : Push js q ≡ₚ q ++ js.
Proof. apply sort_perm. Qed.

Lemma Push_sorted js q : StronglySorted not_after (Push js q).
Proof. apply sort_sorted. Qed.

Lemma PopUntil_app now q : fst (PopUntil now q) ++ snd (PopUntil now q) = q.
Proof.
  unfold PopUntil. simpl. induction q as [|j q IH]; simpl; [done|].
  destruct (After _ _); simpl; [done|]. by rewrite IH.
Qed.

Lemma PopUntil_due now q : Forall (due now) (fst (PopUntil now q)).
Proof.
  unfold PopUntil. simpl. induction q as [|j q IH]; simpl; [done|].
  unfold After. destruct (Z.ltb_spec now (j_checkTime j)); [done|].
  constructor; [unfold due; lia|done].
Qed.

(** On a sorted queue nothing that is due is left behind. *)
Lemma PopUntil_rest now q :
  StronglySorted not_after q -> Forall (fun j => ~ due now j) (snd (PopUntil now q)).
Proof.
  unfold PopUntil. simpl. induction 1 as [|j q Hs IH Hall]; simpl; [done|].
  unfold After. destruct (Z.ltb_spec now (j_checkTime j)); simpl; [|done].
  constructor; [unfold due; lia|]. eapply Forall_impl; [exact Hall|].
  intros k Hk. unfold not_after, due in *. lia.
Qed.

Lemma PopUntil_sorted now q :
  StronglySorted not_after q ->
  StronglySorted not_after (fst (PopUntil now q)) /\ StronglySorted not_after (snd (PopUntil now q)).
Proof.
  intros Hs. rewrite <-(PopUntil_app now q) in Hs.
  by apply StronglySorted_app_inv in Hs as (? & ? & _).
Qed.

Lemma PopUntil_elem now q j :
  StronglySorted not_after q -> j ∈ fst (PopUntil now q) <-> j ∈ q /\ due now j.
Proof.
  intros Hs. pose proof (PopUntil_due now q) as Hd. pose proof (PopUntil_rest now q Hs) as Hr.
  rewrite <-(PopUntil_app now q) at 2. rewrite elem_of_app. rewrite Forall_forall in Hd, Hr.
  naive_solver.
Qed.
End facts.
