(* ===== verification/Daemon.v ===== *)
(** * The periodic scheduler (scheduler/daemon/scheduler.go)

    Tasks are objects in a heap: the task map and the jobs hold references,
    and a reload writes the new configuration through the reference of the job
    that is kept. A tick pops the jobs that are due, starts them, moves each to
    its next instant and queues them again. *)
From stdpp Require Import functions.
From S2P Require Import Prelude GoTime TreeMap JobQueue.

(** What the scheduler sees of a task's configuration ([define.TaskConfig])
    and of the global one ([define.Config]). *)
Record TaskConf := {
  GetTaskID : Z;
  GetIdent : string;
  GetPeriod : Duration
}.

Record GlobalConf := { GetCheckInterval : Duration }.

Inductive Status := StatusReady | StatusRunning | StatusError | StatusFinished.
#[export] Instance Status_eq_dec : EqDecision Status.
Proof. solve_decision. Defined.

(** A task object ([tasks.BaseTask]): the two configurations it holds; the global
    one may be nil. *)
Record TaskObj := { t_cfg : TaskConf; t_gcfg : option GlobalConf }.
Abbreviation Heap := (TaskRef -> TaskObj).

Definition conf_of (h : Heap) (r : TaskRef) : TaskConf := t_cfg (h r).
Definition ident_of (h : Heap) (r : TaskRef) : string := GetIdent (conf_of h r).

Definition SetConfig (c : TaskConf) (r : TaskRef) (h : Heap) : Heap :=
  <[r := {| t_cfg := c; t_gcfg := t_gcfg (h r) |}]> h.
Definition SetGlobalConfig (g : option GlobalConf) (r : TaskRef) (h : Heap) : Heap :=
  <[r := {| t_cfg := t_cfg (h r); t_gcfg := g |}]> h.

(** One start of a job: when, which job, which task. *)
Record Run := { run_at : Time; run_job : nat; run_task : TaskRef }.

Record Daemon := {
  d_status : Status;
  d_config : option GlobalConf;
  d_tasks : treemap TaskRef;
  d_jobs : JobQueue;
  d_heap : Heap;
  d_next_id : nat;
  d_interval : option Duration;
  d_runs : list Run;
  d_cancelled : list nat
}.

Definition with_jobs (q : JobQueue) (d : Daemon) : Daemon :=
  {| d_status := d_status d; d_config := d_config d; d_tasks := d_tasks d; d_jobs := q;
     d_heap := d_heap d; d_next_id := d_next_id d; d_interval := d_interval d;
     d_runs := d_runs d; d_cancelled := d_cancelled d |}.
Definition with_status (s : Status) (d : Daemon) : Daemon :=
  {| d_status := s; d_config := d_config d; d_tasks := d_tasks d; d_jobs := d_jobs d;
     d_heap := d_heap d; d_next_id := d_next_id d; d_interval := d_interval d;
     d_runs := d_runs d; d_cancelled := d_cancelled d |}.

Section daemon.
Context {SO : Sorter not_after}.

(** [New] *)
Definition New (config : option GlobalConf) (h : Heap) : Daemon :=
  {| d_status := StatusReady; d_config := config; d_tasks := ∅; d_jobs := NewLockQueue;
     d_heap := h; d_next_id := 0; d_interval := None; d_runs := []; d_cancelled := [] |}.

(** [NewJob] and [Init]: a job due at once. *)
Definition makeJobFromTask (now : Time) (r : TaskRef) (id : nat) : Job :=
  {| j_id := id; j_task := r; j_checkTime := now |}.

(** [IntervalJob.Next] *)
Definition Next (h : Heap) (j : Job) : Job :=
  set_checkTime (GoTime.Add (j_checkTime j) (GetPeriod (conf_of h (j_task j)))) j.

Definition AddTask (now : Time) (r : TaskRef) (d : Daemon) : Daemon :=
  let d1 := {| d_status := d_status d; d_config := d_config d;
               d_tasks := <[ident_of (d_heap d) r := r]> (d_tasks d);
               d_jobs := d_jobs d; d_heap := d_heap d; d_next_id := d_next_id d;
               d_interval := d_interval d; d_runs := d_runs d; d_cancelled := d_cancelled d |} in
  if decide (d_status d = StatusRunning) then
    {| d_status := d_status d1; d_config := d_config d1; d_tasks := d_tasks d1;
       d_jobs := Push [makeJobFromTask now r (d_next_id d)] (d_jobs d1);
       d_heap := d_heap d1; d_next_id := S (d_next_id d);
       d_interval := d_interval d1; d_runs := d_runs d1; d_cancelled := d_cancelled d1 |}
  else d1.

(** The jobs made for tasks taken in turn; [at_] is the clock when each is
    made. *)
Definition make_jobs (at_ : TaskRef -> Time) (rs : list TaskRef) (id : nat) : list Job :=
  zip_with (fun r k => makeJobFromTask (at_ r) r k) rs (seq id (length rs)).

Definition DefaultCheckInterval : Duration := 1 * Second.

Definition checkInterval (config : option GlobalConf) : Duration :=
  match config with
  | Some c => if 0 <? GetCheckInterval c then GetCheckInterval c else DefaultCheckInterval
  | None => DefaultCheckInterval
  end.

Definition Start (at_ : TaskRef -> Time) (d : Daemon) : Daemon :=
  let rs := Values (d_tasks d) in
  {| d_status := StatusRunning; d_config := d_config d; d_tasks := d_tasks d;
     d_jobs := Push (make_jobs at_ rs (d_next_id d)) (d_jobs d);
     d_heap := d_heap d; d_next_id := d_next_id d + length rs;
     d_interval := Some (checkInterval (d_config d));
     d_runs := d_runs d; d_cancelled := d_cancelled d |}.

Definition Count (d : Daemon) : nat := size (d_tasks d).
Definition Stop (d : Daemon) : Daemon := with_status StatusFinished d.

(** [Wait], once the loop has returned: the references waited for. *)
Definition Wait (d : Daemon) : list TaskRef * Daemon :=
  let '(jobs, q) := PopAll (d_jobs d) in
  (j_task <$> jobs, with_status StatusFinished (with_jobs q d)).

(** The body of [run]'s loop for one tick of the ticker. *)
Definition tick (now : Time) (d : Daemon) : Daemon :=
  if decide (d_status d = StatusRunning) then
    match PopUntil now (d_jobs d) with
    | ([], q) => with_jobs q d
    | (jobs, q) =>
        {| d_status := d_status d; d_config := d_config d; d_tasks := d_tasks d;
           d_jobs := Push (Next (d_heap d) <$> jobs) q;
           d_heap := d_heap d; d_next_id := d_next_id d; d_interval := d_interval d;
           d_runs := d_runs d ++
             ((fun j => {| run_at := now; run_job := j_id j; run_task := j_task j |}) <$> jobs);
           d_cancelled := d_cancelled d |}
    end
  else d.

Definition run (nows : list Time) (d : Daemon) : Daemon :=
  foldl (fun d now => tick now d) d nows.

(** ** Reload *)
Record Reloading := {
  rl_jobs : JobQueue;
  rl_maps : treemap TaskRef;
  rl_heap : Heap;
  rl_cancelled : list nat
}.

(** [reloadJobFromTask]: the configurations of [task] are written into the
    task object the job holds; [BaseTask.Reload] does nothing. *)
Definition reloadJobFromTask (j : Job) (r : TaskRef) (h : Heap) : Heap :=
  SetConfig (t_cfg (h r)) (j_task j) (SetGlobalConfig (t_gcfg (h r)) (j_task j) h).

(** The body of the loop over the popped jobs. *)
Definition reload_job (acc : Reloading) (j : Job) : Reloading :=
  let ident := ident_of (rl_heap acc) (j_task j) in
  match rl_maps acc !! ident with
  | Some r =>
      {| rl_jobs := Push [j] (rl_jobs acc);
         rl_maps := delete ident (rl_maps acc);
         rl_heap := reloadJobFromTask j r (rl_heap acc);
         rl_cancelled := rl_cancelled acc |}
  | None =>
      {| rl_jobs := rl_jobs acc; rl_maps := rl_maps acc; rl_heap := rl_heap acc;
         rl_cancelled := rl_cancelled acc ++ [j_id j] |}
  end.

Definition push_each (js : list Job) (q : JobQueue) : JobQueue :=
  foldl (fun q j => Push [j] q) q js.

Definition Reload (at_ : TaskRef -> Time) (conf : GlobalConf) (tasks : list TaskRef) (d : Daemon)
    : Daemon :=
  let taskMaps := put_all (ident_of (d_heap d)) tasks ∅ in
  let acc := foldl reload_job
    {| rl_jobs := NewLockQueue; rl_maps := taskMaps; rl_heap := d_heap d;
       rl_cancelled := d_cancelled d |} (fst (PopAll (d_jobs d))) in
  let fresh := Values (rl_maps acc) in
  {| d_status := d_status d; d_config := Some conf; d_tasks := taskMaps;
     d_jobs := push_each (make_jobs at_ fresh (d_next_id d)) (rl_jobs acc);
     d_heap := rl_heap acc; d_next_id := d_next_id d + length fresh;
     d_interval := d_interval d; d_runs := d_runs d; d_cancelled := rl_cancelled acc |}.
End daemon.
