(* ===== verification/DaemonSpec.v ===== *)
(** * Correctness of the periodic scheduler

    What a tick does to each job; the exact schedule of a job under ticks that
    keep up with its period; what a reload keeps, adds and stops. *)
From stdpp Require Import functions.
From S2P Require Import Prelude GoTime TreeMap JobQueue Daemon.

(** ** One tick *)
Definition ids (d : Daemon) : list nat := j_id <$> d_jobs d.

(** What a tick makes of a queued job. *)
Definition job_step (h : Heap) (now : Time) (j : Job) : Job :=
  if decide (due now j) then Next h j else j.

Definition run_of (now : Time) (j : Job) : Run :=
  {| run_at := now; run_job := j_id j; run_task := j_task j |}.

Record running (d : Daemon) : Prop := {
  rn_status : d_status d = StatusRunning;
  rn_sorted : StronglySorted not_after (d_jobs d);
  rn_ids : NoDup (ids d)
}.

Section ticks.
Context {SO : Sorter not_after}.

Lemma due_prefix_filter now q :
  StronglySorted not_after q -> fst (PopUntil now q) = filter (due now) q.
Proof.
  intros Hs. rewrite <-(PopUntil_app now q) at 2. rewrite filter_app.
  rewrite filter_all by apply PopUntil_due. rewrite filter_none by by apply PopUntil_rest.
  by rewrite app_nil_r.
Qed.

Lemma fmap_job_step_due h now js : Forall (due now) js -> job_step h now <$> js = Next h <$> js.
Proof.
  intros Hd. apply list_fmap_ext. intros i j Hj. unfold job_step.
  rewrite decide_True; [done|]. by eapply Forall_lookup in Hd.
Qed.

Lemma fmap_job_step_not_due h now js :
  Forall (fun j => ~ due now j) js -> job_step h now <$> js = js.
Proof.
  intros Hd. rewrite <-(list_fmap_id js) at 2. apply list_fmap_ext. intros i j Hj.
  unfold job_step. rewrite decide_False; [done|]. by eapply Forall_lookup in Hd.
Qed.

Lemma tick_jobs now d :
  running d -> d_jobs (tick now d) ≡ₚ job_step (d_heap d) now <$> d_jobs d.
Proof.
  intros [Hst Hs _]. unfold tick. rewrite decide_True by done.
  pose proof (PopUntil_app now (d_jobs d)) as Happ.
  pose proof (PopUntil_due now (d_jobs d)) as Hd. pose proof (PopUntil_rest now _ Hs) as Hr.
  destruct (PopUntil now (d_jobs d)) as [jobs q]. cbn [fst snd] in *.
  rewrite <-Happ, fmap_app, fmap_job_step_due, fmap_job_step_not_due by done.
  destruct jobs as [|j jobs]; simpl d_jobs; [done|]. rewrite Push_perm. apply Permutation_app_comm.
Qed.

Lemma tick_runs now d :
  running d ->
  d_runs (tick now d) = d_runs d ++ (run_of now <$> filter (due now) (d_jobs d)).
Proof.
  intros [Hst Hs _]. unfold tick. rewrite decide_True by done.
  rewrite <-due_prefix_filter by done.
  destruct (PopUntil now (d_jobs d)) as [[|j jobs] q]; simpl; [by rewrite app_nil_r|done].
Qed.

Lemma job_step_id h now j : j_id (job_step h now j) = j_id j.
Proof. unfold job_step. by case_decide. Qed.

Lemma job_step_task h now j : j_task (job_step h now j) = j_task j.
Proof. unfold job_step. by case_decide. Qed.

Lemma tick_keeps now d :
  d_heap (tick now d) = d_heap d /\ d_status (tick now d) = d_status d /\
  d_tasks (tick now d) = d_tasks d.
Proof.
  unfold tick. case_decide; [|done]. destruct (PopUntil now (d_jobs d)) as [[|j jobs] q]; done.
Qed.

Lemma tick_ids now d : running d -> ids (tick now d) ≡ₚ ids d.
Proof.
  intros Hd. unfold ids. rewrite (tick_jobs now d Hd), <-list_fmap_compose.
  apply reflexive_eq, list_fmap_ext. intros. apply job_step_id.
Qed.

Lemma tick_running now d : running d -> running (tick now d).
Proof.
  intros Hd. split.
  - destruct (tick_keeps now d) as (_ & -> & _). apply Hd.
  - destruct Hd as [Hst Hs _]. unfold tick. rewrite decide_True by done.
    pose proof (PopUntil_sorted now _ Hs) as [_ Hq].
    destruct (PopUntil now (d_jobs d)) as [[|j jobs] q]; [done|apply Push_sorted].
  - rewrite tick_ids by done. apply Hd.
Qed.

(** ** Runs of one job under successive ticks *)
Fixpoint job_at (h : Heap) (nows : list Time) (j : Job) : Job :=
  match nows with [] => j | now :: nows' => job_at h nows' (job_step h now j) end.

Fixpoint starts (h : Heap) (nows : list Time) (j : Job) : list Time :=
  match nows with
  | [] => []
  | now :: nows' =>
      (if decide (due now j) then [now] else []) ++ starts h nows' (job_step h now j)
  end.

(** The instants at which a job was started. *)
Definition started (id : nat) (d : Daemon) : list Time :=
  run_at <$> filter (fun r => run_job r = id) (d_runs d).

Lemma started_tick now d j :
  running d -> j ∈ d_jobs d ->
  started (j_id j) (tick now d) =
    started (j_id j) d ++ (if decide (due now j) then [now] else []).
Proof.
  intros Hd Hj. unfold started. rewrite tick_runs, filter_app, fmap_app by done. f_equal.
  destruct Hd as [_ _ Hnd]. unfold ids in Hnd.
  induction (d_jobs d) as [|k q IH]; [by apply elem_of_nil in Hj|].
  rewrite fmap_cons, NoDup_cons in Hnd. destruct Hnd as [Hk Hnd].
  assert (forall q', j_id j ∉ j_id <$> q' ->
    filter (fun r => run_job r = j_id j) (run_of now <$> filter (due now) q') = []) as Hnone.
  { intros q' Hq'. apply filter_none, Forall_forall. intros r Hr E.
    apply list_elem_of_fmap in Hr as (x & -> & [_ Hx]%list_elem_of_filter).
    apply Hq'. rewrite <-E. simpl. by apply list_elem_of_fmap_2. }
  apply elem_of_cons in Hj as [<-|Hj]; rewrite (filter_cons (due now)).
  - destruct (decide (due now j)); [|by rewrite Hnone].
    rewrite fmap_cons, filter_cons_True by done. by rewrite Hnone.
  - assert (j_id k <> j_id j) by (intros E; apply Hk; rewrite E; by apply list_elem_of_fmap_2).
    destruct (decide (due now k)); [|by apply IH].
    rewrite fmap_cons, filter_cons_False by done. by apply IH.
Qed.

Lemma run_job_at nows d j :
  running d -> j ∈ d_jobs d ->
  running (run nows d) /\ d_heap (run nows d) = d_heap d /\
  job_at (d_heap d) nows j ∈ d_jobs (run nows d) /\
  started (j_id j) (run nows d) = started (j_id j) d ++ starts (d_heap d) nows j.
Proof.
  revert d j. induction nows as [|now nows IH]; intros d j Hd Hj; simpl.
  { by rewrite app_nil_r. }
  destruct (tick_keeps now d) as (Hh & _). pose proof (tick_running now d Hd) as Hd1.
  destruct (IH (tick now d) (job_step (d_heap d) now j) Hd1) as (H1 & H2 & H3 & H4).
  { rewrite tick_jobs by done. by apply list_elem_of_fmap_2. }
  rewrite Hh in H2, H3, H4. split_and!; [done..|].
  rewrite job_step_id in H4. rewrite H4, started_tick, <-app_assoc by done. done.
Qed.
End ticks.

(** ** The schedule of a job *)

(** Ticks in order, each at most [gap] after the one before. *)
Fixpoint spaced (gap : Duration) (prev : Time) (nows : list Time) : Prop :=
  match nows with
  | [] => True
  | now :: nows' => prev <= now <= prev + gap /\ spaced gap now nows'
  end.

Fixpoint last_tick (prev : Time) (nows : list Time) : Time :=
  match nows with [] => prev | now :: nows' => last_tick now nows' end.

Definition period (h : Heap) (j : Job) : Duration := GetPeriod (conf_of h (j_task j)).

Section schedule.
Implicit Types (j : Job) (h : Heap).

Lemma period_job_step h now j : period h (job_step h now j) = period h j.
Proof. unfold period. by rewrite job_step_task. Qed.

(** A job is always due a whole number of periods after its first instant. *)
Lemma job_at_grid h nows j :
  j_checkTime (job_at h nows j) =
    j_checkTime j + Z.of_nat (length (starts h nows j)) * period h j.
Proof.
  revert j. induction nows as [|now nows IH]; intros j; simpl; [lia|].
  rewrite IH, period_job_step, length_app. unfold job_step.
  destruct (decide (due now j)); simpl; [|lia].
  unfold period, GoTime.Add. lia.
Qed.

Lemma spaced_last gap prev nows : spaced gap prev nows -> prev <= last_tick prev nows.
Proof.
  revert prev. induction nows as [|now nows IH]; intros prev; simpl; [lia|].
  intros [? Hs%IH]. lia.
Qed.

Lemma starts_count h nows prev j :
  0 < period h j -> prev < j_checkTime j -> spaced (period h j) prev nows ->
  Z.of_nat (length (starts h nows j)) =
    Z.max 0 ((last_tick prev nows - j_checkTime j) / period h j + 1).
Proof.
  revert prev j. induction nows as [|now nows IH]; intros prev j Hp Hlt Hs; simpl.
  - assert ((prev - j_checkTime j) / period h j < 0) by (by apply Z.div_lt_upper_bound; lia). lia.
  - destruct Hs as [Hnow Hs]. rewrite length_app, Nat2Z.inj_add.
    pose proof (spaced_last _ _ _ Hs) as Hlast.
    pose proof (IH now (job_step h now j)) as IH'. rewrite period_job_step in IH'.
    unfold job_step in IH' |- *. destruct (decide (due now j)) as [Hd|Hd]; unfold due in Hd.
    + rewrite IH' by (try done; simpl; unfold period, GoTime.Add in *; lia).
      simpl j_checkTime. fold (period h j). unfold GoTime.Add. simpl length.
      replace (last_tick now nows - (j_checkTime j + period h j))
        with (last_tick now nows - j_checkTime j + (-1) * period h j) by lia.
      rewrite Z.div_add by lia.
      assert (0 <= (last_tick now nows - j_checkTime j) / period h j) by (apply Z.div_pos; lia).
      lia.
    + rewrite IH' by (done || lia). simpl length. lia.
Qed.

Lemma starts_times h nows prev j i t :
  0 < period h j -> prev < j_checkTime j -> spaced (period h j) prev nows ->
  starts h nows j !! i = Some t ->
  j_checkTime j + Z.of_nat i * period h j <= t < j_checkTime j + (Z.of_nat i + 1) * period h j.
Proof.
  revert prev j i. induction nows as [|now nows IH]; intros prev j i Hp Hlt Hs; [done|].
  simpl starts. destruct Hs as [Hnow Hs].
  pose proof (IH now (job_step h now j)) as IH'. rewrite period_job_step in IH'.
  unfold job_step in IH' |- *. destruct (decide (due now j)) as [Hd|Hd]; unfold due in Hd.
  - destruct i as [|i]; simpl; [intros [= <-]; lia|]. intros Hi.
    apply IH' in Hi; [|done|simpl; unfold period, GoTime.Add in *; lia|done].
    simpl in Hi. fold (period h j) in Hi. unfold GoTime.Add in Hi. lia.
  - simpl. intros Hi. apply IH' in Hi; [done|done|lia|done].
Qed.
End schedule.

(** ** Reload *)
Section reload.
Context {SO : Sorter not_after}.

(** A queued job whose ident is in the new task list. *)
Definition wanted (h : Heap) (m : treemap TaskRef) (j : Job) : Prop :=
  is_Some (m !! ident_of h (j_task j)).
#[local] Instance wanted_dec h m j : Decision (wanted h m j).
Proof. unfold wanted. apply _. Defined.

Lemma reloadJobFromTask_self j r h :
  r <> j_task j -> reloadJobFromTask j r h (j_task j) = h r.
Proof.
  intros Hne. unfold reloadJobFromTask, SetConfig, SetGlobalConfig.
  rewrite !fn_lookup_insert. by destruct (h r).
Qed.

Lemma reloadJobFromTask_other j r r' h :
  r' <> j_task j -> reloadJobFromTask j r h r' = h r'.
Proof.
  intros Hne. unfold reloadJobFromTask, SetConfig, SetGlobalConfig.
  by rewrite !fn_lookup_insert_ne by done.
Qed.

(** The queue and the new task list do not share task objects or idents. *)
Record separate (h : Heap) (m : treemap TaskRef) (js : list Job) : Prop := {
  sep_idents : NoDup ((fun j => ident_of h (j_task j)) <$> js);
  sep_tasks : NoDup (j_task <$> js);
  sep_fresh : forall i r, m !! i = Some r -> r ∉ j_task <$> js
}.

Lemma separate_step h m j js :
  separate h m (j :: js) ->
  let ident := ident_of h (j_task j) in
  let h' := match m !! ident with Some r => reloadJobFromTask j r h | None => h end in
  separate h' (delete ident m) js /\
  (forall k, k ∈ js -> ident_of h' (j_task k) = ident_of h (j_task k)) /\
  (forall k, k ∈ js -> delete ident m !! ident_of h (j_task k) = m !! ident_of h (j_task k)) /\
  (forall i r, delete ident m !! i = Some r -> h' r = h r).
Proof.
  intros [Hi Ht Hf] ident h'. rewrite !fmap_cons, !NoDup_cons in *.
  destruct Hi as [Hi1 Hi], Ht as [Ht1 Ht].
  assert (forall r, r <> j_task j -> h' r = h r) as Hh'.
  { intros r Hr. unfold h'. destruct (m !! ident); [by apply reloadJobFromTask_other|done]. }
  assert (forall k, k ∈ js -> j_task k <> j_task j) as Hne.
  { intros k Hk E. apply Ht1. rewrite <-E. by apply list_elem_of_fmap_2. }
  assert (forall k, k ∈ js -> ident_of h' (j_task k) = ident_of h (j_task k)) as Hid.
  { intros k Hk. unfold ident_of, conf_of. by rewrite Hh' by by apply Hne. }
  split_and!; [split|done|..].
  - erewrite (list_fmap_ext _ (fun k => ident_of h (j_task k))); [done|].
    intros i k Hk. apply Hid. by eapply list_elem_of_lookup_2.
  - done.
  - intros i r [_ Hr]%lookup_delete_Some Hin. eapply Hf; [exact Hr|]. by right.
  - intros k Hk. apply lookup_delete_ne. unfold ident. intros E. apply Hi1. rewrite E.
    by apply (list_elem_of_fmap_2 (fun j => ident_of h (j_task j))).
  - intros i r [_ Hr]%lookup_delete_Some. apply Hh'. intros ->. eapply Hf; [exact Hr|by left].
Qed.

Lemma reload_job_spec acc j :
  let h := rl_heap acc in let m := rl_maps acc in
  let ident := ident_of h (j_task j) in let acc1 := reload_job acc j in
  rl_jobs acc1 ≡ₚ rl_jobs acc ++ filter (wanted h m) [j] /\
  rl_cancelled acc1 = rl_cancelled acc ++ (j_id <$> filter (fun k => ~ wanted h m k) [j]) /\
  rl_heap acc1 = match m !! ident with Some r => reloadJobFromTask j r h | None => h end /\
  rl_maps acc1 = delete ident m.
Proof.
  intros h m ident acc1. unfold acc1, reload_job. fold h m ident.
  destruct (decide (wanted h m j)) as [Hw|Hw].
  - rewrite filter_cons_True, filter_cons_False, !filter_nil by tauto.
    destruct Hw as [r Hr]. fold ident in Hr. rewrite Hr. simpl.
    by rewrite Push_perm, app_nil_r.
  - rewrite filter_cons_False, filter_cons_True, !filter_nil by done.
    apply eq_None_not_Some in Hw. fold ident in Hw. rewrite Hw. simpl.
    by rewrite app_nil_r, delete_id.
Qed.

(** The loop over the popped jobs: jobs whose ident is wanted are kept and get
    the new configuration, the others are stopped; what remains of the map are
    the tasks without a job. *)
Record reloaded (js : list Job) (acc acc' : Reloading) : Prop := {
  rd_jobs : rl_jobs acc' ≡ₚ rl_jobs acc ++ filter (wanted (rl_heap acc) (rl_maps acc)) js;
  rd_cancelled : rl_cancelled acc' = rl_cancelled acc ++
    (j_id <$> filter (fun j => ~ wanted (rl_heap acc) (rl_maps acc) j) js);
  rd_done : forall j, j ∈ js -> rl_maps acc' !! ident_of (rl_heap acc) (j_task j) = None;
  rd_left : forall i, i ∉ (fun j => ident_of (rl_heap acc) (j_task j)) <$> js ->
    rl_maps acc' !! i = rl_maps acc !! i;
  rd_conf : forall j r, j ∈ js -> rl_maps acc !! ident_of (rl_heap acc) (j_task j) = Some r ->
    rl_heap acc' (j_task j) = rl_heap acc r;
  rd_other : forall r, r ∉ j_task <$> js -> rl_heap acc' r = rl_heap acc r
}.

Lemma reload_jobs_spec js acc :
  separate (rl_heap acc) (rl_maps acc) js -> reloaded js acc (foldl reload_job acc js).
Proof.
  revert acc. induction js as [|j js IH]; intros acc Hsep; simpl.
  { split; rewrite ?app_nil_r; try done; by intros ? ?%elem_of_nil || intros ?? ?%elem_of_nil. }
  destruct (separate_step _ _ _ _ Hsep) as (Hsep' & Hid & Hm & Hh).
  destruct (reload_job_spec acc j) as (Hj1 & Hc1 & Eh & Em).
  set (acc1 := reload_job acc j) in *. rewrite <-Eh, <-Em in Hsep', Hh.
  rewrite <-Eh in Hid. rewrite <-Em in Hm.
  destruct (IH acc1 Hsep') as [H1 H2 H3 H4 H5 H6].
  assert (forall k, k ∈ js -> wanted (rl_heap acc1) (rl_maps acc1) k <->
    wanted (rl_heap acc) (rl_maps acc) k) as Hw by (intros k Hk; unfold wanted; by rewrite Hid, Hm).
  rewrite (filter_ext _ _ _ Hw) in H1.
  rewrite (filter_ext _ (fun k => ~ wanted (rl_heap acc) (rl_maps acc) k)) in H2
    by (intros k Hk; by rewrite Hw).
  pose proof (sep_tasks _ _ _ Hsep) as Hnt. rewrite fmap_cons, NoDup_cons in Hnt.
  pose proof (sep_idents _ _ _ Hsep) as Hni. rewrite fmap_cons, NoDup_cons in Hni.
  assert ((fun k => ident_of (rl_heap acc1) (j_task k)) <$> js =
    (fun k => ident_of (rl_heap acc) (j_task k)) <$> js) as Hids.
  { apply list_fmap_ext. intros i k Hk. apply Hid. by eapply list_elem_of_lookup_2. }
  split.
  - by rewrite H1, Hj1, <-app_assoc, <-filter_app.
  - by rewrite H2, Hc1, <-app_assoc, <-fmap_app, <-filter_app.
  - intros k [->|Hk]%elem_of_cons; [|rewrite <-(Hid k) by done; by apply H3].
    rewrite H4, Em by (rewrite Hids; apply Hni). apply lookup_delete_eq.
  - intros i Hi. rewrite fmap_cons, not_elem_of_cons in Hi. destruct Hi as [Hne Hi].
    rewrite H4, Em by by rewrite Hids. by apply lookup_delete_ne.
  - intros k r [->|Hk]%elem_of_cons Hr.
    + rewrite H6 by apply Hnt. rewrite Eh, Hr. apply reloadJobFromTask_self.
      intros ->. eapply (sep_fresh _ _ _ Hsep); [exact Hr|by left].
    + rewrite (H5 k r Hk) by by rewrite Hid, Hm. eapply Hh. by rewrite Em, <-Em, Hm.
  - intros r Hr. rewrite fmap_cons, not_elem_of_cons in Hr. destruct Hr as [Hne Hr].
    rewrite H6, Eh by done. destruct (rl_maps acc !! _); [by apply reloadJobFromTask_other|done].
Qed.

Lemma push_each_perm js q : push_each js q ≡ₚ q ++ js.
Proof.
  revert q. induction js as [|j js IH]; intros q; simpl; [by rewrite app_nil_r|].
  unfold push_each in *. simpl. by rewrite IH, Push_perm, <-app_assoc.
Qed.

Lemma push_each_sorted js q :
  StronglySorted not_after q -> StronglySorted not_after (push_each js q).
Proof.
  revert q. induction js as [|j js IH]; intros q Hq; [done|]. apply IH, Push_sorted.
Qed.

Lemma reload_loop_sorted js acc :
  StronglySorted not_after (rl_jobs acc) ->
  StronglySorted not_after (rl_jobs (foldl reload_job acc js)).
Proof.
  revert acc. induction js as [|j js IH]; intros acc Hq; [done|]. simpl. apply IH.
  unfold reload_job. destruct (rl_maps acc !! _); [apply Push_sorted|done].
Qed.

Lemma make_jobs_tasks at_ rs id : j_task <$> make_jobs at_ rs id = rs.
Proof.
  revert id. induction rs as [|r rs IH]; intros id; [done|].
  unfold make_jobs in *. simpl. f_equal. apply IH.
Qed.

Lemma make_jobs_ids at_ rs id : j_id <$> make_jobs at_ rs id = seq id (length rs).
Proof.
  revert id. induction rs as [|r rs IH]; intros id; [done|].
  unfold make_jobs in *. simpl. f_equal. apply IH.
Qed.

Lemma elem_of_make_jobs at_ rs id j :
  j ∈ make_jobs at_ rs id -> exists r, r ∈ rs /\ j_task j = r /\ j_checkTime j = at_ r /\
    (id <= j_id j < id + length rs)%nat.
Proof.
  revert id. induction rs as [|r rs IH]; intros id; [by intros ?%elem_of_nil|].
  unfold make_jobs in *. simpl. intros [->|Hj]%elem_of_cons.
  - exists r. split; [by left|]. simpl. split_and!; [done..|lia|lia].
  - apply IH in Hj as (r' & ? & ? & ? & ?). exists r'. split; [by right|]. split_and!; [done..|lia|lia].
Qed.

(** The state of the loop over the old jobs when [Reload] is called. *)
Definition reload_start (tasks : list TaskRef) (d : Daemon) : Reloading :=
  {| rl_jobs := NewLockQueue; rl_maps := put_all (ident_of (d_heap d)) tasks ∅;
     rl_heap := d_heap d; rl_cancelled := d_cancelled d |}.

Lemma put_all_ident h tasks i r :
  put_all (ident_of h) tasks ∅ !! i = Some r -> ident_of h r = i.
Proof. intros [[_ ?]|Hr]%put_all_key; [done|]. by rewrite lookup_empty in Hr. Qed.

Section result.
Context (tasks : list TaskRef) (d : Daemon).
Let h := d_heap d.
Let m := put_all (ident_of h) tasks ∅.
Let acc := foldl reload_job (reload_start tasks d) (d_jobs d).
Context (Hsep : separate h m (d_jobs d)).
Let Hr : reloaded (d_jobs d) (reload_start tasks d) acc :=
  reload_jobs_spec (d_jobs d) (reload_start tasks d) Hsep.
Let Hdone j (Hj : j ∈ d_jobs d) : rl_maps acc !! ident_of h (j_task j) = None :=
  rd_done _ _ _ Hr j Hj.
Let Hleft i (Hi : i ∉ (fun j => ident_of h (j_task j)) <$> d_jobs d) :
  rl_maps acc !! i = m !! i := rd_left _ _ _ Hr i Hi.
Let Hconf j r (Hj : j ∈ d_jobs d) (Hm : m !! ident_of h (j_task j) = Some r) :
  rl_heap acc (j_task j) = h r := rd_conf _ _ _ Hr j r Hj Hm.
Let Hother r (Hn : r ∉ j_task <$> d_jobs d) : rl_heap acc r = h r := rd_other _ _ _ Hr r Hn.

Lemma left_in_map i r :
  rl_maps acc !! i = Some r ->
  m !! i = Some r /\ i ∉ (fun j => ident_of h (j_task j)) <$> d_jobs d.
Proof using Hsep.
  intros Hi. destruct (decide (i ∈ (fun j => ident_of h (j_task j)) <$> d_jobs d)) as [Hin|Hin].
  - apply list_elem_of_fmap in Hin as (j & -> & Hj). by rewrite (Hdone j Hj) in Hi.
  - split; [|done]. by rewrite (Hleft i Hin) in Hi.
Qed.

Lemma left_idents : ident_of (rl_heap acc) <$> Values (rl_maps acc) = (Iterator (rl_maps acc)).*1.
Proof using Hsep.
  unfold Values. rewrite <-list_fmap_compose. apply list_fmap_ext. intros k [i r] Hk. simpl.
  apply list_elem_of_lookup_2, elem_of_Iterator, left_in_map in Hk as [Hk _].
  unfold ident_of, conf_of. rewrite Hother by by eapply (sep_fresh _ _ _ Hsep).
  by apply put_all_ident in Hk.
Qed.

Lemma kept_conf j :
  j ∈ d_jobs d -> wanted h m j ->
  exists r, m !! ident_of h (j_task j) = Some r /\ rl_heap acc (j_task j) = h r /\
    ident_of (rl_heap acc) (j_task j) = ident_of h (j_task j).
Proof using Hsep.
  intros Hj [r Hw]. exists r. pose proof (Hconf j r Hj Hw) as Hc.
  split_and!; [done|done|]. unfold ident_of at 1, conf_of. rewrite Hc.
  by apply put_all_ident in Hw.
Qed.

Lemma keys_split :
  ((fun j => ident_of h (j_task j)) <$> filter (wanted h m) (d_jobs d))
    ++ (Iterator (rl_maps acc)).*1 ≡ₚ (map_to_list m).*1.
Proof using Hsep.
  apply NoDup_Permutation.
  - apply NoDup_app. split_and!.
    + eapply sublist_NoDup; [apply (sep_idents _ _ _ Hsep)|]. apply fmap_sublist, sublist_filter.
    + intros i (j & -> & [_ Hj]%list_elem_of_filter)%list_elem_of_fmap.
      intros ([i r] & E & Hi)%list_elem_of_fmap. simpl in E. subst i.
      apply elem_of_Iterator, left_in_map in Hi as [_ Hi]. apply Hi.
      by apply (list_elem_of_fmap_2 (fun j => ident_of h (j_task j))).
    + apply NoDup_Iterator.
  - apply NoDup_fst_map_to_list.
  - intros i. rewrite elem_of_app, !list_elem_of_fmap. split.
    + intros [(j & -> & [[r Hw] Hj]%list_elem_of_filter)|([i' r] & -> & Hi)].
      * exists (ident_of h (j_task j), r). split; [done|]. by apply elem_of_map_to_list.
      * apply elem_of_Iterator, left_in_map in Hi as [Hi _]. exists (i', r).
        split; [done|]. by apply elem_of_map_to_list.
    + intros ([i' r] & -> & Hi%elem_of_map_to_list). simpl.
      destruct (decide (i' ∈ (fun j => ident_of h (j_task j)) <$> d_jobs d)) as [Hin|Hin].
      * left. apply list_elem_of_fmap in Hin as (j & -> & Hj). exists j. split; [done|].
        apply list_elem_of_filter. split; [by exists r|done].
      * right. exists (i', r). split; [done|]. apply elem_of_Iterator.
        by rewrite (Hleft i' Hin).
Qed.
End result.

Lemma Reload_idents at_ conf tasks d :
  let m := put_all (ident_of (d_heap d)) tasks ∅ in
  let d' := Reload at_ conf tasks d in
  separate (d_heap d) m (d_jobs d) ->
  (fun j => ident_of (d_heap d') (j_task j)) <$> d_jobs d' ≡ₚ (map_to_list m).*1.
Proof.
  intros m d' Hsep. pose proof (rd_jobs _ _ _ (reload_jobs_spec _ (reload_start tasks d) Hsep)) as H1.
  pose proof (keys_split tasks d Hsep) as Hks. pose proof (left_idents tasks d Hsep) as Hli.
  unfold d', Reload. simpl. fold (reload_start tasks d) in *. simpl in H1. fold m in H1, Hks.
  set (acc := foldl reload_job (reload_start tasks d) (d_jobs d)) in *.
  rewrite push_each_perm, H1, !fmap_app.
  rewrite (list_fmap_compose j_task (ident_of (rl_heap acc)) (make_jobs _ _ _)).
  rewrite make_jobs_tasks, Hli, <-Hks. apply Permutation_app_tail, reflexive_eq.
  apply list_fmap_ext. intros k j Hk. apply list_elem_of_lookup_2 in Hk.
  apply list_elem_of_filter in Hk as [Hw Hj].
  by destruct (kept_conf tasks d Hsep j Hj Hw) as (r & _ & _ & ?).
Qed.
End reload.

(** ** The theorems *)
Section theorems.
Context {SO : Sorter not_after}.

(** C8: as long as the ticker's gaps do not exceed a job's period, the job is
    started exactly once for every period that has begun - once more than the
    whole periods from its first instant to the last tick - and its [i]-th
    start happens within the [i]-th period; the starts of other jobs do not
    disturb it, and it stays queued at first instant plus starts times period. *)
Theorem daemon_schedule nows prev d j :
  running d -> j ∈ d_jobs d ->
  0 < period (d_heap d) j -> prev < j_checkTime j -> spaced (period (d_heap d) j) prev nows ->
  exists ts j', started (j_id j) (run nows d) = started (j_id j) d ++ ts /\
    Z.of_nat (length ts) =
      Z.max 0 ((last_tick prev nows - j_checkTime j) / period (d_heap d) j + 1) /\
    (forall i t, ts !! i = Some t ->
       j_checkTime j + Z.of_nat i * period (d_heap d) j <= t
         < j_checkTime j + (Z.of_nat i + 1) * period (d_heap d) j) /\
    j' ∈ d_jobs (run nows d) /\ j_task j' = j_task j /\
    j_checkTime j' = j_checkTime j + Z.of_nat (length ts) * period (d_heap d) j.
Proof.
  intros Hd Hj Hp Hprev Hs. destruct (run_job_at nows d j Hd Hj) as (_ & _ & Hin & Hst).
  exists (starts (d_heap d) nows j), (job_at (d_heap d) nows j). split_and!.
  - exact Hst.
  - by eapply starts_count.
  - intros i t. by eapply starts_times.
  - exact Hin.
  - clear. revert j. induction nows as [|now nows IH]; intros j; [done|]. simpl.
    by rewrite IH, job_step_task.
  - apply job_at_grid.
Qed.

(** One tick starts exactly the jobs that are due, each once and in order of
    due time; the queue afterwards holds the same jobs, those started one
    period later, and is in order again. *)
Theorem tick_starts_due now d :
  running d ->
  d_runs (tick now d) = d_runs d ++ (run_of now <$> filter (due now) (d_jobs d)) /\
  d_jobs (tick now d) ≡ₚ job_step (d_heap d) now <$> d_jobs d /\
  running (tick now d).
Proof. intros Hd. split; [by apply tick_runs|]. split; [by apply tick_jobs|by apply tick_running]. Qed.

(** C9: a reload leaves exactly one job per ident of the new task list. A job
    whose ident is still wanted is kept as it is - same job, same task object,
    same next instant - with the new configuration written into its task; the
    others are dropped and cancelled; idents without a job get a new one, due
    when it was made. *)
Theorem Reload_keeps_schedule at_ conf tasks d :
  let h := d_heap d in let m := put_all (ident_of h) tasks ∅ in
  let d' := Reload at_ conf tasks d in
  separate h m (d_jobs d) ->
  (fun j => ident_of (d_heap d') (j_task j)) <$> d_jobs d' ≡ₚ (map_to_list m).*1 /\
  (forall j, j ∈ d_jobs d -> wanted h m j -> j ∈ d_jobs d' /\
     exists r, m !! ident_of h (j_task j) = Some r /\ d_heap d' (j_task j) = h r) /\
  (forall j, j ∈ d_jobs d -> ~ wanted h m j -> j_id j ∈ d_cancelled d') /\
  (forall j, j ∈ d_jobs d' -> (j ∈ d_jobs d /\ wanted h m j) \/
     (m !! ident_of h (j_task j) = Some (j_task j) /\ j_checkTime j = at_ (j_task j) /\
      ident_of h (j_task j) ∉ (fun k => ident_of h (j_task k)) <$> d_jobs d)) /\
  StronglySorted not_after (d_jobs d').
Proof.
  intros h m d' Hsep. split; [by apply Reload_idents|].
  pose proof (reload_jobs_spec _ (reload_start tasks d) Hsep) as [H1 H2 _ _ _ _].
  simpl in H1, H2. fold h m in H1, H2.
  assert (d_jobs d' ≡ₚ filter (wanted h m) (d_jobs d) ++ make_jobs at_
    (Values (rl_maps (foldl reload_job (reload_start tasks d) (d_jobs d)))) (d_next_id d)) as Hjobs.
  { unfold d', Reload. simpl. rewrite push_each_perm. by rewrite H1. }
  split_and!.
  - intros j Hj Hw. destruct (kept_conf tasks d Hsep j Hj Hw) as (r & Hr & Hc & _).
    split; [|by exists r]. rewrite Hjobs, elem_of_app. left. by apply list_elem_of_filter.
  - intros j Hj Hw. change (d_cancelled d') with
      (rl_cancelled (foldl reload_job (reload_start tasks d) (d_jobs d))).
    rewrite H2, elem_of_app. right.
    apply list_elem_of_fmap_2, list_elem_of_filter. by split.
  - intros j. rewrite Hjobs, elem_of_app. intros [[? ?]%list_elem_of_filter|Hj]; [by left|right].
    apply elem_of_make_jobs in Hj as (r & Hr & Ht & Hc & _). rewrite Ht.
    apply list_elem_of_fmap in Hr as ([i r'] & E & Hi%elem_of_Iterator). simpl in E. subst r'.
    apply (left_in_map tasks d Hsep) in Hi as [Hi Hn]. fold h m in Hi, Hn.
    rewrite (put_all_ident _ _ _ _ Hi). by split_and!.
  - apply push_each_sorted, reload_loop_sorted. constructor.
Qed.
End theorems.

(** ** A concrete daemon

    Three tasks with periods of 60, 30 and 10 seconds, started together; the
    fourth object is a new configuration of the first task, the fifth a new
    task. *)
Definition demo_conf (id : Z) (ident : string) (p : Duration) : TaskObj :=
  {| t_cfg := {| GetTaskID := id; GetIdent := ident; GetPeriod := p |};
     t_gcfg := Some {| GetCheckInterval := Second |} |}.
Definition demo_heap : Heap := fun r =>
  match r with
  | 0%nat => demo_conf 1 "ping_task_1" (60 * Second)
  | 1%nat => demo_conf 2 "tcp_task_2" (30 * Second)
  | 2%nat => demo_conf 3 "http_task_3" (10 * Second)
  | 3%nat => demo_conf 1 "ping_task_1" (20 * Second)
  | _ => demo_conf 4 "udp_task_4" (60 * Second)
  end.
Definition demo_now : Time := 1700000000 * Second.
Definition demo_daemon : Daemon :=
  Start (fun _ => demo_now)
    (AddTask demo_now 2 (AddTask demo_now 1 (AddTask demo_now 0
      (New (Some {| GetCheckInterval := Second |}) demo_heap)))).
Definition demo_nows : list Time :=
  (fun k => demo_now + 10 * Z.of_nat k * Second) <$> seq 0 10.
Definition demo_job : Job := {| j_id := 1; j_task := 0; j_checkTime := demo_now |}.

Lemma demo_running : running demo_daemon.
Proof.
  split; [done|apply Push_sorted|]. apply (bool_decide_unpack _). vm_compute. exact I.
Qed.

Lemma demo_job_queued : demo_job ∈ d_jobs demo_daemon.
Proof. apply (bool_decide_unpack _). vm_compute. exact I. Qed.

Lemma daemon_schedule_witness :
  exists ts j', started 1 (run demo_nows demo_daemon) = started 1 demo_daemon ++ ts /\
    Z.of_nat (length ts) = 2 /\
    (forall i t, ts !! i = Some t ->
       demo_now + Z.of_nat i * (60 * Second) <= t < demo_now + (Z.of_nat i + 1) * (60 * Second)) /\
    j' ∈ d_jobs (run demo_nows demo_daemon) /\ j_task j' = 0%nat /\
    j_checkTime j' = demo_now + Z.of_nat (length ts) * (60 * Second).
Proof.
  apply (daemon_schedule demo_nows (demo_now - 1) demo_daemon demo_job
    demo_running demo_job_queued).
  - reflexivity.
  - unfold demo_job. simpl. lia.
  - vm_compute. repeat split; discriminate.
Defined.

Lemma tick_starts_due_witness :
  d_runs (tick demo_now demo_daemon) = d_runs demo_daemon ++
    (run_of demo_now <$> filter (due demo_now) (d_jobs demo_daemon)) /\
  d_jobs (tick demo_now demo_daemon) ≡ₚ job_step demo_heap demo_now <$> d_jobs demo_daemon /\
  running (tick demo_now demo_daemon).
Proof. exact (tick_starts_due demo_now demo_daemon demo_running). Defined.

Lemma demo_separate :
  separate demo_heap (put_all (ident_of demo_heap) [3; 4]%nat ∅) (d_jobs demo_daemon).
Proof.
  split; [apply (bool_decide_unpack _); vm_compute; exact I..|].
  intros i r Hr. apply put_all_key in Hr as [[Hr _]|Hr]; [|by rewrite lookup_empty in Hr].
  assert (j_task <$> d_jobs demo_daemon = [1; 2; 0]%nat) as -> by (vm_compute; reflexivity).
  set_solver.
Qed.

Lemma Reload_keeps_schedule_witness :
  let d' := Reload (fun _ => demo_now) {| GetCheckInterval := Second |} [3; 4]%nat demo_daemon in
  (fun j => ident_of (d_heap d') (j_task j)) <$> d_jobs d'
    ≡ₚ (map_to_list (put_all (ident_of demo_heap) [3; 4]%nat ∅)).*1.
Proof.
  apply (Reload_keeps_schedule (fun _ => demo_now) {| GetCheckInterval := Second |}
    [3; 4]%nat demo_daemon demo_separate).
Defined.
