(* ===== verification/DaemonRace.v ===== *)
(** * The ticker and a reload at the same time

    [run] and [Reload] of scheduler/daemon/scheduler.go execute in two
    goroutines. The reload builds a second [daemonState] and finally makes it
    current; [jobAtomic] of the old state is a lock both take around the queue.
    Each step below is one atomic action of one goroutine: reading
    [s.daemonState], the compare-and-swap, one queue method (locked), the
    store that releases the lock, the assignment of [s.daemonState]. *)
From S2P Require Import Prelude GoTime JobQueue Daemon.

(** The two states: [false] is the one the reload replaces. *)
Definition Side := bool.

(** Where the ticker's goroutine is. *)
Inductive Ticker :=
| Idle
| Chosen (s : Side) (now : Time)
| Locked (s : Side) (now : Time)
| Running (s : Side) (jobs : list Job)
| Releasing (s : Side).

(** Where the reload is: waiting for the lock, holding it before [PopAll],
    moving the popped jobs, queueing the new ones, done. *)
Inductive Reloader :=
| Waiting
| Holding
| Moving (jobs : list Job)
| Queueing
| Done.

Record Conf := {
  c_queue : Side -> JobQueue;
  c_lock : Side -> bool;
  c_current : Side;
  c_ticker : Ticker;
  c_reloader : Reloader;
  c_fresh : list Job;
  c_stopped : list Job
}.

Definition upd {A} (s : Side) (a : A) (f : Side -> A) : Side -> A :=
  fun s' => if Bool.eqb s' s then a else f s'.

Definition set_ticker (t : Ticker) (c : Conf) : Conf :=
  {| c_queue := c_queue c; c_lock := c_lock c; c_current := c_current c; c_ticker := t;
     c_reloader := c_reloader c; c_fresh := c_fresh c; c_stopped := c_stopped c |}.
Definition set_reloader (r : Reloader) (c : Conf) : Conf :=
  {| c_queue := c_queue c; c_lock := c_lock c; c_current := c_current c;
     c_ticker := c_ticker c; c_reloader := r; c_fresh := c_fresh c;
     c_stopped := c_stopped c |}.
Definition set_lock (s : Side) (b : bool) (c : Conf) : Conf :=
  {| c_queue := c_queue c; c_lock := upd s b (c_lock c); c_current := c_current c;
     c_ticker := c_ticker c; c_reloader := c_reloader c; c_fresh := c_fresh c;
     c_stopped := c_stopped c |}.
Definition set_queue (s : Side) (q : JobQueue) (c : Conf) : Conf :=
  {| c_queue := upd s q (c_queue c); c_lock := c_lock c; c_current := c_current c;
     c_ticker := c_ticker c; c_reloader := c_reloader c; c_fresh := c_fresh c;
     c_stopped := c_stopped c |}.
Definition set_fresh (js : list Job) (c : Conf) : Conf :=
  {| c_queue := c_queue c; c_lock := c_lock c; c_current := c_current c;
     c_ticker := c_ticker c; c_reloader := c_reloader c; c_fresh := js;
     c_stopped := c_stopped c |}.
Definition add_stopped (j : Job) (c : Conf) : Conf :=
  {| c_queue := c_queue c; c_lock := c_lock c; c_current := c_current c;
     c_ticker := c_ticker c; c_reloader := c_reloader c; c_fresh := c_fresh c;
     c_stopped := j :: c_stopped c |}.
Definition swap (c : Conf) : Conf :=
  {| c_queue := c_queue c; c_lock := c_lock c; c_current := true;
     c_ticker := c_ticker c; c_reloader := Done; c_fresh := c_fresh c;
     c_stopped := c_stopped c |}.

Section race.
Context {SO : Sorter not_after}.

Inductive race_step (c : Conf) : Conf -> Prop :=
(* the ticker: state := s.daemonState *)
| tick_read now :
    c_ticker c = Idle -> race_step c (set_ticker (Chosen (c_current c) now) c)
| tick_busy s now :
    c_ticker c = Chosen s now -> c_lock c s = true -> race_step c (set_ticker Idle c)
| tick_lock s now :
    c_ticker c = Chosen s now -> c_lock c s = false ->
    race_step c (set_lock s true (set_ticker (Locked s now) c))
| tick_nothing s now q :
    c_ticker c = Locked s now -> PopUntil now (c_queue c s) = ([], q) ->
    race_step c (set_queue s q (set_ticker (Releasing s) c))
| tick_pop s now jobs q :
    c_ticker c = Locked s now -> PopUntil now (c_queue c s) = (jobs, q) -> jobs <> [] ->
    race_step c (set_queue s q (set_ticker (Running s jobs) c))
| tick_push s jobs h :
    c_ticker c = Running s jobs ->
    race_step c (set_queue s (Push (Next h <$> jobs) (c_queue c s))
                  (set_ticker (Releasing s) c))
| tick_release s :
    c_ticker c = Releasing s -> race_step c (set_lock s false (set_ticker Idle c))
(* the reload *)
| reload_lock :
    c_reloader c = Waiting -> c_lock c false = false ->
    race_step c (set_lock false true (set_reloader Holding c))
| reload_pop :
    c_reloader c = Holding ->
    race_step c (set_queue false (snd (PopAll (c_queue c false)))
                  (set_reloader (Moving (fst (PopAll (c_queue c false)))) c))
| reload_keep j js :
    c_reloader c = Moving (j :: js) ->
    race_step c (set_queue true (Push [j] (c_queue c true)) (set_reloader (Moving js) c))
| reload_stop j js :
    c_reloader c = Moving (j :: js) ->
    race_step c (add_stopped j (set_reloader (Moving js) c))
| reload_release :
    c_reloader c = Moving [] ->
    race_step c (set_lock false false (set_reloader Queueing c))
| reload_queue j js :
    c_reloader c = Queueing -> c_fresh c = j :: js ->
    race_step c (set_queue true (Push [j] (c_queue c true)) (set_fresh js c))
| reload_swap :
    c_reloader c = Queueing -> c_fresh c = [] -> race_step c (swap c).

Definition race_start (jobs fresh : list Job) : Conf :=
  {| c_queue := fun s => if s then [] else jobs; c_lock := fun _ => false; c_current := false;
     c_ticker := Idle; c_reloader := Waiting; c_fresh := fresh; c_stopped := [] |}.
End race.

(** The jobs each goroutine has in its hands. *)
Definition in_ticker (c : Conf) : list Job :=
  match c_ticker c with Running _ jobs => jobs | _ => [] end.
Definition in_reloader (c : Conf) : list Job :=
  match c_reloader c with Moving jobs => jobs | _ => [] end.

Definition all_jobs (c : Conf) : list nat :=
  j_id <$> (c_queue c false ++ c_queue c true ++ in_ticker c ++ in_reloader c
              ++ c_fresh c ++ c_stopped c).

Definition ticker_holds (s : Side) (t : Ticker) : bool :=
  match t with
  | Locked s' _ | Running s' _ | Releasing s' => Bool.eqb s s'
  | _ => false
  end.

Definition reloader_holds (r : Reloader) : bool :=
  match r with Holding | Moving _ => true | _ => false end.

Definition emptied (r : Reloader) : bool :=
  match r with Waiting | Holding => false | _ => true end.

(** How often an id occurs in a list of jobs. *)
Definition cnt (i : nat) (js : list Job) : nat := count_occ Nat.eq_dec (j_id <$> js) i.

Definition total (i : nat) (c : Conf) : nat :=
  cnt i (c_queue c false) + cnt i (c_queue c true) + cnt i (in_ticker c)
    + cnt i (in_reloader c) + cnt i (c_fresh c) + cnt i (c_stopped c).

Record race_ok (ids : list nat) (c : Conf) : Prop := {
  rk_jobs : forall i, total i c = count_occ Nat.eq_dec ids i;
  rk_lock_old : c_lock c false =
    ticker_holds false (c_ticker c) || reloader_holds (c_reloader c);
  rk_exclusive : ticker_holds false (c_ticker c) && reloader_holds (c_reloader c) = false;
  rk_emptied : emptied (c_reloader c) = true ->
    c_queue c false = [] /\ forall js, c_ticker c <> Running false js
}.

Section counting.
Context {SO : Sorter not_after}.

Lemma cnt_app i js ks : cnt i (js ++ ks) = (cnt i js + cnt i ks)%nat.
Proof. unfold cnt. by rewrite fmap_app, count_occ_app. Qed.

Lemma cnt_cons i j js : cnt i (j :: js) = (cnt i [j] + cnt i js)%nat.
Proof. apply (cnt_app i [j] js). Qed.

Lemma cnt_nil i : cnt i [] = 0%nat.
Proof. done. Qed.

Lemma cnt_perm i js ks : js ≡ₚ ks -> cnt i js = cnt i ks.
Proof.
  intros Hp. unfold cnt. by apply (Permutation_count_occ Nat.eq_dec); rewrite Hp.
Qed.

Lemma cnt_Push i js q : cnt i (Push js q) = (cnt i q + cnt i js)%nat.
Proof. by rewrite (cnt_perm i _ _ (Push_perm js q)), cnt_app. Qed.

Lemma cnt_Next i h js : cnt i (Next h <$> js) = cnt i js.
Proof. unfold cnt. by rewrite <-list_fmap_compose. Qed.

Lemma cnt_PopUntil i now q js q' :
  PopUntil now q = (js, q') -> cnt i q = (cnt i js + cnt i q')%nat.
Proof. intros E. pose proof (PopUntil_app now q) as Ha. rewrite E in Ha. by rewrite <-Ha, <-cnt_app. Qed.
End counting.

Section invariant.
Context {SO : Sorter not_after}.

Lemma race_start_ok jobs fresh :
  race_ok (j_id <$> jobs ++ fresh) (race_start jobs fresh).
Proof.
  split; [|done|done|done]. intros i. unfold total, race_start. simpl.
  rewrite !cnt_nil. change (count_occ _ _ _) with (cnt i (jobs ++ fresh)). rewrite cnt_app. lia.
Qed.

Ltac counts := rewrite ?cnt_Push, ?cnt_Next, ?cnt_nil; try lia.

Lemma race_step_total i c c' : race_step c c' -> total i c' = total i c.
Proof.
  intros Hs. destruct Hs as [now E|s now E El|s now E El|s now q E Eq|s now jobs q E Eq Ej
    |s jobs h E|s E|E El|E|j js E|j js E|E|j js E Ef|E Ef]; unfold total, in_ticker, in_reloader, upd;
    simpl; rewrite ?E; try rewrite Ef; try done;
    try rewrite (cnt_cons i j js); try rewrite (cnt_cons i j (c_stopped c));
    try destruct s; unfold upd; simpl; counts.
  all: apply (cnt_PopUntil i) in Eq; rewrite ?cnt_nil in Eq; lia.
Qed.

(** The old state's lock is held by exactly one goroutine. *)
Lemma race_step_lock ids c c' :
  race_step c c' -> race_ok ids c ->
  c_lock c' false = ticker_holds false (c_ticker c') || reloader_holds (c_reloader c') /\
  ticker_holds false (c_ticker c') && reloader_holds (c_reloader c') = false.
Proof.
  intros Hs [_ Hl Hx _].
  destruct Hs as [now E|s now E El|s now E El|s now q E Eq|s now jobs q E Eq Ej
      |s jobs h E|s E|E El|E|j js E|j js E|E|j js E Ef|E Ef];
    try destruct s; simpl in *; rewrite E in *; unfold upd; simpl in *;
    destruct (ticker_holds false (c_ticker c)), (reloader_holds (c_reloader c));
    simpl in *; split; congruence.
Qed.

(** Once the reload has taken the queue, nothing comes back to it. *)
Lemma race_step_emptied ids c c' :
  race_step c c' -> race_ok ids c -> emptied (c_reloader c') = true ->
  c_queue c' false = [] /\ forall js, c_ticker c' <> Running false js.
Proof.
  intros Hs [_ _ Hx He].
  destruct Hs as [now E|s now E El|s now E El|s now q E Eq|s now jobs q E Eq Ej
      |s jobs h E|s E|E El|E|j js E|j js E|E|j js E Ef|E Ef];
    try destruct s; simpl in *; rewrite ?E in *; unfold upd; simpl in *; try done; intros Hr;
    try (destruct (He Hr) as [Hq Hn]; split; congruence).
  - destruct (He Hr) as [Hq Hn]. rewrite Hq in Eq. injection Eq as <-.
    split; [done|]. intros js. congruence.
  - destruct (He Hr) as [Hq Hn]. rewrite Hq in Eq. by injection Eq as <-.
  - split; [done|]. intros js Hjs. by rewrite Hjs in Hx.
Qed.

Lemma race_step_ok ids c c' : race_step c c' -> race_ok ids c -> race_ok ids c'.
Proof.
  intros Hs Hok. destruct (race_step_lock ids c c' Hs Hok) as [Hl Hx].
  split; [|done|done|by eapply race_step_emptied].
  intros i. rewrite (race_step_total i c c' Hs). apply Hok.
Qed.

Lemma race_steps_ok ids c c' : rtc race_step c c' -> race_ok ids c -> race_ok ids c'.
Proof. induction 1; eauto using race_step_ok. Qed.

Lemma total_all_jobs i c : total i c = count_occ Nat.eq_dec (all_jobs c) i.
Proof.
  unfold total, all_jobs. change (count_occ Nat.eq_dec (j_id <$> ?l) i) with (cnt i l).
  rewrite !cnt_app. lia.
Qed.

(** C11: under every interleaving of ticks with a reload, no job is lost,
    duplicated or in two hands: the jobs queued on either side, being started
    by the ticker, being moved by the reload, not yet queued and stopped are
    together the old jobs and the new ones, each once. When the reload is done
    and the ticker is between ticks, all but the stopped ones are in the queue
    of the new state. *)
Theorem race_loses_no_job jobs fresh c :
  rtc race_step (race_start jobs fresh) c ->
  all_jobs c ≡ₚ j_id <$> jobs ++ fresh /\
  (c_reloader c = Done -> c_ticker c = Idle -> c_fresh c = [] ->
     j_id <$> c_queue c true ++ c_stopped c ≡ₚ j_id <$> jobs ++ fresh).
Proof.
  intros Hr. destruct (race_steps_ok _ _ _ Hr (race_start_ok jobs fresh)) as [Hj _ _ He].
  assert (all_jobs c ≡ₚ j_id <$> jobs ++ fresh) as Hall.
  { apply (Permutation_count_occ Nat.eq_dec). intros i. by rewrite <-total_all_jobs. }
  split; [done|]. intros Hd Ht Hf. rewrite Hd in He. destruct (He eq_refl) as [Hq _].
  rewrite <-Hall. unfold all_jobs, in_ticker, in_reloader. by rewrite Hd, Ht, Hf, Hq.
Qed.
End invariant.

(** A reload that overtakes a tick: the ticker has chosen the old state, the
    reload runs to its end, the ticker then finds the old queue empty. *)
Definition race_job (id : nat) : Job := {| j_id := id; j_task := id; j_checkTime := 0 |}.

Lemma race_loses_no_job_witness :
  let c0 := race_start [race_job 1; race_job 2] [race_job 3] in
  exists c, rtc race_step c0 c /\ c_reloader c = Done /\ c_ticker c = Locked false 0 /\
    all_jobs c ≡ₚ [1; 2; 3]%nat.
Proof.
  intros c0. evar (c : Conf). assert (rtc race_step c0 c) as Hr.
  { subst c. eapply rtc_l; [eapply (tick_read _ 0); reflexivity|].
    eapply rtc_l; [apply reload_lock; reflexivity|].
    eapply rtc_l; [apply reload_pop; reflexivity|].
    eapply rtc_l; [eapply reload_keep; reflexivity|].
    eapply rtc_l; [eapply reload_stop; reflexivity|].
    eapply rtc_l; [apply reload_release; reflexivity|].
    eapply rtc_l; [eapply reload_queue; reflexivity|].
    eapply rtc_l; [apply reload_swap; reflexivity|].
    eapply rtc_l; [eapply tick_lock; reflexivity|]. apply rtc_refl. }
  exists c. split; [exact Hr|]. split; [reflexivity|]. split; [reflexivity|].
  exact (proj1 (race_loses_no_job _ _ _ Hr)).
Defined.
