(* ===== verification/OneShot.v ===== *)
(** * The one-shot and keyword schedulers (scheduler/checker, scheduler/keyword)

    Both keep their tasks in an ordered map keyed by ident. The checker runs
    them one after the other in a single goroutine and finishes; the keyword
    scheduler starts one goroutine per task. *)
From S2P Require Import Prelude GoTime TreeMap JobQueue Daemon.

Record OneShot := {
  os_status : Status;
  os_config : option GlobalConf;
  os_tasks : treemap TaskRef;
  os_started : list TaskRef;   (* the tasks whose Run was called, in order *)
  os_cancelled : bool
}.

Definition os_new (config : option GlobalConf) : OneShot :=
  {| os_status := StatusReady; os_config := config; os_tasks := ∅; os_started := [];
     os_cancelled := false |}.

Definition os_add (h : Heap) (r : TaskRef) (s : OneShot) : OneShot :=
  {| os_status := os_status s; os_config := os_config s;
     os_tasks := <[ident_of h r := r]> (os_tasks s); os_started := os_started s;
     os_cancelled := os_cancelled s |}.

Definition os_count (s : OneShot) : nat := size (os_tasks s).

Definition os_stop (s : OneShot) : OneShot :=
  {| os_status := StatusFinished; os_config := os_config s; os_tasks := os_tasks s;
     os_started := os_started s; os_cancelled := true |}.

Definition os_wait (s : OneShot) : OneShot :=
  {| os_status := StatusFinished; os_config := os_config s; os_tasks := os_tasks s;
     os_started := os_started s; os_cancelled := os_cancelled s |}.

Definition os_reload (h : Heap) (conf : GlobalConf) (tasks : list TaskRef) (s : OneShot)
    : OneShot :=
  {| os_status := os_status s; os_config := Some conf;
     os_tasks := put_all (ident_of h) tasks ∅; os_started := os_started s;
     os_cancelled := os_cancelled s |}.

(** ** Checker *)

(** The loop of [checker.run]: [done i] tells whether the context is done when
    the loop looks before the [i]-th task. A panic of a task is recovered and
    the loop goes on, so it does not appear. *)
Fixpoint checker_loop (done : nat -> bool) (i : nat) (tasks : list TaskRef) : list TaskRef :=
  match tasks with
  | [] => []
  | r :: tasks' => if done i then [] else r :: checker_loop done (S i) tasks'
  end.

(** [Start] and the goroutine it starts, up to its end. *)
Definition checker_run (done : nat -> bool) (s : OneShot) : OneShot :=
  {| os_status := StatusFinished; os_config := os_config s; os_tasks := os_tasks s;
     os_started := os_started s ++ checker_loop done 0 (Values (os_tasks s));
     os_cancelled := os_cancelled s |}.

(** ** Keyword *)
Definition keyword_start (s : OneShot) : OneShot :=
  {| os_status := StatusRunning; os_config := os_config s; os_tasks := os_tasks s;
     os_started := os_started s ++ Values (os_tasks s); os_cancelled := os_cancelled s |}.

Section facts.
Lemma checker_loop_prefix done i tasks : checker_loop done i tasks `prefix_of` tasks.
Proof.
  revert i. induction tasks as [|r tasks IH]; intros i; simpl; [done|].
  destruct (done i); [apply prefix_nil|]. by apply prefix_cons.
Qed.

Lemma checker_loop_all done i tasks :
  (forall k, (k < i + length tasks)%nat -> done k = false) -> checker_loop done i tasks = tasks.
Proof.
  revert i. induction tasks as [|r tasks IH]; intros i Hd; simpl; [done|].
  rewrite Hd by (simpl; lia). rewrite IH; [done|]. intros k Hk. apply Hd. simpl. lia.
Qed.

Lemma checker_loop_cut done i k tasks :
  done (i + k)%nat = true -> (forall k', (k' < k)%nat -> done (i + k')%nat = false) ->
  checker_loop done i tasks = take k tasks.
Proof.
  revert i k. induction tasks as [|r tasks IH]; intros i k Hd Hb; simpl; [by rewrite take_nil|].
  destruct k as [|k]; [by rewrite Nat.add_0_r in Hd; rewrite Hd|].
  pose proof (Hb 0%nat ltac:(lia)) as H0. rewrite Nat.add_0_r in H0. rewrite H0. simpl. f_equal.
  apply IH; [by rewrite Nat.add_succ_comm|].
  intros k' Hk'. specialize (Hb (S k') ltac:(lia)). by rewrite <-Nat.add_succ_comm in Hb.
Qed.

(** The tasks in the order of their idents, one per ident: the last task added
    under it. *)
Definition in_ident_order (h : Heap) (tasks rs : list TaskRef) : Prop :=
  StronglySorted String.le (ident_of h <$> rs) /\ NoDup (ident_of h <$> rs) /\
  (forall i, i ∈ ident_of h <$> rs <-> i ∈ ident_of h <$> tasks) /\
  (forall r, r ∈ rs -> r ∈ tasks).

Lemma values_in_order h tasks : in_ident_order h tasks (Values (put_all (ident_of h) tasks ∅)).
Proof.
  set (m := put_all (ident_of h) tasks ∅).
  assert (forall i r, m !! i = Some r -> r ∈ tasks /\ ident_of h r = i) as Hm.
  { intros i r [?|Hr]%put_all_key; [done|]. by rewrite lookup_empty in Hr. }
  assert (ident_of h <$> Values m = (Iterator m).*1) as E.
  { unfold Values. rewrite <-list_fmap_compose. apply list_fmap_ext. intros k [i r] Hk. simpl.
    apply list_elem_of_lookup_2, elem_of_Iterator in Hk. by apply Hm. }
  unfold in_ident_order. rewrite E. split_and!.
  - pose proof (Iterator_sorted m) as Hs. clear E. induction Hs as [|[i r] l Hs IH Hall]; [constructor|].
    constructor; [done|]. apply Forall_fmap. eapply Forall_impl; [exact Hall|].
    intros x Hx. exact Hx.
  - apply NoDup_Iterator.
  - intros i. rewrite list_elem_of_fmap. split.
    + intros ([i' r] & -> & Hi%elem_of_Iterator). simpl.
      apply Hm in Hi as [? <-]. by apply list_elem_of_fmap_2.
    + intros Hi. assert (is_Some (m !! i)) as [r Hr] by (apply put_all_is_Some; by left).
      exists (i, r). split; [done|]. by apply elem_of_Iterator.
  - intros r ([i r'] & -> & Hi%elem_of_Iterator)%list_elem_of_fmap. by apply Hm in Hi as [? _].
Qed.
End facts.

(** The checker runs the tasks of the last reload in the order of their
    idents, one per ident, each exactly once unless it is cancelled - then
    those before the first check that finds the context done - and is finished
    afterwards. *)
Theorem checker_runs_in_order h conf tasks done s :
  let s' := checker_run done (os_reload h conf tasks s) in
  exists rs, in_ident_order h tasks rs /\ os_status s' = StatusFinished /\
    ((forall k, (k < length rs)%nat -> done k = false) -> os_started s' = os_started s ++ rs) /\
    (forall k, done k = true -> (forall k', (k' < k)%nat -> done k' = false) ->
       os_started s' = os_started s ++ take k rs).
Proof.
  intros s'. exists (Values (put_all (ident_of h) tasks ∅)).
  split; [apply values_in_order|]. split; [reflexivity|]. unfold s', checker_run. simpl. split.
  - intros Hd. by rewrite checker_loop_all.
  - intros k Hk Hb. by rewrite (checker_loop_cut done 0 k).
Qed.
