(* ===== verification/Configs.v ===== *)
(** * Configuration (define/config.go, define/task.go, configs/)

    The fourteen kinds of task configuration with their defaults. Each kind is
    an instance of [TaskConfig] (the Go interface [define.TaskConfig]); the
    global configuration holds a list of each. *)
From stdpp Require Import pretty.
From S2P Require Import Prelude GoTime.

(** ** define/config.go and the module names of define/task.go *)
Definition DefaultTimeout : Duration := 3 * Second.
Definition DefaultPeriod : Duration := 10 * Second.
Definition DefaultCheckInterval : Duration := 1 * Second.

Definition ModuleBasereport : string := "basereport".
Definition ModulePing : string := "ping".
Definition ModuleTCP : string := "tcp".
Definition ModuleUDP : string := "udp".
Definition ModuleHTTP : string := "http".
Definition ModuleKeyword : string := "keyword".
Definition ModuleScript : string := "script".
Definition ModuleExceptionbeat : string := "exceptionbeat".
Definition ModuleProcessbeat : string := "processbeat".
Definition ModuleSocketSnapshot : string := "socketsnapshot".
Definition ModuleSelfStats : string := "selfstats".
Definition ModuleGatherUpBeat : string := "gather_up_beat".
Definition ModuleDmesg : string := "dmesg".
Definition ModuleMetricbeat : string := "metricbeat".

(** ** configs/basetaskparam.go *)
Record BaseTaskParam := {
  TaskID : Z;
  Ident : string;
  Period : Duration;
  Timeout : Duration;
  Enabled : bool;
  Labels : list (gmap string string)
}.

Definition GetTimeout (b : BaseTaskParam) : Duration :=
  if 0 <? Timeout b then Timeout b else DefaultTimeout.
Definition GetPeriod (b : BaseTaskParam) : Duration :=
  if 0 <? Period b then Period b else DefaultPeriod.

Definition set_ident (i : string) (b : BaseTaskParam) : BaseTaskParam :=
  {| TaskID := TaskID b; Ident := i; Period := Period b; Timeout := Timeout b;
     Enabled := Enabled b; Labels := Labels b |}.
Definition set_taskid (i : Z) (b : BaseTaskParam) : BaseTaskParam :=
  {| TaskID := i; Ident := Ident b; Period := Period b; Timeout := Timeout b;
     Enabled := Enabled b; Labels := Labels b |}.
Definition set_period (p : Duration) (b : BaseTaskParam) : BaseTaskParam :=
  {| TaskID := TaskID b; Ident := Ident b; Period := p; Timeout := Timeout b;
     Enabled := Enabled b; Labels := Labels b |}.
Definition set_timeout (t : Duration) (b : BaseTaskParam) : BaseTaskParam :=
  {| TaskID := TaskID b; Ident := Ident b; Period := Period b; Timeout := t;
     Enabled := Enabled b; Labels := Labels b |}.

(** [fmt.Sprintf("%s:%d", typ, id)] *)
Definition default_ident (typ : string) (id : Z) : string := typ +:+ ":" +:+ pretty id.

Definition fillDefaults (typ : string) (b : BaseTaskParam) : BaseTaskParam :=
  let b := if TaskID b =? 0 then set_taskid 1 b else b in
  if decide (Ident b = EmptyString) then set_ident (default_ident typ (TaskID b)) b else b.

(** [if n <= 0 { n = d }] and its variants *)
Definition or_default (d n : Z) : Z := if n <=? 0 then d else n.
Definition at_least_or (m d n : Z) : Z := if n <? m then d else n.
Definition nonzero_or (d n : Z) : Z := if n =? 0 then d else n.
Definition text_or (d s : string) : string := if decide (s = EmptyString) then d else s.
Definition default_period (d : Duration) (b : BaseTaskParam) : BaseTaskParam :=
  set_period (or_default d (Period b)) b.
Definition default_timeout (d : Duration) (b : BaseTaskParam) : BaseTaskParam :=
  set_timeout (or_default d (Timeout b)) b.

(** ** The interface [define.TaskConfig], as far as [Clean] and the scheduler
    use it *)
Class TaskConfig (C : Type) := {
  param : C -> BaseTaskParam;
  GetType : string;
  Clean : C -> result C
}.
Arguments GetType C {_}.

(** ** The kinds *)
Record CpuConfig := { InfoPeriod : Duration }.
Record MemConfig := { mem_Enabled : bool }.
Record DiskConfig := { disk_Enabled : bool; Paths : list string }.
Record LoadConfig := { load_Enabled : bool }.
Record NetConfig := { net_Enabled : bool }.

Definition defaultPingBackend : string := "icmp".
Definition defaultKeywordEncoding : string := "utf-8".
Definition defaultKeywordBufSize : Z := 64 * 1024.
Definition defaultKeywordFromBegin : bool := true.
Definition defaultScriptFormat : string := "prometheus".
Definition defaultScriptTimeout : Duration := 30 * Second.
Definition defaultExceptionbeatPeriod : Duration := 60 * Second.
Definition defaultDiskUsagePercent : Z := 90.
Definition defaultDiskMinFreeGB : Z := 10.
Definition defaultCorefileReportGap : Duration := 60 * Second.
Definition defaultOutOfMemReportGap : Duration := 60 * Second.
Definition defaultProcessbeatPeriod : Duration := 30 * Second.
Definition defaultProcessbeatTopN : Z := 20.
Definition defaultSocketSnapshotPeriod : Duration := 60 * Second.
Definition defaultSelfStatsPeriod : Duration := 60 * Second.
Definition defaultDmesgPeriod : Duration := 60 * Second.
Definition defaultMetricbeatPeriod : Duration := 60 * Second.
Definition defaultMetricbeatTimeout : Duration := 10 * Second.

Record BasereportConfig := {
  basereport_base : BaseTaskParam;
  Cpu : CpuConfig;
  Mem : MemConfig;
  Disk : DiskConfig;
  Load : LoadConfig;
  Net : NetConfig
}.

Definition clean_BasereportConfig (c : BasereportConfig) : BasereportConfig :=
  {| basereport_base := fillDefaults ModuleBasereport (basereport_base c);
     Cpu := Cpu c;
     Mem := Mem c;
     Disk := Disk c;
     Load := Load c;
     Net := Net c |}.

#[export] Instance BasereportConfig_config : TaskConfig BasereportConfig :=
  { param := basereport_base; GetType := ModuleBasereport; Clean c := Ok (clean_BasereportConfig c) }.

Record PingConfig := {
  ping_base : BaseTaskParam;
  Target : string;
  Backend : string;
  PingCount : Z;
  PayloadSize : Z;
  MaxRTT : Duration;
  SendInterval : Duration;
  Privileged : bool
}.

Definition clean_PingConfig (c : PingConfig) : PingConfig :=
  {| ping_base := fillDefaults ModulePing (ping_base c);
     Target := Target c;
     Backend := text_or defaultPingBackend (Backend c);
     PingCount := or_default 2 (PingCount c);
     PayloadSize := at_least_or 8 56 (PayloadSize c);
     MaxRTT := or_default Second (MaxRTT c);
     SendInterval := or_default (500 * Microsecond) (SendInterval c);
     Privileged := Privileged c |}.

#[export] Instance PingConfig_config : TaskConfig PingConfig :=
  { param := ping_base; GetType := ModulePing; Clean c := Ok (clean_PingConfig c) }.

Record TCPConfig := {
  tcp_base : BaseTaskParam;
  tcp_Address : string
}.

Definition clean_TCPConfig (c : TCPConfig) : TCPConfig :=
  {| tcp_base := fillDefaults ModuleTCP (tcp_base c);
     tcp_Address := tcp_Address c |}.

#[export] Instance TCPConfig_config : TaskConfig TCPConfig :=
  { param := tcp_base; GetType := ModuleTCP; Clean c := Ok (clean_TCPConfig c) }.

Record UDPConfig := {
  udp_base : BaseTaskParam;
  udp_Address : string;
  Payload : string;
  ExpectReply : bool
}.

Definition clean_UDPConfig (c : UDPConfig) : UDPConfig :=
  {| udp_base := fillDefaults ModuleUDP (udp_base c);
     udp_Address := udp_Address c;
     Payload := Payload c;
     ExpectReply := ExpectReply c |}.

#[export] Instance UDPConfig_config : TaskConfig UDPConfig :=
  { param := udp_base; GetType := ModuleUDP; Clean c := Ok (clean_UDPConfig c) }.

Record HTTPConfig := {
  http_base : BaseTaskParam;
  http_URL : string;
  http_Method : string;
  http_Headers : gmap string string;
  Body : string;
  ExpectedCode : Z
}.

Definition clean_HTTPConfig (c : HTTPConfig) : HTTPConfig :=
  {| http_base := fillDefaults ModuleHTTP (http_base c);
     http_URL := http_URL c;
     http_Method := text_or "GET"%string (http_Method c);
     http_Headers := http_Headers c;
     Body := Body c;
     ExpectedCode := nonzero_or 200 (ExpectedCode c) |}.

#[export] Instance HTTPConfig_config : TaskConfig HTTPConfig :=
  { param := http_base; GetType := ModuleHTTP; Clean c := Ok (clean_HTTPConfig c) }.

Record KeywordConfig := {
  keyword_base : BaseTaskParam;
  File : string;
  Pattern : string;
  Encoding : string;
  BufferSize : Z;
  FromBegin : option bool;
  OffsetRegistry : string
}.

Definition clean_KeywordConfig (c : KeywordConfig) : KeywordConfig :=
  {| keyword_base := fillDefaults ModuleKeyword (keyword_base c);
     File := File c;
     Pattern := Pattern c;
     Encoding := text_or defaultKeywordEncoding (Encoding c);
     BufferSize := or_default defaultKeywordBufSize (BufferSize c);
     FromBegin := Some (default defaultKeywordFromBegin (FromBegin c));
     OffsetRegistry := OffsetRegistry c |}.

#[export] Instance KeywordConfig_config : TaskConfig KeywordConfig :=
  { param := keyword_base; GetType := ModuleKeyword; Clean c := Ok (clean_KeywordConfig c) }.

Record ScriptConfig := {
  script_base : BaseTaskParam;
  Command : string;
  script_Format : string;
  UserEnvs : gmap string string
}.

Definition clean_ScriptConfig (c : ScriptConfig) : ScriptConfig :=
  {| script_base := default_timeout defaultScriptTimeout (fillDefaults ModuleScript (script_base c));
     Command := Command c;
     script_Format := text_or defaultScriptFormat (script_Format c);
     UserEnvs := UserEnvs c |}.

#[export] Instance ScriptConfig_config : TaskConfig ScriptConfig :=
  { param := script_base; GetType := ModuleScript; Clean c := Ok (clean_ScriptConfig c) }.

Record ExceptionbeatConfig := {
  exceptionbeat_base : BaseTaskParam;
  CheckDiskRO : bool;
  CheckDiskSpace : bool;
  CheckCorefile : bool;
  CheckOOM : bool;
  DiskUsagePercent : Z;
  DiskMinFreeGB : Z;
  DiskROWhiteList : list string;
  DiskROBlackList : list string;
  CorefileReportGap : Duration;
  CorefilePattern : string;
  CorefileMatchRegex : string;
  OutOfMemReportGap : Duration
}.

Definition clean_ExceptionbeatConfig (c : ExceptionbeatConfig) : ExceptionbeatConfig :=
  {| exceptionbeat_base := default_period defaultExceptionbeatPeriod (fillDefaults ModuleExceptionbeat (exceptionbeat_base c));
     CheckDiskRO := CheckDiskRO c;
     CheckDiskSpace := CheckDiskSpace c;
     CheckCorefile := CheckCorefile c;
     CheckOOM := CheckOOM c;
     DiskUsagePercent := or_default defaultDiskUsagePercent (DiskUsagePercent c);
     DiskMinFreeGB := or_default defaultDiskMinFreeGB (DiskMinFreeGB c);
     DiskROWhiteList := DiskROWhiteList c;
     DiskROBlackList := DiskROBlackList c;
     CorefileReportGap := or_default defaultCorefileReportGap (CorefileReportGap c);
     CorefilePattern := CorefilePattern c;
     CorefileMatchRegex := CorefileMatchRegex c;
     OutOfMemReportGap := or_default defaultOutOfMemReportGap (OutOfMemReportGap c) |}.

#[export] Instance ExceptionbeatConfig_config : TaskConfig ExceptionbeatConfig :=
  { param := exceptionbeat_base; GetType := ModuleExceptionbeat; Clean c := Ok (clean_ExceptionbeatConfig c) }.

Record ProcessbeatConfig := {
  processbeat_base : BaseTaskParam;
  ProcessNames : list string;
  ProcessRegex : string;
  TopN : Z
}.

Definition clean_ProcessbeatConfig (c : ProcessbeatConfig) : ProcessbeatConfig :=
  {| processbeat_base := default_period defaultProcessbeatPeriod (fillDefaults ModuleProcessbeat (processbeat_base c));
     ProcessNames := ProcessNames c;
     ProcessRegex := ProcessRegex c;
     TopN := or_default defaultProcessbeatTopN (TopN c) |}.

#[export] Instance ProcessbeatConfig_config : TaskConfig ProcessbeatConfig :=
  { param := processbeat_base; GetType := ModuleProcessbeat; Clean c := Ok (clean_ProcessbeatConfig c) }.

Record SocketSnapshotConfig := {
  socketsnapshot_base : BaseTaskParam
}.

Definition clean_SocketSnapshotConfig (c : SocketSnapshotConfig) : SocketSnapshotConfig :=
  {| socketsnapshot_base := default_period defaultSocketSnapshotPeriod (fillDefaults ModuleSocketSnapshot (socketsnapshot_base c)) |}.

#[export] Instance SocketSnapshotConfig_config : TaskConfig SocketSnapshotConfig :=
  { param := socketsnapshot_base; GetType := ModuleSocketSnapshot; Clean c := Ok (clean_SocketSnapshotConfig c) }.

Record SelfStatsConfig := {
  selfstats_base : BaseTaskParam
}.

Definition clean_SelfStatsConfig (c : SelfStatsConfig) : SelfStatsConfig :=
  {| selfstats_base := default_period defaultSelfStatsPeriod (fillDefaults ModuleSelfStats (selfstats_base c)) |}.

#[export] Instance SelfStatsConfig_config : TaskConfig SelfStatsConfig :=
  { param := selfstats_base; GetType := ModuleSelfStats; Clean c := Ok (clean_SelfStatsConfig c) }.

Record GatherUpBeatConfig := {
  gatherupbeat_base : BaseTaskParam
}.

Definition clean_GatherUpBeatConfig (c : GatherUpBeatConfig) : GatherUpBeatConfig :=
  {| gatherupbeat_base := default_period defaultSelfStatsPeriod (fillDefaults ModuleGatherUpBeat (gatherupbeat_base c)) |}.

#[export] Instance GatherUpBeatConfig_config : TaskConfig GatherUpBeatConfig :=
  { param := gatherupbeat_base; GetType := ModuleGatherUpBeat; Clean c := Ok (clean_GatherUpBeatConfig c) }.

Record DmesgConfig := {
  dmesg_base : BaseTaskParam
}.

Definition clean_DmesgConfig (c : DmesgConfig) : DmesgConfig :=
  {| dmesg_base := default_period defaultDmesgPeriod (fillDefaults ModuleDmesg (dmesg_base c)) |}.

#[export] Instance DmesgConfig_config : TaskConfig DmesgConfig :=
  { param := dmesg_base; GetType := ModuleDmesg; Clean c := Ok (clean_DmesgConfig c) }.

Record MetricbeatConfig := {
  metricbeat_base : BaseTaskParam;
  mb_URL : string;
  mb_Format : string
}.

Definition clean_MetricbeatConfig (c : MetricbeatConfig) : MetricbeatConfig :=
  {| metricbeat_base := default_timeout defaultMetricbeatTimeout (default_period defaultMetricbeatPeriod (fillDefaults ModuleMetricbeat (metricbeat_base c)));
     mb_URL := mb_URL c;
     mb_Format := text_or "prometheus"%string (mb_Format c) |}.

#[export] Instance MetricbeatConfig_config : TaskConfig MetricbeatConfig :=
  { param := metricbeat_base; GetType := ModuleMetricbeat; Clean c := Ok (clean_MetricbeatConfig c) }.

(** ** configs/config.go *)
Record RegistryConfig := {
  reg_URL : string;
  reg_Interval : Duration;
  reg_Timeout : Duration
}.

(** A value of an inline parameter map (Go's [any]), as far as the outputs
    tell values apart ([V_other]: nil, a list, a map). A float is given by whether
    it is positive and by its truncation to an integer. *)
Inductive Value :=
| V_bool (b : bool)
| V_int (n : Z)
| V_float (positive : bool) (n : Z)
| V_string (s : string)
| V_duration (d : Duration)
| V_other.

Record OutputConfig := {
  oc_Type : string;
  oc_Params : gmap string Value
}.

(** Any task configuration: what a [define.TaskConfig] value points to. *)
Inductive AnyConfig :=
| A_Basereport (c : BasereportConfig)
| A_Ping (c : PingConfig)
| A_TCP (c : TCPConfig)
| A_UDP (c : UDPConfig)
| A_HTTP (c : HTTPConfig)
| A_Keyword (c : KeywordConfig)
| A_Script (c : ScriptConfig)
| A_Exceptionbeat (c : ExceptionbeatConfig)
| A_Processbeat (c : ProcessbeatConfig)
| A_SocketSnapshot (c : SocketSnapshotConfig)
| A_SelfStats (c : SelfStatsConfig)
| A_GatherUpBeat (c : GatherUpBeatConfig)
| A_Dmesg (c : DmesgConfig)
| A_Metricbeat (c : MetricbeatConfig).

Record Config := {
  CheckInterval : Duration;
  EventBufferSize : Z;
  AdminAddr : string;
  ConfigPath : string;
  Registry : RegistryConfig;
  Outputs : list OutputConfig;
  Basereports : list BasereportConfig;
  Pings : list PingConfig;
  TCPs : list TCPConfig;
  UDPs : list UDPConfig;
  HTTPs : list HTTPConfig;
  Keywords : list KeywordConfig;
  Scripts : list ScriptConfig;
  Exceptionbeats : list ExceptionbeatConfig;
  Processbeats : list ProcessbeatConfig;
  SocketSnapshots : list SocketSnapshotConfig;
  SelfStats : list SelfStatsConfig;
  GatherUpBeats : list GatherUpBeatConfig;
  Dmesgs : list DmesgConfig;
  Metricbeats : list MetricbeatConfig
}.

Definition any_param (a : AnyConfig) : BaseTaskParam :=
  match a with
  | A_Basereport c => param c
  | A_Ping c => param c
  | A_TCP c => param c
  | A_UDP c => param c
  | A_HTTP c => param c
  | A_Keyword c => param c
  | A_Script c => param c
  | A_Exceptionbeat c => param c
  | A_Processbeat c => param c
  | A_SocketSnapshot c => param c
  | A_SelfStats c => param c
  | A_GatherUpBeat c => param c
  | A_Dmesg c => param c
  | A_Metricbeat c => param c
  end.

Definition any_type (a : AnyConfig) : string :=
  match a with
  | A_Basereport _ => GetType BasereportConfig
  | A_Ping _ => GetType PingConfig
  | A_TCP _ => GetType TCPConfig
  | A_UDP _ => GetType UDPConfig
  | A_HTTP _ => GetType HTTPConfig
  | A_Keyword _ => GetType KeywordConfig
  | A_Script _ => GetType ScriptConfig
  | A_Exceptionbeat _ => GetType ExceptionbeatConfig
  | A_Processbeat _ => GetType ProcessbeatConfig
  | A_SocketSnapshot _ => GetType SocketSnapshotConfig
  | A_SelfStats _ => GetType SelfStatsConfig
  | A_GatherUpBeat _ => GetType GatherUpBeatConfig
  | A_Dmesg _ => GetType DmesgConfig
  | A_Metricbeat _ => GetType MetricbeatConfig
  end.

Definition GetCheckInterval (c : Config) : Duration :=
  if 0 <? CheckInterval c then CheckInterval c else DefaultCheckInterval.

Definition GetEventBufferSize (c : Config) : Z :=
  if 0 <? EventBufferSize c then EventBufferSize c else 1024.

Definition GetTaskConfigListByType (typ : string) (c : Config) : list AnyConfig :=
  if decide (typ = ModuleBasereport) then A_Basereport <$> Basereports c
  else if decide (typ = ModulePing) then A_Ping <$> Pings c
  else if decide (typ = ModuleTCP) then A_TCP <$> TCPs c
  else if decide (typ = ModuleUDP) then A_UDP <$> UDPs c
  else if decide (typ = ModuleHTTP) then A_HTTP <$> HTTPs c
  else if decide (typ = ModuleKeyword) then A_Keyword <$> Keywords c
  else if decide (typ = ModuleScript) then A_Script <$> Scripts c
  else if decide (typ = ModuleExceptionbeat) then A_Exceptionbeat <$> Exceptionbeats c
  else if decide (typ = ModuleProcessbeat) then A_Processbeat <$> Processbeats c
  else if decide (typ = ModuleSocketSnapshot) then A_SocketSnapshot <$> SocketSnapshots c
  else if decide (typ = ModuleSelfStats) then A_SelfStats <$> SelfStats c
  else if decide (typ = ModuleGatherUpBeat) then A_GatherUpBeat <$> GatherUpBeats c
  else if decide (typ = ModuleDmesg) then A_Dmesg <$> Dmesgs c
  else if decide (typ = ModuleMetricbeat) then A_Metricbeat <$> Metricbeats c
  else [].

Definition AllTaskConfigs (c : Config) : list AnyConfig :=
  (A_Basereport <$> Basereports c) ++
  (A_Ping <$> Pings c) ++
  (A_TCP <$> TCPs c) ++
  (A_UDP <$> UDPs c) ++
  (A_HTTP <$> HTTPs c) ++
  (A_Keyword <$> Keywords c) ++
  (A_Script <$> Scripts c) ++
  (A_Exceptionbeat <$> Exceptionbeats c) ++
  (A_Processbeat <$> Processbeats c) ++
  (A_SocketSnapshot <$> SocketSnapshots c) ++
  (A_SelfStats <$> SelfStats c) ++
  (A_GatherUpBeat <$> GatherUpBeats c) ++
  (A_Dmesg <$> Dmesgs c) ++
  (A_Metricbeat <$> Metricbeats c).

(** [for i := range cs { if err := cs[i].Clean(); err != nil { return err } }] *)
Fixpoint clean_all {C} `{TaskConfig C} (cs : list C) : result (list C) :=
  match cs with
  | [] => Ok []
  | c :: cs' =>
      match Clean c with
      | Err e => Err e
      | Ok c' => match clean_all cs' with Err e => Err e | Ok cs'' => Ok (c' :: cs'') end
      end
  end.

Notation "x <-! r ; k" := (match r with Err e => Err e | Ok x => k end)
  (at level 100, r at next level, right associativity) : go_scope.

Definition clean_registry (r : RegistryConfig) : RegistryConfig :=
  {| reg_URL := reg_URL r; reg_Interval := or_default (30 * Second) (reg_Interval r);
     reg_Timeout := or_default (5 * Second) (reg_Timeout r) |}.

Definition clean_config (c : Config) : result Config :=
  x0 <-! clean_all (Basereports c);
  x1 <-! clean_all (Pings c);
  x2 <-! clean_all (TCPs c);
  x3 <-! clean_all (UDPs c);
  x4 <-! clean_all (HTTPs c);
  x5 <-! clean_all (Keywords c);
  x6 <-! clean_all (Scripts c);
  x7 <-! clean_all (Exceptionbeats c);
  x8 <-! clean_all (Processbeats c);
  x9 <-! clean_all (SocketSnapshots c);
  x10 <-! clean_all (SelfStats c);
  x11 <-! clean_all (GatherUpBeats c);
  x12 <-! clean_all (Dmesgs c);
  x13 <-! clean_all (Metricbeats c);
  Ok {| CheckInterval := CheckInterval c; EventBufferSize := EventBufferSize c;
        AdminAddr := AdminAddr c; ConfigPath := ConfigPath c;
        Registry := clean_registry (Registry c); Outputs := Outputs c;
        Basereports := x0;
        Pings := x1;
        TCPs := x2;
        UDPs := x3;
        HTTPs := x4;
        Keywords := x5;
        Scripts := x6;
        Exceptionbeats := x7;
        Processbeats := x8;
        SocketSnapshots := x9;
        SelfStats := x10;
        GatherUpBeats := x11;
        Dmesgs := x12;
        Metricbeats := x13 |}.
