(* ===== verification/ConfigLaws.v ===== *)
(** * What cleaning a configuration guarantees

    The law every kind of task configuration satisfies ([LawfulConfig]), its
    consequence for a whole configuration, and how the two ways of listing task
    configurations agree. *)
From stdpp Require Import pretty.
From S2P Require Import Prelude GoTime Configs.

(** What [Clean] makes of the shared parameters. *)
Record cleaned (typ : string) (b b' : BaseTaskParam) : Prop := {
  cl_id : TaskID b' = if decide (TaskID b = 0) then 1 else TaskID b;
  cl_ident : Ident b' = if decide (Ident b = EmptyString) then default_ident typ (TaskID b')
                        else Ident b;
  cl_enabled : Enabled b' = Enabled b;
  cl_labels : Labels b' = Labels b;
  cl_period : 0 < Period b -> Period b' = Period b;
  cl_timeout : 0 < Timeout b -> Timeout b' = Timeout b
}.

(** Cleaning succeeds, is idempotent and keeps what the user has set. *)
Class LawfulConfig (C : Type) `{TaskConfig C} := clean_law : forall c : C, exists c',
  Clean c = Ok c' /\ Clean c' = Ok c' /\ cleaned (GetType C) (param c) (param c').

Create Rewrite HintDb conf.

Section defaults.
Implicit Types b : BaseTaskParam.

Lemma default_ident_nonempty typ id : default_ident typ id <> EmptyString.
Proof. unfold default_ident. by destruct typ. Qed.

Lemma fill_fill typ b : fillDefaults typ (fillDefaults typ b) = fillDefaults typ b.
Proof.
  destruct b as [id i p t e l]. unfold fillDefaults. simpl.
  destruct (Z.eqb_spec id 0) as [->|Hid]; simpl; destruct (decide (i = EmptyString)); simpl;
    rewrite ?(proj2 (Z.eqb_neq id 0) Hid); simpl; case_decide as E; try done;
    by destruct (default_ident_nonempty _ _ E).
Qed.

Lemma fill_period typ d b :
  fillDefaults typ (default_period d b) = default_period d (fillDefaults typ b).
Proof.
  destruct b as [id i p t e l]. unfold fillDefaults, default_period. simpl.
  destruct (id =? 0); simpl; by destruct (decide (i = EmptyString)).
Qed.

Lemma fill_timeout typ d b :
  fillDefaults typ (default_timeout d b) = default_timeout d (fillDefaults typ b).
Proof.
  destruct b as [id i p t e l]. unfold fillDefaults, default_timeout. simpl.
  destruct (id =? 0); simpl; by destruct (decide (i = EmptyString)).
Qed.

Lemma or_default_idem d n : or_default d (or_default d n) = or_default d n.
Proof. unfold or_default. destruct (n <=? 0) eqn:E; [by destruct (d <=? 0)|by rewrite E]. Qed.

Lemma at_least_or_idem m d n : at_least_or m d (at_least_or m d n) = at_least_or m d n.
Proof. unfold at_least_or. destruct (n <? m) eqn:E; [by destruct (d <? m)|by rewrite E]. Qed.

Lemma nonzero_or_idem d n : nonzero_or d (nonzero_or d n) = nonzero_or d n.
Proof. unfold nonzero_or. destruct (n =? 0) eqn:E; [by destruct (d =? 0)|by rewrite E]. Qed.

Lemma text_or_idem d s : text_or d (text_or d s) = text_or d s.
Proof. unfold text_or. by destruct (decide (s = EmptyString)); case_decide. Qed.

Lemma period_idem d b : default_period d (default_period d b) = default_period d b.
Proof. unfold default_period, set_period. simpl. by rewrite or_default_idem. Qed.

Lemma timeout_idem d b : default_timeout d (default_timeout d b) = default_timeout d b.
Proof. unfold default_timeout, set_timeout. simpl. by rewrite or_default_idem. Qed.

Lemma period_timeout d1 d2 b :
  default_period d1 (default_timeout d2 b) = default_timeout d2 (default_period d1 b).
Proof. done. Qed.

Lemma some_default_idem {A} (d : A) o : Some (default d (Some (default d o))) = Some (default d o).
Proof. done. Qed.

Lemma fill_cleaned typ b : cleaned typ b (fillDefaults typ b).
Proof.
  destruct b as [id i p t e l]. unfold fillDefaults. simpl.
  destruct (Z.eqb_spec id 0); simpl; destruct (decide (i = EmptyString)) as [->|Hi];
    split; simpl; try done; by repeat case_decide.
Qed.

Lemma period_cleaned typ d b b' :
  cleaned typ b b' -> cleaned typ b (default_period d b').
Proof.
  intros []. split; simpl; try done. intros Hp. unfold or_default. rewrite cl_period0 by done.
  by destruct (Z.leb_spec (Period b) 0); [lia|].
Qed.

Lemma timeout_cleaned typ d b b' :
  cleaned typ b b' -> cleaned typ b (default_timeout d b').
Proof.
  intros []. split; simpl; try done. intros Hp. unfold or_default. rewrite cl_timeout0 by done.
  by destruct (Z.leb_spec (Timeout b) 0); [lia|].
Qed.
End defaults.

#[export] Hint Rewrite fill_period fill_timeout period_timeout fill_fill period_idem timeout_idem
  or_default_idem at_least_or_idem nonzero_or_idem text_or_idem : conf.
#[export] Hint Resolve fill_cleaned period_cleaned timeout_cleaned : monitor.

Ltac lawful :=
  intros c; eexists; split; [reflexivity|]; split;
  [simpl; f_equal; destruct c; match goal with |- ?f (?f _) = _ => unfold f end; simpl;
   autorewrite with conf; done
  | simpl; eauto with monitor].

#[export] Instance BasereportConfig_lawful : LawfulConfig BasereportConfig.
Proof. lawful. Qed.
#[export] Instance PingConfig_lawful : LawfulConfig PingConfig.
Proof. lawful. Qed.
#[export] Instance TCPConfig_lawful : LawfulConfig TCPConfig.
Proof. lawful. Qed.
#[export] Instance UDPConfig_lawful : LawfulConfig UDPConfig.
Proof. lawful. Qed.
#[export] Instance HTTPConfig_lawful : LawfulConfig HTTPConfig.
Proof. lawful. Qed.
#[export] Instance KeywordConfig_lawful : LawfulConfig KeywordConfig.
Proof. lawful. Qed.
#[export] Instance ScriptConfig_lawful : LawfulConfig ScriptConfig.
Proof. lawful. Qed.
#[export] Instance ExceptionbeatConfig_lawful : LawfulConfig ExceptionbeatConfig.
Proof. lawful. Qed.
#[export] Instance ProcessbeatConfig_lawful : LawfulConfig ProcessbeatConfig.
Proof. lawful. Qed.
#[export] Instance SocketSnapshotConfig_lawful : LawfulConfig SocketSnapshotConfig.
Proof. lawful. Qed.
#[export] Instance SelfStatsConfig_lawful : LawfulConfig SelfStatsConfig.
Proof. lawful. Qed.
#[export] Instance GatherUpBeatConfig_lawful : LawfulConfig GatherUpBeatConfig.
Proof. lawful. Qed.
#[export] Instance DmesgConfig_lawful : LawfulConfig DmesgConfig.
Proof. lawful. Qed.
#[export] Instance MetricbeatConfig_lawful : LawfulConfig MetricbeatConfig.
Proof. lawful. Qed.

(** ** Whole configurations *)
Definition agrees (a a' : AnyConfig) : Prop :=
  any_type a' = any_type a /\ cleaned (any_type a) (any_param a) (any_param a').

Section whole.
Lemma clean_all_law {C} `{LawfulConfig C} (inj : C -> AnyConfig) (cs : list C) :
  (forall c, any_type (inj c) = GetType C /\ any_param (inj c) = param c) ->
  exists cs', clean_all cs = Ok cs' /\ clean_all cs' = Ok cs' /\
    Forall2 agrees (inj <$> cs) (inj <$> cs').
Proof.
  intros Hinj. induction cs as [|c cs (cs' & H1 & H2 & H3)]; [by exists []|].
  destruct (clean_law c) as (c' & Hc1 & Hc2 & Hc3). exists (c' :: cs'). simpl.
  rewrite Hc1, H1, Hc2, H2. split_and!; [done|done|]. constructor; [|done].
  destruct (Hinj c) as [Ht Hp], (Hinj c') as [Ht' Hp']. unfold agrees.
  by rewrite Ht, Ht', Hp, Hp'.
Qed.

Lemma filter_kind {C} (inj : C -> AnyConfig) typ t (cs : list C) :
  (forall c, any_type (inj c) = t) ->
  filter (fun a => any_type a = typ) (inj <$> cs) = if decide (typ = t) then inj <$> cs else [].
Proof.
  intros Hinj. destruct (decide (typ = t)) as [->|Hne].
  - apply filter_all, Forall_fmap, Forall_forall. intros c _. apply Hinj.
  - apply filter_none, Forall_fmap, Forall_forall. intros c _. simpl. by rewrite Hinj.
Qed.
End whole.

Ltac clean_kind inj cs :=
  let cs' := fresh "cs" in let E := fresh "E" in let I := fresh "I" in let F := fresh "F" in
  destruct (clean_all_law inj cs (fun c => conj eq_refl eq_refl)) as (cs' & E & I & F).

(** Cleaning a configuration never fails, cleaning it again changes
    nothing, and entry by entry it keeps the kind, every value the user has set
    and the order, filling a missing id with 1, a missing ident with
    [type:id] and missing durations with the kind's defaults. *)
Theorem clean_config_lawful c : exists c',
  clean_config c = Ok c' /\ clean_config c' = Ok c' /\
  Forall2 agrees (AllTaskConfigs c) (AllTaskConfigs c').
Proof.
  clean_kind A_Basereport (Basereports c).
  clean_kind A_Ping (Pings c).
  clean_kind A_TCP (TCPs c).
  clean_kind A_UDP (UDPs c).
  clean_kind A_HTTP (HTTPs c).
  clean_kind A_Keyword (Keywords c).
  clean_kind A_Script (Scripts c).
  clean_kind A_Exceptionbeat (Exceptionbeats c).
  clean_kind A_Processbeat (Processbeats c).
  clean_kind A_SocketSnapshot (SocketSnapshots c).
  clean_kind A_SelfStats (SelfStats c).
  clean_kind A_GatherUpBeat (GatherUpBeats c).
  clean_kind A_Dmesg (Dmesgs c).
  clean_kind A_Metricbeat (Metricbeats c).
  unfold clean_config at 1. repeat match goal with E : clean_all (_ c) = _ |- _ => rewrite E; clear E end.
  eexists. split; [reflexivity|]. split.
  - unfold clean_config. simpl. repeat match goal with I : clean_all ?x = _ |- _ => rewrite I; clear I end.
    unfold clean_registry. simpl. by rewrite !or_default_idem.
  - unfold AllTaskConfigs. simpl. repeat apply Forall2_app; assumption.
Qed.

(** The configurations of one kind are exactly those entries of the full
    list that have it, in the same order; an unknown kind has none. *)
Theorem configs_by_type typ c :
  GetTaskConfigListByType typ c = filter (fun a => any_type a = typ) (AllTaskConfigs c).
Proof.
  unfold AllTaskConfigs. rewrite !filter_app.
  rewrite (filter_kind A_Basereport typ ModuleBasereport) by done.
  rewrite (filter_kind A_Ping typ ModulePing) by done.
  rewrite (filter_kind A_TCP typ ModuleTCP) by done.
  rewrite (filter_kind A_UDP typ ModuleUDP) by done.
  rewrite (filter_kind A_HTTP typ ModuleHTTP) by done.
  rewrite (filter_kind A_Keyword typ ModuleKeyword) by done.
  rewrite (filter_kind A_Script typ ModuleScript) by done.
  rewrite (filter_kind A_Exceptionbeat typ ModuleExceptionbeat) by done.
  rewrite (filter_kind A_Processbeat typ ModuleProcessbeat) by done.
  rewrite (filter_kind A_SocketSnapshot typ ModuleSocketSnapshot) by done.
  rewrite (filter_kind A_SelfStats typ ModuleSelfStats) by done.
  rewrite (filter_kind A_GatherUpBeat typ ModuleGatherUpBeat) by done.
  rewrite (filter_kind A_Dmesg typ ModuleDmesg) by done.
  rewrite (filter_kind A_Metricbeat typ ModuleMetricbeat) by done.
  unfold GetTaskConfigListByType.
  repeat (case_decide; [subst typ; simpl; rewrite ?app_nil_r; reflexivity|]). reflexivity.
Qed.
