(* ===== verification/Agent.v ===== *)
(** * Start-up and reload of the agent (tasks/factory.go, cmd/monitorbeat/main.go)

    Building the task objects of a configuration through the registered
    builders, handing them to the periodic and the keyword scheduler, and
    reloading. Whether a pattern compiles ([regexp.Compile]) is the argument
    [compiles]. *)
From stdpp Require Import pretty.
From S2P Require Import Prelude GoTime TreeMap JobQueue Daemon DaemonSpec OneShot Configs ConfigLaws.

(** ** tasks/factory.go *)
Definition ErrUnknownTaskType : string := "tasks: unknown task type".

Section agent.
Context (compiles : string -> bool).

(** A builder, up to the construction of the object: the type assertion is the
    kind of the configuration. *)
Definition Builder := AnyConfig -> result AnyConfig.

Definition accept (typ : string) (check : AnyConfig -> result AnyConfig) : Builder := fun a =>
  if decide (any_type a = typ) then check a else Err (typ +:+ ": config type mismatch").

Definition keyword_check (a : AnyConfig) : result AnyConfig :=
  match a with
  | A_Keyword c =>
      if decide (File c = EmptyString) then Err "keyword: file is required"
      else if decide (Pattern c = EmptyString) then Err "keyword: pattern is required"
      else if compiles (Pattern c) then Ok a else Err "keyword: bad pattern"
  | _ => Err "keyword: config type mismatch"
  end.

Definition script_check (a : AnyConfig) : result AnyConfig :=
  match a with
  | A_Script c =>
      if decide (Command c = EmptyString) then Err "script: command is required" else Ok a
  | _ => Err "script: config type mismatch"
  end.

Definition metricbeat_check (a : AnyConfig) : result AnyConfig :=
  match a with
  | A_Metricbeat c =>
      if decide (mb_URL c = EmptyString) then Err "metricbeat: url is required" else Ok a
  | _ => Err "metricbeat: config type mismatch"
  end.

(** [RegisterBuilder] panics on a second registration of a type. *)
Definition RegisterBuilder (typ : string) (b : Builder) (m : gmap string Builder)
    : result (gmap string Builder) :=
  match m !! typ with
  | Some _ => Err ("panic: tasks: duplicate builder for type " +:+ typ)
  | None => Ok (<[typ := b]> m)
  end.

(** What the [init] functions register, one per package. *)
Definition basereport_builder : string * Builder := (ModuleBasereport, accept ModuleBasereport Ok).
Definition dmesg_builder : string * Builder := (ModuleDmesg, accept ModuleDmesg Ok).
Definition exceptionbeat_builder : string * Builder := (ModuleExceptionbeat, accept ModuleExceptionbeat Ok).
Definition gatherupbeat_builder : string * Builder := (ModuleGatherUpBeat, accept ModuleGatherUpBeat Ok).
Definition http_builder : string * Builder := (ModuleHTTP, accept ModuleHTTP Ok).
Definition keyword_builder : string * Builder := (ModuleKeyword, accept ModuleKeyword keyword_check).
Definition metricbeat_builder : string * Builder := (ModuleMetricbeat, accept ModuleMetricbeat metricbeat_check).
Definition ping_builder : string * Builder := (ModulePing, accept ModulePing Ok).
Definition processbeat_builder : string * Builder := (ModuleProcessbeat, accept ModuleProcessbeat Ok).
Definition script_builder : string * Builder := (ModuleScript, accept ModuleScript script_check).
Definition selfstats_builder : string * Builder := (ModuleSelfStats, accept ModuleSelfStats Ok).
Definition socketsnapshot_builder : string * Builder := (ModuleSocketSnapshot, accept ModuleSocketSnapshot Ok).
Definition tcp_builder : string * Builder := (ModuleTCP, accept ModuleTCP Ok).
Definition udp_builder : string * Builder := (ModuleUDP, accept ModuleUDP Ok).

Definition builders : list (string * Builder) :=
  [basereport_builder;
   dmesg_builder;
   exceptionbeat_builder;
   gatherupbeat_builder;
   http_builder;
   keyword_builder;
   metricbeat_builder;
   ping_builder;
   processbeat_builder;
   script_builder;
   selfstats_builder;
   socketsnapshot_builder;
   tcp_builder;
   udp_builder].

Fixpoint register_all (bs : list (string * Builder)) (m : gmap string Builder)
    : result (gmap string Builder) :=
  match bs with
  | [] => Ok m
  | (typ, b) :: bs' =>
      match RegisterBuilder typ b m with Err e => Err e | Ok m' => register_all bs' m' end
  end.

Definition registry : gmap string Builder :=
  match register_all builders ∅ with Ok m => m | Err _ => ∅ end.

Definition Build (tc : AnyConfig) : result AnyConfig :=
  match registry !! any_type tc with
  | None => Err (ErrUnknownTaskType +:+ ": " +:+ any_type tc)
  | Some b => b tc
  end.

(** ** cmd/monitorbeat/main.go *)
Fixpoint build_each (tcs : list AnyConfig) : list AnyConfig * list string :=
  match tcs with
  | [] => ([], [])
  | tc :: tcs' =>
      let '(out, skipped) := build_each tcs' in
      match Build tc with
      | Err _ => (out, any_type tc :: skipped)
      | Ok t => (t :: out, skipped)
      end
  end.

Definition buildAllTasks (cfg : Config) : list AnyConfig * list string :=
  build_each (AllTaskConfigs cfg).

(** The task object a configuration is built into, as the schedulers see it; nothing
    gives it a global configuration. *)
Definition object_of (a : AnyConfig) : TaskObj :=
  {| t_cfg := {| GetTaskID := TaskID (any_param a); GetIdent := Ident (any_param a);
                 Daemon.GetPeriod := Configs.GetPeriod (any_param a) |};
     t_gcfg := None |}.

Definition global_of (cfg : Config) : GlobalConf :=
  {| Daemon.GetCheckInterval := Configs.GetCheckInterval cfg |}.

(** Objects are numbered in the order they are made; [nobody] stands for
    references never handed out. *)
Definition nobody : TaskObj :=
  {| t_cfg := {| GetTaskID := 0; GetIdent := EmptyString; Daemon.GetPeriod := 0 |};
     t_gcfg := None |}.

Definition alloc (base : nat) (ts : list AnyConfig) (h : Heap) : Heap := fun r =>
  if decide (r < base)%nat then h r
  else match ts !! (r - base)%nat with Some a => object_of a | None => nobody end.

Definition is_keyword (a : AnyConfig) : bool := bool_decide (any_type a = ModuleKeyword).

Record AgentState := {
  ag_sched : Daemon;
  ag_keyword : OneShot;
  ag_tasks : list AnyConfig  (* every object made so far *)
}.

Section schedulers.
Context {SO : Sorter not_after}.

(** The references of the tasks of a kind among freshly made ones. *)
Definition refs_where (p : AnyConfig -> bool) (base : nat) (ts : list AnyConfig) : list TaskRef :=
  fst <$> filter (fun ra => p ra.2 = true) (zip (seq base (length ts)) ts).

Definition add_all (at_ : TaskRef -> Time) (rs : list TaskRef) (d : Daemon) : Daemon :=
  foldl (fun d r => AddTask (at_ r) r d) d rs.

(** [main] from the construction of the schedulers to their start. *)
Definition startup (at_ : TaskRef -> Time) (cfg : Config) : AgentState :=
  let g := global_of cfg in
  let ts := fst (buildAllTasks cfg) in
  let h := alloc 0 ts (fun _ => nobody) in
  {| ag_sched := Start at_ (add_all at_ (refs_where (fun a => negb (is_keyword a)) 0 ts)
                   (New (Some g) h));
     ag_keyword := keyword_start (foldl (fun s r => os_add h r s) (os_new None)
                     (refs_where is_keyword 0 ts));
     ag_tasks := ts |}.

(** The callback of the reloader: all tasks of the new configuration go to the
    periodic scheduler. *)
Definition reload (at_ : TaskRef -> Time) (loaded : result Config) (a : AgentState)
    : result AgentState :=
  match loaded with
  | Err e => Err ("reload load: " +:+ e)
  | Ok cfg =>
      match clean_config cfg with
      | Err e => Err ("reload clean: " +:+ e)
      | Ok cfg =>
          let g := global_of cfg in
          let ts := fst (buildAllTasks cfg) in
          let base := length (ag_tasks a) in
          let d := ag_sched a in
          let d' := {| d_status := d_status d; d_config := d_config d; d_tasks := d_tasks d;
                       d_jobs := d_jobs d; d_heap := alloc base ts (d_heap d);
                       d_next_id := d_next_id d; d_interval := d_interval d;
                       d_runs := d_runs d; d_cancelled := d_cancelled d |} in
          Ok {| ag_sched := Reload at_ g (seq base (length ts)) d';
                ag_keyword := ag_keyword a; ag_tasks := ag_tasks a ++ ts |}
      end
  end.
End schedulers.
End agent.
