(* ===== verification/AgentSpec.v ===== *)
(** * What start-up and reload of the agent do

    Every kind of task has a builder; every configuration is built or reported
    as skipped; the idents that cleaning assigns separate kinds and ids; and
    where keyword tasks end up. *)
From stdpp Require Import pretty.
From S2P Require Import Prelude GoTime TreeMap JobQueue Daemon DaemonSpec OneShot Configs ConfigLaws Agent.

Section building.
Context (compiles : string -> bool).

(** What each kind is checked for. *)
Definition build_spec (a : AnyConfig) : result AnyConfig :=
  match a with
  | A_Keyword _ => keyword_check compiles a
  | A_Script _ => script_check a
  | A_Metricbeat _ => metricbeat_check a
  | _ => Ok a
  end.

Lemma Build_spec a : Build compiles a = build_spec a.
Proof. by destruct a. Qed.

Lemma build_spec_same a t : build_spec a = Ok t -> t = a.
Proof. destruct a; simpl; intros; repeat case_decide; try case_match; congruence. Qed.

Definition buildable (a : AnyConfig) : Prop := is_ok (build_spec a) = true.
#[export] Instance buildable_dec a : Decision (buildable a).
Proof. unfold buildable. apply _. Defined.

Lemma build_each_spec tcs :
  build_each compiles tcs =
    (filter buildable tcs, any_type <$> filter (fun a => ~ buildable a) tcs).
Proof.
  induction tcs as [|tc tcs IH]; [done|]. simpl. rewrite IH, Build_spec.
  destruct (decide (buildable tc)) as [Hb|Hb].
  - rewrite filter_cons_True, filter_cons_False by tauto. unfold buildable in Hb.
    destruct (build_spec tc) as [t|] eqn:E; [|done]. by apply build_spec_same in E as ->.
  - rewrite filter_cons_False, filter_cons_True by done. unfold buildable in Hb.
    by destruct (build_spec tc).
Qed.
End building.

(** Every registered kind has exactly one builder (no double registration
    panics), and building a configuration yields, in the order of the
    configuration, every task except the keyword, script and metricbeat entries
    that lack a required setting - whose kinds are reported as skipped. *)
Theorem buildAllTasks_complete compiles cfg :
  is_ok (register_all (builders compiles) ∅) = true /\
  buildAllTasks compiles cfg =
    (filter (buildable compiles) (AllTaskConfigs cfg),
     any_type <$> filter (fun a => ~ buildable compiles a) (AllTaskConfigs cfg)) /\
  (forall a, ~ buildable compiles a ->
     any_type a ∈ [ModuleKeyword; ModuleScript; ModuleMetricbeat]).
Proof.
  split_and!; [done|apply build_each_spec|].
  intros [] Hn; try (by destruct Hn); simpl; set_solver.
Qed.

Definition modules : list string :=
  [ModuleBasereport; ModulePing; ModuleTCP; ModuleUDP; ModuleHTTP; ModuleKeyword; ModuleScript;
   ModuleExceptionbeat; ModuleProcessbeat; ModuleSocketSnapshot; ModuleSelfStats;
   ModuleGatherUpBeat; ModuleDmesg; ModuleMetricbeat].

Lemma any_type_module a : any_type a ∈ modules.
Proof. apply (bool_decide_unpack _). by destruct a. Qed.

Lemma default_ident_same typ id id' : default_ident typ id = default_ident typ id' -> id = id'.
Proof.
  unfold default_ident. intros E. apply (inj pretty).
  induction typ as [|c typ IH]; simpl in E; [by injection E|].
  apply IH. by injection E.
Qed.

(** The idents that [Clean] assigns tell two task configurations apart
    exactly when their kinds or ids differ: no kind can take the ident of
    another, and entries of one kind that leave [task_id] out (all of them get
    id 1) or repeat it collide. *)
Theorem default_idents_distinct a a' id id' :
  default_ident (any_type a) id = default_ident (any_type a') id' <->
  any_type a = any_type a' /\ id = id'.
Proof.
  split; [|by intros [-> ->]]. intros E.
  assert (any_type a = any_type a') as Ht.
  { destruct a, a'; first [reflexivity|discriminate E]. }
  rewrite Ht in E. split; [done|]. by eapply default_ident_same.
Qed.

(** ** Where the tasks end up *)
Section placement.
Context {SO : Sorter not_after} (compiles : string -> bool).

Lemma elem_of_refs_where p base ts r :
  r ∈ refs_where p base ts <->
  (base <= r)%nat /\ exists a, ts !! (r - base)%nat = Some a /\ p a = true.
Proof.
  unfold refs_where. rewrite list_elem_of_fmap. split.
  - intros ([r' a] & -> & [Hp Hin]%list_elem_of_filter). simpl in *.
    apply list_elem_of_lookup in Hin as [i Hi].
    apply lookup_zip_Some in Hi as [Hs Ht]. apply lookup_seq in Hs as [-> Hlt].
    split; [lia|]. exists a. by rewrite Nat.add_comm, Nat.add_sub.
  - intros [Hle (a & Ha & Hp)]. exists (r, a). split; [done|]. apply list_elem_of_filter.
    split; [done|]. apply list_elem_of_lookup. exists (r - base)%nat.
    apply lookup_zip_Some. split; [|done]. apply lookup_seq.
    apply lookup_lt_Some in Ha. lia.
Qed.

(** Adding before the start only registers. *)
Lemma add_all_ready at_ rs d :
  d_status d = StatusReady ->
  d_status (add_all at_ rs d) = StatusReady /\ d_heap (add_all at_ rs d) = d_heap d /\
  d_jobs (add_all at_ rs d) = d_jobs d /\
  d_tasks (add_all at_ rs d) = put_all (ident_of (d_heap d)) rs (d_tasks d).
Proof.
  revert d. induction rs as [|r rs IH]; intros d Hd; [done|]. simpl.
  assert (d_status (AddTask (at_ r) r d) = StatusReady /\
    d_heap (AddTask (at_ r) r d) = d_heap d /\ d_jobs (AddTask (at_ r) r d) = d_jobs d /\
    d_tasks (AddTask (at_ r) r d) = <[ident_of (d_heap d) r := r]> (d_tasks d))
    as (Hs & Hh & Hj & Ht).
  { unfold AddTask. by rewrite decide_False by (by rewrite Hd). }
  destruct (IH _ Hs) as (-> & -> & -> & ->). by rewrite Hh, Hj, Ht.
Qed.

(** The jobs of a daemon that was just started. *)
Lemma started_jobs at_ g h rs :
  let d := Start at_ (add_all at_ rs (New (Some g) h)) in
  d_heap d = h /\ j_task <$> d_jobs d ≡ₚ Values (put_all (ident_of h) rs ∅).
Proof.
  intros d. destruct (add_all_ready at_ rs (New (Some g) h) eq_refl) as (_ & Hh & Hj & Ht).
  unfold d, Start. simpl. rewrite Hh, Hj, Ht. simpl. split; [done|].
  rewrite Push_perm. simpl. by rewrite make_jobs_tasks.
Qed.

Definition boot (at_ : TaskRef -> Time) (cfg : Config) : Daemon :=
  ag_sched (startup compiles at_ cfg).

Lemma boot_facts at_ cfg :
  let ts := fst (buildAllTasks compiles cfg) in
  let h := d_heap (boot at_ cfg) in
  (forall j, j ∈ d_jobs (boot at_ cfg) ->
     exists a, ts !! j_task j = Some a /\ is_keyword a = false) /\
  NoDup ((fun j => ident_of h (j_task j)) <$> d_jobs (boot at_ cfg)).
Proof.
  intros ts h. set (rs := refs_where (fun a => negb (is_keyword a)) 0 ts).
  set (h0 := alloc 0 ts (fun _ => nobody)).
  destruct (started_jobs at_ (global_of cfg) h0 rs) as [Hh Hj].
  change (Start _ _) with (boot at_ cfg) in Hh, Hj. unfold h. rewrite Hh.
  destruct (values_in_order h0 rs) as (_ & Hnd & _ & Hin). split.
  - intros j Hj'. assert (j_task j ∈ rs) as Hr.
    { apply Hin. rewrite <-Hj. by apply list_elem_of_fmap_2. }
    apply elem_of_refs_where in Hr as [_ (a & Ha & Hk)]. rewrite Nat.sub_0_r in Ha.
    exists a. split; [done|]. by apply negb_true_iff in Hk.
  - rewrite (list_fmap_compose j_task (ident_of h0)), Hj. exact Hnd.
Qed.

(** The queue of a started agent is separate from freshly built tasks. *)
Lemma boot_separate at_ cfg ts' :
  let base := length (ag_tasks (startup compiles at_ cfg)) in
  let h' := alloc base ts' (d_heap (boot at_ cfg)) in
  separate h' (put_all (ident_of h') (seq base (length ts')) ∅) (d_jobs (boot at_ cfg)).
Proof.
  intros base h'. destruct (boot_facts at_ cfg) as [Hk Hnd].
  assert (forall j, j ∈ d_jobs (boot at_ cfg) -> (j_task j < base)%nat) as Hlt.
  { intros j Hj. destruct (Hk j Hj) as (a & Ha & _). by apply lookup_lt_Some in Ha. }
  assert ((fun j => ident_of h' (j_task j)) <$> d_jobs (boot at_ cfg) =
    (fun j => ident_of (d_heap (boot at_ cfg)) (j_task j)) <$> d_jobs (boot at_ cfg)) as E.
  { apply list_fmap_ext. intros i j Hj. apply list_elem_of_lookup_2, Hlt in Hj.
    unfold ident_of, conf_of, h', alloc. by rewrite decide_True. }
  split.
  - by rewrite E.
  - rewrite (list_fmap_compose j_task (ident_of (d_heap (boot at_ cfg)))) in Hnd.
    by apply NoDup_fmap_1 in Hnd.
  - intros i r Hr (j & -> & Hj)%list_elem_of_fmap. apply Hlt in Hj.
    apply put_all_key in Hr as [[Hr _]|Hr]; [|by rewrite lookup_empty in Hr].
    apply elem_of_seq in Hr. lia.
Qed.
End placement.

(** At start-up no keyword task is given to the periodic scheduler, but a
    successful reload gives it all of them: afterwards the periodic scheduler
    has exactly one job for every ident of the new configuration's tasks,
    keyword tasks included, while the keyword scheduler still runs those it was
    started with. *)
Theorem reload_schedules_keywords {SO : Sorter not_after} compiles at0 at1 cfg loaded a1 :
  let a0 := startup compiles at0 cfg in
  reload compiles at1 (Ok loaded) a0 = Ok a1 ->
  (forall j, j ∈ d_jobs (ag_sched a0) ->
     exists t, ag_tasks a0 !! j_task j = Some t /\ is_keyword t = false) /\
  ag_keyword a1 = ag_keyword a0 /\
  exists cfg', clean_config loaded = Ok cfg' /\
    let idents := (fun j => ident_of (d_heap (ag_sched a1)) (j_task j)) <$> d_jobs (ag_sched a1) in
    NoDup idents /\
    forall t, t ∈ fst (buildAllTasks compiles cfg') -> Ident (any_param t) ∈ idents.
Proof.
  intros a0 Hr. split; [apply (boot_facts compiles at0 cfg)|].
  unfold reload in Hr. destruct (clean_config loaded) as [cfg'|] eqn:Hc; [|done].
  injection Hr as <-. split; [done|]. exists cfg'. split; [done|]. cbv zeta. cbn [ag_sched].
  set (ts := fst (buildAllTasks compiles cfg')).
  pose proof (boot_separate compiles at0 cfg ts) as Hsep. cbv zeta in Hsep.
  set (base := length (ag_tasks a0)) in *.
  match goal with |- context [Reload at1 _ _ ?d] => set (d0 := d) end.
  pose proof (Reload_idents at1 (global_of cfg') (seq base (length ts)) d0 Hsep) as Hp.
  cbv zeta in Hp. pose proof (NoDup_fst_map_to_list (put_all (ident_of (d_heap d0))
    (seq base (length ts)) ∅)) as Hnd. rewrite <-Hp in Hnd. split; [exact Hnd|].
  pose proof (fun x => proj2 (elem_of_Permutation_proper x _ _ Hp)) as Hin.
  intros t [i Hi]%list_elem_of_lookup. apply Hin.
  {
    assert (ident_of (d_heap d0) (base + i)%nat = Ident (any_param t)) as <-.
    { change (ident_of (alloc base ts (d_heap (ag_sched a0))) (base + i)%nat =
        Ident (any_param t)).
      unfold ident_of, conf_of, alloc. rewrite decide_False by lia.
      replace (base + i - base)%nat with i by lia. fold ts in Hi. by rewrite Hi. }
    assert (is_Some (put_all (ident_of (d_heap d0)) (seq base (length ts)) ∅
      !! ident_of (d_heap d0) (base + i)%nat)) as [r Hr].
    { apply put_all_is_Some. left. apply list_elem_of_fmap_2, elem_of_seq.
      apply lookup_lt_Some in Hi. fold ts in Hi. lia. }
    apply list_elem_of_fmap. eexists (_, r). split; [|by apply elem_of_map_to_list]. done. }
Qed.

(** ** A configuration with one keyword task and one TCP probe *)
Definition demo_base (id : Z) : BaseTaskParam :=
  {| TaskID := id; Ident := EmptyString; Period := 0; Timeout := 0; Enabled := false;
     Labels := [] |}.
Definition demo_config : Config :=
  {| CheckInterval := 0; EventBufferSize := 0; AdminAddr := EmptyString;
     ConfigPath := "agent.yaml"; Registry := {| reg_URL := EmptyString; reg_Interval := 0; reg_Timeout := 0 |};
     Outputs := [];
     Basereports := []; Pings := [];
     TCPs := [{| tcp_base := demo_base 7; tcp_Address := "db:5432" |}];
     UDPs := []; HTTPs := [];
     Keywords := [{| keyword_base := demo_base 0; File := "/var/log/app.log"; Pattern := "ERROR";
                     Encoding := EmptyString; BufferSize := 0; FromBegin := None;
                     OffsetRegistry := EmptyString |}];
     Scripts := []; Exceptionbeats := []; Processbeats := []; SocketSnapshots := [];
     SelfStats := []; GatherUpBeats := []; Dmesgs := []; Metricbeats := [] |}.
Definition demo_clean : Config :=
  match clean_config demo_config with Ok c => c | Err _ => demo_config end.

Lemma reload_schedules_keywords_witness : exists a1,
  reload (fun _ => true) (fun _ => 0) (Ok demo_config)
    (startup (fun _ => true) (fun _ => 0) demo_clean) = Ok a1 /\
  "keyword:1"%string ∈ (fun j => ident_of (d_heap (ag_sched a1)) (j_task j)) <$> d_jobs (ag_sched a1).
Proof.
  eexists. assert (reload (fun _ => true) (fun _ => 0) (Ok demo_config)
    (startup (fun _ => true) (fun _ => 0) demo_clean) = Ok _) as Hr by reflexivity.
  split; [exact Hr|].
  destruct (reload_schedules_keywords _ _ _ _ _ _ Hr) as (_ & _ & cfg' & Hc & _ & Hin).
  vm_compute in Hc. injection Hc as <-.
  apply (Hin (A_Keyword {| keyword_base := {| TaskID := 1; Ident := "keyword:1"; Period := 0;
    Timeout := 0; Enabled := false; Labels := [] |}; File := "/var/log/app.log";
    Pattern := "ERROR"; Encoding := "utf-8"; BufferSize := 65536; FromBegin := Some true;
    OffsetRegistry := EmptyString |})).
  match goal with |- _ ∈ ?l => let l' := eval vm_compute in l in change l with l' end.
  right. left.
Defined.
