(* ===== verification/FileSystem.v ===== *)
(** * Files under system calls that may fail

    The part of package os the outputs use. The file system is a map from
    paths to the lines of a file; every system call takes the next entry of a
    fault list and, when that is an error, fails without effect. *)
From S2P Require Import Prelude GoTime.

Definition Path := string.

Definition newline : string := String (Ascii.ascii_of_nat 10) EmptyString.

(** ** A file system with failing system calls *)
Record FS := {
  files : gmap string (list string);
  fs_faults : list (option error)
}.

Definition line_bytes (l : string) : Z := Z.of_nat (String.length l).
Definition size_of (ls : list string) : Z := foldr (fun l n => line_bytes l + n) 0 ls.

Definition pop (fs : FS) : FS := {| files := files fs; fs_faults := tail (fs_faults fs) |}.
Definition set_files (m : gmap string (list string)) (fs : FS) : FS :=
  {| files := m; fs_faults := fs_faults fs |}.

(** One system call: [Err] when the next fault says so. *)
Definition syscall {A} (act : gmap string (list string) -> result (gmap string (list string) * A))
    (fs : FS) : result A * FS :=
  match mjoin (head (fs_faults fs)) with
  | Some e => (Err e, pop fs)
  | None =>
      match act (files fs) with
      | Err e => (Err e, pop fs)
      | Ok (m, a) => (Ok a, set_files m (pop fs))
      end
  end.

Definition ErrNotExist : error := "no such file or directory".

(** [os.OpenFile(p, O_CREATE|O_WRONLY|O_APPEND)] *)
Definition fs_open (p : Path) : FS -> result unit * FS :=
  syscall (fun m => Ok (match m !! p with Some _ => m | None => <[p := []]> m end, tt)).
(** [f.Stat] on an open file: its size. *)
Definition fs_size (p : Path) : FS -> result Z * FS :=
  syscall (fun m => Ok (m, size_of (default [] (m !! p)))).
(** [os.Stat] *)
Definition fs_stat (p : Path) : FS -> result unit * FS :=
  syscall (fun m => match m !! p with Some _ => Ok (m, tt) | None => Err ErrNotExist end).
Definition fs_rename (src dst : Path) : FS -> result unit * FS :=
  syscall (fun m => match m !! src with
                    | Some ls => Ok (<[dst := ls]> (delete src m), tt)
                    | None => Err ErrNotExist
                    end).
(** [f.Write] of one line to an open file. *)
Definition fs_append (p : Path) (l : string) : FS -> result Z * FS :=
  syscall (fun m => Ok (<[p := default [] (m !! p) ++ [l]]> m, line_bytes l)).
Definition fs_close : FS -> result unit * FS := syscall (fun m => Ok (m, tt)).
Definition fs_mkdir : FS -> result unit * FS := syscall (fun m => Ok (m, tt)).

(** [*os.File]: nil, an open file on [path], or one that has been closed. *)
Inductive Handle := NoFile | OpenFile | ClosedFile.

(** ** Facts *)
Lemma size_of_snoc ls l : size_of (ls ++ [l]) = size_of ls + line_bytes l.
Proof. induction ls as [|x ls IH]; simpl; [lia|]. unfold size_of in *. simpl. lia. Qed.

Lemma line_bytes_nonneg l : 0 <= line_bytes l.
Proof. unfold line_bytes. lia. Qed.
