(* ===== verification/FileOutput.v ===== *)
(** * The rotating file output (internal/output/file.go)

    Events are appended as lines to one file, which is renamed to [.1] and
    started anew when it has reached its size. Encoding an event as JSON is the
    argument [encode]. *)
From S2P Require Import Prelude GoTime FileSystem Configs.

(** ** The output *)
Definition defaultMaxSizeMB : Z := 100.

Record File := {
  fo_path : Path;
  fo_maxBytes : Z;
  fo_f : Handle;
  fo_written : Z
}.

Definition NewFile (path : Path) : File :=
  {| fo_path := path; fo_maxBytes := defaultMaxSizeMB * 1024 * 1024; fo_f := NoFile;
     fo_written := 0 |}.

Definition with_handle (h : Handle) (n : Z) (f : File) : File :=
  {| fo_path := fo_path f; fo_maxBytes := fo_maxBytes f; fo_f := h; fo_written := n |}.
Definition with_f (h : Handle) (f : File) : File :=
  with_handle h (fo_written f) f.

(** State and error of a method. *)
Definition Method := File -> FS -> result unit * File * FS.

Definition open : Method := fun f fs =>
  let '(r, fs) := fs_open (fo_path f) fs in
  match r with
  | Err e => (Err ("file output open " +:+ fo_path f +:+ ": " +:+ e), f, fs)
  | Ok _ =>
      let '(s, fs) := fs_size (fo_path f) fs in
      match s with
      | Err e => let '(_, fs) := fs_close fs in (Err ("file output stat: " +:+ e), f, fs)
      | Ok n => (Ok tt, with_handle OpenFile n f, fs)
      end
  end.

(** [cfg["path"]] and [cfg["max_size_mb"]]; a nil map has no entries. *)
Definition configure (cfg : gmap string Value) (f : File) : File :=
  {| fo_path := match cfg !! "path"%string with
                | Some (V_string p) => if decide (p = EmptyString) then fo_path f else p
                | _ => fo_path f
                end;
     fo_maxBytes := match cfg !! "max_size_mb"%string with
                    | Some (V_int n) => if 0 <? n then wrap64 (n * 1024 * 1024) else fo_maxBytes f
                    | Some (V_float true n) => wrap64 (n * 1024 * 1024)
                    | _ => fo_maxBytes f
                    end;
     fo_f := fo_f f; fo_written := fo_written f |}.

Definition Init (cfg : gmap string Value) : Method := fun f fs =>
  let f := configure cfg f in
  if decide (fo_path f = EmptyString) then (Err "file output: empty path", f, fs)
  else
    let '(r, fs) := fs_mkdir fs in
    match r with
    | Err e => (Err ("file output mkdir: " +:+ e), f, fs)
    | Ok _ => open f fs
    end.

Definition backup_path (f : File) : Path := fo_path f +:+ ".1".

(** A failed close or rename is only logged; the closed file stays in [f.f]
    when the new one cannot be opened. *)
Definition rotate : Method := fun f fs =>
  let '(f, fs) :=
    match fo_f f with
    | NoFile => (f, fs)
    | OpenFile => let '(_, fs) := fs_close fs in (with_f ClosedFile f, fs)
    | ClosedFile => (f, fs)
    end in
  let '(_, fs) := fs_rename (fo_path f) (backup_path f) fs in
  open f fs.

Section publish.
Context {Event : Type} (encode : Event -> result string).

Definition write_line (l : string) : Method := fun f fs =>
  match fo_f f with
  | OpenFile =>
      let '(r, fs) := fs_append (fo_path f) l fs in
      match r with
      | Err e => (Err ("file output write: " +:+ e), f, fs)
      | Ok n =>
          let f := with_handle OpenFile (fo_written f + n) f in
          if fo_maxBytes f <=? fo_written f
          then let '(_, f, fs) := rotate f fs in (Ok tt, f, fs)
          else (Ok tt, f, fs)
      end
  | _ => (Err "file output write: file already closed", f, fs)
  end.

Definition Publish (ev : Event) : Method := fun f fs =>
  match encode ev with
  | Err e => (Err ("file output marshal: " +:+ e), f, fs)
  | Ok b =>
      let l := b +:+ newline in
      match fo_f f with
      | NoFile =>
          let '(r, f, fs) := open f fs in
          match r with Err e => (Err e, f, fs) | Ok _ => write_line l f fs end
      | _ => write_line l f fs
      end
  end.

Definition Close : Method := fun f fs =>
  match fo_f f with
  | NoFile => (Ok tt, f, fs)
  | OpenFile =>
      let '(r, fs) := fs_close fs in (r, with_f NoFile f, fs)
  | ClosedFile => (Err "file already closed", with_f NoFile f, fs)
  end.

(** Publishing events one after the other; errors are the caller's to log. *)
Fixpoint publish_all (evs : list Event) (f : File) (fs : FS) : File * FS :=
  match evs with
  | [] => (f, fs)
  | ev :: evs' => let '(_, f, fs) := Publish ev f fs in publish_all evs' f fs
  end.
End publish.

(** ** Without failures *)
Section healthy.
Context {Event : Type} (encode : Event -> result string).

Definition current (f : File) (fs : FS) : list string := default [] (files fs !! fo_path f).
Definition backup (f : File) (fs : FS) : list string := default [] (files fs !! backup_path f).

(** What the two files hold, oldest first. *)
Definition retained (f : File) (fs : FS) : list string := backup f fs ++ current f fs.

Record healthy (f : File) (fs : FS) : Prop := {
  hl_faults : fs_faults fs = [];
  hl_open : fo_f f = OpenFile;
  hl_written : fo_written f = size_of (current f fs)
}.

Lemma backup_path_ne f : fo_path f <> backup_path f.
Proof.
  unfold backup_path. intros E%(f_equal String.length). revert E.
  induction (fo_path f) as [|c p IH]; simpl; [done|]. intros E. apply IH. by injection E.
Qed.

(** One line: appended, and the file moved to the backup when it has reached
    the limit. *)
Lemma write_line_healthy l f fs :
  healthy f fs -> 0 < fo_maxBytes f ->
  let '(r, f', fs') := write_line l f fs in
  r = Ok tt /\ healthy f' fs' /\ fo_path f' = fo_path f /\ fo_maxBytes f' = fo_maxBytes f /\
  (forall p, p <> fo_path f -> p <> backup_path f -> files fs' !! p = files fs !! p) /\
  if fo_maxBytes f <=? size_of (current f fs ++ [l])
  then backup f' fs' = current f fs ++ [l] /\ current f' fs' = []
  else backup f' fs' = backup f fs /\ current f' fs' = current f fs ++ [l].
Proof.
  intros [Hf Ho Hw] Hmax. pose proof (backup_path_ne f) as Hne.
  destruct f as [p mx h n], fs as [m fl]. simpl in *. subst h fl.
  unfold current, backup in *. simpl in *. rewrite size_of_snoc, <-Hw.
  unfold write_line. simpl. destruct (mx <=? n + line_bytes l) eqn:E.
  - unfold rotate, open, fs_close, fs_rename, fs_open, fs_size, syscall, backup_path in *. simpl in *.
    rewrite lookup_insert_eq. simpl. rewrite lookup_insert_ne, lookup_delete_eq by congruence. simpl.
    rewrite lookup_insert_eq. simpl. split_and!; try done.
    + split; simpl; [done|done|]. unfold current. simpl. by rewrite lookup_insert_eq.
    + intros q Hq Hq'. rewrite !lookup_insert_ne, lookup_delete_ne, lookup_insert_ne; congruence.
    + rewrite lookup_insert_ne, lookup_insert_eq by congruence. done.
  - split_and!; try done.
    + split; simpl; [done|done|]. unfold current. simpl. rewrite lookup_insert_eq. simpl.
      by rewrite size_of_snoc, <-Hw.
    + intros q Hq _. simpl. by rewrite lookup_insert_ne.
    + unfold backup_path in *. simpl. by rewrite lookup_insert_ne.
    + simpl. by rewrite lookup_insert_eq.
Qed.

(** The lines of events that can be encoded. *)
Definition lines_of (evs : list Event) : list string :=
  omap (fun ev => match encode ev with Ok b => Some (b +:+ newline) | Err _ => None end) evs.

(** The promise of the output on one stretch of its life: [gone] are the lines
    given up by rotation, and they are given up only for a full backup. *)
Definition keeps (new : list string) (f : File) (fs : FS) (f' : File) (fs' : FS) : Prop :=
  healthy f' fs' /\ fo_path f' = fo_path f /\ fo_maxBytes f' = fo_maxBytes f /\
  (forall p, p <> fo_path f -> p <> backup_path f -> files fs' !! p = files fs !! p) /\
  (size_of (current f fs) < fo_maxBytes f -> size_of (current f' fs') < fo_maxBytes f) /\
  exists gone, gone ++ retained f' fs' = retained f fs ++ new /\
    (gone = [] /\ backup f' fs' = backup f fs \/ fo_maxBytes f <= size_of (backup f' fs')).

Lemma keeps_nil f fs : healthy f fs -> keeps [] f fs f fs.
Proof.
  intros H. split_and!; try done. exists []. split; [by rewrite app_nil_r|by left].
Qed.

Lemma keeps_trans a b f1 fs1 f2 fs2 f3 fs3 :
  keeps a f1 fs1 f2 fs2 -> keeps b f2 fs2 f3 fs3 -> keeps (a ++ b) f1 fs1 f3 fs3.
Proof.
  intros (_ & Hp & Hm & Hfr & Hsz & g & Hg & Hfull)
    (H' & Hp' & Hm' & Hfr' & Hsz' & g' & Hg' & Hfull').
  assert (Hb : backup_path f2 = backup_path f1) by (unfold backup_path; congruence).
  split_and!; [done|congruence|congruence| | |].
  - intros p Hq Hq'. rewrite Hfr', Hfr; congruence.
  - rewrite Hm in Hsz'. auto.
  - exists (g ++ g'). split.
    + by rewrite <-app_assoc, Hg', app_assoc, Hg, <-app_assoc.
    + rewrite Hm in Hfull'. destruct Hfull' as [[-> ->]|]; [|by right].
      destruct Hfull as [[-> ->]|]; [by left|by right].
Qed.

Lemma publish_keeps ev f fs :
  healthy f fs -> 0 < fo_maxBytes f ->
  keeps (lines_of [ev]) f fs (snd (fst (Publish encode ev f fs)))
    (snd (Publish encode ev f fs)).
Proof.
  intros H Hmax. unfold lines_of, Publish. simpl.
  destruct (encode ev) as [b|e]; simpl; [|by apply keeps_nil].
  rewrite (hl_open _ _ H). pose proof (write_line_healthy (b +:+ newline) f fs H Hmax) as W.
  destruct (write_line _ f fs) as [[r f'] fs']. simpl.
  destruct W as (_ & H' & Hp & Hm & Hfr & W). unfold keeps, retained.
  split_and!; try done.
  - case_match eqn:E; destruct W as [_ ->]; simpl; [|apply Z.leb_gt in E]; lia.
  - case_match eqn:E; destruct W as [-> ->].
    + exists (backup f fs). split; [by rewrite app_nil_r, <-app_assoc|].
      right. by apply Z.leb_le.
    + exists []. split; [by rewrite <-app_assoc|by left].
Qed.

(** C29: As long as the file is open and the system calls succeed, publishing
    events appends one line per encodable event, in order: the backup and the
    current file together hold a suffix of everything written, the current file
    stays under [max_size_mb] - a backup is at least that large, the line that
    reached the limit being in it -, lines are given up only when the backup that
    replaces them is full, and no other file is touched. *)
Theorem publish_all_keeps evs f fs :
  healthy f fs -> 0 < fo_maxBytes f ->
  keeps (lines_of evs) f fs (fst (publish_all encode evs f fs)) (snd (publish_all encode evs f fs)).
Proof.
  intros H Hmax. revert f fs H Hmax.
  induction evs as [|ev evs IH]; intros f fs H Hmax; [by apply keeps_nil|].
  pose proof (publish_keeps ev f fs H Hmax) as K.
  replace (lines_of (ev :: evs)) with (lines_of [ev] ++ lines_of evs)
    by (unfold lines_of; simpl; by destruct (encode ev)).
  cbn [publish_all]. destruct (Publish encode ev f fs) as [[r f1] fs1]. cbn [fst snd] in K.
  eapply keeps_trans; [exact K|]. destruct K as (H1 & _ & Hm & _).
  apply IH; [done|]. by rewrite Hm.
Qed.
End healthy.

(** ** With failures *)
Section failing.
Context {Event : Type} (encode : Event -> result string).

Lemma Publish_closed ev f fs :
  fo_f f = ClosedFile ->
  exists e, Publish encode ev f fs = (Err e, f, fs).
Proof.
  intros H. unfold Publish, write_line. rewrite H. destruct (encode ev); eauto.
Qed.

(** C35: When the event that fills the file is written but the new file cannot
    be opened, [Publish] still answers nil, and from then on no event is
    written any more: the closed handle stays in [f.f], so every later
    [Publish] fails without a system call, even when opening would succeed. *)
Theorem failed_reopen_is_permanent ev b f fs e c rn rest :
  fo_f f = OpenFile -> encode ev = Ok b ->
  fo_maxBytes f <= fo_written f + line_bytes (b +:+ newline) ->
  fs_faults fs = None :: c :: rn :: Some e :: rest ->
  let '(r, f', fs') := Publish encode ev f fs in
  r = Ok tt /\
  (forall ev', is_ok (fst (fst (Publish encode ev' f' fs'))) = false) /\
  forall evs, publish_all encode evs f' fs' = (f', fs').
Proof.
  intros Ho Hb Hfull Hfl. unfold Publish at 1. rewrite Hb, Ho. unfold write_line. rewrite Ho.
  destruct f as [p mx h n], fs as [m fl]. simpl in *. subst h fl.
  unfold fs_append, syscall. simpl. rewrite (proj2 (Z.leb_le _ _) Hfull).
  destruct (rotate _ _) as [[r f'] fs'] eqn:E.
  assert (fo_f f' = ClosedFile) as Hc.
  { revert E. unfold rotate, open, fs_open, fs_rename, fs_close, syscall.
    destruct c, rn; simpl; repeat case_match; intros; by simplify_eq/=. }
  split_and!; [done| |].
  - intros ev'. by destruct (Publish_closed ev' f' fs' Hc) as [e' ->].
  - induction evs as [|ev' evs IH]; [done|]. simpl.
    by destruct (Publish_closed ev' f' fs' Hc) as [e' ->].
Qed.
End failing.

(** ** Concrete runs *)
Definition demo_encode (s : string) : result string := Ok s.
Definition demo_file : File :=
  {| fo_path := "/var/log/m.log"; fo_maxBytes := 4; fo_f := OpenFile; fo_written := 0 |}.
Definition demo_fs (fl : list (option error)) : FS :=
  {| files := {["/var/log/m.log" := []]}; fs_faults := fl |}.

Lemma publish_all_keeps_witness :
  keeps ["ab" +:+ newline; "cd" +:+ newline; "e" +:+ newline] demo_file (demo_fs [])
    (fst (publish_all demo_encode ["ab"; "cd"; "e"] demo_file (demo_fs [])))
    (snd (publish_all demo_encode ["ab"; "cd"; "e"] demo_file (demo_fs []))).
Proof.
  apply (publish_all_keeps demo_encode ["ab"; "cd"; "e"] demo_file (demo_fs [])); [|done].
  split; vm_compute; reflexivity.
Defined.

Lemma failed_reopen_is_permanent_witness :
  let '(r, f', fs') :=
    Publish demo_encode "abc" demo_file (demo_fs [None; None; None; Some "EMFILE"]) in
  r = Ok tt /\
  (forall ev', is_ok (fst (fst (Publish demo_encode ev' f' fs'))) = false) /\
  forall evs, publish_all demo_encode evs f' fs' = (f', fs').
Proof.
  apply (failed_reopen_is_permanent demo_encode "abc" "abc" demo_file _ "EMFILE" None None []);
    vm_compute; (reflexivity || congruence).
Defined.
