(* ===== verification/HttpOutput.v ===== *)
(** * The HTTP output (internal/output/http.go, HTTPOutputConfig of configs/config.go)

    An event is formatted, posted with retries, and kept in a local fallback
    file when no attempt succeeds. The network is a record that tells what the
    [n]-th request is answered and whether the [n]-th pause is cut short by the
    context, and logs what was sent. Of the standard library, rendering a
    number and encoding arbitrary values as JSON are arguments. *)
From Stdlib Require Import Ascii String.
From stdpp Require Import pretty.
From S2P Require Import Prelude GoTime LabelsJson FileSystem Configs.

(** ** Configuration *)
Record HTTPAuthConfig := {
  au_Type : string;
  Token : string;
  User : string;
  Passwd : string
}.

Record HTTPOutputConfig := {
  ho_URL : string;
  ho_Method : string;
  ho_Format : string;
  ho_Timeout : Duration;
  RetryMax : Z;
  ho_Headers : gmap string string;
  Auth : HTTPAuthConfig;
  InsecureSkipVerify : bool;
  FallbackPath : Path;
  FallbackMaxSize : Z;
  FallbackMaxBackups : Z
}.

Definition clean_output (c : HTTPOutputConfig) : result HTTPOutputConfig :=
  if decide (ho_URL c = EmptyString) then Err "http output: url is required" else
  Ok {| ho_URL := ho_URL c;
        ho_Method := text_or (if decide (ho_Format c = "doris"%string) then "PUT" else "POST")
                       (ho_Method c);
        ho_Format := text_or "json" (ho_Format c);
        ho_Timeout := or_default (5 * Second) (ho_Timeout c);
        RetryMax := at_least_or 0 0 (RetryMax c);
        ho_Headers := ho_Headers c;
        Auth := Auth c;
        InsecureSkipVerify := InsecureSkipVerify c;
        FallbackPath := FallbackPath c;
        FallbackMaxSize := or_default 50 (FallbackMaxSize c);
        FallbackMaxBackups := at_least_or 0 0 (FallbackMaxBackups c) |}.

(** ** Requests *)

(** [textproto.CanonicalMIMEHeaderKey]: letters upper case at the start and
    after a hyphen, lower case elsewhere; a key with a byte that is not allowed
    is left alone. *)
Definition between (a b : Z) (c : ascii) : bool := (a <=? byte c) && (byte c <=? b).
Definition is_upper : ascii -> bool := between 65 90.
Definition is_lower : ascii -> bool := between 97 122.
Definition header_byte (c : ascii) : bool :=
  is_upper c || is_lower c || between 48 57 c ||
  bool_decide (c ∈ list_ascii_of_string "!#$%&'*+-.^_`|~").

Fixpoint canonical (upper : bool) (s : list ascii) : list ascii :=
  match s with
  | [] => []
  | c :: s' =>
      (if upper && is_lower c then chr (byte c - 32)
       else if negb upper && is_upper c then chr (byte c + 32) else c)
      :: canonical (byte c =? 45) s'
  end.

Definition CanonicalHeaderKey (k : string) : string :=
  let s := list_ascii_of_string k in
  if forallb header_byte s then string_of_list_ascii (canonical true s) else k.

(** [base64.StdEncoding] *)
Definition base64_digit (n : Z) : ascii :=
  chr (if n <? 26 then 65 + n else if n <? 52 then 71 + n else if n <? 62 then n - 4
       else if n =? 62 then 43 else 47).

Fixpoint base64 (s : list ascii) : list ascii :=
  match s with
  | [] => []
  | [a] => [base64_digit (byte a / 4); base64_digit (byte a mod 4 * 16); "="%char; "="%char]
  | [a; b] =>
      [base64_digit (byte a / 4); base64_digit (byte a mod 4 * 16 + byte b / 16);
       base64_digit (byte b mod 16 * 4); "="%char]
  | a :: b :: c :: s' =>
      base64_digit (byte a / 4) :: base64_digit (byte a mod 4 * 16 + byte b / 16)
      :: base64_digit (byte b mod 16 * 4 + byte c / 64) :: base64_digit (byte c mod 64)
      :: base64 s'
  end.

Record Request := {
  rq_method : string;
  rq_url : string;
  rq_header : gmap string string;
  rq_body : string
}.

Definition set_header (k v : string) (h : gmap string string) : gmap string string :=
  <[CanonicalHeaderKey k := v]> h.

Definition applyHTTPAuth (a : HTTPAuthConfig) (h : gmap string string) : gmap string string :=
  if decide (au_Type a = "bearer"%string) then
    if decide (Token a = EmptyString) then h
    else set_header "Authorization" ("Bearer " +:+ Token a) h
  else if decide (au_Type a = "basic"%string) then
    if decide (User a = EmptyString) then h
    else set_header "Authorization"
           ("Basic " +:+ string_of_list_ascii
                           (base64 (list_ascii_of_string (User a +:+ ":" +:+ Passwd a)))) h
  else h.

(** ** The network *)
Record Net := {
  n_answer : nat -> result Z;      (* an error of the client, or a status code *)
  n_done : nat -> bool;
  n_sent : list Request;
  n_slept : list Duration
}.

Definition send (r : Request) (w : Net) : result Z * Net :=
  (n_answer w (length (n_sent w)),
   {| n_answer := n_answer w; n_done := n_done w; n_sent := n_sent w ++ [r];
      n_slept := n_slept w |}).

(** The [select] between the timer and the context: true when the pause runs
    to its end. *)
Definition sleep (d : Duration) (w : Net) : bool * Net :=
  (negb (n_done w (length (n_slept w))),
   {| n_answer := n_answer w; n_done := n_done w; n_sent := n_sent w;
      n_slept := n_slept w ++ [d] |}).

Definition ok_status (a : result Z) : bool :=
  match a with Ok code => (200 <=? code) && (code <? 300) | Err _ => false end.

(** [time.Duration(100*(1<<(attempt-1))) * time.Millisecond] on 64-bit
    integers; a shift by 64 or more gives zero. *)
Definition backoff (attempt : Z) : Duration :=
  wrap64 (wrap64 (100 * wrap64 (Z.shiftl 1 (attempt - 1))) * Millisecond).

Section send.
Context {R : MapRange}.

(** The headers are set one by one while ranging over the map. *)
Definition request_of (cfg : HTTPOutputConfig) (body contentType : string) : Request :=
  let h := if decide (contentType = EmptyString) then ∅
           else set_header "Content-Type" contentType ∅ in
  let h := foldl (fun h kv => set_header kv.1 kv.2 h) h (range (ho_Headers cfg)) in
  {| rq_method := text_or "POST" (ho_Method cfg); rq_url := ho_URL cfg;
     rq_header := applyHTTPAuth (Auth cfg) h; rq_body := body |}.

(** The loop from [attempt] on, [n] attempts left. [valid] is whether
    [http.NewRequest] accepts method and address. *)
Fixpoint attempts (valid : bool) (r : Request) (n : nat) (attempt : Z) (w : Net) : bool * Net :=
  match n with
  | O => (false, w)
  | S n' =>
      let '(go, w) := if 0 <? attempt then sleep (backoff attempt) w else (true, w) in
      if negb go then (false, w)
      else if negb valid then attempts valid r n' (attempt + 1) w
      else
        let '(a, w) := send r w in
        if ok_status a then (true, w) else attempts valid r n' (attempt + 1) w
  end.

Definition trySend (valid : string -> string -> bool) (cfg : HTTPOutputConfig)
    (body contentType : string) (w : Net) : bool * Net :=
  let r := request_of cfg body contentType in
  attempts (valid (rq_method r) (rq_url r)) r (Z.to_nat (RetryMax cfg + 1)) 0 w.
End send.

(** ** Retrying *)
Section retry.
Context (r : Request).

(** What [k] further attempts from attempt [a] on have done to the network:
    [k] requests, all but possibly the last unanswered or refused, with the
    pauses before them. *)
Record tried (a : Z) (k : nat) (last : bool) (w w' : Net) : Prop := {
  tr_sent : n_sent w' = n_sent w ++ replicate k r;
  tr_slept : n_slept w' = n_slept w ++ (backoff <$> seqZ a (Z.of_nat k));
  tr_answer : n_answer w' = n_answer w /\ n_done w' = n_done w;
  tr_fail : forall i, (i < k)%nat -> ok_status (n_answer w (length (n_sent w) + i)) =
              if decide (S i = k) then last else false
}.

(** The pause after those attempts was cut short. *)
Definition cut_off (a : Z) (k : nat) (w w' : Net) : Prop :=
  exists w1, tried a k false w w1 /\ w' = snd (sleep (backoff (a + Z.of_nat k)) w1) /\
    fst (sleep (backoff (a + Z.of_nat k)) w1) = false.

Definition one_more (a : Z) (w : Net) : Net := snd (send r (snd (sleep (backoff a) w))).

Lemma tried_cons a k b w w' :
  ok_status (n_answer w (length (n_sent w))) = false ->
  tried (a + 1) k b (one_more a w) w' -> (k = O -> b = false) -> tried a (S k) b w w'.
Proof.
  intros Hf [Hs Hl [Ha Hd] Hx] Hk. unfold one_more in *. simpl in *. split; [| |done|].
  - by rewrite Hs, <-app_assoc.
  - rewrite Hl, <-app_assoc. f_equal. rewrite (seqZ_cons a) by lia. simpl.
    repeat f_equal; lia.
  - intros [|i] Hi.
    + rewrite Nat.add_0_r, Hf. destruct (decide _); [|done]. symmetry. apply Hk. lia.
    + specialize (Hx i ltac:(lia)). rewrite length_app in Hx. simpl in Hx.
      replace (length (n_sent w) + S i)%nat with (length (n_sent w) + 1 + i)%nat by lia.
      rewrite Hx. by do 2 destruct (decide _); try lia.
Qed.

Lemma tried_nil a w : tried a 0 false w w.
Proof. split; simpl; [by rewrite app_nil_r|by rewrite app_nil_r|done|lia]. Qed.

Lemma tried_success a w :
  ok_status (n_answer w (length (n_sent w))) = true -> tried a 1 true w (one_more a w).
Proof.
  intros Ho. split; simpl; [done| |done|].
  - f_equal.
  - intros i Hi. assert (i = 0)%nat as -> by lia. by rewrite Nat.add_0_r, Ho.
Qed.

(** The attempts after the first: as many as needed, as allowed, or up to a
    pause that was cut short. *)
Lemma attempts_retry n a w :
  0 < a ->
  let '(ok, w') := attempts true r n a w in
  exists k, (k <= n)%nat /\
    if ok then (0 < k)%nat /\ tried a k true w w'
    else (k = n /\ tried a k false w w') \/ ((k < n)%nat /\ cut_off a k w w').
Proof.
  revert a w. induction n as [|n IH]; intros a w Ha; simpl.
  { exists O. split; [lia|]. left. split; [done|]. apply tried_nil. }
  rewrite (proj2 (Z.ltb_lt _ _) Ha). simpl.
  destruct (n_done w (length (n_slept w))) eqn:Hd; simpl.
  { exists O. split; [lia|]. right. split; [lia|]. exists w. split; [apply tried_nil|].
    simpl. rewrite Z.add_0_r, Hd. done. }
  destruct (ok_status (n_answer w (length (n_sent w)))) eqn:Ho.
  { exists 1%nat. split; [lia|]. split; [lia|]. by apply tried_success. }
  specialize (IH (a + 1) (one_more a w) ltac:(lia)). unfold one_more, send, sleep in IH. simpl in IH.
  destruct (attempts true r n (a + 1) _) as [ok w'].
  destruct IH as (k & Hk & IH). exists (S k). split; [lia|]. destruct ok.
  - destruct IH as [Hk0 T]. split; [lia|]. apply tried_cons; [done|done|lia].
  - destruct IH as [[-> T]|(Hkn & w1 & T & Hw & Hc)].
    + left. split; [done|]. by apply tried_cons.
    + right. split; [lia|]. exists w1. split; [by apply tried_cons|].
      replace (a + Z.of_nat (S k)) with (a + 1 + Z.of_nat k) by lia. done.
Qed.
End retry.

Lemma backoff_doubles a : 0 < a <= 37 -> backoff a = 100 * 2 ^ (a - 1) * Millisecond.
Proof.
  intros Ha. unfold backoff. rewrite Z.shiftl_1_l.
  assert (0 < 2 ^ (a - 1) <= 2 ^ 36) as Hp.
  { split; [apply Z.pow_pos_nonneg; lia|apply Z.pow_le_mono_r; lia]. }
  change (2 ^ 36) with 68719476736 in Hp.
  assert (forall z, 0 <= z <= 9 * 10 ^ 18 -> wrap64 z = z) as Hid.
  { intros z Hz. apply wrap64_id. unfold fits64, minInt64, maxInt64.
    change (2 ^ 63) with 9223372036854775808. lia. }
  rewrite (Hid (2 ^ (a - 1))), (Hid (100 * _)), Hid; durations; lia.
Qed.

(** After 37 retries the doubling leaves the 64-bit integers. *)
Lemma backoff_overflow : backoff 38 < 0.
Proof. reflexivity. Qed.

Section send_theorem.
Context {R : MapRange}.

(** C28: [trySend] posts the same request at most [RetryMax] + 1 times: again
    only after a refusal, pausing 100 ms, 200 ms, 400 ms and so on in between,
    and it reports success exactly when the last request was answered with a
    2xx status; it gives up early only if the context ends during a pause. The
    pauses are the documented ones as long as [RetryMax] is at most 37. *)
Theorem trySend_retries valid cfg body ct w :
  let r := request_of cfg body ct in
  valid (rq_method r) (rq_url r) = true -> 0 <= RetryMax cfg <= 37 ->
  let '(ok, w') := trySend valid cfg body ct w in
  exists k p, Z.of_nat k <= RetryMax cfg /\
    n_sent w' = n_sent w ++ replicate (S k) r /\
    n_slept w' = n_slept w ++ ((fun i => 100 * 2 ^ i * Millisecond) <$> seqZ 0 (Z.of_nat p)) /\
    (forall i, (i <= k)%nat -> ok_status (n_answer w (length (n_sent w) + i)) =
       if decide (i = k) then ok else false) /\
    if ok then p = k
    else (p = k /\ Z.of_nat k = RetryMax cfg) \/
         (p = S k /\ Z.of_nat k < RetryMax cfg /\ n_done w (length (n_slept w) + k) = true).
Proof.
  intros r Hv HN. unfold trySend. fold r. rewrite Hv.
  replace (Z.to_nat (RetryMax cfg + 1)) with (S (Z.to_nat (RetryMax cfg))) by lia. simpl.
  destruct (ok_status (n_answer w (length (n_sent w)))) eqn:Ho.
  { exists O, O. simpl. rewrite app_nil_r. split_and!; [lia|done|done| |done].
    intros i Hi. assert (i = O) as -> by lia. by rewrite Nat.add_0_r. }
  pose proof (attempts_retry r (Z.to_nat (RetryMax cfg)) 1 (snd (send r w)) ltac:(lia)) as H.
  change (0 + 1) with 1. simpl in H.
  destruct (attempts true r _ 1 _) as [ok w']. destruct H as (k & Hk & H).
  assert (Hpause : forall p, Z.of_nat p <= RetryMax cfg -> backoff <$> seqZ 1 (Z.of_nat p) =
      (fun i => 100 * 2 ^ i * Millisecond) <$> seqZ 0 (Z.of_nat p)).
  { intros p Hp. change 1 with (Z.succ 0). rewrite <-(fmap_add_seqZ 1 0), <-list_fmap_compose.
    apply list_fmap_ext. intros i x Hx%lookup_seqZ. simpl. rewrite backoff_doubles by lia.
    by replace (1 + x - 1) with x by lia. }
  assert (Hans : forall b w1, tried r 1 k b (snd (send r w)) w1 -> (k = O -> b = false) ->
    forall i, (i <= k)%nat -> ok_status (n_answer w (length (n_sent w) + i)) =
       if decide (i = k) then b else false).
  { intros b w1 [_ _ _ Hx] Hb i Hi. destruct i as [|i].
    - rewrite Nat.add_0_r, Ho. destruct (decide _) as [<-|]; [|done]. by rewrite Hb.
    - specialize (Hx i ltac:(lia)). simpl in Hx. rewrite length_app in Hx. simpl in Hx.
      by replace (length (n_sent w) + S i)%nat with (length (n_sent w) + 1 + i)%nat by lia. }
  destruct ok.
  - destruct H as [Hk0 T]. exists k, k. split_and!; [lia| | |by eapply Hans; [exact T|lia]|done].
    + rewrite (tr_sent _ _ _ _ _ _ T). simpl. by rewrite <-app_assoc.
    + rewrite (tr_slept _ _ _ _ _ _ T). simpl. by rewrite Hpause by lia.
  - destruct H as [[-> T]|(Hkn & w1 & T & -> & Hc)].
    + exists (Z.to_nat (RetryMax cfg)), (Z.to_nat (RetryMax cfg)).
      split_and!; [lia| | |by eapply Hans|left; lia].
      * rewrite (tr_sent _ _ _ _ _ _ T). simpl. by rewrite <-app_assoc.
      * rewrite (tr_slept _ _ _ _ _ _ T). simpl. by rewrite Hpause by lia.
    + exists k, (S k). split_and!; [lia| | |by eapply Hans|right; split_and!; [done|lia|]].
      * simpl. rewrite (tr_sent _ _ _ _ _ _ T). simpl. by rewrite <-app_assoc.
      * rewrite <-Hpause by lia. simpl. rewrite (tr_slept _ _ _ _ _ _ T). simpl.
        rewrite <-app_assoc. f_equal. by rewrite seqZ_S, fmap_app.
      * simpl in Hc. rewrite (proj2 (tr_answer _ _ _ _ _ _ T)) in Hc. simpl in Hc.
        rewrite (tr_slept _ _ _ _ _ _ T) in Hc. simpl in Hc.
        rewrite length_app, length_fmap, length_seqZ, Nat2Z.id in Hc.
        by apply negb_false_iff in Hc.
Qed.
End send_theorem.

(** ** A concrete run: two refusals, then success *)
Definition demo_cfg : HTTPOutputConfig :=
  {| ho_URL := "http://vm:8428/api/v1/import"; ho_Method := "POST"; ho_Format := "victoriametrics";
     ho_Timeout := 5 * Second; RetryMax := 3; ho_Headers := {["x-tenant" := "7"]};
     Auth := {| au_Type := "basic"; Token := EmptyString; User := "u"; Passwd := "p" |};
     InsecureSkipVerify := false; FallbackPath := "/var/lib/m/fb.jsonl"; FallbackMaxSize := 1;
     FallbackMaxBackups := 2 |}.

Definition demo_net : Net :=
  {| n_answer := fun n => if decide (n < 2)%nat then Ok 503 else Ok 204;
     n_done := fun _ => false; n_sent := []; n_slept := [] |}.

Section demo.
#[local] Existing Instance in_key_order.

Lemma demo_run :
  let '(ok, w) := trySend (fun _ _ => true) demo_cfg "{}" "application/json" demo_net in
  (ok, length (n_sent w), n_slept w,
   (fun r => rq_header r !! "Authorization"%string) <$> head (n_sent w),
   (fun r => rq_header r !! "X-Tenant"%string) <$> head (n_sent w)) =
  (true, 3%nat, [100 * Millisecond; 200 * Millisecond], Some (Some "Basic dTpw"%string),
   Some (Some "7"%string)).
Proof. vm_compute. reflexivity. Qed.

Lemma trySend_retries_witness :
  let '(ok, w') := trySend (fun _ _ => true) demo_cfg "{}" "application/json" demo_net in
  exists k p, Z.of_nat k <= RetryMax demo_cfg /\
    n_sent w' = n_sent demo_net ++
      replicate (S k) (request_of demo_cfg "{}" "application/json") /\
    n_slept w' = n_slept demo_net ++
      ((fun i => 100 * 2 ^ i * Millisecond) <$> seqZ 0 (Z.of_nat p)) /\
    (forall i, (i <= k)%nat ->
       ok_status (n_answer demo_net (length (n_sent demo_net) + i)) =
       if decide (i = k) then ok else false) /\
    if ok then p = k
    else (p = k /\ Z.of_nat k = RetryMax demo_cfg) \/
         (p = S k /\ Z.of_nat k < RetryMax demo_cfg /\
          n_done demo_net (length (n_slept demo_net) + k) = true).
Proof.
  apply (trySend_retries (fun _ _ => true) demo_cfg "{}" "application/json" demo_net);
    [reflexivity|simpl; lia].
Defined.
End demo.
