(* ===== verification/HttpPublish.v ===== *)
(** * Formats, fallback file and Publish of the HTTP output (internal/output/http.go)

    Numbers of an event are of an arbitrary type [F] with a renderer that
    fails on values JSON has no notation for; JSON encoding of arbitrary data
    is an argument. The fallback file holds one entry per write. *)
From stdpp Require Import pretty.
From S2P Require Import Prelude GoTime LabelsJson FileSystem Configs HttpOutput.

(** ** Events

    [GetData] either is a [map[string]any] - of which the output looks at the
    metrics, the dimensions (a missing entry reads as an empty map) and three
    nested values - or something else. *)
Record EventData (F J : Type) := {
  metrics : gmap string F;
  dimensions : gmap string string;
  processes : option J;
  connections : option J;
  exceptions : option J
}.
Arguments metrics {F J}. Arguments dimensions {F J}. Arguments processes {F J}.
Arguments connections {F J}. Arguments exceptions {F J}.

Record Event (F J : Type) := {
  ev_type : string;
  ev_millis : Z;  (* GetTimestamp().UnixMilli() *)
  ev_data : option (EventData F J);  (* None: not a map *)
  ev_raw : J
}.
Arguments ev_type {F J}. Arguments ev_millis {F J}. Arguments ev_data {F J}.
Arguments ev_raw {F J}.

Record vmMetric (F : Type) := {
  vm_metric : gmap string string;
  vm_values : list F;
  vm_timestamps : list Z
}.
Arguments vm_metric {F}. Arguments vm_values {F}. Arguments vm_timestamps {F}.
Arguments Build_vmMetric {F}.

(** A value of the Doris record. *)
Inductive Cell (F J : Type) :=
| C_text (s : string)
| C_int (n : Z)
| C_num (x : F)
| C_raw (j : J).
Arguments C_text {F J}. Arguments C_int {F J}. Arguments C_num {F J}. Arguments C_raw {F J}.

Section formats.
Context {R : MapRange} {F J : Type}.
Context (render : F -> result string) (one : F).
Context (marshal_event : Event F J -> result string).
Context (marshal_record : gmap string (Cell F J) -> result string).

(** [json.Marshal] of a [[]float64] and a [[]int64]. *)
Fixpoint render_list (xs : list F) : result (list string) :=
  match xs with
  | [] => Ok []
  | x :: xs' =>
      match render x with
      | Err e => Err e
      | Ok s => match render_list xs' with Err e => Err e | Ok ss => Ok (s :: ss) end
      end
  end.

Fixpoint commas (ss : list string) : string :=
  match ss with
  | [] => EmptyString
  | [s] => s
  | s :: ss' => s +:+ "," +:+ commas ss'
  end.

Definition json_key (k : string) : string :=
  String.string_of_list_ascii (quote k) +:+ ":".

Definition marshal_metric (m : vmMetric F) : result string :=
  match render_list (vm_values m) with
  | Err e => Err e
  | Ok vs =>
      Ok ("{" +:+ json_key "metric" +:+ encodeLabels (vm_metric m) +:+ "," +:+
          json_key "values" +:+ "[" +:+ commas vs +:+ "]," +:+
          json_key "timestamps" +:+ "[" +:+ commas (pretty <$> vm_timestamps m) +:+ "]}")
  end.

Definition cloneStringMap (m : gmap string string) : gmap string string := delete EmptyString m.

(** One object per metric: in name order with the dimensions, or, without
    dimensions, in the order of the map, with one scratch map whose name is
    overwritten for every metric. *)
Definition vm_with_dims (ts : Z) (ms : gmap string F) (dims : gmap string string)
    : list (vmMetric F) :=
  omap (fun k => match ms !! k with
                 | Some v => Some (Build_vmMetric (<["__name__" := k]> dims) [v] [ts])
                 | None => None
                 end) (sort_strings (range ms).*1).

Fixpoint vm_without_dims (ts : Z) (kvs : list (string * F)) (metric : gmap string string)
    : list (vmMetric F) :=
  match kvs with
  | [] => []
  | (k, v) :: kvs' =>
      let metric := <["__name__" := k]> metric in
      Build_vmMetric (cloneStringMap metric) [v] [ts]
      :: vm_without_dims ts kvs' (<["__name__" := EmptyString]> metric)
  end.

Definition vm_lines (typ : string) (ts : Z) (ms : gmap string F) (dims : gmap string string)
    : list (vmMetric F) :=
  let lines :=
    if decide (0 < size ms /\ 0 < size dims)%nat then vm_with_dims ts ms dims
    else if decide (0 < size ms)%nat then vm_without_dims ts (range ms) dims
    else [] in
  if decide (lines = []) then [Build_vmMetric (<["__name__" := typ]> dims) [one] [ts]] else lines.

Fixpoint write_lines (ls : list (vmMetric F)) : result string :=
  match ls with
  | [] => Ok EmptyString
  | l :: ls' =>
      match marshal_metric l with
      | Err e => Err e
      | Ok b => match write_lines ls' with Err e => Err e | Ok s => Ok (b +:+ newline +:+ s) end
      end
  end.

Definition formatVictoriaMetrics (ev : Event F J) : result (string * string) :=
  match ev_data ev with
  | None => Err "victoriametrics: event data is not map"
  | Some d =>
      match write_lines (vm_lines (ev_type ev) (ev_millis ev) (metrics d) (dimensions d)) with
      | Err e => Err e
      | Ok s => Ok (s, "application/streamed; charset=utf-8")
      end
  end.

Definition put_opt {A} (k : string) (v : option A) (m : gmap string A) : gmap string A :=
  match v with Some a => <[k := a]> m | None => m end.

Definition doris_record (typ : string) (ts : Z) (d : EventData F J) : gmap string (Cell F J) :=
  let m : gmap string (Cell F J) := <["__timestamp" := C_int ts]> {["__type" := C_text typ]} in
  let m := foldl (fun m kv => <[kv.1 := C_text kv.2]> m) m (range (dimensions d)) in
  let m := foldl (fun m kv => <[kv.1 := C_num kv.2]> m) m (range (metrics d)) in
  put_opt "exceptions" (C_raw <$> exceptions d)
    (put_opt "connections" (C_raw <$> connections d)
       (put_opt "processes" (C_raw <$> processes d) m)).

Definition formatDoris (ev : Event F J) : result (string * string) :=
  match ev_data ev with
  | None => Err "doris: event data is not map"
  | Some d =>
      match marshal_record (doris_record (ev_type ev) (ev_millis ev) d) with
      | Err e => Err e
      | Ok b => Ok ("[" +:+ b +:+ "]", "application/json")
      end
  end.

Definition formatJSON (ev : Event F J) : result (string * string) :=
  match marshal_event ev with
  | Err e => Err e
  | Ok b => Ok (b, "application/json; charset=utf-8")
  end.

Definition formatBody (cfg : HTTPOutputConfig) (ev : Event F J) : result (string * string) :=
  if decide (ho_Format cfg = "victoriametrics"%string) then formatVictoriaMetrics ev
  else if decide (ho_Format cfg = "doris"%string) then formatDoris ev
  else formatJSON ev.
End formats.

(** ** The fallback file *)

(** [fbFile] tells whether the file is open (not nil): a handle is set to nil
    as soon as it has been closed. *)
Record HTTPOutput := {
  h_cfg : HTTPOutputConfig;
  fbFile : bool;
  fbSize : Z;
  closed : bool
}.

Definition NewHTTPOutput (cfg : HTTPOutputConfig) : HTTPOutput :=
  {| h_cfg := cfg; fbFile := false; fbSize := 0; closed := false |}.

Definition with_fb (f : bool) (n : Z) (h : HTTPOutput) : HTTPOutput :=
  {| h_cfg := h_cfg h; fbFile := f; fbSize := n; closed := closed h |}.

(** [fmt.Sprintf("%s.%d", path, i)] *)
Definition backup_name (p : Path) (i : Z) : Path := p +:+ "." +:+ pretty i.

(** The loop from [i] down to 1. *)
Fixpoint shift_backups (p : Path) (i : nat) (fs : FS) : result unit * FS :=
  match i with
  | O => (Ok tt, fs)
  | S i' =>
      let src := backup_name p (Z.of_nat i) in
      let '(st, fs) := fs_stat src fs in
      match st with
      | Err _ => shift_backups p i' fs
      | Ok _ =>
          let '(r, fs) := fs_rename src (backup_name p (Z.of_nat i + 1)) fs in
          match r with Err e => (Err e, fs) | Ok _ => shift_backups p i' fs end
      end
  end.

Definition rotateFallback (h : HTTPOutput) (fs : FS) : result unit * HTTPOutput * FS :=
  let p := FallbackPath (h_cfg h) in
  let '(h, fs) :=
    if fbFile h then let '(_, fs) := fs_close fs in (with_fb false (fbSize h) h, fs)
    else (h, fs) in
  let '(r, fs) := shift_backups p (Z.to_nat (FallbackMaxBackups (h_cfg h))) fs in
  match r with
  | Err e => (Err e, h, fs)
  | Ok _ =>
      let '(r, fs) := fs_rename p (p +:+ ".1") fs in
      match r with
      | Err e => if decide (e = ErrNotExist) then (Ok tt, with_fb (fbFile h) 0 h, fs) else (Err e, h, fs)
      | Ok _ => (Ok tt, with_fb (fbFile h) 0 h, fs)
      end
  end.

Definition open_fallback (h : HTTPOutput) (fs : FS) : result unit * HTTPOutput * FS :=
  let p := FallbackPath (h_cfg h) in
  if fbFile h then (Ok tt, h, fs)
  else
    let '(r, fs) := fs_open p fs in
    match r with
    | Err e => (Err ("http output open fallback " +:+ p +:+ ": " +:+ e), h, fs)
    | Ok _ =>
        let '(s, fs) := fs_size p fs in
        match s with
        | Err e => let '(_, fs) := fs_close fs in (Err ("http output stat fallback: " +:+ e), h, fs)
        | Ok n => (Ok tt, with_fb true n h, fs)
        end
    end.

Definition writeFallback (body : string) (h : HTTPOutput) (fs : FS)
    : result unit * HTTPOutput * FS :=
  let cfg := h_cfg h in
  if decide (FallbackPath cfg = EmptyString) then
    (Err "http output: send failed and no fallback_path configured", h, fs)
  else
    let '(r, h, fs) := open_fallback h fs in
    match r with
    | Err e => (Err e, h, fs)
    | Ok _ =>
        let '(r, fs) := fs_append (FallbackPath cfg) (body +:+ newline) fs in
        match r with
        | Err e => (Err ("http output write fallback: " +:+ e), h, fs)
        | Ok n =>
            let h := with_fb (fbFile h) (fbSize h + n) h in
            if (0 <? FallbackMaxSize cfg) &&
               (wrap64 (FallbackMaxSize cfg * 1024 * 1024) <=? fbSize h) then
              let '(r, h, fs) := rotateFallback h fs in
              match r with
              | Err e => (Err ("http output rotate fallback: " +:+ e), h, fs)
              | Ok _ => (Ok tt, h, fs)
              end
            else (Ok tt, h, fs)
        end
    end.

Definition Close (h : HTTPOutput) (fs : FS) : result unit * HTTPOutput * FS :=
  let h := {| h_cfg := h_cfg h; fbFile := fbFile h; fbSize := fbSize h; closed := true |} in
  if fbFile h then let '(r, fs) := fs_close fs in (r, with_fb false (fbSize h) h, fs)
  else (Ok tt, h, fs).

(** ** Publish *)
Record World := { wd_fs : FS; wd_net : Net }.

Section publish.
Context {R : MapRange} {F J : Type}.
Context (render : F -> result string) (one : F).
Context (marshal_event : Event F J -> result string).
Context (marshal_record : gmap string (Cell F J) -> result string).
Context (valid : string -> string -> bool).

Definition Publish (ev : Event F J) (h : HTTPOutput) (w : World)
    : result unit * HTTPOutput * World :=
  if closed h then (Err "http output: closed", h, w)
  else
    match formatBody render one marshal_event marshal_record (h_cfg h) ev with
    | Err e => (Err ("http output format: " +:+ e), h, w)
    | Ok (body, contentType) =>
        let '(sent, net) := trySend valid (h_cfg h) body contentType (wd_net w) in
        if sent then (Ok tt, h, {| wd_fs := wd_fs w; wd_net := net |})
        else
          let '(r, h, fs) := writeFallback body h (wd_fs w) in
          (r, h, {| wd_fs := fs; wd_net := net |})
    end.
End publish.
