(* ===== verification/HttpSpec.v ===== *)
(** * What the HTTP output promises

    The shape of the VictoriaMetrics and Doris bodies, the rotation of the
    fallback file, and that an event for which [Publish] answers nil has been
    accepted by the server or is in the fallback file. *)
From stdpp Require Import pretty.
From S2P Require Import Prelude GoTime LabelsJson FileSystem Configs HttpOutput HttpPublish.

(** ** Formats *)
Section formats.
Context {R : MapRange} {F J : Type} (one : F).

Definition vm_line (dims : gmap string string) (ts : Z) (name : string) (v : F) : vmMetric F :=
  Build_vmMetric (<["__name__" := name]> dims) [v] [ts].

Lemma vm_with_dims_lines ts (ms : gmap string F) dims :
  vm_with_dims ts ms dims ≡ₚ (fun kv => vm_line dims ts kv.1 kv.2) <$> map_to_list ms.
Proof.
  unfold vm_with_dims, sort_strings.
  rewrite merge_sort_Permutation, (range_perm ms).
  assert (forall kv, kv ∈ map_to_list ms -> ms !! kv.1 = Some kv.2) as H.
  { intros [k v]. by rewrite elem_of_map_to_list. }
  induction (map_to_list ms) as [|[k v] kvs IH]; [done|]. simpl.
  pose proof (H (k, v) ltac:(by left)) as Hk. simpl in Hk. rewrite Hk. simpl.
  constructor. apply IH. intros kv Hkv. apply H. by right.
Qed.

Lemma vm_without_dims_lines ts (kvs : list (string * F)) m :
  (forall k, k <> "__name__"%string -> m !! k = None) ->
  vm_without_dims ts kvs m = (fun kv => vm_line ∅ ts kv.1 kv.2) <$> kvs.
Proof.
  revert m. induction kvs as [|[k v] kvs IH]; intros m Hm; [done|]. simpl.
  rewrite IH.
  - f_equal. unfold vm_line, cloneStringMap. f_equal. apply map_eq. intros i.
    destruct (decide (i = "__name__"%string)) as [->|Hi].
    + by rewrite lookup_delete_ne, !lookup_insert_eq by done.
    + rewrite (lookup_insert_ne ∅), lookup_empty by done.
      apply lookup_delete_None. right. by rewrite lookup_insert_ne, Hm by done.
  - intros k' Hk'. by rewrite !lookup_insert_ne, Hm by done.
Qed.

Lemma size_pos {A} (m : gmap string A) : (0 < size m)%nat <-> m <> ∅.
Proof. rewrite <-map_size_non_empty_iff. lia. Qed.

(** A VictoriaMetrics body has exactly one object per metric of the event
    - or a single one, named after the event with value 1, when there is none -
    with the event's dimensions, the metric's name as [__name__], its value
    and the event's time, whatever order the maps are walked in and whether or
    not there are dimensions. *)
Theorem vm_one_line_per_metric typ ts (ms : gmap string F) dims :
  vm_lines one typ ts ms dims ≡ₚ
    if decide (ms = ∅) then [vm_line dims ts typ one]
    else (fun kv => vm_line dims ts kv.1 kv.2) <$> map_to_list ms.
Proof.
  set (lines := (fun kv => vm_line dims ts kv.1 kv.2) <$> map_to_list ms).
  assert (ms <> ∅ -> forall ls, ls ≡ₚ lines ->
    (if decide (ls = []) then [vm_line dims ts typ one] else ls) ≡ₚ lines) as Hk.
  { intros Hms ls Hls. rewrite decide_False; [done|]. intros ->.
    apply Permutation_nil_l, eq_sym, fmap_nil_inv in Hls. by apply map_to_list_empty_iff in Hls. }
  unfold vm_lines. destruct (decide (ms = ∅)) as [->|Hms].
  { destruct (decide (_ /\ _)) as [[H _]|_]; [by apply size_pos in H|].
    by destruct (decide (0 < _)%nat) as [H|_]; [apply size_pos in H|]. }
  apply Hk; [done|]. pose proof (proj2 (size_pos ms) Hms).
  destruct (decide (_ /\ _)) as [_|Hd]; [apply vm_with_dims_lines|].
  assert (dims = ∅) as Hdims by (destruct (decide (dims = ∅)) as [|?%size_pos]; [done|lia]).
  subst lines dims. rewrite decide_True by done.
  rewrite vm_without_dims_lines by done. by rewrite (range_perm ms).
Qed.

Lemma put_opt_lookup {A} k k' (v : option A) (m : gmap string A) :
  put_opt k v m !! k' = if decide (k' = k) then match v with Some a => Some a | None => m !! k' end
                        else m !! k'.
Proof.
  unfold put_opt. destruct v as [a|], (decide (k' = k)) as [->|]; try done.
  - by rewrite lookup_insert_eq.
  - by rewrite lookup_insert_ne.
Qed.

(** The nested values of an event, by the column they go to. *)
Definition nested (d : EventData F J) (k : string) : option J :=
  if decide (k = "processes"%string) then processes d
  else if decide (k = "connections"%string) then connections d
  else if decide (k = "exceptions"%string) then exceptions d else None.

(** A column of the Doris record holds the nested value of that name if
    the event has it, else the metric, else the dimension, else - for
    [__timestamp] and [__type] - the time and kind of the event; so a metric or
    dimension of one of those names replaces it. *)
Theorem doris_record_precedence typ ts (d : EventData F J) k :
  doris_record typ ts d !! k =
    match nested d k with
    | Some j => Some (C_raw j)
    | None =>
        match metrics d !! k with
        | Some v => Some (C_num v)
        | None =>
            match dimensions d !! k with
            | Some s => Some (C_text s)
            | None => if decide (k = "__timestamp"%string) then Some (C_int ts)
                      else if decide (k = "__type"%string) then Some (C_text typ) else None
            end
        end
    end.
Proof.
  unfold doris_record, nested. rewrite !put_opt_lookup, !foldl_put_range.
  assert (forall k, (<["__timestamp" := C_int ts]> {["__type" := C_text typ]}
      : gmap string (Cell F J)) !! k =
    if decide (k = "__timestamp"%string) then Some (C_int ts)
    else if decide (k = "__type"%string) then Some (C_text typ) else None) as ->.
  { clear k. intros k. destruct (decide (k = _)) as [->|]; [by rewrite lookup_insert_eq|].
    rewrite lookup_insert_ne by done. destruct (decide (k = _)) as [->|].
    - by rewrite lookup_singleton_eq.
    - by rewrite lookup_singleton_ne. }
  repeat case_decide; subst; try done;
    first [by destruct (exceptions d) | by destruct (connections d) | by destruct (processes d)].
Qed.
End formats.

(** ** Rotation of the fallback file *)
Section rotation.

Definition on_files (m : gmap string (list string)) : FS := {| files := m; fs_faults := [] |}.

Lemma pretty_Z_inj (i j : Z) : pretty i = pretty j -> i = j.
Proof. apply (inj pretty). Qed.

Lemma string_app_inj_l (s a b : string) : s +:+ a = s +:+ b -> a = b.
Proof. induction s as [|c s IH]; simpl; [done|]. intros E. apply IH. by injection E. Qed.

Lemma backup_name_inj p i j : backup_name p i = backup_name p j -> i = j.
Proof.
  unfold backup_name. intros E%string_app_inj_l. injection E as E. by apply pretty_Z_inj.
Qed.

Lemma string_app_ne (s : string) c a : s +:+ String c a <> s.
Proof.
  induction s as [|d s IH]; simpl; [done|]. intros E. apply IH. by injection E.
Qed.

Lemma backup_name_ne p i : backup_name p i <> p.
Proof. apply string_app_ne. Qed.

Lemma backup_name_1 p : p +:+ ".1" = backup_name p 1.
Proof. reflexivity. Qed.

(** What shifting the first [n] backups by one does, without failures. *)
Definition shifted (p : Path) (n : nat) (m m' : gmap string (list string)) : Prop :=
  (n = O -> m' = m) /\
  (forall q, (forall i, 1 <= i <= Z.of_nat n + 1 -> q <> backup_name p i) -> m' !! q = m !! q) /\
  (forall i, 1 <= i < Z.of_nat n -> m' !! backup_name p (i + 1) = m !! backup_name p i) /\
  ((1 <= n)%nat -> m' !! backup_name p (Z.of_nat n + 1) =
     match m !! backup_name p (Z.of_nat n) with
     | Some l => Some l
     | None => m !! backup_name p (Z.of_nat n + 1)
     end) /\
  ((1 <= n)%nat -> m' !! backup_name p 1 = None).

Lemma shift_backups_shifted p n m :
  exists m', shift_backups p n (on_files m) = (Ok tt, on_files m') /\ shifted p n m m'.
Proof.
  revert m. induction n as [|n IH]; intros m.
  { exists m. split; [done|]. split_and!; [done|done|lia|lia|lia]. }
  set (src := backup_name p (Z.of_nat (S n))).
  set (dst := backup_name p (Z.of_nat (S n) + 1)).
  assert (src <> dst) as Hsd by (intros E%backup_name_inj; lia).
  set (m1 := match m !! src with Some l => <[dst := l]> (delete src m) | None => m end).
  assert (shift_backups p (S n) (on_files m) = shift_backups p n (on_files m1)) as ->.
  { cbn [shift_backups]. fold src dst. unfold fs_stat, fs_rename, syscall, m1. simpl.
    destruct (m !! src) eqn:E; simpl; [|done]. by rewrite E. }
  assert (m1 !! src = None) as Hsrc.
  { unfold m1. destruct (m !! src) eqn:E; [|done].
    by rewrite lookup_insert_ne, lookup_delete_eq. }
  assert (m1 !! dst = match m !! src with Some l => Some l | None => m !! dst end) as Hdst.
  { unfold m1. destruct (m !! src); [by rewrite lookup_insert_eq|done]. }
  assert (forall q, q <> src -> q <> dst -> m1 !! q = m !! q) as Hother.
  { intros q H1 H2. unfold m1. destruct (m !! src); [|done].
    by rewrite lookup_insert_ne, lookup_delete_ne. }
  destruct (IH m1) as (m' & -> & H0 & Hq & Hi & Hn & H1). exists m'. split; [done|].
  assert (forall i, 1 <= i <= Z.of_nat n + 1 -> dst <> backup_name p i) as Hd
    by (intros i Hi' E%backup_name_inj; lia).
  split_and!; [done| | | |]; clear IH.
  - intros q Hqi. rewrite Hq, Hother; [done| | |].
    + apply Hqi. lia.
    + apply Hqi. lia.
    + intros i Hi'. apply Hqi. lia.
  - intros i Hi'. assert (i < Z.of_nat n \/ i = Z.of_nat n) as [Hlt| ->] by lia.
    + rewrite Hi by lia. apply Hother; intros E%backup_name_inj; lia.
    + rewrite Hn by lia. replace (Z.of_nat n + 1) with (Z.of_nat (S n)) by lia. fold src.
      rewrite Hsrc, Hother; [by destruct (m !! backup_name p (Z.of_nat n))|intros E%backup_name_inj; lia..].
  - intros _. fold dst. rewrite Hq by done. apply Hdst.
  - intros _. destruct n as [|n]; [|apply H1; lia]. by rewrite H0.
Qed.

Lemma rotateFallback_run h m m1 ls :
  let p := FallbackPath (h_cfg h) in
  shift_backups p (Z.to_nat (FallbackMaxBackups (h_cfg h))) (on_files m) = (Ok tt, on_files m1) ->
  m1 !! p = Some ls ->
  rotateFallback h (on_files m) =
    (Ok tt, with_fb false 0 h, on_files (<[backup_name p 1 := ls]> (delete p m1))).
Proof.
  intros p Hs Hp1. subst p.
  assert (forall h', h_cfg h' = h_cfg h -> rotateFallback (with_fb false (fbSize h') h') (on_files m)
    = (Ok tt, with_fb false 0 h',
       on_files (<[backup_name (FallbackPath (h_cfg h)) 1 := ls]> (delete (FallbackPath (h_cfg h)) m1))))
    as Hrot.
  { intros h' Hh. unfold rotateFallback. simpl. rewrite Hh, Hs, backup_name_1.
    unfold fs_rename, syscall. simpl. by rewrite Hp1. }
  rewrite <-(Hrot h) by done. by destruct h as [cfg [] sz cl].
Qed.

(** Rotating the fallback file makes it the first backup and moves every
    backup one place up; the last of the [FallbackMaxBackups] moves to place
    [FallbackMaxBackups] + 1, so one more backup than configured is kept. No
    other file changes, and the next write starts a new file. *)
Theorem rotateFallback_shifts h m ls :
  let p := FallbackPath (h_cfg h) in let n := Z.to_nat (FallbackMaxBackups (h_cfg h)) in
  m !! p = Some ls ->
  exists m', rotateFallback h (on_files m) = (Ok tt, with_fb false 0 h, on_files m') /\
    m' !! p = None /\ m' !! backup_name p 1 = Some ls /\
    (forall i, 1 <= i < Z.of_nat n -> m' !! backup_name p (i + 1) = m !! backup_name p i) /\
    ((1 <= n)%nat -> m' !! backup_name p (Z.of_nat n + 1) =
       match m !! backup_name p (Z.of_nat n) with
       | Some l => Some l
       | None => m !! backup_name p (Z.of_nat n + 1)
       end) /\
    (forall q, q <> p -> (forall i, 1 <= i <= Z.of_nat n + 1 -> q <> backup_name p i) ->
       m' !! q = m !! q).
Proof.
  intros p n Hp. destruct (shift_backups_shifted p n m) as (m1 & Hs & H0 & Hq & Hi & Hn & _).
  assert (m1 !! p = Some ls) as Hp1.
  { rewrite Hq; [done|]. intros i _ E. by apply eq_sym, backup_name_ne in E. }
  exists (<[backup_name p 1 := ls]> (delete p m1)).
  assert (forall i, p <> backup_name p i) as Hne
    by (intros i E; by apply eq_sym, backup_name_ne in E).
  assert (forall q, q <> p -> q <> backup_name p 1 ->
    <[backup_name p 1 := ls]> (delete p m1) !! q = m1 !! q) as Hq1
    by (intros; by rewrite lookup_insert_ne, lookup_delete_ne by done).
  split_and!.
  - by apply rotateFallback_run.
  - by rewrite lookup_insert_ne, lookup_delete_eq.
  - by rewrite lookup_insert_eq.
  - intros i Hi'. rewrite Hq1; [by apply Hi|done|intros E%backup_name_inj; lia].
  - intros Hn'. rewrite Hq1; [by apply Hn|done|intros E%backup_name_inj; lia].
  - intros q Hqp Hqi. rewrite Hq1; [by apply Hq|done|apply Hqi; lia].
Qed.
End rotation.

(** ** Nothing is lost silently *)
Section keeping.

(** The last entry written to a file. *)
Definition last_entry (fs : FS) (p : Path) : option string := last (default [] (files fs !! p)).

Definition stored (h : HTTPOutput) (entry : string) (fs : FS) : Prop :=
  last_entry fs (FallbackPath (h_cfg h)) = Some entry \/
  last_entry fs (backup_name (FallbackPath (h_cfg h)) 1) = Some entry.

Lemma syscall_err {A} (act : _ -> result (_ * A)) fs e :
  fst (syscall act fs) = Err e -> files (snd (syscall act fs)) = files fs.
Proof. unfold syscall. by repeat case_match. Qed.

Lemma syscall_ok {A} (act : _ -> result (_ * A)) fs a :
  fst (syscall act fs) = Ok a -> act (files fs) = Ok (files (snd (syscall act fs)), a).
Proof. unfold syscall. repeat case_match; simpl; intros; simplify_eq; done. Qed.

Lemma syscall_pure {A} (act : _ -> result (_ * A)) fs :
  (forall m m' a, act m = Ok (m', a) -> m' = m) -> files (snd (syscall act fs)) = files fs.
Proof. intros H. unfold syscall. repeat case_match; simpl; try done. by eapply H. Qed.

Lemma fs_rename_frame src dst fs q :
  q <> src -> q <> dst -> files (snd (fs_rename src dst fs)) !! q = files fs !! q.
Proof.
  intros H1 H2. unfold fs_rename, syscall. repeat case_match; simplify_eq/=; try done.
  by rewrite lookup_insert_ne, lookup_delete_ne.
Qed.

Lemma fs_stat_files p fs : files (snd (fs_stat p fs)) = files fs.
Proof. apply syscall_pure. intros. by case_match; simplify_eq. Qed.

Lemma fs_close_files fs : files (snd (fs_close fs)) = files fs.
Proof. apply syscall_pure. by intros; simplify_eq. Qed.

Lemma shift_backups_frame p n fs q :
  (forall i, q <> backup_name p i) -> files (snd (shift_backups p n fs)) !! q = files fs !! q.
Proof.
  intros Hq. revert fs. induction n as [|n IH]; intros fs; [done|]. cbn [shift_backups].
  pose proof (fs_stat_files (backup_name p (Z.of_nat (S n))) fs) as Hst.
  destruct (fs_stat _ fs) as [st fs1]. simpl in Hst. destruct st as [[]|e].
  - pose proof (fs_rename_frame (backup_name p (Z.of_nat (S n)))
      (backup_name p (Z.of_nat (S n) + 1)) fs1 q (Hq _) (Hq _)) as Hr.
    destruct (fs_rename _ _ fs1) as [r fs2]. simpl in Hr.
    destruct r; simpl; [rewrite IH|]; by rewrite Hr, Hst.
  - by rewrite IH, Hst.
Qed.

Lemma rotateFallback_stores h fs entry :
  last_entry fs (FallbackPath (h_cfg h)) = Some entry ->
  fst (fst (rotateFallback h fs)) = Ok tt -> stored h entry (snd (rotateFallback h fs)).
Proof.
  set (p := FallbackPath (h_cfg h)). intros Hl. unfold rotateFallback. fold p.
  set (hf := if fbFile h then _ else (h, fs)).
  assert (h_cfg hf.1 = h_cfg h /\ files hf.2 = files fs) as [Hc Hfs].
  { unfold hf. destruct (fbFile h); [|done]. pose proof (fs_close_files fs) as E.
    by destruct (fs_close fs). }
  destruct hf as [h1 fs1]. simpl in Hc, Hfs. rewrite Hc.
  pose proof (shift_backups_frame p (Z.to_nat (FallbackMaxBackups (h_cfg h))) fs1 p) as Hsh.
  destruct (shift_backups _ _ fs1) as [[[]|e] fs2]; simpl in Hsh; [|done].
  specialize (Hsh (fun i E => backup_name_ne p i (eq_sym E))).
  rewrite backup_name_1. destruct (fs_rename p _ fs2) as [r fs3] eqn:E.
  destruct r as [[]|e]; simpl.
  - intros _. right. fold p. unfold fs_rename in E.
    pose proof (syscall_ok _ fs2 tt ltac:(by rewrite E)) as Ho. rewrite E in Ho. simpl in Ho.
    destruct (files fs2 !! p) as [ls|] eqn:El; [|done]. injection Ho as Ho.
    unfold last_entry. rewrite <-Ho, lookup_insert_eq. simpl.
    unfold last_entry in Hl. by rewrite <-Hfs, <-Hsh in Hl.
  - case_decide; [|done]. intros _. left. fold p. unfold last_entry.
    unfold fs_rename in E. pose proof (syscall_err _ fs2 e ltac:(by rewrite E)) as Ho.
    rewrite E in Ho. simpl in Ho |- *. by rewrite Ho, Hsh, Hfs.
Qed.

Lemma fs_append_stored p l fs n :
  fst (fs_append p l fs) = Ok n -> last_entry (snd (fs_append p l fs)) p = Some l.
Proof.
  intros E%syscall_ok. injection E as E _. unfold last_entry, fs_append.
  rewrite <-E, lookup_insert_eq. simpl. by rewrite last_snoc.
Qed.

Lemma open_fallback_cfg h fs r h' fs' : open_fallback h fs = (r, h', fs') -> h_cfg h' = h_cfg h.
Proof. unfold open_fallback. repeat case_match; intros; by simplify_eq. Qed.

Lemma writeFallback_stores body h fs :
  fst (fst (writeFallback body h fs)) = Ok tt ->
  stored h (body +:+ newline) (snd (writeFallback body h fs)).
Proof.
  unfold writeFallback. case_decide; [done|].
  destruct (open_fallback h fs) as [[[[]|e] h1] fs1] eqn:Eo; [|done].
  apply open_fallback_cfg in Eo as Hc.
  destruct (fs_append _ _ fs1) as [[n|e] fs2] eqn:Ea; [|done].
  pose proof (fs_append_stored (FallbackPath (h_cfg h)) (body +:+ newline) fs1 n
    ltac:(by rewrite Ea)) as Hl.
  rewrite Ea in Hl. simpl in Hl. case_match; [|by left].
  set (h2 := with_fb _ _ h1). assert (h_cfg h2 = h_cfg h) as Hc2 by done.
  pose proof (rotateFallback_stores h2 fs2 (body +:+ newline) ltac:(by rewrite Hc2)) as Hr.
  destruct (rotateFallback h2 fs2) as [[[[]|e] h3] fs3]; [|done].
  intros _. unfold stored in *. rewrite Hc2 in Hr. by apply Hr.
Qed.

(** Without failures the fallback always succeeds. *)
Lemma writeFallback_healthy body h m :
  FallbackPath (h_cfg h) <> EmptyString ->
  fst (fst (writeFallback body h (on_files m))) = Ok tt.
Proof.
  intros Hp. unfold writeFallback. rewrite decide_False by done.
  assert (exists h1 m1, open_fallback h (on_files m) = (Ok tt, h1, on_files m1) /\
    h_cfg h1 = h_cfg h) as (h1 & m1 & -> & Hc).
  { unfold open_fallback, fs_open, fs_size, syscall. destruct (fbFile h); [by eauto|].
    simpl. by eexists _, _. }
  set (p := FallbackPath (h_cfg h)). unfold fs_append, syscall. simpl.
  set (m2 := <[p := _]> m1). case_match; [|done].
  set (h2 := with_fb _ _ h1). assert (h_cfg h2 = h_cfg h) as Hc2 by done.
  destruct (shift_backups_shifted p (Z.to_nat (FallbackMaxBackups (h_cfg h))) m2)
    as (m3 & Hs & _ & Hq & _).
  unfold set_files, pop. simpl. change {| files := m2; fs_faults := [] |} with (on_files m2).
  assert (m3 !! p = Some (default [] (m1 !! p) ++ [body +:+ newline])) as Hm3.
  { rewrite Hq; [by unfold m2; rewrite lookup_insert_eq|].
    intros i _ E. by apply eq_sym, backup_name_ne in E. }
  unfold p in *. rewrite <-Hc2 in Hs, Hm3.
  by rewrite (rotateFallback_run h2 m2 m3 _ Hs Hm3).
Qed.
End keeping.

Section publish.
Context {R : MapRange} {F J : Type} (render : F -> result string) (one : F).
Context (marshal_event : Event F J -> result string).
Context (marshal_record : gmap string (Cell F J) -> result string).
Context (valid : string -> string -> bool).
Abbreviation format := (formatBody render one marshal_event marshal_record).
Abbreviation publish := (Publish render one marshal_event marshal_record valid).

Lemma attempts_accepted r n a w :
  fst (attempts (valid (rq_method r) (rq_url r)) r n a w) = true ->
  exists k, (length (n_sent w) <= k)%nat /\
    n_sent (snd (attempts (valid (rq_method r) (rq_url r)) r n a w)) !! k = Some r /\
    ok_status (n_answer w k) = true.
Proof.
  revert a w. induction n as [|n IH]; intros a w; simpl; [done|].
  set (gw := if 0 <? a then sleep (backoff a) w else (true, w)).
  assert (n_sent gw.2 = n_sent w /\ n_answer gw.2 = n_answer w) as [Hs Ha]
    by (unfold gw; by destruct (0 <? a)).
  destruct gw as [go w1]. simpl in Hs, Ha. destruct go; simpl; [|done].
  destruct (valid _ _); simpl; [|by rewrite <-Hs, <-Ha; apply IH].
  destruct (ok_status (n_answer w1 (length (n_sent w1)))) eqn:E; simpl.
  - intros _. exists (length (n_sent w)). split; [lia|]. rewrite Hs, Ha in E. split; [|done].
    rewrite Hs, lookup_app_r by lia. by rewrite Nat.sub_diag.
  - intros H. destruct (IH (a + 1) _ H) as (k & Hk & H1 & H2). simpl in Hk, H2.
    rewrite length_app, Hs in Hk. rewrite Ha in H2. exists k. split_and!; [lia|done|done].
Qed.

(** C12: when [Publish] answers nil the event has been formatted and either a
    request carrying it was answered with a 2xx status, or it is the last entry
    of the fallback file (or of its first backup, if that write filled it) -
    whatever fails in between. And it does answer nil for every event that can
    be formatted, as long as the output is not closed, has a fallback path and
    the file system works. *)
Theorem Publish_keeps_event ev h w :
  let '(r, h', w') := publish ev h w in
  (r = Ok tt -> closed h = false /\ exists body ct, format (h_cfg h) ev = Ok (body, ct) /\
     ((exists k, (length (n_sent (wd_net w)) <= k)%nat /\
         n_sent (wd_net w') !! k = Some (request_of (h_cfg h) body ct) /\
         ok_status (n_answer (wd_net w) k) = true) \/
      stored h (body +:+ newline) (wd_fs w'))) /\
  (closed h = false -> is_ok (format (h_cfg h) ev) = true ->
   FallbackPath (h_cfg h) <> EmptyString -> fs_faults (wd_fs w) = [] -> r = Ok tt).
Proof.
  unfold Publish. destruct (closed h) eqn:Hcl; [done|].
  destruct (format (h_cfg h) ev) as [[body ct]|e]; [|done].
  unfold trySend. set (r := request_of (h_cfg h) body ct).
  pose proof (attempts_accepted r (Z.to_nat (RetryMax (h_cfg h) + 1)) 0 (wd_net w)) as Hacc.
  destruct (attempts _ r _ 0 (wd_net w)) as [sent net]. simpl in Hacc.
  destruct sent; [by eauto 10|].
  pose proof (writeFallback_stores body h (wd_fs w)) as Hst.
  pose proof (writeFallback_healthy body h (files (wd_fs w))) as Hok.
  destruct (writeFallback body h (wd_fs w)) as [[res h'] fs'] eqn:E. simpl in Hst |- *. split.
  - intros ->. eauto 10.
  - intros _ _ Hp Hf. destruct w as [[m fl] n]. simpl in *. subst fl.
    change {| files := m; fs_faults := [] |} with (on_files m) in E. by rewrite E in Hok; apply Hok.
Qed.
End publish.

(** ** A concrete rotation *)
Definition demo_fallback : HTTPOutput :=
  {| h_cfg := demo_cfg; fbFile := true; fbSize := 2000000; closed := false |}.

Definition demo_files : gmap string (list string) :=
  {["/var/lib/m/fb.jsonl" := ["new"]; "/var/lib/m/fb.jsonl.1" := ["old"];
    "/var/lib/m/fb.jsonl.2" := ["older"]; "/etc/hosts" := ["localhost"]]}.

Lemma rotateFallback_shifts_witness :
  exists m', rotateFallback demo_fallback (on_files demo_files) =
      (Ok tt, with_fb false 0 demo_fallback, on_files m') /\
    m' !! "/var/lib/m/fb.jsonl"%string = None /\
    m' !! backup_name "/var/lib/m/fb.jsonl" 1 = Some ["new"%string] /\
    (forall i, 1 <= i < Z.of_nat 2 -> m' !! backup_name "/var/lib/m/fb.jsonl" (i + 1) =
       demo_files !! backup_name "/var/lib/m/fb.jsonl" i) /\
    ((1 <= 2)%nat -> m' !! backup_name "/var/lib/m/fb.jsonl" (Z.of_nat 2 + 1) =
       match demo_files !! backup_name "/var/lib/m/fb.jsonl" (Z.of_nat 2) with
       | Some l => Some l
       | None => demo_files !! backup_name "/var/lib/m/fb.jsonl" (Z.of_nat 2 + 1)
       end) /\
    (forall q, q <> "/var/lib/m/fb.jsonl"%string ->
       (forall i, 1 <= i <= Z.of_nat 2 + 1 -> q <> backup_name "/var/lib/m/fb.jsonl" i) ->
       m' !! q = demo_files !! q).
Proof. apply (rotateFallback_shifts demo_fallback demo_files ["new"%string]). reflexivity. Defined.
