(* ===== verification/Retention.v ===== *)
(** * What the HTTP output keeps over many events (internal/output/http.go)

    The fallback file and its backups read as one log, oldest entry first. As
    long as the system calls succeed, a stretch of [Publish] calls appends to it
    the events the server did not accept, and gives up entries at its old end
    only. Below, [Fate] is what became of one event. *)
From stdpp Require Import pretty.
From S2P Require Import Prelude GoTime LabelsJson FileSystem Configs HttpOutput HttpPublish HttpSpec.

(** ** The log *)
Abbreviation Files := (gmap string (list string)).

Definition entries (m : Files) (q : Path) : list string := default [] (m !! q).

(** Backups [k] down to 1, one after the other. *)
Fixpoint backups (p : Path) (k : nat) (m : Files) : list string :=
  match k with
  | O => []
  | S k' => entries m (backup_name p (Z.of_nat k)) ++ backups p k' m
  end.

Definition fallback_log (p : Path) (n : nat) (m : Files) : list string :=
  backups p (S n) m ++ entries m p.

(** The files an HTTP output with [n] backups uses. *)
Definition own_file (p : Path) (n : nat) (q : Path) : Prop :=
  q = p \/ exists i, 1 <= i <= Z.of_nat n + 1 /\ q = backup_name p i.

(** From [m] to [m'] the log has got [new] at its end and lost [gone] at its
    beginning. *)
Definition appended (p : Path) (n : nat) (gone new : list string) (m m' : Files) : Prop :=
  gone ++ fallback_log p n m' = fallback_log p n m ++ new.

Section log.
Context (p : Path) (n : nat).

Lemma appended_refl m : appended p n [] [] m m.
Proof. unfold appended. by rewrite app_nil_r. Qed.

Lemma appended_trans g1 a1 g2 a2 m1 m2 m3 :
  appended p n g1 a1 m1 m2 -> appended p n g2 a2 m2 m3 -> appended p n (g1 ++ g2) (a1 ++ a2) m1 m3.
Proof.
  unfold appended. intros E1 E2. by rewrite <-app_assoc, E2, app_assoc, E1, <-app_assoc.
Qed.

Lemma backups_ext k m m' :
  (forall i, 1 <= i <= Z.of_nat k -> entries m (backup_name p i) = entries m' (backup_name p i)) ->
  backups p k m = backups p k m'.
Proof.
  induction k as [|k IH]; intros H; [done|]. cbn [backups].
  rewrite H by lia. f_equal. apply IH. intros; apply H; lia.
Qed.

(** A change of other files leaves the log alone. *)
Lemma log_frame m m' :
  (forall q, own_file p n q -> m' !! q = m !! q) -> fallback_log p n m' = fallback_log p n m.
Proof.
  intros H. unfold fallback_log, entries. rewrite (H p) by (by left). f_equal.
  apply backups_ext. intros i Hi. unfold entries. rewrite H; [done|].
  right. exists i. split; [lia|done].
Qed.

Lemma entries_insert_eq m q ls : entries (<[q := ls]> m) q = ls.
Proof. unfold entries. by rewrite lookup_insert_eq. Qed.

Lemma entries_insert_ne m q q' ls : q <> q' -> entries (<[q := ls]> m) q' = entries m q'.
Proof. intros H. unfold entries. by rewrite lookup_insert_ne. Qed.

Lemma path_ne_backup i : p <> backup_name p i.
Proof. intros E. by apply eq_sym, backup_name_ne in E. Qed.

(** Writing to the current file. *)
Lemma current_written m ls :
  fallback_log p n (<[p := ls]> m) = backups p (S n) m ++ ls.
Proof.
  unfold fallback_log. rewrite entries_insert_eq. f_equal. apply backups_ext. intros i _.
  apply entries_insert_ne, path_ne_backup.
Qed.

Lemma append_entry m l : appended p n [] [l] m (<[p := entries m p ++ [l]]> m).
Proof.
  unfold appended. rewrite current_written. unfold fallback_log. simpl. by rewrite <- !app_assoc.
Qed.

(** Shifting the backups up. *)
Lemma backups_shift k m m' :
  (forall i, 1 <= i <= Z.of_nat k -> entries m' (backup_name p (i + 1)) = entries m (backup_name p i)) ->
  backups p (S k) m' = backups p k m ++ entries m' (backup_name p 1).
Proof.
  induction k as [|k IH]; intros H.
  { cbn [backups]. change (Z.of_nat 1) with 1. by rewrite app_nil_r. }
  cbn [backups] in *. replace (Z.of_nat (S (S k))) with (Z.of_nat (S k) + 1) by lia.
  rewrite H, IH by (intros; try apply H; lia). by rewrite <-app_assoc.
Qed.

(** The first [k] backups exist and hold [full] bytes each, there are no others. *)
Definition full_upto (full : Z) (k : nat) (m : Files) : Prop :=
  (k <= S n)%nat /\
  (forall i, 1 <= i <= Z.of_nat k -> exists ls, m !! backup_name p i = Some ls /\ full <= size_of ls) /\
  (forall i, Z.of_nat k < i <= Z.of_nat n + 1 -> m !! backup_name p i = None).

(** What [rotateFallback_shifts] says of the files after a rotation. *)
Record rotated (ls : list string) (m m' : Files) : Prop := {
  rot_current : m' !! p = None;
  rot_first : m' !! backup_name p 1 = Some ls;
  rot_up : forall i, 1 <= i < Z.of_nat n -> m' !! backup_name p (i + 1) = m !! backup_name p i;
  rot_last : (1 <= n)%nat -> m' !! backup_name p (Z.of_nat n + 1) =
    match m !! backup_name p (Z.of_nat n) with
    | Some l => Some l
    | None => m !! backup_name p (Z.of_nat n + 1)
    end
}.

Lemma rotated_full full k ls m m' :
  rotated ls m m' -> full <= size_of ls -> full_upto full k m ->
  full_upto full (Nat.min (S k) (S n)) m'.
Proof.
  intros [_ H1 Hup Hlast] Hls (Hk & Hf & He). split_and!; [lia| |].
  - intros i Hi. destruct (decide (i = 1)) as [->|]; [by exists ls|].
    replace i with (i - 1 + 1) by lia. destruct (decide (i - 1 = Z.of_nat n)) as [E|].
    + rewrite E, Hlast by lia. destruct (Hf (Z.of_nat n)) as (l & -> & ?); [lia|by exists l].
    + rewrite Hup by lia. apply Hf. lia.
  - intros i Hi. replace i with (i - 1 + 1) by lia. destruct (decide (i - 1 = Z.of_nat n)) as [E|].
    + rewrite E, Hlast by lia. rewrite !He by lia. done.
    + rewrite Hup by lia. apply He. lia.
Qed.

Lemma rotated_log full k ls m m' :
  rotated ls m m' -> entries m p = ls -> full_upto full k m ->
  exists gone, appended p n gone [] m m' /\ (gone = [] \/ k = S n).
Proof.
  intros [H0 H1 Hup Hlast] Hls (Hk & Hf & He).
  assert (exists gone, gone ++ backups p (S n) m' = backups p (S n) m ++ ls /\
    (gone = [] \/ k = S n)) as (gone & Hg & Hor).
  { destruct (decide (n = O)) as [E|Hn].
    - clear Hup Hlast. subst n. exists (entries m (backup_name p 1)). cbn [backups].
      change (Z.of_nat 1) with 1. unfold entries at 2. rewrite H1, !app_nil_r. split; [done|].
      destruct (decide (k = 1)%nat); [by right|]. left. unfold entries. rewrite He by lia. done.
    - assert (backups p n m' = backups p (n - 1) m ++ ls) as Hlow.
      { replace n with (S (n - 1)) at 1 by lia. rewrite (backups_shift (n - 1) m).
        - unfold entries. by rewrite H1.
        - intros i Hi. unfold entries. rewrite Hup by lia. done. }
      assert (backups p n m = entries m (backup_name p (Z.of_nat n)) ++ backups p (n - 1) m) as Hm.
      { replace n with (S (n - 1)) at 1 by lia. cbn [backups]. do 3 f_equal; lia. }
      cbn [backups]. rewrite Hlow, Hm.
      replace (Z.of_nat (S n)) with (Z.of_nat n + 1) by lia. unfold entries at 1 2 3.
      rewrite Hlast by lia. destruct (m !! backup_name p (Z.of_nat n)) as [l|] eqn:E; simpl.
      + exists (entries m (backup_name p (Z.of_nat n + 1))). split; [by rewrite <- !app_assoc|].
        destruct (decide (k = S n)); [by right|]. left. unfold entries. rewrite He by lia. done.
      + exists []. split; [by rewrite <- !app_assoc|by left]. }
  exists gone. split; [|done]. unfold appended, fallback_log. rewrite app_nil_r, Hls. unfold entries at 1. rewrite H0. simpl.
  by rewrite app_nil_r.
Qed.
End log.

(** ** One output *)
Section one_output.
Context (cfg : HTTPOutputConfig).
Let p := FallbackPath cfg.
Let n := Z.to_nat (FallbackMaxBackups cfg).
Let full := wrap64 (FallbackMaxSize cfg * 1024 * 1024).

(** The size the output remembers is that of its file; the backups are those
    of its own rotations. *)
Record keeping (h : HTTPOutput) (m : Files) : Prop := {
  kp_cfg : h_cfg h = cfg;
  kp_open : closed h = false;
  kp_size : fbFile h = true -> fbSize h = size_of (entries m p);
  kp_full : exists k, full_upto p n full k m
}.

Definition all_full (m : Files) : Prop := full_upto p n full (S n) m.

(** A stretch of the life of the output: its files from [m] to [m'] get [new]
    and lose [gone], and they lose something only when all backups are full. *)
Definition keeps_log (new : list string) (m : Files) (h' : HTTPOutput) (m' : Files) : Prop :=
  keeping h' m' /\
  (exists gone, appended p n gone new m m' /\ (gone = [] \/ all_full m')) /\
  (all_full m -> all_full m').

Lemma rotate_keeps h m ls :
  keeping h m -> m !! p = Some ls -> full <= size_of ls ->
  exists h' m', rotateFallback h (on_files m) = (Ok tt, h', on_files m') /\ keeps_log [] m h' m'.
Proof.
  intros [Hc Hcl Hsz [k Hk]] Hp Hls. pose proof (rotateFallback_shifts h m ls) as Hsh.
  cbv zeta in Hsh. rewrite Hc in Hsh. fold p n in Hsh.
  destruct (Hsh Hp) as (m' & Hr & H0 & H1 & Hup & Hlast & _).
  assert (rotated p n ls m m') as Hrot by by split.
  exists (with_fb false 0 h), m'. split; [done|]. split.
  - split; [done|done|done|]. eexists. by eapply rotated_full.
  - assert (forall k, full_upto p n full k m -> k = S n -> all_full m') as Hall.
    { intros k' Hk' ->. pose proof (rotated_full p n full _ ls m m' Hrot Hls Hk') as Hf.
      by replace (Nat.min (S (S n)) (S n)) with (S n) in Hf by lia. }
    split; [|intros Hm; by apply (Hall (S n))].
    destruct (rotated_log p n full k ls m m') as (gone & Ha & Hg);
      [done|by unfold entries; rewrite Hp|done|].
    exists gone. split; [done|]. destruct Hg as [->|E]; [by left|]. right. by apply (Hall k).
Qed.

Lemma keeps_log_refl h m : keeping h m -> keeps_log [] m h m.
Proof. intros H. split_and!; [done| |done]. exists []. split; [apply appended_refl|by left]. Qed.

Lemma keeps_log_trans a b m1 h2 m2 h3 m3 :
  keeps_log a m1 h2 m2 -> keeps_log b m2 h3 m3 -> keeps_log (a ++ b) m1 h3 m3.
Proof.
  intros (_ & (g1 & A1 & G1) & F1) (K & (g2 & A2 & G2) & F2). split_and!; [done| |by auto].
  exists (g1 ++ g2). split; [by eapply appended_trans|].
  destruct G1 as [->|]; [|right; by auto]. destruct G2 as [->|]; [by left|by right].
Qed.

(** The backups are the same files. *)
Lemma full_upto_same k m m' :
  (forall i, 1 <= i <= Z.of_nat n + 1 -> m' !! backup_name p i = m !! backup_name p i) ->
  full_upto p n full k m -> full_upto p n full k m'.
Proof.
  intros Hb (Hk & Hf & He). split_and!; [done| |]; intros i Hi; rewrite Hb by lia; auto.
Qed.

(** Opening the current file creates it if it is missing; the log is the same. *)
Lemma open_keeps h m :
  keeping h m ->
  exists h' m', open_fallback h (on_files m) = (Ok tt, h', on_files m') /\
    fbFile h' = true /\ keeps_log [] m h' m'.
Proof.
  intros Hkp. pose proof Hkp as [Hc Hcl Hsz [k Hk]]. unfold open_fallback. rewrite Hc. fold p.
  destruct (fbFile h) eqn:Ef; [exists h, m; by split_and!; [..|apply keeps_log_refl]|].
  set (m1 := match m !! p with Some _ => m | None => <[p := []]> m end).
  assert (entries m1 p = entries m p /\ forall q, q <> p -> m1 !! q = m !! q) as [He Hfr].
  { unfold m1, entries. destruct (m !! p) eqn:E; [by rewrite E|].
    split; [by rewrite lookup_insert_eq|]. intros; by rewrite lookup_insert_ne. }
  assert (forall i, 1 <= i <= Z.of_nat n + 1 -> m1 !! backup_name p i = m !! backup_name p i) as Hb
    by (intros i _; apply Hfr; apply backup_name_ne).
  exists (with_fb true (size_of (entries m1 p)) h), m1. split_and!; [done|done|]. split_and!.
  - split; [done|done|done|]. exists k. by apply (full_upto_same k m).
  - exists []. split; [|by left].
    unfold appended. rewrite app_nil_r. unfold fallback_log. rewrite He. simpl. f_equal.
    apply (backups_ext p (S n)). intros i Hi. unfold entries. by rewrite Hb by lia.
  - by apply full_upto_same.
Qed.

(** One entry more in the current file. *)
Lemma put_keeps h m l :
  keeping h m -> fbFile h = true ->
  keeps_log [l] m (with_fb true (fbSize h + line_bytes l) h) (<[p := entries m p ++ [l]]> m).
Proof.
  intros [Hc Hcl Hsz [k Hk]] Hf.
  assert (forall i, 1 <= i <= Z.of_nat n + 1 ->
    <[p := entries m p ++ [l]]> m !! backup_name p i = m !! backup_name p i) as Hb
    by (intros i _; apply lookup_insert_ne, path_ne_backup).
  split_and!.
  - split; [done|done| |exists k; by apply (full_upto_same k m)].
    intros _. simpl. by rewrite entries_insert_eq, size_of_snoc, <-Hsz.
  - exists []. split; [apply append_entry|by left].
  - by apply full_upto_same.
Qed.

Lemma write_keeps body h m :
  keeping h m -> p <> EmptyString ->
  exists h' m', writeFallback body h (on_files m) = (Ok tt, h', on_files m') /\
    keeps_log [body +:+ newline] m h' m'.
Proof.
  intros Hk Hp. destruct (open_keeps h m Hk) as (h1 & m1 & Ho & Hf1 & H1).
  unfold writeFallback. rewrite (kp_cfg _ _ Hk), decide_False by done. rewrite Ho. fold p.
  unfold fs_append, syscall. simpl. unfold pop, set_files. simpl.
  pose proof (put_keeps h1 m1 (body +:+ newline) (proj1 H1) Hf1) as H2.
  set (l := body +:+ newline) in *. set (m2 := <[p := default [] (m1 !! p) ++ [l]]> m1).
  rewrite Hf1. set (h2 := with_fb true (fbSize h1 + line_bytes l) h1) in *.
  change (<[p := entries m1 p ++ [l]]> m1) with m2 in H2.
  pose proof (keeps_log_trans [] [l] _ _ _ _ _ H1 H2) as H12. simpl in H12.
  fold full. change (fbSize h1 + line_bytes l) with (fbSize h2).
  destruct ((0 <? FallbackMaxSize cfg) && (full <=? fbSize h2)) eqn:E;
    [|exists h2, m2; by split].
  apply andb_prop in E as [_ Hfull%Z.leb_le].
  destruct (rotate_keeps h2 m2 (entries m2 p)) as (h3 & m3 & Hr & H3);
    [apply H2|unfold m2; by rewrite lookup_insert_eq, entries_insert_eq| |].
  { by rewrite <- (kp_size _ _ (proj1 H2)). }
  exists h3, m3. split; [|exact (keeps_log_trans [l] [] _ _ _ _ _ H12 H3)].
  change {| files := m2; fs_faults := [] |} with (on_files m2). by rewrite Hr.
Qed.

(** What happens to other files does not matter. *)
Lemma keeping_frame h m m' :
  (forall q, own_file p n q -> m' !! q = m !! q) -> keeping h m -> keeps_log [] m h m'.
Proof.
  intros Hfr [Hc Hcl Hsz [k Hk]].
  assert (forall i, 1 <= i <= Z.of_nat n + 1 -> m' !! backup_name p i = m !! backup_name p i) as Hb
    by (intros i Hi; apply Hfr; right; by exists i).
  split_and!.
  - split; [done|done| |exists k; by apply (full_upto_same k m)].
    intros Hf. rewrite Hsz by done. unfold entries. by rewrite Hfr by by left.
  - exists []. split; [|by left]. unfold appended. by rewrite app_nil_r, (log_frame p n m).
  - by apply full_upto_same.
Qed.
End one_output.

(** ** The network only grows *)
Record net_grows (w w' : Net) : Prop := {
  ng_answer : n_answer w' = n_answer w;
  ng_done : n_done w' = n_done w;
  ng_sent : n_sent w `prefix_of` n_sent w'
}.

#[export] Instance net_grows_refl : Reflexive net_grows.
Proof. intros w. by split. Qed.

#[export] Instance net_grows_trans : Transitive net_grows.
Proof. intros x y z [A1 B1 C1] [A2 B2 C2]. split; [congruence|congruence|by etrans]. Qed.

Lemma attempts_grow valid r n a w : net_grows w (snd (attempts valid r n a w)).
Proof.
  revert a w. induction n as [|n IH]; intros a w; simpl; [done|].
  set (gw := if 0 <? a then sleep (backoff a) w else (true, w)).
  assert (net_grows w gw.2) as Hg by (unfold gw; by destruct (0 <? a)).
  destruct gw as [go w1]. simpl in Hg. destruct go; simpl; [|done].
  destruct valid; simpl; [|by etrans; [exact Hg|apply IH]].
  etrans; [exact Hg|]. destruct (ok_status _); simpl; [|etrans; [|apply IH]].
  - split; simpl; [done|done|by eexists].
  - split; simpl; [done|done|by eexists].
Qed.

(** ** One event, and many *)

(** What became of an event: the [k]-th request carried it and was accepted; it
    was written to the fallback file; or no body could be made of it. *)
Inductive Fate :=
| F_accepted (k : nat)
| F_kept
| F_unformatted.

Section publish.
Context {R : MapRange} {F J : Type} (render : F -> result string) (one : F).
Context (marshal_event : Event F J -> result string).
Context (marshal_record : gmap string (Cell F J) -> result string).
Context (valid : string -> string -> bool).
Abbreviation format := (formatBody render one marshal_event marshal_record).
Abbreviation publish := (Publish render one marshal_event marshal_record valid).

Definition fate_of (cfg : HTTPOutputConfig) (net : Net) (ev : Event F J) (f : Fate) : Prop :=
  match f with
  | F_accepted k => exists body ct, format cfg ev = Ok (body, ct) /\
      n_sent net !! k = Some (request_of cfg body ct) /\ ok_status (n_answer net k) = true
  | F_kept => is_ok (format cfg ev) = true
  | F_unformatted => is_ok (format cfg ev) = false
  end.

Definition kept_entry (cfg : HTTPOutputConfig) (x : Event F J * Fate) : option string :=
  match x.2, format cfg x.1 with F_kept, Ok (body, _) => Some (body +:+ newline) | _, _ => None end.

(** The requests that carried the accepted events. *)
Definition accepted (fates : list Fate) : list nat :=
  omap (fun f => match f with F_accepted k => Some k | _ => None end) fates.

(** The entries of the kept events, in order. *)
Definition kept_entries (cfg : HTTPOutputConfig) (evs : list (Event F J)) (fates : list Fate)
    : list string := omap (kept_entry cfg) (zip evs fates).

Lemma fate_of_grows cfg net net' ev f :
  net_grows net net' -> fate_of cfg net ev f -> fate_of cfg net' ev f.
Proof.
  intros [Ha _ Hs]. destruct f as [k| |]; [|done|done]. intros (body & ct & Hf & Hk & Ho).
  exists body, ct. split_and!; [done|by eapply prefix_lookup_Some|by rewrite Ha].
Qed.

(** The machine of one output: its files without faults, and the network. *)
Definition world (m : Files) (net : Net) : World := {| wd_fs := on_files m; wd_net := net |}.

Lemma Publish_fate cfg ev h m net :
  keeping cfg h m -> FallbackPath cfg <> EmptyString ->
  exists r h' m' net' f, publish ev h (world m net) = (r, h', world m' net') /\
    net_grows net net' /\ fate_of cfg net' ev f /\
    (forall k, f = F_accepted k -> (length (n_sent net) <= k)%nat) /\
    keeps_log cfg (kept_entries cfg [ev] [f]) m h' m'.
Proof.
  intros Hk Hp. unfold Publish. rewrite (kp_open _ _ _ Hk), (kp_cfg _ _ _ Hk).
  unfold kept_entries, kept_entry. simpl.
  destruct (format cfg ev) as [[body ct]|e] eqn:Ef.
  2: { eexists _, h, m, net, F_unformatted. split_and!; [done|done|simpl; by rewrite Ef|done|].
       by apply keeps_log_refl. }
  unfold trySend. simpl.
  set (rq := request_of cfg body ct). set (v := valid (rq_method rq) (rq_url rq)).
  pose proof (attempts_accepted valid rq (Z.to_nat (RetryMax cfg + 1)) 0 net) as Hacc.
  pose proof (attempts_grow v rq (Z.to_nat (RetryMax cfg + 1)) 0 net) as Hg. fold v in Hacc.
  change (valid (text_or "POST" (ho_Method cfg)) (ho_URL cfg)) with v.
  destruct (attempts v rq _ 0 net) as [[] net'] eqn:Ea; simpl in Hacc, Hg |- *.
  - destruct (Hacc eq_refl) as (k & Hk0 & Hk1 & Hk2).
    exists (Ok tt), h, m, net', (F_accepted k). split_and!; [done|done| |intros ? E; by simplify_eq|by apply keeps_log_refl].
    exists body, ct. split_and!; [done|done|]. by rewrite (ng_answer _ _ Hg).
  - destruct (write_keeps cfg body h m Hk Hp) as (h' & m' & Hw & Hkl). rewrite Hw.
    exists (Ok tt), h', m', net', F_kept. split_and!; [done|done|simpl; by rewrite Ef|done|done].
Qed.
End publish.
