(* ===== verification/Engine.v ===== *)
(** * Outputs and the engine (internal/output/output.go, console.go,
    internal/engine/engine.go, wireOutputs of cmd/monitorbeat/main.go)

    [OutputOps] is the Go interface [output.Output]. The engine is written
    against it; the console, the rotating file and the HTTP output are its
    implementations, over a world of files, network and standard output. *)
From S2P Require Import Prelude GoTime FileSystem Configs FileOutput HttpOutput HttpPublish.

(** ** The interface *)
Class OutputOps (W Ev O : Type) := {
  output_init : gmap string Value -> O -> W -> result unit * O * W;
  output_publish : Ev -> O -> W -> result unit * O * W;
  output_close : O -> W -> result unit * O * W
}.

(** ** internal/engine/engine.go *)
Section engine.
Context {W Ev O : Type} `{Ops : OutputOps W Ev O}.

Record Engine := {
  e_capacity : Z;
  e_version : string;
  e_heartbeatInterval : Duration;
  e_startTime : Time;
  e_outputs : list O
}.

Definition NewEngine (buf : Z) (version : string) (heartbeatInterval : Duration) (now : Time)
    : Engine :=
  {| e_capacity := if buf <=? 0 then 1024 else buf; e_version := version;
     e_heartbeatInterval := heartbeatInterval; e_startTime := now; e_outputs := [] |}.

Definition AddOutput (o : O) (e : Engine) : Engine :=
  {| e_capacity := e_capacity e; e_version := e_version e;
     e_heartbeatInterval := e_heartbeatInterval e; e_startTime := e_startTime e;
     e_outputs := e_outputs e ++ [o] |}.

(** [for _, o := range e.outputs]: an error is logged and the loop goes on. *)
Fixpoint broadcast (ev : Ev) (os : list O) (w : W) : list O * list error * W :=
  match os with
  | [] => ([], [], w)
  | o :: os' =>
      let '(r, o', w) := output_publish ev o w in
      let '(os'', errs, w) := broadcast ev os' w in
      (o' :: os'', match r with Err e => e :: errs | Ok _ => errs end, w)
  end.

(** What the [select] of [Run] wakes up for. *)
Inductive Wake :=
| W_cancelled (reason : error)
| W_heartbeat (now : Time)
| W_event (ev : Ev)
| W_closed.

Section run.
Context (heartbeat : string -> Duration -> Time -> Ev).

Definition with_outputs (os : list O) (e : Engine) : Engine :=
  {| e_capacity := e_capacity e; e_version := e_version e;
     e_heartbeatInterval := e_heartbeatInterval e; e_startTime := e_startTime e;
     e_outputs := os |}.

Definition publish_to_all (ev : Ev) (e : Engine) (w : W) : Engine * list error * W :=
  let '(os, errs, w) := broadcast ev (e_outputs e) w in (with_outputs os e, errs, w).

Definition publishHeartbeat (now : Time) (e : Engine) (w : W) : Engine * list error * W :=
  publish_to_all (heartbeat (e_version e) (Sub now (e_startTime e)) now) e w.

(** The loop of [Run] over the wake-ups it sees; with a heartbeat interval of
    zero the heartbeat channel is nil and never wakes it. *)
Fixpoint engine_run (wakes : list Wake) (e : Engine) (w : W)
    : result unit * Engine * list error * W :=
  match wakes with
  | [] => (Ok tt, e, [], w)
  | W_cancelled reason :: _ => (Err reason, e, [], w)
  | W_closed :: _ => (Ok tt, e, [], w)
  | W_heartbeat now :: wakes' =>
      if 0 <? e_heartbeatInterval e then
        let '(e, errs, w) := publishHeartbeat now e w in
        let '(r, e, errs', w) := engine_run wakes' e w in (r, e, errs ++ errs', w)
      else engine_run wakes' e w
  | W_event ev :: wakes' =>
      let '(e, errs, w) := publish_to_all ev e w in
      let '(r, e, errs', w) := engine_run wakes' e w in (r, e, errs ++ errs', w)
  end.

(** The events the loop takes before it ends. *)
Fixpoint taken (e : Engine) (wakes : list Wake) : list Ev :=
  match wakes with
  | [] | W_cancelled _ :: _ | W_closed :: _ => []
  | W_heartbeat now :: wakes' =>
      if 0 <? e_heartbeatInterval e
      then heartbeat (e_version e) (Sub now (e_startTime e)) now :: taken e wakes'
      else taken e wakes'
  | W_event ev :: wakes' => ev :: taken e wakes'
  end.

(** An output has been handed these events, one call each, in this order. *)
Inductive handed : list Ev -> O -> O -> Prop :=
| handed_nil o : handed [] o o
| handed_cons ev evs o w o' :
    handed evs (snd (fst (output_publish ev o w))) o' -> handed (ev :: evs) o o'.

Lemma broadcast_handed ev evs os os' w :
  Forall2 (handed evs) (fst (fst (broadcast ev os w))) os' -> Forall2 (handed (ev :: evs)) os os'.
Proof.
  revert os' w. induction os as [|o os IH]; intros os' w; simpl.
  - by intros ->%Forall2_nil_inv_l.
  - destruct (output_publish ev o w) as [[r o1] w1] eqn:E.
    pose proof (fun os' => IH os' w1) as IH'.
    destruct (broadcast ev os w1) as [[os1 errs] w2]. simpl in *.
    intros H. apply Forall2_cons_inv_l in H as (o' & os2 & Ho & Hos & ->).
    constructor; [|by apply IH']. apply (handed_cons _ _ _ w). by rewrite E.
Qed.

Lemma taken_with_outputs os e wakes : taken (with_outputs os e) wakes = taken e wakes.
Proof. induction wakes as [|[] wakes IH]; simpl; try done; by rewrite IH. Qed.

Lemma publish_to_all_with ev e w : exists os,
  fst (fst (publish_to_all ev e w)) = with_outputs os e /\
  os = fst (fst (broadcast ev (e_outputs e) w)).
Proof.
  unfold publish_to_all. destruct (broadcast ev (e_outputs e) w) as [[os errs] w']. by exists os.
Qed.

(** Until it is cancelled or its channel is closed, the engine hands every
    event it takes and every heartbeat that is due to every output, once and in
    order: an output that fails neither ends the loop nor keeps an event from
    the outputs after it, and no output is added or removed. *)
Theorem engine_run_hands_all wakes e w :
  let '(_, e', _, _) := engine_run wakes e w in
  Forall2 (handed (taken e wakes)) (e_outputs e) (e_outputs e').
Proof.
  revert e w. induction wakes as [|wake wakes IH]; intros e w; simpl.
  { apply Forall2_same_length_lookup. split; [done|]. intros i o o' H1 H2. simplify_eq. constructor. }
  assert (forall es, Forall2 (handed []) es es) as Hrefl.
  { induction es; constructor; [constructor|done]. }
  assert (forall ev, let '(_, e', _, _) :=
      (let '(e, errs, w) := publish_to_all ev e w in
       let '(r, e, errs', w) := engine_run wakes e w in (r, e, errs ++ errs', w)) in
    Forall2 (handed (ev :: taken e wakes)) (e_outputs e) (e_outputs e')) as Hpub.
  { intros ev. destruct (publish_to_all_with ev e w) as (os & E & Eos).
    pose proof (broadcast_handed ev (taken e wakes) (e_outputs e)) as Hb.
    destruct (publish_to_all ev e w) as [[e1 errs] w1]. simpl in E. subst e1.
    specialize (IH (with_outputs os e) w1).
    destruct (engine_run wakes (with_outputs os e) w1) as [[[r e'] errs'] w'].
    rewrite taken_with_outputs in IH. simpl in IH. eapply Hb. by rewrite <-Eos. }
  destruct wake as [reason|now|ev|]; simpl; try done.
  - unfold publishHeartbeat. destruct (0 <? e_heartbeatInterval e); [apply Hpub|apply IH].
  - apply Hpub.
Qed.
End run.
End engine.
