(* ===== verification/Wiring.v ===== *)
(** * The outputs of the agent and their construction (internal/output,
    cmd/monitorbeat/main.go)

    The three outputs as instances of the engine's interface, and
    [wireOutputs]. Parsing a duration and decoding the parameter map through
    JSON are arguments. *)
From S2P Require Import Prelude GoTime FileSystem Configs FileOutput HttpOutput HttpPublish Engine.

(** Standard output: the lines written, and what the next writes answer. *)
Record Stdout := { so_lines : list string; so_faults : list (option error) }.

Record Machine := { mc_fs : FS; mc_net : Net; mc_out : Stdout }.

Definition with_fs (fs : FS) (m : Machine) : Machine :=
  {| mc_fs := fs; mc_net := mc_net m; mc_out := mc_out m |}.

Section outputs.
Context {R : MapRange} {F J : Type}.
Context (render : F -> result string) (one : F).
Context (marshal_event : Event F J -> result string).
Context (marshal_record : gmap string (Cell F J) -> result string).
Context (valid : string -> string -> bool).

(** ** internal/output/console.go *)
Definition write_stdout (l : string) (m : Machine) : result unit * Machine :=
  let out := mc_out m in
  match mjoin (head (so_faults out)) with
  | Some e =>
      (Err e, {| mc_fs := mc_fs m; mc_net := mc_net m;
                 mc_out := {| so_lines := so_lines out; so_faults := tail (so_faults out) |} |})
  | None =>
      (Ok tt, {| mc_fs := mc_fs m; mc_net := mc_net m;
                 mc_out := {| so_lines := so_lines out ++ [l]; so_faults := tail (so_faults out) |} |})
  end.

Definition console_publish (ev : Event F J) (m : Machine) : result unit * Machine :=
  match marshal_event ev with
  | Err e => (Err ("console marshal: " +:+ e), m)
  | Ok b => write_stdout (b +:+ newline) m
  end.

(** ** The output values *)
Inductive Output :=
| O_Console
| O_File (f : File)
| O_HTTP (h : HTTPOutput).

Definition on_file (act : Method) (f : File) (m : Machine) : result unit * Output * Machine :=
  let '(r, f, fs) := act f (mc_fs m) in (r, O_File f, with_fs fs m).

Definition init_output (cfg : gmap string Value) (o : Output) (m : Machine)
    : result unit * Output * Machine :=
  match o with
  | O_Console => (Ok tt, O_Console, m)
  | O_File f => on_file (FileOutput.Init cfg) f m
  | O_HTTP h => (Ok tt, O_HTTP h, m)
  end.

Definition publish_output (ev : Event F J) (o : Output) (m : Machine)
    : result unit * Output * Machine :=
  match o with
  | O_Console => let '(r, m) := console_publish ev m in (r, O_Console, m)
  | O_File f => on_file (FileOutput.Publish marshal_event ev) f m
  | O_HTTP h =>
      let '(r, h, w) := HttpPublish.Publish render one marshal_event marshal_record valid ev h
                          {| wd_fs := mc_fs m; wd_net := mc_net m |} in
      (r, O_HTTP h, {| mc_fs := wd_fs w; mc_net := wd_net w; mc_out := mc_out m |})
  end.

Definition close_output (o : Output) (m : Machine) : result unit * Output * Machine :=
  match o with
  | O_Console => (Ok tt, O_Console, m)
  | O_File f => on_file FileOutput.Close f m
  | O_HTTP h =>
      let '(r, h, fs) := HttpPublish.Close h (mc_fs m) in (r, O_HTTP h, with_fs fs m)
  end.

Instance output_ops : OutputOps Machine (Event F J) Output :=
  { output_init := init_output; output_publish := publish_output; output_close := close_output }.

(** ** cmd/monitorbeat/main.go *)
Section wire.
Context (ParseDuration : string -> result Duration).
Context (decode : gmap string Value -> result HTTPOutputConfig).

Definition decodeHTTPOutputConfig (params : gmap string Value) : result HTTPOutputConfig :=
  let decoded params :=
    match decode params with
    | Err e => Err ("http output: decode cfg: " +:+ e)
    | Ok c => match clean_output c with Err e => Err ("http output: " +:+ e) | Ok c => Ok c end
    end in
  match params !! "timeout"%string with
  | Some (V_string s) =>
      match ParseDuration s with
      | Err e => Err ("http output: invalid timeout " +:+ s +:+ ": " +:+ e)
      | Ok d => decoded (<["timeout" := V_duration d]> params)
      end
  | _ => decoded params
  end.

Definition buildOutput (oc : OutputConfig) : result Output :=
  if decide (oc_Type oc = "console"%string) then Ok O_Console
  else if decide (oc_Type oc = "file"%string) then Ok (O_File (NewFile EmptyString))
  else if decide (oc_Type oc = "http"%string) then
    match decodeHTTPOutputConfig (oc_Params oc) with
    | Err e => Err e
    | Ok cfg => Ok (O_HTTP (NewHTTPOutput cfg))
    end
  else Err ("unknown output type: " +:+ oc_Type oc).

Fixpoint wireOutputs (ocs : list OutputConfig) (e : Engine (O := Output)) (m : Machine)
    : result unit * Engine (O := Output) * Machine :=
  match ocs with
  | [] => (Ok tt, e, m)
  | oc :: ocs' =>
      match buildOutput oc with
      | Err _ => wireOutputs ocs' e m
      | Ok o =>
          let '(r, o, m) := output_init (oc_Params oc) o m in
          match r with
          | Err err => (Err ("init output " +:+ oc_Type oc +:+ ": " +:+ err), e, m)
          | Ok _ => wireOutputs ocs' (AddOutput o e) m
          end
      end
  end.

(** ** Facts *)

(** What an output is made from: its kind and, for HTTP, its settings. *)
Definition made_from (oc : OutputConfig) (o : Output) : Prop :=
  match o with
  | O_Console => oc_Type oc = "console"%string
  | O_File f => oc_Type oc = "file"%string /\ fo_f f = OpenFile /\
      fo_path f = default EmptyString
        (match oc_Params oc !! "path"%string with Some (V_string p) => Some p | _ => None end) /\
      fo_path f <> EmptyString
  | O_HTTP h => oc_Type oc = "http"%string /\ h = NewHTTPOutput (h_cfg h) /\
      decodeHTTPOutputConfig (oc_Params oc) = Ok (h_cfg h)
  end.

Definition buildable_output (oc : OutputConfig) : Prop := is_ok (buildOutput oc) = true.

Lemma open_ok f fs : let '(r, f', _) := FileOutput.open f fs in
  r = Ok tt -> fo_f f' = OpenFile /\ fo_path f' = fo_path f.
Proof.
  unfold FileOutput.open. destruct (fs_open _ fs) as [[[]|e] fs1]; [|done].
  destruct (fs_size _ fs1) as [[n|e] fs2]; [done|]. by destruct (fs_close fs2).
Qed.

Lemma init_made_from oc o m o' m' :
  buildOutput oc = Ok o -> output_init (oc_Params oc) o m = (Ok tt, o', m') -> made_from oc o'.
Proof.
  unfold buildOutput. intros Hb Hi. repeat case_decide; simplify_eq/=.
  - done.
  - unfold on_file in Hi. destruct (FileOutput.Init _ _ _) as [[r f] fs] eqn:E.
    injection Hi as -> <- <-. split; [done|]. revert E. unfold FileOutput.Init, configure. simpl.
    case_decide as Hp; [done|]. destruct (fs_mkdir _) as [[[]|e] fs1]; [|done]. simpl.
    intros E. match type of E with FileOutput.open ?f ?s = _ => pose proof (open_ok f s) as Hopen end.
    rewrite E in Hopen. destruct (Hopen eq_refl) as [-> ->]. simpl in *.
    split; [done|]. split; [|done]. destruct (oc_Params oc !! _) as [[]|]; try done. simpl.
    by case_decide.
  - destruct (decodeHTTPOutputConfig _) as [cfg|e] eqn:E; simplify_eq/=. done.
Qed.

(** Wiring the outputs either stops at the first output whose [Init]
    fails, with its error, or succeeds with one output for every entry that can
    be built, in the order of the configuration: consoles, files - open, at
    their configured non-empty path - and HTTP outputs with their cleaned
    settings. Entries of unknown kind or with bad HTTP settings are skipped. *)
Theorem wireOutputs_in_order ocs e m :
  let '(r, e', _) := wireOutputs ocs e m in
  exists outs, e_outputs e' = e_outputs e ++ outs /\
    match r with
    | Ok _ => Forall2 made_from (filter buildable_output ocs) outs
    | Err err => exists pre oc post e0, ocs = pre ++ oc :: post /\ buildable_output oc /\
        err = "init output " +:+ oc_Type oc +:+ ": " +:+ e0 /\
        Forall2 made_from (filter buildable_output pre) outs
    end.
Proof.
  revert e m. induction ocs as [|oc ocs IH]; intros e m; simpl.
  { exists []. by rewrite app_nil_r. }
  destruct (buildOutput oc) as [o|e0] eqn:Hb.
  - pose proof (init_made_from oc o m) as Hm.
    assert (buildable_output oc) as Hoc by (unfold buildable_output; by rewrite Hb).
    rewrite filter_cons_True by done.
    destruct (init_output (oc_Params oc) o m) as [[[[]|e0] o'] m'] eqn:Hi.
    + specialize (IH (AddOutput o' e) m').
      destruct (wireOutputs ocs (AddOutput o' e) m') as [[r e'] m''].
      destruct IH as (outs & Ho & IH). exists (o' :: outs).
      split; [by rewrite Ho; simpl; rewrite <-app_assoc|].
      specialize (Hm o' m' Hb Hi). destruct r as [[]|err]; [by constructor|].
      destruct IH as (pre & oc' & post & e0 & -> & ? & ? & ?).
      exists (oc :: pre), oc', post, e0. split_and!; try done.
      rewrite filter_cons_True by done. by constructor.
    + exists []. split; [by rewrite app_nil_r|]. exists [], oc, ocs, e0. by split_and!.
  - assert (~ buildable_output oc) as Hoc by (unfold buildable_output; by rewrite Hb).
    rewrite filter_cons_False by done. specialize (IH e m).
    destruct (wireOutputs ocs e m) as [[[[]|err] e'] m'']; [done|].
    destruct IH as (outs & Ho & pre & oc' & post & e1 & -> & ? & ? & ?).
    exists outs. split; [done|]. exists (oc :: pre), oc', post, e1. split_and!; try done.
    by rewrite filter_cons_False.
Qed.
End wire.
End outputs.
