(* ===== verification/Web.v ===== *)
(** * Replies and request values of the HTTP handlers (web/api, web/registry)

    What a handler answers, and the parts of strconv and strings the handlers
    read query parameters with. *)
From Stdlib Require Import Ascii String.
From S2P Require Import Prelude LabelsJson.

(** A reply: 200 with a JSON body, 204, or an error status with its text. *)
Inductive Reply (A : Type) :=
| R_json (a : A)
| R_no_content
| R_error (code : Z) (msg : string).
Arguments R_json {A} a.
Arguments R_no_content {A}.
Arguments R_error {A} code msg.

Definition StatusBadRequest : Z := 400.
Definition StatusInternalServerError : Z := 500.
Definition StatusBadGateway : Z := 502.

Definition writeBadRequest {A} (msg : string) : Reply A := R_error StatusBadRequest msg.

(** [strings.Contains(s, sub)] *)
Fixpoint contains (sub s : string) : bool :=
  String.prefix sub s ||
  match s with EmptyString => false | String _ s' => contains sub s' end.

(** [strconv.ParseInt(s, 10, 64)], the value alone: 0 for a malformed number,
    the nearest bound for one out of range. *)
Fixpoint digits (acc : Z) (s : list ascii) : option Z :=
  match s with
  | [] => Some acc
  | c :: s' =>
      if (48 <=? byte c) && (byte c <=? 57) then digits (acc * 10 + (byte c - 48)) s' else None
  end.

Definition ParseInt (s : string) : Z :=
  let '(neg, ds) :=
    match list_ascii_of_string s with
    | "-"%char :: ds => (true, ds)
    | "+"%char :: ds => (false, ds)
    | ds => (false, ds)
    end in
  match ds with
  | [] => 0
  | _ =>
      match digits 0 ds with
      | None => 0
      | Some n => if neg : bool then Z.max (- 2 ^ 63) (- n) else Z.min (2 ^ 63 - 1) n
      end
  end.

(** [strconv.ParseBool], false on an error. *)
Definition ParseBool (s : string) : bool :=
  bool_decide (s ∈ ["1"; "t"; "T"; "TRUE"; "true"; "True"]%string).

(** [strings.TrimSpace(s) == ""] for ASCII text. *)
Definition is_blank (s : string) : bool :=
  forallb (fun c => (byte c =? 32) || ((9 <=? byte c) && (byte c <=? 13))) (list_ascii_of_string s).
