(* ===== verification/AgentRegistry.v ===== *)
(** * The agent registry (web/registry)

    Agents report a heartbeat; the store keeps the last report of every host,
    lists the hosts with their online state and removes those not heard of for
    longer than the TTL. The table is a finite map; every statement takes the
    next entry of a fault list. *)
From Stdlib Require Import Ascii String.
From S2P Require Import Prelude GoTime LabelsJson Web.

Record AgentInfo := {
  Hostname : string;
  Version : string;
  Tasks : option (list string);  (* None: nil *)
  IP : string;
  K8sNode : string;
  StartTime : Z;
  LastSeen : Z;
  Online : bool
}.

(** ** The stored form of the task list: a JSON array *)
Fixpoint quoted (ts : list string) : list ascii :=
  match ts with
  | [] => []
  | [t] => quote t
  | t :: ts' => quote t ++ ","%char :: quoted ts'
  end.

Definition encode_tasks (ts : option (list string)) : string :=
  match ts with
  | None => "null"
  | Some ts => string_of_list_ascii ("["%char :: quoted ts ++ ["]"%char])
  end.

Fixpoint read_strings (fuel : nat) (s : list ascii) : option (list string) :=
  match fuel, s with
  | S fuel', q :: s1 =>
      if byte q =? 34 then
        match unquote s1 with
        | Some (t, sep :: s2) =>
            if byte sep =? 44 then cons (string_of_list_ascii t) <$> read_strings fuel' s2
            else if (byte sep =? 93) && bool_decide (s2 = []) then Some [string_of_list_ascii t]
            else None
        | _ => None
        end
      else None
  | _, _ => None
  end.

(** [json.Unmarshal] into a nil slice; an error leaves it nil. *)
Definition decode_tasks (s : string) : option (list string) :=
  match list_ascii_of_string s with
  | o :: body =>
      if byte o =? 91 then
        if decide (body = ["]"%char]) then Some [] else read_strings (List.length body) body
      else None
  | [] => None
  end.

(** ** The table *)
Record AgentRow := {
  ar_version : string;
  ar_tasks : string;
  ar_ip : string;
  ar_k8s_node : string;
  ar_start_time : Z;
  ar_last_seen : Z
}.

Record RegDB := {
  rg_agents : gmap string AgentRow;
  rg_faults : list (option error)
}.

Definition with_agents (m : gmap string AgentRow) (db : RegDB) : RegDB :=
  {| rg_agents := m; rg_faults := rg_faults db |}.

Definition pop_fault (db : RegDB) : RegDB :=
  {| rg_agents := rg_agents db; rg_faults := tail (rg_faults db) |}.

Definition statement {A} (act : gmap string AgentRow -> gmap string AgentRow * A)
    (db : RegDB) : result A * RegDB :=
  match mjoin (head (rg_faults db)) with
  | Some e => (Err e, pop_fault db)
  | None => let '(m, a) := act (rg_agents db) in (Ok a, with_agents m (pop_fault db))
  end.

Section store.
(** [ttl] is the configured duration; [int64(ttl.Seconds())] its whole seconds
    (the float is exact enough for less than some fifty days). *)
Context (ttl : Duration).

Definition cutoff (now : Time) : Z := Unix now - Z.quot ttl Second.

(** [CREATE TABLE IF NOT EXISTS] *)
Definition migrate (db : RegDB) : result unit * RegDB := statement (fun m => (m, tt)) db.

Definition row_of (info : AgentInfo) (now : Time) : AgentRow :=
  {| ar_version := Version info; ar_tasks := encode_tasks (Tasks info); ar_ip := IP info;
     ar_k8s_node := K8sNode info; ar_start_time := StartTime info; ar_last_seen := Unix now |}.

(** Every column is overwritten on a conflict. *)
Definition Heartbeat (now : Time) (info : AgentInfo) (db : RegDB) : result unit * RegDB :=
  statement (fun m => (<[Hostname info := row_of info now]> m, tt)) db.

Definition scan_agent (now : Time) (h : string) (r : AgentRow) : AgentInfo :=
  {| Hostname := h; Version := ar_version r; Tasks := decode_tasks (ar_tasks r); IP := ar_ip r;
     K8sNode := ar_k8s_node r; StartTime := ar_start_time r; LastSeen := ar_last_seen r;
     Online := cutoff now <=? ar_last_seen r |}.

Definition rows_by_hostname (m : gmap string AgentRow) : list (string * AgentRow) :=
  omap (fun h => (fun r => (h, r)) <$> m !! h) (sort_strings (map_to_list m).*1).

Definition ListAgents (now : Time) (onlineOnly : bool) (db : RegDB)
    : result (list AgentInfo) * RegDB :=
  statement (fun m =>
    let m' := if onlineOnly then filter (fun kv => cutoff now <= ar_last_seen kv.2) m else m in
    (m, (fun kv => scan_agent now kv.1 kv.2) <$> rows_by_hostname m')) db.

Definition CleanStale (now : Time) (db : RegDB) : result unit * RegDB :=
  statement (fun m => (filter (fun kv => ~ ar_last_seen kv.2 < cutoff now) m, tt)) db.

(** ** web/registry/handler.go *)
Definition handleHeartbeat (now : Time) (body : result AgentInfo) (db : RegDB)
    : Reply unit * RegDB :=
  match body with
  | Err e => (writeBadRequest ("bad request: " +:+ e), db)
  | Ok info =>
      if decide (Hostname info = EmptyString) then (writeBadRequest "hostname required", db)
      else
        let '(r, db) := Heartbeat now info db in
        match r with
        | Err e => (R_error StatusInternalServerError e, db)
        | Ok _ => (R_no_content, db)
        end
  end.

Definition handleListAgents (now : Time) (online : string) (db : RegDB)
    : Reply (list AgentInfo) * RegDB :=
  let '(r, db) := ListAgents now (ParseBool online) db in
  match r with
  | Err e => (R_error StatusInternalServerError e, db)
  | Ok agents => (R_json agents, db)
  end.

(** ** A history of the registry *)
Inductive Op :=
| Op_heartbeat (now : Time) (body : result AgentInfo)
| Op_clean (now : Time)
| Op_list (now : Time) (online : string).

Definition op_time (o : Op) : Time :=
  match o with Op_heartbeat t _ => t | Op_clean t => t | Op_list t _ => t end.

Definition do_op (o : Op) (db : RegDB) : RegDB :=
  match o with
  | Op_heartbeat t body => snd (handleHeartbeat t body db)
  | Op_clean t => snd (CleanStale t db)
  | Op_list t online => snd (handleListAgents t online db)
  end.

Definition do_ops (os : list Op) (db : RegDB) : RegDB := foldl (fun db o => do_op o db) db os.

(** The last report of every host, never forgotten. *)
Definition reported (o : Op) (m : gmap string AgentRow) : gmap string AgentRow :=
  match o with
  | Op_heartbeat t (Ok info) =>
      if decide (Hostname info = EmptyString) then m else <[Hostname info := row_of info t]> m
  | _ => m
  end.

Definition reports (os : list Op) : gmap string AgentRow := foldl (fun m o => reported o m) ∅ os.
End store.

(** ** Facts *)
Definition ascii_tasks (ts : option (list string)) : Prop :=
  match ts with Some ts => Forall ascii_text ts | None => True end.

Lemma read_strings_quoted ts n :
  Forall ascii_text ts -> ts <> [] -> (List.length ts <= n)%nat ->
  read_strings n (quoted ts ++ ["]"%char]) = Some ts.
Proof.
  revert n. induction ts as [|t ts IH]; intros n Ha Hne Hn; [done|]. simpl in Hn.
  destruct n as [|n]; [lia|]. apply Forall_cons in Ha as [Ht Ha]. destruct ts as [|t' ts].
  - simpl. rewrite <-app_assoc. simpl. rewrite unquote_quote_body by done. simpl.
    by rewrite ascii_list_id.
  - change (quoted (t :: t' :: ts)) with (quote t ++ ","%char :: quoted (t' :: ts)).
    unfold quote at 1. cbn [app]. rewrite <-!app_assoc. cbn [app read_strings].
    change (byte dquote =? 34) with true. cbn [negb]. rewrite unquote_quote_body by done.
    change (byte "," =? 44) with true. cbn iota.
    rewrite (IH n) by (done || (simpl in *; lia)). simpl. by rewrite ascii_list_id.
Qed.

Lemma quoted_long ts : (List.length ts <= List.length (quoted ts))%nat.
Proof.
  induction ts as [|t ts IH]; [done|]. destruct ts as [|t' ts]; simpl in *; [lia|].
  rewrite !length_app in *. simpl in *. rewrite ?length_app in *. simpl in *. lia.
Qed.

Lemma decode_encode_tasks ts : ascii_tasks ts -> decode_tasks (encode_tasks ts) = ts.
Proof.
  intros Ha. destruct ts as [ts|]; [|done]. unfold decode_tasks, encode_tasks.
  rewrite list_ascii_of_string_of_list_ascii. change (byte "[" =? 91) with true. cbn iota.
  destruct ts as [|t ts]; [done|]. rewrite decide_False.
  - apply read_strings_quoted; [done|done|]. rewrite length_app.
    pose proof (quoted_long (t :: ts)). lia.
  - destruct ts; discriminate.
Qed.

Section registry.
Context (ttl : Duration).

(** What the table may have forgotten at [clk]: only reports already older than
    the TTL. *)
Definition remembers (clk : Time) (m spec : gmap string AgentRow) : Prop := forall h,
  match spec !! h with
  | Some r => m !! h = Some r \/ (m !! h = None /\ ar_last_seen r < cutoff ttl clk)
  | None => m !! h = None
  end.

Lemma cutoff_mono t t' : t <= t' -> cutoff ttl t <= cutoff ttl t'.
Proof.
  intros H. unfold cutoff, Unix. pose proof (Z.div_le_mono t t' Second ltac:(done) H). lia.
Qed.

Lemma remembers_later t t' m spec : t <= t' -> remembers t m spec -> remembers t' m spec.
Proof.
  intros Ht H h. specialize (H h). destruct (spec !! h) as [r|]; [|done].
  pose proof (cutoff_mono t t' Ht). destruct H as [H|[H1 H2]]; [by left|right; split; [done|lia]].
Qed.

Lemma remembers_op o m spec :
  remembers (op_time o) m spec ->
  exists m', do_op ttl o {| rg_agents := m; rg_faults := [] |} =
      {| rg_agents := m'; rg_faults := [] |} /\
    remembers (op_time o) m' (reported o spec).
Proof.
  intros H. destruct o as [t [info|e]|t|t online]; simpl in *.
  - destruct (decide (Hostname info = EmptyString)); [by exists m|].
    eexists. split; [reflexivity|]. intros h. destruct (decide (h = Hostname info)) as [->|Hne].
    + rewrite !lookup_insert_eq. by left.
    + rewrite !lookup_insert_ne by done. apply H.
  - by exists m.
  - eexists. split; [reflexivity|]. simpl. intros h. specialize (H h).
    destruct (spec !! h) as [r|].
    + destruct H as [H|[H1 H2]].
      * destruct (decide (ar_last_seen r < cutoff ttl t)) as [Hl|Hl].
        -- right. split; [|done]. apply map_lookup_filter_None. right. intros x Hx. simplify_eq. tauto.
        -- left. by apply map_lookup_filter_Some.
      * right. split; [|done]. apply map_lookup_filter_None. by left.
    + apply map_lookup_filter_None. by left.
  - by exists m.
Qed.

Lemma remembers_ops os clk m spec now :
  remembers clk m spec -> Sorted Z.le (clk :: (op_time <$> os) ++ [now]) ->
  exists m', do_ops ttl os {| rg_agents := m; rg_faults := [] |} =
      {| rg_agents := m'; rg_faults := [] |} /\
    remembers now m' (foldl (fun m o => reported o m) spec os).
Proof.
  revert clk m spec. induction os as [|o os IH]; intros clk m spec H Hs.
  - exists m. split; [done|]. eapply remembers_later; [|done].
    apply Sorted_inv in Hs as [_ Hs]. by inversion Hs.
  - apply Sorted_inv in Hs as [Hs Hd]. simpl in *.
    assert (clk <= op_time o) as Hle by (by inversion Hd).
    destruct (remembers_op o m spec (remembers_later _ _ _ _ Hle H)) as (m1 & -> & H1).
    by apply (IH (op_time o)).
Qed.

(** C14: whatever heartbeats, listings and clean-ups came before, in the order
    of time and without database failures, the listing of online agents shows
    the last report of exactly those hosts heard of within the TTL, by host
    name: removing stale agents never hides an agent that is online, and an
    unacceptable heartbeat leaves no trace. *)
Theorem online_agents_are_last_reports os now db :
  rg_agents db = ∅ -> rg_faults db = [] -> Sorted Z.le ((op_time <$> os) ++ [now]) ->
  fst (handleListAgents ttl now "true" (do_ops ttl os db)) =
    R_json ((fun kv => scan_agent ttl now kv.1 kv.2) <$>
      rows_by_hostname (filter (fun kv => cutoff ttl now <= ar_last_seen kv.2) (reports os))).
Proof.
  destruct db as [m fl]. simpl. intros -> -> Hs.
  assert (exists clk, Sorted Z.le (clk :: (op_time <$> os) ++ [now])) as [clk Hs'].
  { destruct os as [|o os]; simpl in *.
    - exists now. by repeat constructor.
    - exists (op_time o). constructor; [done|]. by constructor. }
  destruct (remembers_ops os clk ∅ ∅ now) as (m' & -> & H); [|done|].
  { intros h. by rewrite !lookup_empty. }
  unfold handleListAgents, ListAgents, statement. simpl. do 3 f_equal.
  apply map_eq. intros h. unfold reports. set (spec := foldl _ ∅ os) in *. specialize (H h).
  apply option_eq. intros r. rewrite !map_lookup_filter_Some. simpl.
  destruct (spec !! h) as [r'|]; [destruct H as [->|[-> Hl]]; [done|]|by rewrite H].
  split; [by intros []|]. intros [E Hr]. simplify_eq. lia.
Qed.

Lemma elem_of_rows_by_hostname m h r : (h, r) ∈ rows_by_hostname m <-> m !! h = Some r.
Proof.
  unfold rows_by_hostname. rewrite list_elem_of_omap. split.
  - intros (h' & _ & E). destruct (m !! h') as [r'|] eqn:Hm; simplify_eq/=. done.
  - intros Hm. exists h. rewrite Hm. split; [|done].
    unfold sort_strings. rewrite merge_sort_Permutation.
    apply list_elem_of_fmap. exists (h, r). split; [done|]. by apply elem_of_map_to_list.
Qed.

(** What an agent reports is what is listed: after a heartbeat with ASCII
    task names, until the host reports again, a listing of all agents contains
    exactly that information for the host, with the time of the report and
    online while that lies within the TTL. *)
Theorem heartbeat_is_listed t now info db db' :
  Hostname info <> EmptyString -> ascii_tasks (Tasks info) ->
  handleHeartbeat t (Ok info) db = (R_no_content, db') ->
  rg_faults db' = [] ->
  exists agents, fst (handleListAgents ttl now EmptyString db') = R_json agents /\
    forall a, Hostname a = Hostname info -> a ∈ agents <-> a =
      {| Hostname := Hostname info; Version := Version info; Tasks := Tasks info; IP := IP info;
         K8sNode := K8sNode info; StartTime := StartTime info; LastSeen := Unix t;
         Online := cutoff ttl now <=? Unix t |}.
Proof.
  intros Hne Ha. unfold handleHeartbeat. rewrite decide_False by done.
  unfold Heartbeat, statement. destruct (mjoin _) as [e|]; [done|].
  injection 1 as <-. simpl. intros Hf.
  unfold handleListAgents, ListAgents, statement. simpl. rewrite Hf. simpl.
  eexists. split; [reflexivity|]. intros a Hn. rewrite list_elem_of_fmap. split.
  - intros ([h r'] & -> & Hin%elem_of_rows_by_hostname). simpl in Hn. subst h.
    rewrite lookup_insert_eq in Hin. simplify_eq. unfold scan_agent, row_of. simpl.
    by rewrite decode_encode_tasks.
  - intros ->. exists (Hostname info, row_of info t). split.
    + unfold scan_agent, row_of. simpl. by rewrite decode_encode_tasks.
    + apply elem_of_rows_by_hostname, lookup_insert_eq.
Qed.
End registry.

(** ** Concrete histories *)
Definition demo_info (h : string) : AgentInfo :=
  {| Hostname := h; Version := "1.0"; Tasks := Some ["ping"; "tcp"]%string; IP := "10.0.0.1";
     K8sNode := EmptyString; StartTime := 5; LastSeen := 0; Online := false |}.

Definition demo_ops : list Op :=
  [Op_heartbeat (10 * Second) (Ok (demo_info "a")); Op_heartbeat (20 * Second) (Ok (demo_info "b"));
   Op_heartbeat (21 * Second) (Err "unexpected EOF"); Op_clean (105 * Second)].

Definition empty_registry : RegDB := {| rg_agents := ∅; rg_faults := [] |}.

Lemma demo_listed :
  match fst (handleListAgents (90 * Second) (106 * Second) "true"
               (do_ops (90 * Second) demo_ops empty_registry)) with
  | R_json agents => Hostname <$> agents
  | _ => []
  end = ["b"%string].
Proof. vm_compute. reflexivity. Qed.

Lemma online_agents_are_last_reports_witness :
  fst (handleListAgents (90 * Second) (106 * Second) "true"
         (do_ops (90 * Second) demo_ops empty_registry)) =
    R_json ((fun kv => scan_agent (90 * Second) (106 * Second) kv.1 kv.2) <$>
      rows_by_hostname (filter (fun kv => cutoff (90 * Second) (106 * Second) <= ar_last_seen kv.2)
                          (reports demo_ops))).
Proof.
  apply (online_agents_are_last_reports (90 * Second) demo_ops (106 * Second) empty_registry);
    [reflexivity|reflexivity|].
  simpl. repeat constructor; vm_compute; congruence.
Defined.

Lemma heartbeat_is_listed_witness : exists agents,
  fst (handleListAgents (90 * Second) (30 * Second) EmptyString
         (snd (handleHeartbeat (10 * Second) (Ok (demo_info "a")) empty_registry))) = R_json agents /\
  forall a, Hostname a = Hostname (demo_info "a") -> a ∈ agents <-> a =
    {| Hostname := "a"; Version := "1.0"; Tasks := Some ["ping"; "tcp"]%string; IP := "10.0.0.1";
       K8sNode := EmptyString; StartTime := 5; LastSeen := Unix (10 * Second);
       Online := cutoff (90 * Second) (30 * Second) <=? Unix (10 * Second) |}.
Proof.
  apply (heartbeat_is_listed (90 * Second) (10 * Second) (30 * Second) (demo_info "a") empty_registry);
    [discriminate| |reflexivity|reflexivity].
  vm_compute. repeat constructor.
Defined.
