(* ===== verification/AlertsApi.v ===== *)
(** * The alert endpoints (web/api/alerts.go, the alert routes of web/api/server.go)

    Each handler takes the decoded request body ([Err]: the body is not valid
    JSON for it) or the query parameters, runs in the world of the alert store
    and answers. *)
From Stdlib Require Import Ascii String.
From S2P Require Import Prelude GoTime LabelsJson Fingerprint AlertStore Evaluator Web.

Record AckRequest := {
  ack_RuleID : Z;
  ack_Fingerprint : string;
  SilenceHours : Z
}.

Record TestQueryInstance := {
  tq_Fingerprint : string;
  tq_Labels : gmap string string;
  tq_Value : float64
}.

Record alertStatusItem := {
  as_RuleID : Z;
  as_RuleName : string;
  as_Fingerprint : string;
  as_Hostname : string;
  as_Labels : gmap string string;
  as_Status : string;
  as_Acknowledged : bool;
  as_Since : option rfc3339
}.

Record alertStatusResponse := {
  FiringCount : Z;
  AcknowledgedCount : Z;
  Items : list alertStatusItem
}.

Section handlers.
Context {R : MapRange} {HO : Sorter most_recent_first}.

(** [http.Error(w, err.Error(), 500)] or the JSON of the value. *)
Definition reply {A} (r : result A) : Reply A :=
  match r with Err e => R_error StatusInternalServerError e | Ok a => R_json a end.

Definition listRules : M (Reply (list AlertRule)) :=
  r <- ListRules;; ret (reply r).

Definition bad_rule (req : CreateRuleRequest) : bool :=
  bool_decide (req_Name req = EmptyString) || bool_decide (req_Expr req = EmptyString).

Definition rule_of (req : CreateRuleRequest) : AlertRule :=
  {| rule_ID := 0; rule_Name := req_Name req; rule_Enabled := default true (req_Enabled req);
     rule_Expr := req_Expr req; rule_Duration := req_Duration req;
     rule_Description := req_Description req; rule_CreatedAt := zero_time;
     rule_UpdatedAt := zero_time; rule_States := [] |}.

Definition createRule (body : result CreateRuleRequest) : M (Reply AlertRule) :=
  match body with
  | Err e => ret (writeBadRequest ("invalid JSON: " +:+ e))
  | Ok req =>
      if bad_rule req then ret (writeBadRequest "name, expr required")
      else
        r <- CreateRule (rule_of req);;
        ret (match r with
             | Err e => if contains "UNIQUE" e then writeBadRequest "rule name already exists"
                        else R_error StatusInternalServerError e
             | Ok rule => R_json rule
             end)
  end.

Definition updateRule (body : result CreateRuleRequest) (id : Z) : M (Reply AlertRule) :=
  match body with
  | Err _ => ret (writeBadRequest "invalid JSON")
  | Ok req =>
      if bad_rule req then ret (writeBadRequest "name, expr required")
      else r <- UpdateRule id req;; ret (reply r)
  end.

Definition deleteRule (id : Z) : M (Reply unit) :=
  r <- DeleteRule id;;
  ret (match r with Err e => R_error StatusInternalServerError e | Ok _ => R_no_content end).

(** [time.Duration(h) * time.Hour] wraps around. *)
Definition acknowledge (body : result AckRequest) : M (Reply string) :=
  match body with
  | Err _ => ret (writeBadRequest "invalid JSON")
  | Ok req =>
      if (ack_RuleID req <=? 0) || bool_decide (ack_Fingerprint req = EmptyString)
      then ret (writeBadRequest "rule_id, fingerprint required")
      else
        sil <- (if 0 <? SilenceHours req
                then t <- Now;; ret (Some (Add t (dur_mul (SilenceHours req) Hour)))
                else ret None);;
        r <- SetAcknowledged (ack_RuleID req) (ack_Fingerprint req) sil;;
        ret (match r with
             | Err e => R_error StatusInternalServerError e
             | Ok _ => R_json "acknowledged"%string
             end)
  end.

Definition page_limit (limit : Z) : Z := if (limit <=? 0) || (100 <? limit) then 20 else limit.

(** The query parameters; an absent one is the empty string. *)
Definition listHistory (rule_id fingerprint state limit offset : string)
    : M (Reply (Z * list HistoryItem)) :=
  r <- ListHistory (ParseInt rule_id) fingerprint state (page_limit (ParseInt limit))
         (ParseInt offset);;
  ret (match r with
       | Err e => R_error StatusInternalServerError e
       | Ok (items, total) => R_json (total, items)
       end).

(** [vm] is nil or answers a query. *)
Definition testQuery (vm : option (string -> result (list Vector))) (body : result string)
    : M (Reply (list TestQueryInstance)) :=
  match vm with
  | None => ret (writeBadRequest "vm client not available")
  | Some query =>
      match body with
      | Err e => ret (writeBadRequest ("invalid JSON: " +:+ e))
      | Ok expr =>
          if is_blank expr then ret (writeBadRequest "expr is required")
          else
            match query expr with
            | Err e => ret (R_error StatusBadGateway e)
            | Ok results =>
                ret (R_json ((fun v =>
                  let labels := default ∅ (v_Metric v) in
                  {| tq_Fingerprint := Fingerprint labels; tq_Labels := labels;
                     tq_Value := v_Value v |}) <$> results))
            end
      end
  end.

Definition firing (st : AlertState) : bool := bool_decide (st_Status st = "firing"%string).

Definition is_acked (st : AlertState) : bool :=
  match st_AcknowledgedAt st with Some _ => true | None => false end.

Definition status_item (rule : AlertRule) (st : AlertState) : alertStatusItem :=
  {| as_RuleID := rule_ID rule; as_RuleName := rule_Name rule;
     as_Fingerprint := st_Fingerprint st; as_Hostname := st_Hostname st;
     as_Labels := st_Labels st; as_Status := "firing"; as_Acknowledged := is_acked st;
     as_Since := format_rfc3339 <$> st_FiringSince st |}.

(** The two nested loops, with the response built up. *)
Definition add_state (rule : AlertRule) (resp : alertStatusResponse) (st : AlertState)
    : alertStatusResponse :=
  if firing st then
    {| FiringCount := FiringCount resp + 1;
       AcknowledgedCount := if is_acked st then AcknowledgedCount resp + 1
                            else AcknowledgedCount resp;
       Items := Items resp ++ [status_item rule st] |}
  else resp.

Definition status_of (rules : list AlertRule) : alertStatusResponse :=
  foldl (fun resp rule => foldl (add_state rule) resp (rule_States rule))
    {| FiringCount := 0; AcknowledgedCount := 0; Items := [] |} rules.

Definition status : M (Reply alertStatusResponse) :=
  r <- ListRules;;
  ret (match r with
       | Err e => R_error StatusInternalServerError e
       | Ok rules => R_json (status_of rules)
       end).
End handlers.

(** ** Facts *)
Section facts.
Context {R : MapRange} {HO : Sorter most_recent_first}.

(** Every firing instance, with its rule. *)
Definition firing_states (rules : list AlertRule) : list (AlertRule * AlertState) :=
  rules ≫= (fun rule => (fun st => (rule, st)) <$> filter (fun st => firing st = true)
    (rule_States rule)).

Lemma add_states rule resp sts :
  foldl (add_state rule) resp sts =
    let f := filter (fun st => firing st = true) sts in
    {| FiringCount := FiringCount resp + Z.of_nat (List.length f);
       AcknowledgedCount := AcknowledgedCount resp +
         Z.of_nat (List.length (filter (fun st => is_acked st = true) f));
       Items := Items resp ++ (status_item rule <$> f) |}.
Proof.
  revert resp. induction sts as [|st sts IH]; intros resp; simpl.
  { destruct resp; simpl. by rewrite !Z.add_0_r, app_nil_r. }
  rewrite IH. unfold add_state. destruct (firing st) eqn:Ef.
  - rewrite filter_cons_True by done. simpl. rewrite <-app_assoc. destruct (is_acked st) eqn:Ea.
    + rewrite filter_cons_True by done. f_equal; simpl; lia.
    + rewrite filter_cons_False by (by rewrite Ea). f_equal; simpl; lia.
  - by rewrite filter_cons_False by (by rewrite Ef).
Qed.

Lemma status_of_states rules :
  status_of rules =
    {| FiringCount := Z.of_nat (List.length (firing_states rules));
       AcknowledgedCount :=
         Z.of_nat (List.length (filter (fun rs => is_acked rs.2 = true) (firing_states rules)));
       Items := (fun rs => status_item rs.1 rs.2) <$> firing_states rules |}.
Proof.
  unfold status_of. set (resp0 := {| FiringCount := 0; AcknowledgedCount := 0; Items := [] |}).
  assert (forall resp, foldl (fun resp rule => foldl (add_state rule) resp (rule_States rule)) resp rules =
    {| FiringCount := FiringCount resp + Z.of_nat (List.length (firing_states rules));
       AcknowledgedCount := AcknowledgedCount resp +
         Z.of_nat (List.length (filter (fun rs => is_acked rs.2 = true) (firing_states rules)));
       Items := Items resp ++ ((fun rs => status_item rs.1 rs.2) <$> firing_states rules) |}) as H;
    [|by rewrite H].
  induction rules as [|rule rules IH]; intros resp; simpl.
  { destruct resp; simpl. by rewrite !Z.add_0_r, app_nil_r. }
  rewrite IH, add_states. simpl.
  rewrite fmap_app, filter_app, !length_app, length_fmap, <-app_assoc, <-list_fmap_compose.
  assert (forall sts, List.length (filter (fun rs : AlertRule * AlertState => is_acked rs.2 = true)
      ((fun st => (rule, st)) <$> sts)) =
    List.length (filter (fun st => is_acked st = true) sts)) as ->.
  { induction sts as [|st sts IHs]; [done|]. rewrite fmap_cons.
    destruct (is_acked st) eqn:E.
    - rewrite !filter_cons_True by done. simpl. by rewrite IHs.
    - rewrite !filter_cons_False by (simpl; by rewrite E). done. }
  f_equal; simpl; lia.
Qed.
End facts.
