(* ===== verification/ApiSpec.v ===== *)
(** * What the alert endpoints promise

    Rejected requests leave the store alone, a created rule is listed, the
    status reply counts the firing instances of the database, and the pages of
    the history put together are the history. *)
From Stdlib Require Import Ascii String.
From stdpp Require Import pretty.
From S2P Require Import Prelude GoTime LabelsJson Fingerprint AlertStore Evaluator Web AlertsApi.

Section healthy.
Context {R : MapRange} {HO : Sorter most_recent_first}.

Lemma query_healthy {A} (q : DB -> A) w : w_turns w = [] -> db_query q w = (Ok (q (w_db w)), w).
Proof. intros H. unfold db_query, next_fault, take_turn. rewrite H. simpl. by destruct w; simplify_eq/=. Qed.

(** The rules with their states, as [ListRules] reads them. *)
Definition rule_with_states (db : DB) (row : Z * RuleRow) : AlertRule :=
  scan_rule row.1 row.2 ((fun r => scan_state row.1 r.1 r.2) <$> rows_of_rule row.1 db).

Lemma ListRules_healthy w : w_turns w = [] ->
  ListRules w = (Ok (rule_with_states (w_db w) <$> rules_by_id (alert_rules (w_db w))), w).
Proof.
  intros H. unfold ListRules. unfold bind at 1. rewrite query_healthy by done.
  unfold bind at 1. rewrite (collect_pure _ (rule_with_states (w_db w))); [done|].
  intros row. unfold bind at 1, getStatesForRule, bind. by rewrite query_healthy.
Qed.

Lemma elem_of_rules_by_id m id row : (id, row) ∈ rules_by_id m <-> m !! id = Some row.
Proof. unfold rules_by_id. rewrite sort_perm. apply elem_of_map_to_list. Qed.
End healthy.

(** ** Rejected requests *)
Section rejected.
Context {R : MapRange} {HO : Sorter most_recent_first}.

Definition bad_ack (req : AckRequest) : Prop :=
  ack_RuleID req <= 0 \/ ack_Fingerprint req = EmptyString.

Definition rejects {A} (h : M (Reply A)) : Prop := forall w,
  snd (h w) = w /\ exists msg, fst (h w) = R_error StatusBadRequest msg.

(** A body that is not valid JSON, a rule without name or expression, an
    acknowledgement without a positive rule id and a fingerprint, and a blank
    test query are answered with 400, and nothing in the store, its clock or
    the mail box changes. *)
Theorem bad_requests_change_nothing :
  (forall e, rejects (createRule (Err e))) /\
  (forall req, req_Name req = EmptyString \/ req_Expr req = EmptyString ->
     rejects (createRule (Ok req)) /\ forall id, rejects (updateRule (Ok req) id)) /\
  (forall e id, rejects (updateRule (Err e) id)) /\
  (forall e, rejects (acknowledge (Err e))) /\
  (forall req, bad_ack req -> rejects (acknowledge (Ok req))) /\
  (forall vm expr, is_blank expr = true -> rejects (testQuery vm (Ok expr))).
Proof.
  assert (forall req, req_Name req = EmptyString \/ req_Expr req = EmptyString ->
    bad_rule req = true) as Hbad.
  { intros req H. unfold bad_rule. apply orb_true_iff. rewrite !bool_decide_eq_true. done. }
  split_and!.
  - intros e w. split; [done|by eexists].
  - intros req H%Hbad. split; [|intros id]; intros w; [unfold createRule|unfold updateRule];
      rewrite H; (split; [done|by eexists]).
  - intros e id w. split; [done|by eexists].
  - intros e w. split; [done|by eexists].
  - intros req H w. unfold acknowledge.
    assert ((ack_RuleID req <=? 0) || bool_decide (ack_Fingerprint req = EmptyString) = true) as ->.
    { apply orb_true_iff. rewrite bool_decide_eq_true, Z.leb_le. done. }
    split; [done|by eexists].
  - intros [vm|] expr H w; unfold testQuery; rewrite ?H; (split; [done|by eexists]).
Qed.
End rejected.

(** ** Rules *)
Section rules.
Context {R : MapRange} {HO : Sorter most_recent_first}.

Lemma exec_healthy q w : w_turns w = [] ->
  db_exec q w = match exec_stmt q (w_db w) with
                | Ok (db, id) => (Ok id, set_db db w)
                | Err e => (Err e, w)
                end.
Proof.
  intros H. unfold db_exec, next_fault, take_turn. rewrite H. simpl.
  by destruct w, (exec_stmt q _) as [[db id]|e]; simplify_eq/=.
Qed.

(** Without database failures, creating a rule whose name is free answers
    the rule with the next id, and the rule list then shows exactly that rule
    besides the others, each as before; a name that is taken answers 400 and
    changes no table. *)
Theorem created_rule_is_listed req w :
  w_turns w = [] -> bad_rule req = false ->
  alert_rules (w_db w) !! (rules_seq (w_db w) + 1) = None ->
  let id := rules_seq (w_db w) + 1 in
  let '(r, w') := createRule (Ok req) w in
  if name_taken (w_db w) id (req_Name req) then
    r = R_error StatusBadRequest "rule name already exists" /\ w_db w' = w_db w
  else exists rule rules, r = R_json rule /\ fst (listRules w') = R_json rules /\
    rule_ID rule = id /\ rule_Name rule = req_Name req /\ rule_Expr rule = req_Expr req /\
    rule_Duration rule = req_Duration req /\ rule_Description rule = req_Description req /\
    rule_Enabled rule = default true (req_Enabled req) /\
    forall x, x ∈ rules <->
      (x = scan_rule id {| r_name := rule_Name rule; r_enabled := boolToInt (rule_Enabled rule);
             r_expr := rule_Expr rule; r_duration := rule_Duration rule;
             r_description := rule_Description rule;
             r_created_at := format_rfc3339 (rule_CreatedAt rule);
             r_updated_at := format_rfc3339 (rule_CreatedAt rule) |}
           ((fun r => scan_state id r.1 r.2) <$> rows_of_rule id (w_db w))) \/
      exists id' row, alert_rules (w_db w) !! id' = Some row /\
        x = rule_with_states (w_db w) (id', row).
Proof.
  intros Hf Hok Hfresh id. unfold createRule. rewrite Hok. unfold bind at 1.
  unfold CreateRule, bind at 1. destruct (Now w) as [t w1] eqn:Hn.
  assert (w_db w1 = w_db w /\ w_turns w1 = []) as [Hdb Hf1] by (by injection Hn as _ <-).
  unfold bind. rewrite exec_healthy by done. rewrite Hdb. simpl. fold id.
  destruct (name_taken (w_db w) id (req_Name req)); simpl.
  { split; [reflexivity|done]. }
  unfold listRules, bind. rewrite ListRules_healthy by done. simpl.
  eexists _, _. split; [reflexivity|]. split; [reflexivity|]. split_and!; try done.
  intros x. rewrite list_elem_of_fmap. split.
  - intros ([id' row] & -> & Hin%elem_of_rules_by_id). simpl in Hin.
    destruct (decide (id' = id)) as [->|Hne].
    + left. rewrite lookup_insert_eq in Hin. injection Hin as <-. unfold rule_with_states. simpl.
      unfold format_rfc3339, parse_rfc3339. by rewrite Z.div_mul by done.
    + right. rewrite lookup_insert_ne in Hin by done. by exists id', row.
  - intros [->|(id' & row & Hrow & ->)].
    + eexists (id, _). split; [|apply elem_of_rules_by_id; simpl; by rewrite lookup_insert_eq].
      unfold rule_with_states. simpl.
      unfold format_rfc3339, parse_rfc3339. by rewrite Z.div_mul by done.
    + exists (id', row). split; [done|]. apply elem_of_rules_by_id. simpl.
      rewrite lookup_insert_ne; [done|]. intros E. subst id'. unfold id in Hrow. congruence.
Qed.
End rules.

(** ** The status reply *)
Section status.
Context {R : MapRange} {HO : Sorter most_recent_first}.

(** The firing rows whose rule exists. *)
Definition firing_row (db : DB) (kv : Z * string * StateRow) : Prop :=
  s_status kv.2 = "firing"%string /\ is_Some (alert_rules db !! kv.1.1).

#[export] Instance firing_row_dec db kv : Decision (firing_row db kv).
Proof. unfold firing_row. apply _. Defined.

Definition firing_rows (db : DB) : list (Z * string * StateRow) :=
  filter (firing_row db) (map_to_list (alert_state db)).

Definition firing_of (db : DB) (row : Z * RuleRow) : list (Z * string * StateRow) :=
  filter (fun kv => kv.1.1 = row.1 /\ s_status kv.2 = "firing"%string) (range (alert_state db)).

Definition as_state (kv : Z * string * StateRow) : AlertState :=
  scan_state kv.1.1 kv.1.2 kv.2.

Lemma firing_scan id fp row : firing (scan_state id fp row) = true <-> s_status row = "firing"%string.
Proof. unfold firing, scan_state. simpl. apply bool_decide_eq_true. Qed.

Lemma firing_states_of_row db row :
  filter (fun st => firing st = true) (rule_States (rule_with_states db row)) =
    as_state <$> firing_of db row.
Proof.
  unfold rule_with_states, firing_of, rows_of_rule. simpl. rewrite <-list_fmap_compose.
  induction (range (alert_state db)) as [|[[id fp] r] kvs IH]; [done|].
  rewrite !(filter_cons _ (id, fp, r)). simpl. destruct (decide (id = row.1)) as [->|Hne].
  - rewrite fmap_cons, filter_cons. simpl.
    destruct (decide (firing _ = true)) as [H|H]; rewrite firing_scan in H.
    + rewrite decide_True by done. rewrite fmap_cons. by rewrite IH.
    + rewrite decide_False by tauto. done.
  - rewrite decide_False by tauto. done.
Qed.

Lemma firing_states_rows db (rows : list (Z * RuleRow)) :
  firing_states (rule_with_states db <$> rows) =
    (fun rk => (rule_with_states db rk.1, as_state rk.2)) <$>
      (rows ≫= (fun row => (fun kv => (row, kv)) <$> firing_of db row)).
Proof.
  induction rows as [|row rows IH]; [done|].
  rewrite fmap_cons, bind_cons, fmap_app, <-IH. unfold firing_states.
  by rewrite bind_cons, firing_states_of_row, <-!list_fmap_compose.
Qed.

Lemma filter_disjoint {A} (P Q : A -> Prop) `{!forall x, Decision (P x), !forall x, Decision (Q x)}
    (l : list A) :
  (forall x, P x -> Q x -> False) ->
  filter P l ++ filter Q l ≡ₚ filter (fun x => P x \/ Q x) l.
Proof.
  intros Hd. induction l as [|x l IH]; [done|]. rewrite !filter_cons.
  destruct (decide (P x)), (decide (Q x)), (decide (P x \/ Q x)); try tauto;
    [exfalso; by eapply Hd|simpl; by rewrite IH|].
  rewrite <-Permutation_middle. by rewrite IH.
Qed.

(** The rows grouped by rule are all of them. *)
Lemma firing_grouped db (rows : list (Z * RuleRow)) :
  NoDup rows.*1 ->
  rows ≫= firing_of db ≡ₚ
    filter (fun kv => s_status kv.2 = "firing"%string /\ kv.1.1 ∈ rows.*1) (map_to_list (alert_state db)).
Proof.
  induction rows as [|row rows IH]; intros Hnd.
  { simpl. rewrite filter_none; [done|]. apply Forall_forall. intros kv _ [_ H].
    by apply elem_of_nil in H. }
  apply NoDup_cons in Hnd as [Hni Hnd]. simpl. rewrite IH by done.
  unfold firing_of. rewrite (range_perm (alert_state db)).
  rewrite filter_disjoint.
  - apply Permutation_refl', filter_ext. intros kv _. rewrite elem_of_cons. tauto.
  - intros kv [E _] [_ H]. apply Hni. by rewrite <-E.
Qed.

(** Without database failures the status reply lists exactly the firing
    instances of the database that belong to an existing rule, each once, with
    their labels and whether they are acknowledged, and its two counters count
    them and the acknowledged ones among them; asking changes nothing. *)
Theorem status_counts_firing w :
  w_turns w = [] ->
  exists resp, status w = (R_json resp, w) /\
    (fun it => (as_RuleID it, as_Fingerprint it, as_Labels it, as_Acknowledged it)) <$> Items resp
      ≡ₚ (fun kv => (kv.1.1, kv.1.2, decodeLabels (s_labels_json kv.2), is_acked (as_state kv)))
           <$> firing_rows (w_db w) /\
    FiringCount resp = Z.of_nat (List.length (firing_rows (w_db w))) /\
    AcknowledgedCount resp = Z.of_nat (List.length
      (filter (fun kv => is_acked (as_state kv) = true) (firing_rows (w_db w)))).
Proof.
  intros Hf. unfold status, bind. rewrite ListRules_healthy by done.
  eexists. split; [reflexivity|]. rewrite status_of_states. simpl.
  set (db := w_db w). set (rows := rules_by_id (alert_rules db)).
  assert (exists l, firing_states (rule_with_states db <$> rows) =
      (fun rk => (rule_with_states db rk.1, as_state rk.2)) <$> l /\ l.*2 ≡ₚ firing_rows db /\
      Forall (fun rk => rk.1.1 = rk.2.1.1) l) as (l & -> & Hl & Hids).
  { exists (rows ≫= (fun row => (fun kv => (row, kv)) <$> firing_of db row)). split_and!.
    - apply firing_states_rows.
    - transitivity (rows ≫= firing_of db).
      + clear. induction rows as [|row rows IH]; [done|]. simpl.
        rewrite fmap_app, IH, <-list_fmap_compose. by rewrite list_fmap_id.
      + rewrite firing_grouped.
        * unfold firing_rows. apply Permutation_refl', filter_ext. intros kv _.
          unfold firing_row, rows. rewrite list_elem_of_fmap. split.
          -- intros [? ([id row] & E & H%elem_of_rules_by_id)]. split; [done|]. exists row.
             by rewrite E.
          -- intros [? [row H]]. split; [done|]. exists (kv.1.1, row). split; [done|].
             by apply elem_of_rules_by_id.
        * unfold rows, rules_by_id. rewrite sort_perm. apply NoDup_fst_map_to_list.
    - apply Forall_bind, Forall_forall. intros row _. apply Forall_fmap, Forall_forall.
      intros kv [[E _] _]%list_elem_of_filter. done. }
  rewrite length_fmap, <-!list_fmap_compose. split_and!.
  - rewrite <-Hl, <-list_fmap_compose. apply Permutation_refl'. clear Hl.
    induction Hids as [|[row kv] l E Hids IH]; [done|]. simpl in *. rewrite E. f_equal. exact IH.
  - by rewrite <-Hl, length_fmap.
  - rewrite <-Hl. clear. f_equal. induction l as [|[row kv] l IH]; [done|].
    rewrite !fmap_cons, !filter_cons. simpl.
    destruct (decide (is_acked (as_state kv) = true)); simpl; by rewrite IH.
Qed.
End status.

(** ** The history *)
Section history.
Context {R : MapRange} {HO : Sorter most_recent_first}.

Definition whole_history (rule_id fp state : string) (db : DB) : list HistoryItem :=
  scan_history <$> sort most_recent_first (history_matching (ParseInt rule_id) fp state db).

Lemma listHistory_healthy rule_id fp state limit offset w :
  w_turns w = [] -> 1 <= ParseInt limit <= 100 -> 0 <= ParseInt offset ->
  listHistory rule_id fp state limit offset w =
    (R_json (Z.of_nat (List.length (whole_history rule_id fp state (w_db w))),
       take (Z.to_nat (ParseInt limit)) (drop (Z.to_nat (ParseInt offset))
         (whole_history rule_id fp state (w_db w)))), w).
Proof.
  intros Hf Hl Ho. unfold listHistory, ListHistory, bind, page_limit, whole_history.
  rewrite query_healthy by done.
  replace ((ParseInt limit <=? 0) || (100 <? ParseInt limit)) with false
    by (symmetry; apply orb_false_iff; split; [apply Z.leb_gt|apply Z.ltb_ge]; lia).
  rewrite (proj2 (Z.leb_gt (ParseInt limit) 0)) by lia.
  rewrite (proj2 (Z.ltb_ge (ParseInt offset) 0)) by lia.
  rewrite query_healthy by done. simpl.
  by rewrite fmap_take, fmap_drop, length_fmap, (Permutation_length (sort_perm _)).
Qed.

Lemma concat_pages {A} (L n : nat) (l : list A) :
  concat ((fun k => take L (drop (k * L) l)) <$> seq 0 n) = take (n * L) l.
Proof.
  induction n as [|n IH]; [done|].
  rewrite seq_S, fmap_app, concat_app, IH. simpl. rewrite app_nil_r.
  rewrite take_take_drop. f_equal. lia.
Qed.

(** Without database failures, asking for the history page by page - any
    page size from 1 to 100, offsets in steps of it - answers every time the
    number of matching entries, and the pages put together are the first
    entries of the whole history, newest first; as soon as the pages asked for
    cover that number, they hold every matching entry exactly once. *)
Theorem history_pages rule_id fp state limit offset n w :
  w_turns w = [] -> 1 <= ParseInt limit <= 100 ->
  (forall k, (k < n)%nat -> ParseInt (offset k) = Z.of_nat k * ParseInt limit) ->
  let total := Z.of_nat (List.length
    (history_matching (ParseInt rule_id) fp state (w_db w))) in
  exists pages : nat -> list HistoryItem,
    (forall k, (k < n)%nat ->
       listHistory rule_id fp state limit (offset k) w = (R_json (total, pages k), w)) /\
    concat (pages <$> seq 0 n) =
      take (n * Z.to_nat (ParseInt limit)) (whole_history rule_id fp state (w_db w)) /\
    (total <= Z.of_nat n * ParseInt limit -> concat (pages <$> seq 0 n) ≡ₚ
       scan_history <$> history_matching (ParseInt rule_id) fp state (w_db w)).
Proof.
  intros Hf Hl Ho total. set (all := whole_history rule_id fp state (w_db w)).
  set (L := Z.to_nat (ParseInt limit)).
  assert (Z.of_nat (List.length all) = total) as Hlen.
  { unfold all, whole_history, total. by rewrite length_fmap, (Permutation_length (sort_perm _)). }
  exists (fun k => take L (drop (k * L) all)). split_and!.
  - intros k Hk. rewrite listHistory_healthy by (rewrite ?Ho by done; lia || done).
    fold all L. rewrite Hlen, Ho by done. do 5 f_equal. lia.
  - apply concat_pages.
  - intros Ht. rewrite concat_pages, take_ge by lia.
    unfold all, whole_history. by rewrite sort_perm.
Qed.
End history.

(** ** Concrete requests *)
Section demo.
#[local] Existing Instance in_key_order.

Definition demo_row : RuleRow :=
  {| r_name := "cpu"; r_enabled := 1; r_expr := "cpu_usage > 90"; r_duration := 60;
     r_description := EmptyString; r_created_at := 100; r_updated_at := 100 |}.

Definition demo_state : StateRow :=
  {| s_labels_json := encodeLabels {["hostname" := "a"]}; s_status := "firing";
     s_last_value := SpecFloat.S754_zero false; s_pending_since := None; s_firing_since := Some 200;
     s_acknowledged_at := Some 300; s_silence_until := None; s_last_notified_at := Some 200 |}.

Definition demo_entry (i t : Z) : HistoryRow :=
  {| h_id := i; h_rule_id := 1; h_rule_name := "cpu"; h_fingerprint := "f1";
     h_labels_json := "{}"; h_expr := "cpu_usage > 90"; h_metric_value := SpecFloat.S754_zero false;
     h_state := "firing"; h_acknowledged := 0; h_triggered_at := t |}.

Definition demo_world : World :=
  {| w_db := {| alert_rules := {[1 := demo_row]}; rules_seq := 1;
                alert_state := {[(1, "f1"%string) := demo_state]};
                alert_history := [demo_entry 1 200; demo_entry 2 250; demo_entry 3 300];
                history_seq := 3 |};
     w_now := 400 * Second; w_ticks := [5]; w_turns := []; w_mail := [] |}.

Definition demo_request : CreateRuleRequest :=
  {| req_Name := "mem"; req_Enabled := None; req_Expr := "mem_used > 90"; req_Duration := 0;
     req_Description := EmptyString |}.

Lemma created_rule_is_listed_witness :
  exists rule rules w', createRule (Ok demo_request) demo_world = (R_json rule, w') /\
    fst (listRules w') = R_json rules /\ rule_ID rule = 2 /\ rule_Name rule = "mem"%string.
Proof.
  pose proof (created_rule_is_listed demo_request demo_world eq_refl eq_refl eq_refl) as H.
  destruct (createRule (Ok demo_request) demo_world) as [r w'].
  change (name_taken (w_db demo_world) (rules_seq (w_db demo_world) + 1) (req_Name demo_request))
    with false in H.
  destruct H as (rule & rules & -> & Hl & Hid & Hname & _).
  exists rule, rules, w'. by split_and!.
Defined.

Lemma status_counts_firing_witness :
  exists resp, status demo_world = (R_json resp, demo_world) /\ FiringCount resp = 1 /\
    AcknowledgedCount resp = 1.
Proof.
  destruct (status_counts_firing demo_world eq_refl) as (resp & E & _ & Hf & Ha).
  exists resp. split; [exact E|]. split; [rewrite Hf|rewrite Ha]; vm_compute; reflexivity.
Defined.

Lemma history_pages_witness :
  exists pages : nat -> list HistoryItem,
    (forall k, (k < 2)%nat ->
       listHistory "1" "f1" EmptyString "2" (if decide (k = O) then "0" else "2") demo_world =
         (R_json (3, pages k), demo_world)) /\
    hi_ID <$> concat (pages <$> seq 0 2) = [3; 2; 1].
Proof.
  destruct (history_pages "1" "f1" EmptyString "2"
    (fun k => if decide (k = O) then "0" else "2")%string 2 demo_world eq_refl) as (pages & H1 & H2 & _).
  - vm_compute. split; congruence.
  - intros [|[|k]] Hk; [reflexivity|reflexivity|lia].
  - exists pages. split; [exact H1|]. rewrite H2. vm_compute. reflexivity.
Defined.
End demo.
