(* ===== verification/Harvester.v ===== *)
(** * Following a log file (internal/input/file)

    The harvester reads a growing file line by line through a buffered reader
    and remembers how far it has read in an offset registry. A file is its
    bytes; a piece of its growth is what has been appended between two moments
    at which the reader found the end, so the loop up to a wait runs on a
    content that stands still. The bytes come out of the file as they are or
    through a decoder of golang.org/x/text, which is a parameter. *)
From Stdlib Require Import Ascii String.
From stdpp Require Import pretty.
From S2P Require Import Prelude GoTime LabelsJson.

Definition Bytes := list ascii.
Definition nl : ascii := "010"%char.

(** ** internal/input/file/registry.go *)
Record OffsetEntry := {
  oe_Path : string;
  oe_Inode : N;
  oe_Off : Z
}.

Abbreviation OffsetRegistry := (gmap string OffsetEntry).

(** [fmt.Sprintf("%s:%d", path, inode)] *)
Definition registry_key (path : string) (inode : N) : string := path +:+ ":" +:+ pretty inode.

Definition GetOffset (path : string) (inode : N) (r : OffsetRegistry) : Z :=
  match r !! registry_key path inode with None => 0 | Some e => oe_Off e end.

Definition SetOffset (path : string) (inode : N) (off : Z) (r : OffsetRegistry) : OffsetRegistry :=
  <[registry_key path inode := {| oe_Path := path; oe_Inode := inode; oe_Off := off |}]> r.

Section registry_file.
Context {R : MapRange}.

(** What [Save] writes - the entries in the order of the map - and what [load]
    makes of it. *)
Definition Save (r : OffsetRegistry) : list OffsetEntry := (range r).*2.

Definition load (entries : list OffsetEntry) (r : OffsetRegistry) : OffsetRegistry :=
  foldl (fun r e => <[registry_key (oe_Path e) (oe_Inode e) := e]> r) r entries.

(** The registry's file: what [os.ReadFile] finds, and what [json.Unmarshal]
    makes of the bytes. *)
Inductive RegistryFile :=
| NotExist
| Unreadable (e : error)
| Entries (es : result (list OffsetEntry)).

(** The flag: the error is one of [os.IsNotExist]. *)
Definition load_file (f : RegistryFile) (r : OffsetRegistry) : (bool * error) + OffsetRegistry :=
  match f with
  | NotExist => inl (true, "no such file or directory"%string)
  | Unreadable e => inl (false, e)
  | Entries (Err e) => inl (false, "registry unmarshal: " +:+ e)
  | Entries (Ok es) => inr (load es r)
  end.

Definition NewOffsetRegistry (dir : string) (mkdir : result unit) (f : RegistryFile)
    : result OffsetRegistry :=
  match mkdir with
  | Err e => Err ("registry mkdir " +:+ dir +:+ ": " +:+ e)
  | Ok _ =>
      match load_file f ∅ with
      | inr r => Ok r
      | inl (true, _) => Ok ∅
      | inl (false, e) => Err ("registry load: " +:+ e)
      end
  end.

(** The file after [Save]: the new content is written beside it and renamed, so
    that a failure leaves it as it was. *)
Definition save_file (write rename : result unit) (r : OffsetRegistry) (f : RegistryFile)
    : result unit * RegistryFile :=
  match write with
  | Err e => (Err ("registry write: " +:+ e), f)
  | Ok _ =>
      match rename with
      | Err e => (Err e, f)
      | Ok _ => (Ok tt, Entries (Ok (Save r)))
      end
  end.
End registry_file.

(** ** bufio.Reader.ReadString *)

(** Up to and including the first line break, and the rest. *)
Fixpoint cut (s : Bytes) : option (Bytes * Bytes) :=
  match s with
  | [] => None
  | c :: s' =>
      if decide (c = nl) then Some ([c], s')
      else match cut s' with Some (l, rest) => Some (c :: l, rest) | None => None end
  end.

(** ** The reader under the buffer

    [New] and [underlyingReader] put a [bufio.Reader] on an [io.Reader] that is
    the file itself or a decoder's reader of the file. [fr_read max rest st] is a
    [Read] of at most [max] bytes when the descriptor has [rest] in front of it:
    the bytes it gives - none is [io.EOF] -, how many bytes of the file it has
    taken for them, and what the reader keeps. [fr_left] bounds the bytes it can
    still give. *)
Class FileReader := {
  fr_state : Type;
  fr_new : fr_state;
  fr_read : nat -> Bytes -> fr_state -> Bytes * nat * fr_state;
  fr_left : Bytes -> fr_state -> nat
}.

(** The file itself. *)
Definition raw_reader : FileReader :=
  {| fr_state := unit; fr_new := tt;
     fr_read := fun max rest st => (take max rest, length (take max rest), st);
     fr_left := fun rest _ => length rest |}.

(** [lookupEncoding]: whether the file goes through a decoder. *)
Definition lookupEncoding (quote_string : string -> string) (name : string) : result bool :=
  if bool_decide (name ∈ [EmptyString; "utf-8"; "utf8"]%string) then Ok false
  else if decide (name = "gb18030"%string) then Ok true
  else Err ("harvester: unsupported encoding " +:+ quote_string name).

Section harvester.
Context {F : FileReader} (size : nat).

(** The loop of [ReadString('\n')]: a buffer without a line break is set aside
    when it is full, else it is filled by one read of the file at [pos]; no
    more bytes is [io.EOF] (the boolean). *)
Fixpoint read_string (fuel : nat) (content : Bytes) (pos : nat) (dec : fr_state)
    (buf acc : Bytes) : Bytes * Bytes * nat * fr_state * bool :=
  match fuel with
  | O => (acc, buf, pos, dec, true)
  | S fuel' =>
      match cut buf with
      | Some (l, rest) => (acc ++ l, rest, pos, dec, false)
      | None =>
          if decide (size <= length buf)%nat
          then read_string fuel' content pos dec [] (acc ++ buf)
          else
            let '(chunk, n, dec) := fr_read (size - length buf) (drop pos content) dec in
            if decide (chunk = []) then (acc ++ buf, [], pos + n, dec, true)
            else read_string fuel' content (pos + n) dec (buf ++ chunk) acc
      end
  end%nat.

Definition ReadString (content : Bytes) (pos : nat) (dec : fr_state) (buf : Bytes)
    : Bytes * Bytes * nat * fr_state * bool :=
  read_string (2 * fr_left (drop pos content) dec + length buf + 2) content pos dec buf [].

(** ** internal/input/file/harvester.go *)

(** The buffer size [New] and [bufio.NewReaderSize] settle on. *)
Definition buffer_size (configured : Z) : nat :=
  Z.to_nat (Z.max 16 (if configured <=? 0 then 64 * 1024 else configured)).

Record HarvesterConfig := {
  hc_File : string;
  hc_FromBegin : bool;
  hc_Registry : option OffsetRegistry
}.

Record Harvester := {
  hv_pos : nat;          (* where the file descriptor stands *)
  hv_dec : fr_state;     (* the reader under the buffer *)
  hv_buf : Bytes;        (* read, not yet returned *)
  hv_offset : nat;
  hv_lastSave : Time;
  hv_registry : option OffsetRegistry;
  hv_lines : list Bytes  (* sent to [lineCh], in order *)
}.

(** Opening; seeking does not fail on a regular file. *)
Definition start_offset (cfg : HarvesterConfig) (inode : N) (content : Bytes) : nat :=
  let start :=
    if hc_FromBegin cfg then 0
    else match hc_Registry cfg with Some r => GetOffset (hc_File cfg) inode r | None => 0 end in
  if 0 <? start then Z.to_nat start
  else if hc_FromBegin cfg then O else length content.

Definition NewHarvester (cfg : HarvesterConfig) (inode : N) (content : Bytes) (now : Time)
    : Harvester :=
  let off := start_offset cfg inode content in
  {| hv_pos := off; hv_dec := fr_new; hv_buf := []; hv_offset := off; hv_lastSave := now;
     hv_registry := hc_Registry cfg; hv_lines := [] |}.

Definition chomp (line : Bytes) : Bytes :=
  if decide (last line = Some nl) then take (length line - 1) line else line.

(** True: [io.EOF]. *)
Definition readOne (content : Bytes) (h : Harvester) : bool * Harvester :=
  let '(line, buf, pos, dec, eof) := ReadString content (hv_pos h) (hv_dec h) (hv_buf h) in
  let h := {| hv_pos := pos; hv_dec := dec; hv_buf := buf; hv_offset := hv_offset h;
              hv_lastSave := hv_lastSave h; hv_registry := hv_registry h;
              hv_lines := hv_lines h |} in
  (eof, if decide (line = []) then h
        else {| hv_pos := pos; hv_dec := dec; hv_buf := buf; hv_offset := pos;
                hv_lastSave := hv_lastSave h; hv_registry := hv_registry h;
                hv_lines := hv_lines h ++ [chomp line] |}).

(** [waitMore] starts a fresh reader, and a fresh decoder, at the same position. *)
Definition waitMore (h : Harvester) : Harvester :=
  {| hv_pos := hv_pos h; hv_dec := fr_new; hv_buf := []; hv_offset := hv_offset h;
     hv_lastSave := hv_lastSave h; hv_registry := hv_registry h; hv_lines := hv_lines h |}.

Definition save_offset (cfg : HarvesterConfig) (inode : N) (h : Harvester)
    : option OffsetRegistry :=
  SetOffset (hc_File cfg) inode (Z.of_nat (hv_offset h)) <$> hv_registry h.

Definition maybeSaveOffset (cfg : HarvesterConfig) (inode : N) (now : Time) (h : Harvester)
    : Harvester :=
  match hv_registry h with
  | None => h
  | Some _ =>
      if Sub now (hv_lastSave h) <? 5 * Second then h
      else {| hv_pos := hv_pos h; hv_dec := hv_dec h; hv_buf := hv_buf h; hv_offset := hv_offset h;
              hv_lastSave := now; hv_registry := save_offset cfg inode h;
              hv_lines := hv_lines h |}
  end.

(** The loop up to the next wait, on the content it finds; [clock] gives the
    time after the [n]-th line. *)
Fixpoint drain (fuel : nat) (cfg : HarvesterConfig) (inode : N) (clock : nat -> Time)
    (content : Bytes) (h : Harvester) : Harvester :=
  match fuel with
  | O => h
  | S fuel' =>
      let '(eof, h) := readOne content h in
      if eof : bool then waitMore h
      else drain fuel' cfg inode clock content
             (maybeSaveOffset cfg inode (clock (length (hv_lines h))) h)
  end.

(** Every line takes at least a byte. *)
Definition drain_fuel (content : Bytes) (h : Harvester) : nat :=
  S (length (hv_buf h) + fr_left (drop (hv_pos h) content) (hv_dec h)).

(** The loop while the file grows by [segs], piece by piece (the first piece
    may be empty: what is there at the start). *)
Fixpoint follow (cfg : HarvesterConfig) (inode : N) (clock : nat -> Time)
    (content : Bytes) (segs : list Bytes) (h : Harvester) : Bytes * Harvester :=
  match segs with
  | [] => (content, h)
  | seg :: segs' =>
      let content := content ++ seg in
      follow cfg inode clock content segs' (drain (drain_fuel content h) cfg inode clock content h)
  end.

(** [Close]: the last save. *)
Definition CloseHarvester (cfg : HarvesterConfig) (inode : N) (h : Harvester)
    : option OffsetRegistry := save_offset cfg inode h.
End harvester.
