(* ===== verification/HarvesterSpec.v ===== *)
(** * What following a file delivers

    Every byte that is appended is delivered in a line, once and in order; a
    line that is written in two pieces can be torn. The offset that is saved is
    how far the file has been read into the buffer, not how far lines have been
    delivered. *)
From Stdlib Require Import Ascii String.
From stdpp Require Import pretty.
From S2P Require Import Prelude GoTime LabelsJson Harvester.

(** ** Fuel

    A reader that gives no more bytes than it says needs no more fuel than
    [ReadString] has. *)
Definition within_bound (F : FileReader) : Prop := forall max rest st chunk n st',
  fr_read max rest st = (chunk, n, st') -> (length chunk + fr_left (drop n rest) st' <= fr_left rest st)%nat.

Lemma raw_within_bound : within_bound raw_reader.
Proof.
  intros max rest st chunk n st' [= <- <- <-]. simpl. rewrite length_drop, length_take. lia.
Qed.

Lemma cut_shorter s l rest : cut s = Some (l, rest) -> (length rest < length s)%nat.
Proof.
  revert l. induction s as [|c s IH]; intros l; simpl; [done|].
  case_decide; [intros; simplify_eq; lia|]. destruct (cut s) as [[l' r']|]; [|done].
  intros; simplify_eq. specialize (IH _ eq_refl). lia.
Qed.

Lemma read_string_fuel (F : FileReader) size content (HF : within_bound F) (Hs : (0 < size)%nat) f g pos dec buf acc :
  (2 * fr_left (drop pos content) dec + min 1 (length buf) + 1 <= f)%nat -> (f <= g)%nat ->
  read_string size g content pos dec buf acc = read_string size f content pos dec buf acc.
Proof.
  revert g pos dec buf acc. induction f as [|f IH]; intros g pos dec buf acc Hf Hg; [lia|].
  destruct g as [|g]; [lia|]. cbn [read_string]. destruct (cut buf) as [[l r]|]; [done|].
  case_decide as Hfull.
  { apply IH; [|lia]. destruct buf; simpl in *; lia. }
  destruct (fr_read _ _ dec) as [[chunk n] dec'] eqn:E. apply HF in E. rewrite drop_drop in E.
  case_decide as Hc; [done|]. apply IH; [|lia]. destruct chunk as [|c chunk]; [done|]. rewrite length_app.
  cbn [length] in E |- *. lia.
Qed.

(** Any fuel above [ReadString]'s gives the same. *)
Lemma ReadString_fuel (F : FileReader) size content pos dec buf g :
  within_bound F -> (0 < size)%nat ->
  (2 * fr_left (drop pos content) dec + length buf + 2 <= g)%nat ->
  read_string size g content pos dec buf [] = ReadString size content pos dec buf.
Proof. intros HF Hs Hg. by apply read_string_fuel; [done|done|lia|]. Qed.

(** From here on the file is read as it is. *)
#[local] Existing Instance raw_reader.

Section reader.
Context (size : nat).

Lemma cut_app_some s l r t : cut s = Some (l, r) -> cut (s ++ t) = Some (l, r ++ t).
Proof.
  revert l. induction s as [|c s IH]; intros l; simpl; [done|].
  case_decide; [intros; by simplify_eq|]. destruct (cut s) as [[l' r']|]; [|done].
  intros; simplify_eq. by rewrite (IH _ eq_refl).
Qed.

Lemma cut_app_none s t :
  cut s = None -> cut (s ++ t) = match cut t with Some (l, r) => Some (s ++ l, r) | None => None end.
Proof.
  induction s as [|c s IH]; simpl; [by destruct (cut t) as [[]|]|].
  case_decide; [done|]. destruct (cut s) as [[]|]; [done|]. intros _. rewrite IH by done.
  by destruct (cut t) as [[]|].
Qed.

Lemma cut_nonempty s l r : cut s = Some (l, r) -> exists l0, l = l0 ++ [nl] /\ s = l ++ r.
Proof.
  revert l. induction s as [|c s IH]; intros l; simpl; [done|].
  case_decide as Hc; [intros; simplify_eq; by exists []|].
  destruct (cut s) as [[l' r']|]; [|done]. intros; simplify_eq.
  destruct (IH _ eq_refl) as (l0 & -> & ->). by exists (c :: l0).
Qed.

Lemma take_length_drop {A} k (s : list A) : take k s ++ drop (length (take k s)) s = s.
Proof.
  rewrite length_take. destruct (decide (k <= length s)%nat).
  - by rewrite Nat.min_l, take_drop by lia.
  - by rewrite Nat.min_r, take_ge, drop_all, app_nil_r by lia.
Qed.

(** What one [ReadString] returns, given what is still to be read. *)
Definition reads (content todo acc : Bytes) (res : Bytes * Bytes * nat * unit * bool) : Prop :=
  match cut todo with
  | Some (l, rest) => exists buf pos, res = (acc ++ l, buf, pos, tt, false) /\
      buf ++ drop pos content = rest /\ (pos <= length content)%nat
  | None => res = (acc ++ todo, [], length content, tt, true)
  end.

Lemma read_string_reads fuel content pos dec buf acc :
  (0 < size)%nat -> (pos <= length content)%nat ->
  (2 * (length content - pos) + min 1 (length buf) + 1 <= fuel)%nat ->
  reads content (buf ++ drop pos content) acc (read_string size fuel content pos dec buf acc).
Proof.
  intros Hs. destruct dec. revert pos buf acc. induction fuel as [|fuel IH]; intros pos buf acc Hp Hf; [lia|].
  simpl. unfold reads. destruct (cut buf) as [[l r]|] eqn:Ec.
  { rewrite (cut_app_some _ _ _ _ Ec). by exists r, pos. }
  case_decide as Hfull.
  - specialize (IH pos [] (acc ++ buf) Hp ltac:(simpl; lia)). unfold reads in IH. simpl in IH.
    rewrite cut_app_none by done. destruct (cut (drop pos content)) as [[l r]|].
    + destruct IH as (buf' & pos' & -> & ? & ?). exists buf', pos'. by rewrite <-app_assoc.
    + by rewrite IH, <-app_assoc.
  - set (chunk := take (size - length buf) (drop pos content)).
    assert (length chunk = min (size - length buf) (length content - pos))%nat as Hlen
      by (unfold chunk; by rewrite length_take, length_drop).
    case_decide as E; fold chunk in E |- *.
    + assert (drop pos content = []) as Hd.
      { apply nil_length_inv. rewrite length_drop. rewrite E in Hlen. simpl in Hlen. lia. }
      assert (pos = length content) as -> by (apply (f_equal length) in Hd; rewrite length_drop in Hd; simpl in Hd; lia).
      rewrite Hd, app_nil_r, Ec, E. simpl. by rewrite Nat.add_0_r.
    + assert (0 < length chunk)%nat as Hpos by (destruct chunk; [done|simpl; lia]).
      specialize (IH (pos + length chunk)%nat (buf ++ chunk) acc ltac:(lia)).
      rewrite length_app in IH. specialize (IH ltac:(lia)). unfold reads in IH.
      assert ((buf ++ chunk) ++ drop (pos + length chunk) content = buf ++ drop pos content) as Ht.
      { rewrite <-app_assoc, <-drop_drop. f_equal. apply take_length_drop. }
      by rewrite Ht in IH.
Qed.

Lemma ReadString_reads content pos dec buf :
  (0 < size)%nat -> (pos <= length content)%nat ->
  reads content (buf ++ drop pos content) [] (ReadString size content pos dec buf).
Proof. intros Hs Hp. apply read_string_reads; [done|done|]. cbn [fr_left raw_reader]. rewrite length_drop. lia. Qed.
End reader.

(** ** Lines *)

(** The lines of a text; a last line without a line break counts. *)
Fixpoint split_lines (s : Bytes) : list Bytes :=
  match s with
  | [] => []
  | c :: s' =>
      if decide (c = nl) then [] :: split_lines s'
      else match split_lines s' with [] => [[c]] | l :: ls => (c :: l) :: ls end
  end.

(** Text that ends in a line break, or is empty. *)
Definition complete (s : Bytes) : Prop := s = [] \/ last s = Some nl.

Lemma chomp_line l : chomp (l ++ [nl]) = l.
Proof.
  unfold chomp. rewrite last_snoc, decide_True by done. rewrite length_app. simpl.
  rewrite Nat.add_sub, take_app_le by lia. by rewrite take_ge.
Qed.

Lemma split_lines_cut s :
  split_lines s = match cut s with
                  | Some (l, rest) => chomp l :: split_lines rest
                  | None => if decide (s = []) then [] else [s]
                  end.
Proof.
  induction s as [|c s IH]; [done|]. simpl. destruct (decide (c = nl)) as [->|Hc].
  { by rewrite (chomp_line [] : chomp [nl] = []). }
  rewrite IH. destruct (cut s) as [[l rest]|] eqn:E.
  - apply cut_nonempty in E as (l0 & -> & _).
    change (c :: l0 ++ [nl]) with ((c :: l0) ++ [nl]). by rewrite !chomp_line.
  - by case_decide; subst.
Qed.

Lemma cut_none_last s : cut s = None -> last s <> Some nl.
Proof.
  induction s as [|c s IH]; [done|]. simpl. case_decide as Hc; [done|].
  destruct (cut s) as [[]|]; [done|]. intros _. specialize (IH eq_refl).
  destruct s; [naive_solver|]. exact IH.
Qed.

Lemma split_lines_app s t : complete s -> split_lines (s ++ t) = split_lines s ++ split_lines t.
Proof.
  remember (length s) as n eqn:Hn. revert s Hn.
  induction (lt_wf n) as [n _ IH]. intros s -> Hs.
  rewrite (split_lines_cut (s ++ t)), (split_lines_cut s).
  destruct (cut s) as [[l r]|] eqn:E.
  - rewrite (cut_app_some _ _ _ _ E).
    destruct (cut_nonempty _ _ _ E) as (l0 & -> & ->). simpl. f_equal.
    apply (IH (length r)); [rewrite !length_app; simpl; lia|done|].
    destruct Hs as [Hs|Hs].
    + by destruct l0.
    + destruct r as [|c r]; [by left|]. right. by rewrite last_app_cons in Hs.
  - destruct Hs as [->|Hs]; [simpl; by rewrite <-split_lines_cut|].
    by apply cut_none_last in E.
Qed.

(** ** The loop *)
Section loop.
Context (size : nat) (Hsize : (0 < size)%nat).
Context (cfg : HarvesterConfig) (inode : N) (clock : nat -> Time).

(** What is still to be delivered of a content. *)
Definition todo (content : Bytes) (h : Harvester) : Bytes :=
  hv_buf h ++ drop (hv_pos h) content.

Definition within (content : Bytes) (h : Harvester) : Prop := (hv_pos h <= length content)%nat.

Lemma todo_fuel content h : (length (todo content h) < drain_fuel content h)%nat.
Proof. clear. unfold todo, drain_fuel. simpl. rewrite length_app. lia. Qed.

Lemma readOne_step content h :
  within content h ->
  let '(eof, h') := readOne size content h in
  match cut (todo content h) with
  | Some (l, rest) => eof = false /\ hv_lines h' = hv_lines h ++ [chomp l] /\
      todo content h' = rest /\ within content h' /\ hv_offset h' = hv_pos h'
  | None => eof = true /\ hv_lines h' = hv_lines h ++ split_lines (todo content h) /\
      hv_buf h' = [] /\ hv_pos h' = length content /\
      hv_offset h' = if decide (todo content h = []) then hv_offset h else hv_pos h'
  end.
Proof using Hsize.
  intros Hw. unfold readOne. pose proof (ReadString_reads size content (hv_pos h) (hv_dec h) (hv_buf h) Hsize Hw) as H.
  fold (todo content h) in H. unfold reads in H.
  destruct (cut (todo content h)) as [[l rest]|] eqn:E.
  - destruct H as (buf & pos & -> & Hr & Hp). simpl.
    destruct (cut_nonempty _ _ _ E) as (l0 & -> & _).
    rewrite decide_False by (by destruct l0). by split_and!.
  - rewrite H. simpl. rewrite split_lines_cut, E.
    destruct (decide (todo content h = [])) as [Et|Et]; simpl; [by rewrite app_nil_r|].
    split_and!; try done. f_equal. f_equal. unfold chomp. rewrite decide_False; [done|].
    by apply cut_none_last.
Qed.

Lemma maybeSave_same now h content :
  hv_lines (maybeSaveOffset cfg inode now h) = hv_lines h /\
  todo content (maybeSaveOffset cfg inode now h) = todo content h /\
  (within content (maybeSaveOffset cfg inode now h) <-> within content h).
Proof. unfold maybeSaveOffset. by repeat case_match. Qed.

Lemma drain_all fuel content h :
  within content h -> (length (todo content h) < fuel)%nat ->
  let h' := drain size fuel cfg inode clock content h in
  hv_lines h' = hv_lines h ++ split_lines (todo content h) /\
  hv_buf h' = [] /\ hv_pos h' = length content.
Proof using Hsize.
  revert h. induction fuel as [|fuel IH]; intros h Hw Hf; [lia|]. simpl.
  pose proof (readOne_step content h Hw) as H.
  destruct (readOne size content h) as [eof h1].
  destruct (cut (todo content h)) as [[l rest]|] eqn:E.
  - destruct H as (-> & Hl & Ht & Hw1 & _).
    set (now := clock (length (hv_lines h1))).
    destruct (maybeSave_same now h1 content) as (Hsl & Hst & Hsw).
    destruct (cut_nonempty _ _ _ E) as (l0 & -> & El).
    apply (f_equal length) in El. rewrite !length_app in El. simpl in El.
    destruct (IH (maybeSaveOffset cfg inode now h1)) as (H1 & H2 & H3);
      [by apply Hsw|rewrite Hst, Ht; lia|].
    split_and!; [|done|done]. rewrite H1, Hsl, Hst, Ht, Hl, <-app_assoc. f_equal.
    rewrite (split_lines_cut (todo content h)), E. done.
  - destruct H as (-> & Hl & Hb & Hp & _). simpl. by rewrite Hl, Hp.
Qed.

Lemma follow_all content segs h :
  hv_buf h = [] -> hv_pos h = length content ->
  let '(content', h') := follow size cfg inode clock content segs h in
  content' = content ++ concat segs /\ hv_buf h' = [] /\ hv_pos h' = length content' /\
  hv_lines h' = hv_lines h ++ concat (split_lines <$> segs).
Proof using Hsize.
  revert content h. induction segs as [|seg segs IH]; intros content h Hb Hp; simpl.
  { by rewrite !app_nil_r. }
  assert (todo (content ++ seg) h = seg) as Ht.
  { unfold todo. rewrite Hb, Hp, drop_app_length. done. }
  destruct (drain_all (drain_fuel (content ++ seg) h) (content ++ seg) h) as (H1 & H2 & H3).
  - unfold within. rewrite length_app. lia.
  - apply todo_fuel.
  - specialize (IH (content ++ seg) _ H2 H3).
    destruct (follow _ _ _ _ _ segs _) as [content' h'].
    destruct IH as (-> & ? & ? & Hl). split_and!; [by rewrite <-app_assoc|done|done|].
    rewrite Hl, H1, Ht. by rewrite <-app_assoc.
Qed.

Lemma concat_complete segs :
  Forall complete segs -> concat (split_lines <$> segs) = split_lines (concat segs).
Proof.
  induction 1 as [|seg segs Hseg _ IH]; [done|]. simpl.
  rewrite split_lines_app by done. f_equal. exact IH.
Qed.
End loop.

Lemma get_set_offset path inode off r : GetOffset path inode (SetOffset path inode off r) = off.
Proof. unfold GetOffset, SetOffset. by rewrite lookup_insert_eq. Qed.

(** A rest that fits into the buffer is read in one go. *)
Lemma ReadString_fits size content pos dec l rest :
  (0 < size)%nat -> (pos <= length content)%nat -> (length content - pos <= size)%nat ->
  cut (drop pos content) = Some (l, rest) ->
  ReadString size content pos dec [] = (l, rest, length content, tt, false).
Proof.
  intros Hs Hp Hfit E. unfold ReadString. destruct dec. cbn [fr_left raw_reader]. rewrite length_drop.
  replace (2 * (length content - pos) + length (@nil ascii) + 2)%nat
    with (S (S (2 * (length content - pos)))) by (simpl; lia).
  cbn [read_string cut length fr_read raw_reader]. rewrite decide_False by lia.
  rewrite Nat.sub_0_r, take_ge by (rewrite length_drop; lia).
  rewrite decide_False by (intros Ed; by rewrite Ed in E). cbn [app].
  rewrite E, length_drop. do 3 f_equal. lia.
Qed.

(** A harvester without a decoder at the end of its file delivers the lines of every piece
    that is appended, in order and each once, for every buffer size and
    whatever offsets are saved on the way; if every piece ends in a line break
    they are exactly the lines of what was appended. (A piece that does not is
    cut there: its last line is delivered at once, and the rest of it as a line
    of its own.) *)
Theorem follow_delivers_lines size cfg inode clock content segs h :
  (0 < size)%nat -> hv_buf h = [] -> hv_pos h = length content ->
  let '(content', h') := follow size cfg inode clock content segs h in
  content' = content ++ concat segs /\
  hv_lines h' = hv_lines h ++ concat (split_lines <$> segs) /\
  (Forall complete segs -> hv_lines h' = hv_lines h ++ split_lines (concat segs)).
Proof.
  intros Hs Hb Hp. pose proof (follow_all size Hs cfg inode clock content segs h Hb Hp) as H.
  destruct (follow _ _ _ _ _ _ _) as [content' h']. destruct H as (-> & _ & _ & Hl).
  split_and!; [done|done|]. intros Hc. by rewrite Hl, concat_complete.
Qed.

(** C38: the offset a harvester - here one of a file that is read without a
    decoder - records after a line is where the file
    descriptor stands. If the rest of the file fits into the buffer that is its
    end already after the first line: a harvester restarted from the saved
    offset delivers none of the other lines, whether or not anybody has read
    them. *)
Theorem saved_offset_skips_buffered_lines size cfg inode clock content h l rest now reg :
  (0 < size)%nat -> hv_buf h = [] -> within content h ->
  (length content - hv_pos h <= size)%nat ->
  cut (drop (hv_pos h) content) = Some (l, rest) -> hv_registry h = Some reg ->
  let h1 := snd (readOne size content h) in
  hv_lines h1 = hv_lines h ++ [chomp l] /\ todo content h1 = rest /\
  forall reg', CloseHarvester cfg inode h1 = Some reg' ->
    let cfg' := {| hc_File := hc_File cfg; hc_FromBegin := false; hc_Registry := Some reg' |} in
    let restarted := NewHarvester cfg' inode content now in
    hv_lines (drain size (S (length content)) cfg' inode clock content restarted) = [].
Proof.
  intros Hs Hb Hw Hfit E Hreg h1.
  destruct (cut_nonempty _ _ _ E) as (l0 & -> & El).
  assert (0 < length content)%nat as Hpos.
  { apply (f_equal length) in El. rewrite length_drop, !length_app in El. simpl in El. lia. }
  assert (hv_lines h1 = hv_lines h ++ [chomp (l0 ++ [nl])] /\ todo content h1 = rest /\
    hv_offset h1 = length content /\ hv_registry h1 = Some reg) as (Hl & Ht & Ho & Hr).
  { unfold h1, readOne. rewrite Hb, (ReadString_fits size content (hv_pos h) (hv_dec h) (l0 ++ [nl]) rest) by done.
    cbn [snd]. rewrite decide_False by (by destruct l0).
    split_and!; [done|unfold todo; simpl; by rewrite drop_all, app_nil_r|done|done]. }
  clearbody h1. split_and!; [done|done|].
  intros reg' Hc cfg' restarted. unfold CloseHarvester, save_offset in Hc.
  rewrite Hr, Ho in Hc. injection Hc as <-.
  assert (start_offset cfg' inode content = length content) as Hst.
  { unfold start_offset, cfg'. simpl. rewrite get_set_offset.
    rewrite (proj2 (Z.ltb_lt _ _)) by lia. lia. }
  destruct (drain_all size Hs cfg' inode clock (S (length content)) content restarted)
    as (-> & _ & _); unfold within, todo, restarted; simpl; rewrite Hst; [lia| |].
  - rewrite drop_all. simpl. lia.
  - by rewrite drop_all.
Qed.

(** ** The offset registry *)
Section offsets.

Definition colon : ascii := ":"%char.

Lemma pretty_digit_not_colon n : pretty_N_char n <> colon.
Proof. unfold pretty_N_char. by repeat case_match. Qed.

Lemma pretty_N_go_no_colon x s :
  colon ∉ list_ascii_of_string s -> colon ∉ list_ascii_of_string (pretty_N_go x s).
Proof.
  revert s. induction (N.lt_wf_0 x) as [x _ IH]. intros s Hs.
  destruct (decide (x = 0)%N) as [->|Hx]; [by rewrite pretty_N_go_0|].
  rewrite pretty_N_go_step by lia. apply IH.
  - apply N.div_lt; lia.
  - simpl. apply not_elem_of_cons. split; [|done].
    intros E. by eapply pretty_digit_not_colon.
Qed.

Lemma pretty_N_no_colon (n : N) : colon ∉ list_ascii_of_string (pretty n).
Proof.
  unfold pretty, pretty_N. case_decide; [|apply pretty_N_go_no_colon; by apply not_elem_of_nil].
  simpl. by rewrite list_elem_of_singleton.
Qed.

Lemma list_ascii_app s t :
  list_ascii_of_string (s +:+ t) = list_ascii_of_string s ++ list_ascii_of_string t.
Proof. induction s as [|c s IH]; simpl; [done|]. by rewrite IH. Qed.

Lemma registry_key_inj p q i j : registry_key p i = registry_key q j -> p = q /\ i = j.
Proof.
  unfold registry_key. intros E%(f_equal list_ascii_of_string). rewrite !list_ascii_app in E. simpl in E.
  apply (f_equal reverse) in E. rewrite !reverse_app, !reverse_cons, <-!app_assoc in E. simpl in E.
  apply (app_sep_inj colon) in E as [E1 E2]; [|rewrite elem_of_reverse; apply pretty_N_no_colon..].
  apply (inj reverse) in E1, E2. split.
  - rewrite <-(string_of_list_ascii_of_string p), <-(string_of_list_ascii_of_string q). by rewrite E2.
  - apply (inj pretty). rewrite <-(string_of_list_ascii_of_string (pretty i)),
      <-(string_of_list_ascii_of_string (pretty j)). by rewrite E1.
Qed.

(** Every entry stands under its own key. *)
Definition well_keyed (r : OffsetRegistry) : Prop := forall k e,
  r !! k = Some e -> k = registry_key (oe_Path e) (oe_Inode e).

Lemma well_keyed_set p i o r : well_keyed r -> well_keyed (SetOffset p i o r).
Proof.
  intros H k e. unfold SetOffset. rewrite lookup_insert_Some. intros [[<- <-]|[_ ?]]; [done|eauto].
Qed.

(** Offsets recorded one after the other, and the last one for a file. *)
Definition record_all (sets : list (string * N * Z)) : OffsetRegistry :=
  foldl (fun r s => SetOffset s.1.1 s.1.2 s.2 r) ∅ sets.

Definition last_recorded (p : string) (i : N) (sets : list (string * N * Z)) : Z :=
  foldl (fun o s => if decide (s.1 = (p, i)) then s.2 else o) 0 sets.

Lemma get_other p i q j o r :
  (q, j) <> (p, i) -> GetOffset p i (SetOffset q j o r) = GetOffset p i r.
Proof.
  intros Hne. unfold GetOffset, SetOffset. rewrite lookup_insert_ne; [done|].
  intros [-> ->]%registry_key_inj. done.
Qed.

Lemma record_all_spec sets :
  well_keyed (record_all sets) /\
  forall p i, GetOffset p i (record_all sets) = last_recorded p i sets.
Proof.
  unfold record_all, last_recorded.
  induction sets as [|[[q j] o] sets IH] using rev_ind; [done|]. rewrite foldl_snoc.
  destruct IH as [Hk IH]. split; [by apply well_keyed_set|]. intros p i. rewrite foldl_snoc. simpl.
  case_decide as E; [|by rewrite get_other]. simplify_eq. apply get_set_offset.
Qed.

Context {R : MapRange}.

Lemma load_save r : well_keyed r -> load (Save r) ∅ = r.
Proof.
  intros Hk. apply map_eq. intros k.
  assert (forall m, load (Save r) m = foldl (fun m kv => <[kv.1 := kv.2]> m) m (range r)) as ->.
  { unfold load, Save. assert (forall kv, kv ∈ range r ->
      kv.1 = registry_key (oe_Path kv.2) (oe_Inode kv.2)) as H.
    { intros [k' e] Hin%elem_of_range. by apply Hk. }
    induction (range r) as [|kv kvs IH]; intros m; [done|]. simpl.
    rewrite <-(H kv) by (by left). apply IH. intros kv' Hin. apply H. by right. }
  rewrite (foldl_put_range (fun e => e)). destruct (r !! k); [done|apply lookup_empty].
Qed.

(** The registry answers for every file - path and inode, whatever
    characters the path has - the offset recorded last for it, or 0, and
    writing it out and loading it again, in whatever order the entries are
    written, changes nothing. *)
Theorem offsets_survive_restart sets :
  (forall p i, GetOffset p i (record_all sets) = last_recorded p i sets) /\
  load (Save (record_all sets)) ∅ = record_all sets.
Proof. destruct (record_all_spec sets) as [Hk Hg]. split; [done|]. by apply load_save. Qed.
End offsets.

(** ** Concrete files *)
Definition demo_cfg : HarvesterConfig :=
  {| hc_File := "/var/log/app.log"; hc_FromBegin := true; hc_Registry := Some ∅ |}.

Definition text (s : string) : Bytes := list_ascii_of_string s.

Definition line_break : string := String nl EmptyString.

Definition demo_content : Bytes :=
  text ("one" +:+ line_break +:+ "two" +:+ line_break +:+ "three" +:+ line_break).

(** A buffer of four bytes, a line written in two pieces. *)
Lemma demo_torn_line :
  string_of_list_ascii <$>
    hv_lines (snd (follow 4 demo_cfg 7 (fun _ => 0) []
      [text ("first" +:+ line_break +:+ "sec"); text ("ond" +:+ line_break)]
      (NewHarvester demo_cfg 7 [] 0))) = ["first"; "sec"; "ond"]%string.
Proof. vm_compute. reflexivity. Qed.

Lemma follow_delivers_lines_witness :
  let '(content', h') := follow 16 demo_cfg 7 (fun _ => 0) [] [demo_content]
      (NewHarvester demo_cfg 7 [] 0) in
  content' = [] ++ concat [demo_content] /\
  hv_lines h' = [] ++ concat (split_lines <$> [demo_content]) /\
  (Forall complete [demo_content] -> hv_lines h' = [] ++ split_lines (concat [demo_content])).
Proof.
  apply (follow_delivers_lines 16 demo_cfg 7 (fun _ => 0) [] [demo_content]
    (NewHarvester demo_cfg 7 [] 0)); [lia|reflexivity|reflexivity].
Defined.

Lemma saved_offset_skips_buffered_lines_witness :
  let h1 := snd (readOne 64 demo_content (NewHarvester demo_cfg 7 demo_content 0)) in
  hv_lines h1 = [] ++ [text "one"] /\
  todo demo_content h1 = text ("two" +:+ line_break +:+ "three" +:+ line_break) /\
  forall reg', CloseHarvester demo_cfg 7 h1 = Some reg' ->
    let cfg' := {| hc_File := hc_File demo_cfg; hc_FromBegin := false; hc_Registry := Some reg' |} in
    let restarted := NewHarvester cfg' 7 demo_content 0 in
    hv_lines (drain 64 (S (length demo_content)) cfg' 7 (fun _ => 0) demo_content restarted) = [].
Proof.
  apply (saved_offset_skips_buffered_lines 64 demo_cfg 7 (fun _ => 0) demo_content
    (NewHarvester demo_cfg 7 demo_content 0) (text ("one" +:+ line_break))
    (text ("two" +:+ line_break +:+ "three" +:+ line_break)) 0 ∅);
    [lia|reflexivity|apply Nat.leb_le; reflexivity|apply Nat.leb_le; reflexivity|reflexivity|reflexivity].
Defined.
