(* ===== verification/GoFloat.v ===== *)
(** * float64

    Go's float64 operations on [SpecFloat], the Standard Library's executable
    IEEE 754 arithmetic, at binary64. *)
From Stdlib Require Import SpecFloat.
From S2P Require Import Prelude.

Definition float64 := spec_float.
Definition float_of (n : Z) : float64 := binary_normalize 53 1024 n 0 false.
Definition fdiv (x y : float64) : float64 := SFdiv 53 1024 x y.
Definition fsub (x y : float64) : float64 := SFsub 53 1024 x y.
Definition fadd (x y : float64) : float64 := SFadd 53 1024 x y.
Definition fzero : float64 := S754_zero false.
Definition flt (x y : float64) : bool := SFltb x y.

(** ** Integers below 2^53 *)
Section exact.

Lemma digits_lower p : 2 ^ (Zpos (digits2_pos p) - 1) <= Zpos p.
Proof.
  induction p as [p IH|p IH|]; cbn [digits2_pos]; [| |done];
    rewrite Pos2Z.inj_succ, Z.sub_succ_l, Z.pow_succ_r by lia; lia.
Qed.

Lemma digits_shift p k :
  Zpos (digits2_pos (Pos.iter xO p k)) = Zpos (digits2_pos p) + Zpos k.
Proof.
  revert p. induction k as [|k IH] using Pos.peano_ind; intros p; simpl; [lia|].
  rewrite Pos.iter_succ. cbn [digits2_pos]. rewrite Pos2Z.inj_succ, IH. lia.
Qed.

(** A number of 53 digits is not rounded. *)
Lemma normal_not_rounded m e :
  Zpos (digits2_pos m) = 53 -> -1074 <= e <= 971 ->
  binary_round_aux 53 1024 false (Zpos m) e loc_Exact = S754_finite false m e.
Proof.
  intros Hd He. unfold binary_round_aux, shr_fexp. simpl Zdigits2. rewrite Hd.
  assert (fexp 53 1024 (53 + e) - e = 0) as Hz by (unfold fexp, SpecFloat.emin; lia).
  rewrite Hz. simpl. rewrite Hd, Hz. simpl.
  by rewrite (proj2 (Z.leb_le _ _)) by lia.
Qed.

Lemma float_of_positive n :
  0 < n < 2 ^ 53 -> exists m e, float_of n = S754_finite false m e.
Proof.
  intros [Hn Hlt]. destruct n as [|p|p]; [lia| |lia].
  unfold float_of, binary_normalize, binary_round.
  pose proof (digits_lower p) as Hlow. set (d := Zpos (digits2_pos p)) in *.
  assert (1 <= d <= 53) as Hd.
  { split; [lia|]. assert (d - 1 < 53); [|lia]. apply (Z.pow_lt_mono_r_iff 2); lia. }
  rewrite Z.add_0_r.
  assert (fexp 53 1024 d = d - 53) as -> by (unfold fexp, SpecFloat.emin; lia).
  unfold shl_align. rewrite Z.sub_0_r. destruct (d - 53) as [|k|k] eqn:E; [|lia|].
  - eexists _, _. apply normal_not_rounded; unfold d in *; lia.
  - eexists _, _. apply normal_not_rounded; [rewrite digits_shift; fold d|]; lia.
Qed.

(** [n > 0] as a float comparison. *)
Lemma flt_zero_of n : 0 <= n < 2 ^ 53 -> flt fzero (float_of n) = bool_decide (0 < n).
Proof.
  intros Hn. destruct (decide (n = 0)) as [->|Hne]; [done|].
  destruct (float_of_positive n) as (m & e & ->); [lia|].
  symmetry. apply bool_decide_eq_true. lia.
Qed.
End exact.

(** [int64(x)]: the integer part; what Go leaves to the implementation (not a
    number, out of range) is the least integer, as on amd64. *)
Definition to_int64 (x : float64) : Z :=
  let fit z := if (- 2 ^ 63 <=? z) && (z <=? 2 ^ 63 - 1) then z else - 2 ^ 63 in
  match x with
  | S754_zero _ => 0
  | S754_infinity _ | S754_nan => - 2 ^ 63
  | S754_finite s m e =>
      let n := if 0 <=? e then Zpos m * 2 ^ e else Zpos m / 2 ^ (- e) in
      fit (if s then - n else n)
  end.
