(* ===== verification/Ping.v ===== *)
(** * The ICMP probe (tasks/ping/echo.go, icmp.go, result.go, tasks/probe)

    A probe sends numbered echo requests and waits for each reply. Encoding and
    parsing of ICMP messages and name resolution are libraries: [Marshal],
    [ParseMessage] and [resolve] are arguments. *)
From stdpp Require Import pretty.
From S2P Require Import Prelude GoTime GoFloat Configs.

(** ** tasks/ping/echo.go *)
Definition Bytes := list Z.
Definition echoHeaderSize : Z := 4.

Definition le16 (n : Z) : Bytes := [n mod 256; n / 256 mod 256].

Definition buildEchoMessage (id seq payloadSize : Z) : result Bytes :=
  if payloadSize <? echoHeaderSize then
    Err ("ping: payload size " +:+ pretty payloadSize +:+ " below minimum " +:+
         pretty echoHeaderSize)
  else if (id <? 0) || (65535 <? id) then Err ("ping: id " +:+ pretty id +:+ " outside uint16 range")
  else if (seq <? 0) || (65535 <? seq) then Err ("ping: seq " +:+ pretty seq +:+ " outside uint16 range")
  else Ok (le16 id ++ le16 seq ++ replicate (Z.to_nat (payloadSize - echoHeaderSize)) 0).

Definition parseEchoMessage (msg : Bytes) : result (Z * Z * Z) :=
  match msg with
  | a :: b :: c :: d :: _ => Ok (a + b * 256, c + d * 256, Z.of_nat (length msg))
  | _ => Err ("ping: echo message shorter than header: " +:+ pretty (Z.of_nat (length msg)) +:+ " bytes")
  end.

(** ** tasks/ping/result.go *)
Record Tally := {
  received : Z;
  minRTT : Duration;
  maxRTT : Duration;
  totalRTT : Duration
}.

Definition tally_one (t : Tally) (rtt : Duration) : Tally :=
  if rtt <? 0 then t
  else {| received := received t + 1;
          totalRTT := wrap64 (totalRTT t + rtt);
          minRTT := if (minRTT t <? 0) || (rtt <? minRTT t) then rtt else minRTT t;
          maxRTT := if maxRTT t <? rtt then rtt else maxRTT t |}.

Definition tally (samples : list Duration) : Tally :=
  foldl tally_one {| received := 0; minRTT := -1; maxRTT := 0; totalRTT := 0 |} samples.

Definition millis (d : Duration) : float64 := fdiv (float_of d) (float_of Millisecond).

(** [None] is the nil map. *)
Definition aggregateResults (samples : list Duration) : option (gmap string float64) :=
  if decide (samples = []) then None
  else
    let sent := float_of (Z.of_nat (length samples)) in
    let t := tally samples in
    let m : gmap string float64 :=
      <["available" := fdiv (float_of (received t)) sent]>
      (<["packet_loss_percent" := fdiv (fsub sent (float_of (received t))) sent]>
      (<["packets_received" := float_of (received t)]>
      {["packets_sent" := sent]})) in
    if received t =? 0 then
      Some (<["max_rtt_ms" := float_of 0]> (<["avg_rtt_ms" := float_of 0]>
              (<["min_rtt_ms" := float_of 0]> m)))
    else
      Some (<["avg_rtt_ms" := millis (Z.quot (totalRTT t) (received t))]>
              (<["max_rtt_ms" := millis (maxRTT t)]> (<["min_rtt_ms" := millis (minRTT t)]> m))).

(** ** tasks/ping/icmp.go *)
Definition Addr := string.

(** What [icmp.ParseMessage] makes of a payload, as far as the probe looks. *)
Inductive IcmpBody :=
| Echo (id seq : Z) (data : Bytes)
| OtherBody.

Record IcmpMessage := { im_reply : bool; im_body : IcmpBody }.

(** One wake-up of a read: a packet with its sender, or an error. *)
Inductive Incoming :=
| I_packet (from : Addr) (raw : Bytes) (at_ : Time)
| I_error (e : error).

Section icmp.
Context (ParseMessage : Bytes -> result IcmpMessage).
Context (Marshal : IcmpMessage -> result Bytes).
(** strconv.Quote, for the verb %q; it needs the tables of printable runes. *)
Context (Quote : string -> string).

Definition parseICMPv4Message (raw : Bytes) : result IcmpMessage :=
  match raw with
  | [] => Err "empty ICMP packet"
  | b :: _ =>
      if Z.shiftr b 4 =? 4 then
        let headerLen := Z.land b 15 * 4 in
        if (headerLen <? 20) || (Z.of_nat (length raw) <=? headerLen) then
          Err ("invalid IPv4 header length " +:+ pretty headerLen +:+ " for " +:+
               pretty (Z.of_nat (length raw)) +:+ "-byte packet")
        else ParseMessage (drop (Z.to_nat headerLen) raw)
      else ParseMessage raw
  end.

Definition isMatchingEchoReply (raw : Bytes) (id seq : Z) : bool :=
  match parseICMPv4Message raw with
  | Err _ => false
  | Ok msg =>
      im_reply msg &&
      match im_body msg with Echo i s _ => (i =? id) && (s =? seq) | OtherBody => false end
  end.

(** The loop of [readOneEcho] over what the socket yields; the sender of a
    packet is not looked at. The list ends with the read that hits the deadline
    or the end of the context. *)
Fixpoint readOneEcho (incoming : list Incoming) (id seq : Z) : result Time :=
  match incoming with
  | [] => Err "i/o timeout"
  | I_error e :: _ => Err e
  | I_packet _ raw at_ :: incoming' =>
      if isMatchingEchoReply raw id seq then Ok at_ else readOneEcho incoming' id seq
  end.

(** What happens around the [seq]-th request (from 0): whether the context has
    ended before it, when it is sent and whether that works, what the socket
    yields, and whether the context ends during the pause after it. *)
Record Exchange := {
  ex_done : bool;
  ex_sendAt : Time;
  ex_write : result unit;
  ex_incoming : list Incoming;
  ex_interrupted : bool
}.

Definition echo_request (id seq : Z) (payload : Bytes) : IcmpMessage :=
  {| im_reply := false; im_body := Echo id seq payload |}.

(** One sample; -1 stands for a lost packet. *)
Definition sample (id seq payloadSize : Z) (ex : Exchange) : Duration * bool :=
  match buildEchoMessage id (seq + 1) payloadSize with
  | Err _ => (-1, false)
  | Ok payload =>
      match Marshal (echo_request id (seq + 1) payload) with
      | Err _ => (-1, false)
      | Ok _ =>
          match ex_write ex with
          | Err _ => (-1, false)
          | Ok _ =>
              match readOneEcho (ex_incoming ex) id (seq + 1) with
              | Err _ => (-1, false)
              | Ok at_ => (Sub at_ (ex_sendAt ex), true)
              end
          end
      end
  end.

(** The loop from [seq] on, [n] requests left. *)
Fixpoint samples_from (net : Z -> Exchange) (interval : Duration) (id payloadSize : Z) (n : nat)
    (seq : Z) : list Duration :=
  match n with
  | O => []
  | S n' =>
      if ex_done (net seq) then replicate n (-1)
      else
        let '(rtt, answered) := sample id seq payloadSize (net seq) in
        rtt ::
        (if answered && (0 <? interval) && (match n' with O => false | _ => true end) &&
            ex_interrupted (net seq)
         then replicate n' (-1)
         else samples_from net interval id payloadSize n' (seq + 1))
  end.

(** ** tasks/probe/result.go *)
Record Result := {
  rs_Metrics : gmap string float64;
  rs_Error : string;
  rs_Duration : Duration;
  rs_Success : bool
}.

Definition icmpBackendTag : Z := 1.

Definition failureResult (elapsed : Duration) (e : error) : Result :=
  {| rs_Metrics := {["backend" := float_of icmpBackendTag]}; rs_Error := e; rs_Duration := elapsed;
     rs_Success := false |}.

(** [resolve] is the target's IPv4 address, [listen] opening the raw socket. *)
Definition runICMPBackend (resolve : string -> result Addr) (listen : result unit)
    (is_permission : error -> bool) (pid : Z) (net : Z -> Exchange) (elapsed : Duration)
    (cfg : PingConfig) : Result :=
  match resolve (Target cfg) with
  | Err e => failureResult elapsed ("ping: resolve target " +:+ Quote (Target cfg) +:+ ": " +:+ e)
  | Ok _ =>
      let count := or_default 2 (PingCount cfg) in
      let payloadSize := at_least_or 8 56 (PayloadSize cfg) in
      match listen with
      | Err e =>
          failureResult elapsed
            (if is_permission e then "ping: icmp backend requires CAP_NET_RAW: " +:+ e
             else "ping: icmp listen: " +:+ e)
      | Ok _ =>
          let samples := samples_from net (SendInterval cfg) (Z.land pid 65535) payloadSize
                           (Z.to_nat count) 0 in
          let metrics := <["backend" := float_of icmpBackendTag]> (default ∅ (aggregateResults samples)) in
          {| rs_Metrics := metrics; rs_Error := EmptyString; rs_Duration := elapsed;
             rs_Success := flt fzero (default fzero (metrics !! "packets_received"%string)) |}
      end
  end.
End icmp.

(** ** The helpers around the socket *)

(** How long the listener waits for one reply. *)
Definition icmpReadDeadline (cfg : PingConfig) : Duration :=
  if 0 <? MaxRTT cfg then MaxRTT cfg else Second.

(** An address as its bytes, 4 or 16 of them; [net.IP.To4]. *)
Abbreviation IP := (list Z).

Definition v4InV6Prefix : list Z := replicate 10 0 ++ [255; 255].

Definition To4 (ip : IP) : option IP :=
  if decide (length ip = 4%nat) then Some ip
  else if decide (length ip = 16%nat /\ take 12 ip = v4InV6Prefix) then Some (drop 12 ip)
  else None.

Section resolve.
Context (ParseIP : string -> option IP) (LookupIP : string -> result (list IP)).
Context (Quote : string -> string).

Fixpoint first_v4 (ips : list IP) : option IP :=
  match ips with
  | [] => None
  | ip :: ips' => match To4 ip with Some v4 => Some v4 | None => first_v4 ips' end
  end.

Definition resolveTarget (target : string) : result IP :=
  match ParseIP target with
  | Some ip =>
      match To4 ip with
      | Some v4 => Ok v4
      | None => Err ("ping: " +:+ Quote target +:+ " is not an IPv4 address")
      end
  | None =>
      match LookupIP target with
      | Err e => Err e
      | Ok ips =>
          match first_v4 ips with
          | Some v4 => Ok v4
          | None => Err ("ping: no IPv4 address found for " +:+ Quote target)
          end
      end
  end.

(** A name is resolved to its first address with an IPv4 form; a literal is never
    looked up. *)
Lemma resolveTarget_v4 target v4 :
  resolveTarget target = Ok v4 ->
  (exists ip, ParseIP target = Some ip /\ To4 ip = Some v4) \/
  (ParseIP target = None /\ exists before ip after,
     LookupIP target = Ok (before ++ ip :: after) /\ To4 ip = Some v4 /\
     Forall (fun i => To4 i = None) before).
Proof.
  unfold resolveTarget. destruct (ParseIP target) as [ip|].
  { destruct (To4 ip) as [v|] eqn:E; [|done]. intros [= ->]. left. by exists ip. }
  destruct (LookupIP target) as [ips|e]; [|done]. intros H. right. split; [done|].
  destruct (first_v4 ips) as [v|] eqn:E; [|done]. injection H as ->. revert E.
  induction ips as [|ip ips IH]; simpl; [done|]. destruct (To4 ip) as [v|] eqn:Eip.
  - intros [= ->]. by exists [], ip, ips.
  - intros (before & ip' & after & Hl & ? & ?)%IH. injection Hl as ->.
    exists (ip :: before), ip', after. split_and!; [done|done|by constructor].
Qed.
End resolve.

Lemma To4_length ip v4 : To4 ip = Some v4 -> length v4 = 4%nat.
Proof.
  unfold To4. case_decide as H4; [congruence|]. case_decide as H16; [|done]. intros [= <-].
  rewrite length_drop. destruct H16 as [H16 _]. lia.
Qed.

(** An error of the socket: its text, and when there is a [net.OpError] in its chain
    the text of what that wraps, if it wraps something. *)
Record SocketError := { se_text : string; se_op : option (option string) }.

Definition not_permitted : string := "operation not permitted".

Definition isPermissionError (err : option SocketError) : bool :=
  match err with
  | None => false
  | Some e =>
      match se_op e with
      | Some (Some inner) => if decide (inner = not_permitted) then true
                             else bool_decide (se_text e = not_permitted)
      | _ => bool_decide (se_text e = not_permitted)
      end
  end.

(** Whether the process may open the raw socket: it is opened and closed again. *)
Definition canListenICMP (ListenPacket : result unit) : bool := is_ok ListenPacket.

Section backend.
Context (ParseMessage : Bytes -> result IcmpMessage).
Context (Marshal : IcmpMessage -> result Bytes) (Quote : string -> string).
Context (ParseIP : string -> option IP) (LookupIP : string -> result (list IP)).

Definition ip_text (ip : IP) : Addr := String.concat "." (pretty <$> ip).

(** The back end with its own resolver and its own test of the listener's error. *)
Definition icmp_probe (listen : unit + SocketError) (pid : Z) (net : Z -> Exchange)
    (elapsed : Duration) (cfg : PingConfig) : Result :=
  runICMPBackend ParseMessage Marshal Quote
    (fun t => match resolveTarget ParseIP LookupIP Quote t with
              | Ok ip => Ok (ip_text ip) | Err e => Err e end)
    (match listen with inl _ => Ok tt | inr e => Err (se_text e) end)
    (fun _ => match listen with inl _ => false | inr e => isPermissionError (Some e) end)
    pid net elapsed cfg.
End backend.
