(* ===== verification/PingSpec.v ===== *)
(** * What the ICMP probe reports

    Echo payloads are read back, the statistics are those of the answered
    samples, a probe reports one sample per request and success exactly when a
    reply was matched - and a reply to another probe of the same process
    matches too. *)
From stdpp Require Import pretty.
From S2P Require Import Prelude GoTime GoFloat Configs Ping.

(** ** Echo payloads *)
Section echo.

Lemma le16_reads n : 0 <= n <= 65535 -> n mod 256 + n / 256 mod 256 * 256 = n.
Proof.
  intros H. rewrite (Z.mod_small (n / 256)).
  - pose proof (Z.div_mod n 256). lia.
  - split; [apply Z.div_pos; lia|apply Z.div_lt_upper_bound; lia].
Qed.

Lemma echo_bounds id seq size msg :
  buildEchoMessage id seq size = Ok msg -> seq <= 65535.
Proof.
  unfold buildEchoMessage. repeat case_match; intros; simplify_eq.
  match goal with H : (seq <? 0) || (65535 <? seq) = false |- _ =>
    apply orb_false_iff in H as [_ H%Z.ltb_ge] end. lia.
Qed.

Lemma echo_roundtrip_ok id seq size :
  0 <= id <= 65535 -> 0 <= seq <= 65535 -> 4 <= size -> exists p, buildEchoMessage id seq size = Ok p.
Proof.
  intros H1 H2 H3. unfold buildEchoMessage, echoHeaderSize.
  rewrite (proj2 (Z.ltb_ge size 4)), (proj2 (Z.ltb_ge id 0)), (proj2 (Z.ltb_ge 65535 id)),
    (proj2 (Z.ltb_ge seq 0)), (proj2 (Z.ltb_ge 65535 seq)) by lia. eauto.
Qed.

(** Building an echo payload succeeds exactly for identifiers and sequence
    numbers of 16 bits and sizes of at least four bytes; the payload has the
    requested size and consists of bytes, and parsing it gives the three
    numbers back. *)
Theorem echo_roundtrip id seq size :
  match buildEchoMessage id seq size with
  | Ok msg => 0 <= id <= 65535 /\ 0 <= seq <= 65535 /\ 4 <= size /\
      Z.of_nat (length msg) = size /\ Forall (fun b => 0 <= b < 256) msg /\
      parseEchoMessage msg = Ok (id, seq, size)
  | Err _ => id < 0 \/ 65535 < id \/ seq < 0 \/ 65535 < seq \/ size < 4
  end.
Proof.
  unfold buildEchoMessage, echoHeaderSize.
  destruct (Z.ltb_spec size 4); [lia|].
  destruct (Z.ltb_spec id 0), (Z.ltb_spec 65535 id); simpl; try lia.
  destruct (Z.ltb_spec seq 0), (Z.ltb_spec 65535 seq); simpl; try lia.
  split_and!; try lia.
  - rewrite length_replicate. lia.
  - repeat (constructor; [apply Z.mod_pos_bound; lia|]). apply Forall_replicate. lia.
  - rewrite !le16_reads by lia. rewrite length_replicate. do 3 f_equal. lia.
Qed.
End echo.

(** ** Statistics *)
Section statistics.

Definition answered (samples : list Duration) : list Duration :=
  filter (fun d => 0 <= d) samples.

Definition total (ds : list Duration) : Z := foldr Z.add 0 ds.

Lemma total_snoc ds d : total (ds ++ [d]) = total ds + d.
Proof. unfold total. induction ds as [|x ds IH]; simpl; lia. Qed.

Lemma total_nonneg ds : Forall (fun d => 0 <= d) ds -> 0 <= total ds.
Proof. induction 1; simpl; unfold total in *; lia. Qed.

Lemma wrap64_add a b : wrap64 (wrap64 a + b) = wrap64 (a + b).
Proof.
  unfold wrap. f_equal. change (2 ^ 64 / 2) with (2 ^ 63).
  set (M := 2 ^ 64). assert (M <> 0) by done.
  rewrite <-(Z.add_mod_idemp_l (_ - _ + b)) by done. rewrite <-(Z.add_mod_idemp_l (a + b)) by done.
  do 2 f_equal.
  replace ((a + 2 ^ 63) mod M - 2 ^ 63 + b) with ((a + 2 ^ 63) mod M + (b - 2 ^ 63)) by lia.
  rewrite Z.add_mod_idemp_l by done. f_equal. lia.
Qed.

(** What the loop has computed after some samples. *)
Record tallied (ds : list Duration) (t : Tally) : Prop := {
  ta_received : received t = Z.of_nat (length ds);
  ta_total : totalRTT t = wrap64 (total ds);
  ta_none : ds = [] -> minRTT t = -1 /\ maxRTT t = 0;
  ta_min : ds <> [] -> minRTT t ∈ ds;
  ta_max : ds <> [] -> maxRTT t ∈ ds;
  ta_bounds : forall d, d ∈ ds -> minRTT t <= d <= maxRTT t
}.

Lemma tallied_step ds t d :
  Forall (fun d => 0 <= d) ds -> 0 <= d -> tallied ds t -> tallied (ds ++ [d]) (tally_one t d).
Proof.
  intros Hds Hd [Hr Ht Hn Hmin Hmax Hb]. unfold tally_one.
  rewrite (proj2 (Z.ltb_ge d 0)) by lia.
  assert (forall x, x ∈ ds ++ [d] <-> x ∈ ds \/ x = d) as Hin.
  { intros x. by rewrite elem_of_app, list_elem_of_singleton. }
  assert (ds = [] /\ minRTT t = -1 /\ maxRTT t = 0 \/
    ds <> [] /\ 0 <= minRTT t /\ minRTT t ∈ ds /\ maxRTT t ∈ ds) as Hc.
  { destruct (decide (ds = [])) as [E|E]; [left; auto|right].
    split_and!; auto. exact (proj1 (Forall_forall _ _) Hds _ (Hmin E)). }
  split; simpl.
  - rewrite length_app. simpl. lia.
  - by rewrite Ht, wrap64_add, total_snoc.
  - by intros [_ ?]%app_nil.
  - intros _. rewrite Hin. destruct Hc as [(-> & -> & _)|(_ & H0 & H1 & _)]; [by right|].
    rewrite (proj2 (Z.ltb_ge _ 0)) by lia. simpl. case_match; auto.
  - intros _. rewrite Hin. destruct Hc as [(-> & _ & ->)|(_ & _ & _ & H1)].
    + right. destruct (Z.ltb_spec 0 d); lia.
    + case_match; auto.
  - intros x [Hx| ->]%Hin.
    + pose proof (Hb x Hx).
      destruct (Z.ltb_spec (minRTT t) 0), (Z.ltb_spec d (minRTT t)), (Z.ltb_spec (maxRTT t) d);
        simpl; try lia;
        destruct Hc as [(-> & _)|(_ & Hz & _)]; (lia || by apply elem_of_nil in Hx).
    + destruct (Z.ltb_spec (minRTT t) 0), (Z.ltb_spec d (minRTT t)), (Z.ltb_spec (maxRTT t) d);
        simpl; lia.
Qed.

Lemma answered_nonneg samples : Forall (fun d => 0 <= d) (answered samples).
Proof. apply Forall_forall. intros d [H _]%list_elem_of_filter. exact H. Qed.

Lemma tally_tallied samples : tallied (answered samples) (tally samples).
Proof.
  unfold tally. induction samples as [|d samples IH] using rev_ind.
  { split; try done. intros d H. by apply elem_of_nil in H. }
  rewrite foldl_snoc. unfold answered in *. rewrite filter_app.
  destruct (decide (0 <= d)) as [Hd|Hd].
  - rewrite (filter_cons_True _ d) by done. apply tallied_step; [apply answered_nonneg|done|done].
  - rewrite (filter_cons_False _ d), app_nil_r by done. unfold tally_one.
    by rewrite (proj2 (Z.ltb_lt d 0)) by lia.
Qed.

Lemma total_bounds lo hi ds :
  (forall d, d ∈ ds -> lo <= d <= hi) ->
  lo * Z.of_nat (length ds) <= total ds <= hi * Z.of_nat (length ds).
Proof.
  induction ds as [|d ds IH]; intros H; simpl; [unfold total; simpl; lia|].
  pose proof (H d ltac:(by left)). specialize (IH (fun x Hx => H x ltac:(by right))).
  unfold total in *. simpl. lia.
Qed.

(** The statistics of a non-empty list of samples are those of the
    answered ones: how many there are, and - when there are any - the least,
    the greatest and, as long as their sum fits into 64 bits, the mean, which
    lies between the two; without answers the three times are zero. *)
Theorem aggregate_statistics samples :
  samples <> [] -> total (answered samples) <= maxInt64 ->
  exists m, aggregateResults samples = Some m /\
    m !! "packets_sent"%string = Some (float_of (Z.of_nat (length samples))) /\
    m !! "packets_received"%string = Some (float_of (Z.of_nat (length (answered samples)))) /\
    m !! "available"%string = Some (fdiv (float_of (Z.of_nat (length (answered samples))))
      (float_of (Z.of_nat (length samples)))) /\
    exists lo mean hi : Z,
      m !! "min_rtt_ms"%string = Some (if decide (answered samples = []) then float_of 0 else millis lo) /\
      m !! "avg_rtt_ms"%string = Some (if decide (answered samples = []) then float_of 0 else millis mean) /\
      m !! "max_rtt_ms"%string = Some (if decide (answered samples = []) then float_of 0 else millis hi) /\
      (answered samples <> [] ->
         lo ∈ answered samples /\ hi ∈ answered samples /\
         (forall d, d ∈ answered samples -> lo <= d <= hi) /\
         mean = total (answered samples) / Z.of_nat (length (answered samples)) /\
         lo <= mean <= hi).
Proof.
  intros Hne Hfit. pose proof (tally_tallied samples) as [Hr Ht _ Hmin Hmax Hb].
  unfold aggregateResults. rewrite decide_False by done. rewrite Hr.
  set (t := tally samples) in *. set (ds := answered samples) in *.
  pose proof (total_nonneg ds (answered_nonneg samples)) as H0.
  rewrite wrap64_id in Ht by (unfold fits64, minInt64, maxInt64 in *; lia). rewrite Ht.
  destruct (decide (ds = [])) as [E|E].
  - rewrite E. simpl. eexists. split; [reflexivity|].
    split_and!; [reflexivity..|]. exists 0, 0, 0. split_and!; [reflexivity..|done].
  - assert (0 < Z.of_nat (length ds)) as Hpos by (destruct ds; [done|simpl; lia]).
    rewrite (proj2 (Z.eqb_neq _ 0)) by lia. eexists. split; [reflexivity|].
    split_and!; [reflexivity..|].
    exists (minRTT t), (total ds / Z.of_nat (length ds)), (maxRTT t).
    rewrite Z.quot_div_nonneg by lia. split_and!; [reflexivity..|].
    intros _. pose proof (total_bounds (minRTT t) (maxRTT t) ds Hb).
    split_and!; [by apply Hmin|by apply Hmax|done|done| |].
    + apply Z.div_le_lower_bound; lia.
    + apply Z.div_le_upper_bound; lia.
Qed.
End statistics.

(** ** The probe *)
Section probe.
Context (ParseMessage : Bytes -> result IcmpMessage).
Context (Marshal : IcmpMessage -> result Bytes).
Context (Quote : string -> string).

Lemma samples_from_length net interval id size n seq :
  length (samples_from ParseMessage Marshal net interval id size n seq) = n.
Proof.
  revert seq. induction n as [|n IH]; intros seq; [done|]. cbn [samples_from].
  destruct (ex_done (net seq)); [by rewrite length_replicate|].
  destruct (sample _ _ _ _ _ _) as [d a]. simpl. f_equal.
  case_match; [by rewrite length_replicate|apply IH].
Qed.

Abbreviation answers := (isMatchingEchoReply ParseMessage).

(** Reading ends with the first packet that matches: what came before is packets
    of others, and no error. *)
Definition unrelated (id seq : Z) (i : Incoming) : Prop :=
  match i with I_packet _ raw _ => answers raw id seq = false | I_error _ => False end.

Definition reply_read (incoming : list Incoming) (id seq : Z) (at_ : Time) : Prop :=
  exists pre from raw post, incoming = pre ++ I_packet from raw at_ :: post /\
    Forall (unrelated id seq) pre /\ answers raw id seq = true.

Lemma readOneEcho_reads incoming id seq t :
  readOneEcho ParseMessage incoming id seq = Ok t <-> reply_read incoming id seq t.
Proof.
  split.
  - induction incoming as [|[from raw at_|e] incoming IH]; simpl; [done| |done].
    destruct (answers raw id seq) eqn:E; [intros [= ->]; by exists [], from, raw, incoming|].
    intros (pre & f' & r' & post & -> & Hp & Hm)%IH.
    exists (I_packet from raw at_ :: pre), f', r', post. split_and!; [done|by constructor|done].
  - intros (pre & from & raw & post & -> & Hp & Hm).
    induction Hp as [|[f' r' a'|e] pre Hu _ IH]; simpl; [by rewrite Hm| |done].
    simpl in Hu. by rewrite Hu.
Qed.

(** What it takes for the request after [k] others to be answered: the message can
    be built, encoded and written, and its reply is the first that matches among
    what is read while waiting for it. *)
Definition answered_at (id size k : Z) (ex : Exchange) (at_ : Time) : Prop :=
  (exists payload, buildEchoMessage id (k + 1) size = Ok payload /\
    is_ok (Marshal (echo_request id (k + 1) payload)) = true) /\
  is_ok (ex_write ex) = true /\ reply_read (ex_incoming ex) id (k + 1) at_.

Lemma sample_spec id k size ex :
  let '(d, a) := sample ParseMessage Marshal id k size ex in
  if a then exists t, answered_at id size k ex t /\ d = Sub t (ex_sendAt ex)
  else d = -1 /\ forall t, ~ answered_at id size k ex t.
Proof.
  unfold sample, answered_at.
  destruct (buildEchoMessage id (k + 1) size) as [p|e]; [|by split; [|intros t ((p & [=] & _) & _)]].
  destruct (Marshal (echo_request id (k + 1) p)) as [b|e] eqn:Hm;
    [|split; [done|]; intros t ((p' & [= <-] & H) & _); by rewrite Hm in H].
  destruct (ex_write ex) as [u|e]; [|by split; [|intros t (_ & ? & _)]].
  destruct (readOneEcho _ _ _ _) as [t|e] eqn:E.
  - exists t. rewrite readOneEcho_reads in E. split; [|done]. split; [|done].
    exists p. by rewrite Hm.
  - split; [done|]. intros t (_ & _ & H%readOneEcho_reads). congruence.
Qed.

Section requests.
Context (net : Z -> Exchange) (interval : Duration) (id size : Z).

(** Request [k] of those from [s] on is made: the context has not ended at it or
    before, and no pause after an answered one before it was interrupted. *)
Definition reached (s : Z) (k : nat) : Prop :=
  (forall j, (j <= k)%nat -> ex_done (net (s + Z.of_nat j)) = false) /\
  (0 < interval -> forall j t, (j < k)%nat ->
     answered_at id size (s + Z.of_nat j) (net (s + Z.of_nat j)) t ->
     ex_interrupted (net (s + Z.of_nat j)) = false).

Definition succeeds (s : Z) (k : nat) (d : Duration) : Prop :=
  reached s k /\ exists t, answered_at id size (s + Z.of_nat k) (net (s + Z.of_nat k)) t /\
    d = Sub t (ex_sendAt (net (s + Z.of_nat k))).

Lemma reached_S s k :
  reached s (S k) <->
  ex_done (net s) = false /\
  (0 < interval -> forall t, answered_at id size s (net s) t -> ex_interrupted (net s) = false) /\
  reached (s + 1) k.
Proof.
  assert (forall j : nat, s + Z.of_nat (S j) = s + 1 + Z.of_nat j) as E by lia. split.
  - intros [Hd Hi]. pose proof (Hd O ltac:(lia)) as H0. rewrite Z.add_0_r in H0. split_and!; [done| |].
    + intros Hpos t Ht. pose proof (Hi Hpos O t ltac:(lia)) as H1. rewrite Z.add_0_r in H1. auto.
    + split; [intros j Hj|intros Hpos j t Hj]; rewrite <-E; [apply Hd; lia|apply (Hi Hpos (S j) t); lia].
  - intros (Hd0 & Hi0 & Hd & Hi). split.
    + intros [|j] Hj; [by rewrite Z.add_0_r|]. rewrite E. apply Hd. lia.
    + intros Hpos [|j] t Hj; [rewrite Z.add_0_r; exact (Hi0 Hpos t)|].
      rewrite E. apply (Hi Hpos j t). lia.
Qed.

(** A sample that is no -1 comes from a request that succeeds, and every such request
    has one. *)
Lemma samples_from_spec n s k d :
  samples_from ParseMessage Marshal net interval id size n s !! k = Some d ->
  (d = -1 /\ forall d', ~ succeeds s k d') \/ succeeds s k d.
Proof.
  revert s k. induction n as [|n IH]; intros s k; [done|]. cbn [samples_from].
  destruct (ex_done (net s)) eqn:Ed.
  { intros [-> _]%lookup_replicate. left. split; [done|]. intros d' [[Hd _] _].
    specialize (Hd O ltac:(lia)). rewrite Z.add_0_r in Hd. congruence. }
  pose proof (sample_spec id s size (net s)) as Hs.
  destruct (sample _ _ _ _ _ _) as [rtt a]. destruct k as [|k]; simpl.
  - intros [= <-]. unfold succeeds. rewrite Z.add_0_r. destruct a; [right|left].
    + split; [|done]. split; [|lia]. intros j Hj. assert (j = O) as -> by lia. by rewrite Z.add_0_r.
    + destruct Hs as [-> Hs]. split; [done|]. intros d' [_ (t & Ht & _)]. by apply (Hs t).
  - assert (forall d', succeeds s (S k) d' <->
      ((0 < interval -> forall t, answered_at id size s (net s) t -> ex_interrupted (net s) = false) /\
       succeeds (s + 1) k d')) as Hsucc.
    { intros d'. unfold succeeds. rewrite reached_S.
      replace (s + Z.of_nat (S k)) with (s + 1 + Z.of_nat k) by lia. tauto. }
    destruct (a && (0 <? interval) && (match n with O => false | _ => true end) &&
      ex_interrupted (net s)) eqn:Ec.
    + apply andb_true_iff in Ec as [[[-> Hpos%Z.ltb_lt]%andb_true_iff _]%andb_true_iff Hint].
      intros [-> _]%lookup_replicate. left. split; [done|]. intros d' [Hi _]%Hsucc.
      destruct Hs as (t & Ht & _). specialize (Hi Hpos t Ht). congruence.
    + intros Hk. pose proof (lookup_lt_Some _ _ _ Hk) as Hlen. rewrite samples_from_length in Hlen.
      destruct (IH _ _ Hk) as [[-> Hn]|Hy].
      { left. split; [done|]. intros d' [_ Hd']%Hsucc. by apply (Hn d'). }
      right. apply Hsucc. split; [|done]. intros Hpos t Ht.
      destruct a; [|destruct Hs as [_ Hs]; by destruct (Hs t)].
      apply Z.ltb_lt in Hpos. rewrite Hpos in Ec. destruct n; [lia|]. exact Ec.
Qed.

(** No packet is read before the request was sent. *)
Definition timely : Prop := forall k from raw at_,
  I_packet from raw at_ ∈ ex_incoming (net k) -> ex_sendAt (net k) <= at_.

Lemma succeeds_nonneg s k d : timely -> succeeds s k d -> 0 <= d.
Proof.
  intros Ht [_ (t & (_ & _ & pre & from & raw & post & E & _) & ->)].
  assert (ex_sendAt (net (s + Z.of_nat k)) <= t).
  { apply (Ht _ from raw). rewrite E. apply elem_of_app. right. by left. }
  unfold Sub, minInt64, maxInt64. lia.
Qed.
End requests.

Lemma samples_from_answered net interval id size n seq k d :
  samples_from ParseMessage Marshal net interval id size n seq !! k = Some d -> 0 <= d ->
  seq + Z.of_nat k + 1 <= 65535.
Proof.
  intros [[-> _]|[_ (t & ((p & Hp & _) & _) & _)]]%samples_from_spec; [lia|].
  intros _. by eapply echo_bounds.
Qed.

Lemma answered_count (ds : list Duration) (b : nat) :
  (forall k d, ds !! k = Some d -> 0 <= d -> (k < b)%nat) -> (length (answered ds) <= b)%nat.
Proof.
  revert b. induction ds as [|d ds IH]; intros b H; [simpl; lia|].
  assert (forall b', (b = S b')%nat -> (length (answered ds) <= b')%nat) as Hs.
  { intros b' ->. apply IH. intros k x Hk Hx. specialize (H (S k) x Hk Hx). lia. }
  unfold answered in *. rewrite filter_cons. destruct (decide (0 <= d)) as [Hd|Hd].
  - pose proof (H O d eq_refl Hd). destruct b; [lia|]. simpl. specialize (Hs b eq_refl). lia.
  - destruct b as [|b]; [|specialize (Hs b eq_refl); lia].
    rewrite (filter_none _ ds); [done|]. apply Forall_forall. intros x [k Hk]%list_elem_of_lookup Hx.
    specialize (H (S k) x Hk Hx). lia.
Qed.

(** The samples of a run. *)
Definition run_samples (pid : Z) (net : Z -> Exchange) (cfg : PingConfig) : list Duration :=
  samples_from ParseMessage Marshal net (SendInterval cfg) (Z.land pid 65535)
    (at_least_or 8 56 (PayloadSize cfg)) (Z.to_nat (or_default 2 (PingCount cfg))) 0.

Lemma run_metrics pid net cfg resolve a is_permission elapsed :
  resolve (Target cfg) = Ok a ->
  let r := runICMPBackend ParseMessage Marshal Quote resolve (Ok tt) is_permission pid net elapsed cfg in
  let samples := run_samples pid net cfg in
  Z.of_nat (length samples) = or_default 2 (PingCount cfg) /\
  Z.of_nat (length (answered samples)) <= 65535 /\
  rs_Metrics r !! "packets_sent"%string = Some (float_of (or_default 2 (PingCount cfg))) /\
  rs_Metrics r !! "packets_received"%string = Some (float_of (Z.of_nat (length (answered samples)))) /\
  rs_Success r = bool_decide (answered samples <> []).
Proof.
  intros Hres. unfold runICMPBackend. rewrite Hres. fold (run_samples pid net cfg).
  set (samples := run_samples pid net cfg). cbn zeta.
  assert (0 < or_default 2 (PingCount cfg)) as Hcount
    by (unfold or_default; destruct (Z.leb_spec (PingCount cfg) 0); lia).
  assert (Z.of_nat (length samples) = or_default 2 (PingCount cfg)) as Hlen.
  { unfold samples, run_samples. rewrite samples_from_length. lia. }
  assert (Z.of_nat (length (answered samples)) <= 65535) as Hcap.
  { pose proof (answered_count samples (Z.to_nat 65535)) as H.
    enough (length (answered samples) <= Z.to_nat 65535)%nat by lia. apply H. intros k d Hk Hd.
    apply samples_from_answered in Hk; [lia|done]. }
  assert (exists m, aggregateResults samples = Some m /\
    m !! "packets_sent"%string = Some (float_of (Z.of_nat (length samples))) /\
    m !! "packets_received"%string = Some (float_of (Z.of_nat (length (answered samples)))))
    as (m & -> & H1 & H2).
  { unfold aggregateResults. rewrite decide_False by (intros E; rewrite E in Hlen; simpl in Hlen; lia).
    rewrite (ta_received _ _ (tally_tallied samples)).
    case_match; eexists; split_and!; reflexivity. }
  cbn [from_option rs_Metrics rs_Success]. unfold id. rewrite !lookup_insert_ne by done.
  rewrite H1, H2, Hlen.
  split_and!; [done|done|done|done|]. cbn [from_option]. unfold id. rewrite flt_zero_of by lia.
  apply bool_decide_ext. destruct (answered samples); simpl; split; (done || lia).
Qed.

Lemma filter_same {A} (P Q : A -> Prop) `{!forall x, Decision (P x), !forall x, Decision (Q x)} (xs : list A) :
  (forall x, x ∈ xs -> P x <-> Q x) -> filter P xs = filter Q xs.
Proof.
  induction xs as [|x xs IH]; intros HPQ; [done|]. rewrite !filter_cons, IH by (intros; apply HPQ; by right).
  pose proof (HPQ x ltac:(by left)). by repeat case_decide; try tauto.
Qed.

(** The positions of the answered samples. *)
Definition answered_positions (ds : list Duration) : list nat :=
  filter (fun k => 0 <= default (-1) (ds !! k)) (List.seq 0 (length ds)).

Lemma answered_positions_spec ds k :
  k ∈ answered_positions ds <-> exists d, ds !! k = Some d /\ 0 <= d.
Proof.
  unfold answered_positions. rewrite list_elem_of_filter, elem_of_seq. split.
  - intros [Hd Hk]. destruct (ds !! k) as [d|] eqn:E; [by exists d|simpl in Hd; lia].
  - intros (d & E & Hd). rewrite E. split; [done|]. apply lookup_lt_Some in E. lia.
Qed.

Lemma length_answered ds : length (answered ds) = length (answered_positions ds).
Proof.
  unfold answered, answered_positions. induction ds as [|d ds IH] using rev_ind; [done|].
  rewrite length_app, Nat.add_1_r, seq_S, !filter_app, !length_app, IH. f_equal.
  - f_equal. apply filter_same. intros k Hk%elem_of_seq. by rewrite lookup_app_l by lia.
  - simpl. rewrite !filter_cons, !filter_nil, lookup_app_r, Nat.sub_diag by lia. simpl.
    by destruct (decide (0 <= d)).
Qed.

(** Request [k] of the probe is made and answered. *)
Definition request_answered (pid : Z) (net : Z -> Exchange) (cfg : PingConfig) (k : nat) : Prop :=
  Z.of_nat k < or_default 2 (PingCount cfg) /\
  reached net (SendInterval cfg) (Z.land pid 65535) (at_least_or 8 56 (PayloadSize cfg)) 0 k /\
  exists at_, answered_at (Z.land pid 65535) (at_least_or 8 56 (PayloadSize cfg)) (Z.of_nat k)
    (net (Z.of_nat k)) at_.

(** C39: a probe whose target resolves and whose socket opens reports as many
    requests as configured, whatever is lost or cut short. It reports success
    only if one of its requests was answered, and - the clock not going back -
    whenever one was, and as received the number of those: a request is answered
    when it is made, built, encoded and written, and an echo reply with the
    probe's identifier and its sequence number is read while waiting for it, after
    nothing but packets that do not match. No target or no socket is a failure
    with the error's text. *)
Theorem probe_success_has_reply pid net cfg resolve listen is_permission elapsed :
  let r := runICMPBackend ParseMessage Marshal Quote resolve listen is_permission pid net elapsed cfg in
  (is_ok (resolve (Target cfg)) && is_ok listen = false ->
     rs_Success r = false /\ rs_Error r <> EmptyString) /\
  (is_ok (resolve (Target cfg)) && is_ok listen = true ->
     rs_Error r = EmptyString /\
     rs_Metrics r !! "packets_sent"%string = Some (float_of (or_default 2 (PingCount cfg))) /\
     (rs_Success r = true -> exists k, request_answered pid net cfg k) /\
     (timely net ->
        ((exists k, request_answered pid net cfg k) -> rs_Success r = true) /\
        exists ks, NoDup ks /\ (forall k, k ∈ ks <-> request_answered pid net cfg k) /\
          rs_Metrics r !! "packets_received"%string = Some (float_of (Z.of_nat (length ks))))).
Proof.
  cbn zeta. destruct (resolve (Target cfg)) as [a|e] eqn:Hres; [destruct listen as [[]|e]|].
  - split; [done|]. intros _.
    destruct (run_metrics pid net cfg resolve a is_permission elapsed Hres)
      as (Hlen & _ & Hsent & Hrec & Hsucc). cbn zeta in *.
    pose proof (answered_positions_spec (run_samples pid net cfg)) as Hpos.
    assert (forall k d, run_samples pid net cfg !! k = Some d -> 0 <= d -> request_answered pid net cfg k)
      as Hans.
    { intros k d Hk Hd. pose proof (lookup_lt_Some _ _ _ Hk). split; [lia|].
      apply samples_from_spec in Hk as [[-> _]|[Hr (t & Ht & _)]]; [lia|]. split; [done|].
      rewrite Z.add_0_l in Ht. by exists t. }
    assert (timely net -> forall k, k ∈ answered_positions (run_samples pid net cfg) <->
      request_answered pid net cfg k) as Hiff.
    { intros Htime k. rewrite Hpos. split; [intros (d & Hk & Hd); by eapply Hans|].
      intros (Hk & Hr & t & Ht).
      destruct (lookup_lt_is_Some_2 (run_samples pid net cfg) k) as [d Hd]; [lia|].
      exists d. split; [done|]. apply samples_from_spec in Hd as [[-> Hn]|Hs].
      - exfalso. eapply Hn. split; [exact Hr|]. rewrite Z.add_0_l. eauto.
      - by eapply succeeds_nonneg. }
    assert (answered (run_samples pid net cfg) <> [] <->
      exists k, k ∈ answered_positions (run_samples pid net cfg)) as Hne.
    { pose proof (length_answered (run_samples pid net cfg)) as Hl. split.
      - intros Hn. destruct (answered_positions _) as [|k ks] eqn:E; [|exists k; by left].
        destruct (answered _); [done|simpl in Hl; lia].
      - intros [k Hk] E. rewrite E in Hl. destruct (answered_positions _); [by apply elem_of_nil in Hk|done]. }
    rewrite Hsucc, bool_decide_eq_true, Hne. split_and!; [by unfold runICMPBackend; rewrite Hres|done| |].
    + intros [k (d & Hk & Hd)%Hpos]. exists k. by eapply Hans.
    + intros Htime. specialize (Hiff Htime). split; [intros [k Hk%Hiff]; by exists k|].
      eexists. split; [|split; [exact Hiff|by rewrite Hrec, length_answered]].
      apply NoDup_filter, NoDup_seq.
  - split; [|done]. intros _. unfold runICMPBackend. rewrite Hres. by destruct (is_permission e).
  - split; [|done]. intros _. unfold runICMPBackend. by rewrite Hres.
Qed.

(** Every wait yields one packet, sent by [from], that parses as the reply with
    this identifier and the number of the request. *)
Definition answered_by (from : Addr) (id : Z) (net : Z -> Exchange) : Prop := forall k,
  0 <= k -> ex_done (net k) = false /\ ex_write (net k) = Ok tt /\
    ex_interrupted (net k) = false /\
    exists raw at_, ex_incoming (net k) = [I_packet from raw at_] /\ ex_sendAt (net k) <= at_ /\
      exists data, parseICMPv4Message ParseMessage raw =
        Ok {| im_reply := true; im_body := Echo id (k + 1) data |}.

Lemma sample_of_answered from pid size net k :
  (forall m, is_ok (Marshal m) = true) -> 4 <= size -> 0 <= k < 65535 ->
  answered_by from (Z.land pid 65535) net ->
  exists d, sample ParseMessage Marshal (Z.land pid 65535) k size (net k) = (d, true) /\ 0 <= d.
Proof.
  intros HM Hs Hk Hn. destruct (Hn k ltac:(lia)) as (_ & Hw & _ & raw & at_ & Hi & Hat & data & Hp).
  pose proof (Z.land_ones pid 16 ltac:(lia)) as Hland. change (Z.ones 16) with 65535 in Hland.
  pose proof (Z.mod_pos_bound pid (2 ^ 16) ltac:(lia)) as Hb. change (2 ^ 16) with 65536 in *.
  pose proof (echo_roundtrip_ok (Z.land pid 65535) (k + 1) size) as [p Hbuild]; [lia..|].
  unfold sample. rewrite Hbuild.
  pose proof (HM (echo_request (Z.land pid 65535) (k + 1) p)) as Hmar.
  destruct (Marshal _); [|done]. rewrite Hw, Hi. simpl. unfold isMatchingEchoReply. rewrite Hp. simpl.
  rewrite !Z.eqb_refl. simpl. eexists. split; [reflexivity|].
  unfold Sub, minInt64, maxInt64. lia.
Qed.
Lemma samples_all_answered from pid interval size net n seq :
  (forall m, is_ok (Marshal m) = true) -> 4 <= size -> 0 <= seq -> seq + Z.of_nat n <= 65535 ->
  answered_by from (Z.land pid 65535) net ->
  Forall (fun d => 0 <= d)
    (samples_from ParseMessage Marshal net interval (Z.land pid 65535) size n seq).
Proof.
  intros HM Hs Hseq Hn Ha. revert seq Hseq Hn. induction n as [|n IH]; intros seq Hseq Hn;
    cbn [samples_from]; [constructor|].
  destruct (Ha seq Hseq) as (-> & _ & -> & _).
  destruct (sample_of_answered from pid size net seq HM Hs ltac:(lia) Ha) as (d & -> & Hd).
  rewrite andb_false_r. constructor; [done|]. apply IH; lia.
Qed.

(** Replies are matched by identifier and sequence number alone, and the
    identifier is the process id: if, while a probe waits, the socket yields
    the replies another host sends to a concurrent probe of the same process,
    they are counted, and the target is reported reachable without loss though
    it never answered. *)
Theorem replies_of_another_probe_count pid net cfg resolve a other is_permission elapsed :
  resolve (Target cfg) = Ok a -> other <> a -> PingCount cfg <= 65535 ->
  (forall m, is_ok (Marshal m) = true) ->
  answered_by other (Z.land pid 65535) net ->
  let r := runICMPBackend ParseMessage Marshal Quote resolve (Ok tt) is_permission pid net elapsed cfg in
  rs_Success r = true /\
  rs_Metrics r !! "packets_received"%string = Some (float_of (or_default 2 (PingCount cfg))).
Proof.
  intros Hres _ Hc HM Ha r.
  destruct (run_metrics pid net cfg resolve a is_permission elapsed Hres)
    as (Hlen & _ & _ & Hrec & Hsucc).
  assert (0 < or_default 2 (PingCount cfg) <= 65535) as Hcount
    by (unfold or_default; destruct (Z.leb_spec (PingCount cfg) 0); lia).
  assert (answered (run_samples pid net cfg) = run_samples pid net cfg) as Hall.
  { apply filter_all, (samples_all_answered other); try done; [|lia].
    unfold at_least_or. destruct (Z.ltb_spec (PayloadSize cfg) 8); lia. }
  rewrite Hall, Hlen in Hrec. rewrite Hall in Hsucc. split; [|exact Hrec].
  subst r. rewrite Hsucc. apply bool_decide_eq_true. intros E. rewrite E in Hlen. simpl in Hlen. lia.
Qed.
End probe.

(** ** Concrete probes *)
Definition demo_parse (raw : Bytes) : result IcmpMessage :=
  match raw with
  | t :: _ :: _ :: _ :: a :: b :: c :: d :: data =>
      Ok {| im_reply := t =? 0; im_body := Echo (a * 256 + b) (c * 256 + d) data |}
  | _ => Err "message too short"
  end.

Definition demo_marshal (m : IcmpMessage) : result Bytes :=
  Ok ((if im_reply m then 0 else 8) :: [0; 0; 0] ++
    match im_body m with
    | Echo i s data => [i / 256 mod 256; i mod 256; s / 256 mod 256; s mod 256] ++ data
    | OtherBody => []
    end).

(** The parser reads what the encoder writes. *)
Lemma demo_codec : forall data,
  match demo_marshal {| im_reply := true; im_body := Echo 4660 3 data |} with
  | Ok raw => demo_parse raw = Ok {| im_reply := true; im_body := Echo 4660 3 data |}
  | Err _ => False
  end.
Proof. reflexivity. Qed.

Definition demo_config : PingConfig :=
  {| ping_base := {| TaskID := 1; Ident := "ping:1"; Period := 0; Timeout := 0; Enabled := true;
                     Labels := [] |};
     Target := "10.0.0.9"; Backend := "icmp"; PingCount := 2; PayloadSize := 56; MaxRTT := Second;
     SendInterval := 0; Privileged := true |}.

(** The replies of 10.0.0.7 to the requests 1, 2, ... of identifier 4660. *)
Definition demo_net (k : Z) : Exchange :=
  {| ex_done := false; ex_sendAt := k * Second; ex_write := Ok tt;
     ex_incoming := [I_packet "10.0.0.7" [0; 0; 0; 0; 18; 52; (k + 1) / 256; (k + 1) mod 256]
                       (k * Second + Millisecond)];
     ex_interrupted := false |}.

Lemma replies_of_another_probe_count_witness :
  let r := runICMPBackend demo_parse demo_marshal (fun s => s) (fun h => Ok h) (Ok tt) (fun _ => false) 4660
             demo_net Second demo_config in
  rs_Success r = true /\
  rs_Metrics r !! "packets_received"%string = Some (float_of (or_default 2 (PingCount demo_config))).
Proof.
  apply (replies_of_another_probe_count demo_parse demo_marshal (fun s => s) 4660 demo_net demo_config
    (fun h => Ok h) "10.0.0.9" "10.0.0.7" (fun _ => false) Second);
    [reflexivity|discriminate|simpl; lia|reflexivity|].
  intros k Hk. split_and!; [reflexivity..|]. eexists _, _. split; [reflexivity|].
  split; [simpl; durations; lia|]. exists []. unfold parseICMPv4Message. simpl.
  do 3 f_equal. pose proof (Z.div_mod (k + 1) 256). lia.
Defined.

Lemma probe_success_has_reply_witness :
  let r := runICMPBackend demo_parse demo_marshal (fun s => s) (fun h => Ok h) (Ok tt) (fun _ => false) 4660
             demo_net Second demo_config in
  rs_Success r = true /\ exists k, request_answered demo_parse demo_marshal 4660 demo_net demo_config k.
Proof.
  pose proof (probe_success_has_reply demo_parse demo_marshal (fun s => s) 4660 demo_net demo_config
    (fun h => Ok h) (Ok tt) (fun _ => false) Second) as [_ H].
  destruct (H eq_refl) as (_ & _ & Hs & _). split; [vm_compute; reflexivity|].
  apply Hs. vm_compute. reflexivity.
Defined.

Lemma aggregate_statistics_witness :
  exists m, aggregateResults [3 * Millisecond; -1; Millisecond] = Some m /\
    m !! "packets_received"%string = Some (float_of 2).
Proof.
  destruct (aggregate_statistics [3 * Millisecond; -1; Millisecond]) as (m & E & _ & H & _);
    [discriminate|vm_compute; congruence|].
  exists m. split; [exact E|exact H].
Defined.
