(* ===== verification/GoStrings.v ===== *)
(** * Go's strings, url and filepath packages, as the program uses them

    On texts (lists of bytes): splitting, trimming white space (the Unicode
    white space of [unicode.IsSpace], read as UTF-8), decimal numbers,
    replacement, the escaping of URL query parameters and its inverse, and the
    lexical path functions. *)
From Stdlib Require Import Ascii String.
From S2P Require Import Prelude LabelsJson Web.

Abbreviation Text := (list ascii).
Abbreviation text := list_ascii_of_string.
Abbreviation str := string_of_list_ascii.

(** ** Splitting *)

(** [strings.Split(s, sep)] for a separator of one byte. *)
Fixpoint split_on (sep : ascii) (s : Text) : list Text :=
  match s with
  | [] => [[]]
  | c :: s' =>
      if decide (c = sep) then [] :: split_on sep s'
      else match split_on sep s' with
           | [] => [[c]]
           | p :: ps => (c :: p) :: ps
           end
  end.

(** [strings.Join(ps, sep)]. *)
Fixpoint join (sep : ascii) (ps : list Text) : Text :=
  match ps with
  | [] => []
  | [p] => p
  | p :: ps' => p ++ sep :: join sep ps'
  end.

(** [strings.SplitN(s, sep, 2)]: around the first separator, if there is one. *)
Fixpoint split2 (sep : ascii) (s : Text) : option (Text * Text) :=
  match s with
  | [] => None
  | c :: s' =>
      if decide (c = sep) then Some ([], s')
      else match split2 sep s' with Some (l, r) => Some (c :: l, r) | None => None end
  end.

(** ** Prefixes *)
Fixpoint strip_prefix (p s : Text) : option Text :=
  match p, s with
  | [], _ => Some s
  | a :: p', b :: s' => if decide (a = b) then strip_prefix p' s' else None
  | _ :: _, [] => None
  end.

Definition HasPrefix (s p : Text) : bool :=
  match strip_prefix p s with Some _ => true | None => false end.

Definition TrimPrefix (s p : Text) : Text := default s (strip_prefix p s).

Definition HasSuffix (s p : Text) : bool := HasPrefix (reverse s) (reverse p).

(** ** White space *)
Definition space1 (a : ascii) : bool := (byte a =? 32) || ((9 <=? byte a) && (byte a <=? 13)).

(** U+0085, U+00A0 *)
Definition space2 (a b : ascii) : bool := (byte a =? 194) && ((byte b =? 133) || (byte b =? 160)).

(** U+1680, U+2000-200A, U+2028, U+2029, U+202F, U+205F, U+3000 *)
Definition space3 (a b c : ascii) : bool :=
  (byte a =? 225) && (byte b =? 154) && (byte c =? 128)
  || (byte a =? 226) && (byte b =? 128) &&
     ((128 <=? byte c) && (byte c <=? 138) || (byte c =? 168) || (byte c =? 169) || (byte c =? 175))
  || (byte a =? 226) && (byte b =? 129) && (byte c =? 159)
  || (byte a =? 227) && (byte b =? 128) && (byte c =? 128).

Fixpoint trim_left (s : Text) : Text :=
  match s with
  | [] => []
  | a :: s1 =>
      if space1 a then trim_left s1 else
      match s1 with
      | b :: s2 =>
          if space2 a b then trim_left s2 else
          match s2 with
          | c :: s3 => if space3 a b c then trim_left s3 else s
          | [] => s
          end
      | [] => s
      end
  end.

(** The encodings are self-synchronising: the white space at the end is the
    longest suffix that is all white space. *)
Fixpoint trim_right (s : Text) : Text :=
  match s with
  | [] => []
  | a :: s1 => match trim_left s with [] => [] | _ => a :: trim_right s1 end
  end.

(** [strings.TrimSpace] *)
Definition TrimSpace (s : Text) : Text := trim_right (trim_left s).

Definition flush (cur : Text) (fs : list Text) : list Text :=
  match cur with [] => fs | _ => cur :: fs end.

(** [strings.Fields]; [cur] is the field being read. *)
Fixpoint fields_from (cur s : Text) : list Text :=
  match s with
  | [] => flush cur []
  | a :: s1 =>
      if space1 a then flush cur (fields_from [] s1) else
      match s1 with
      | b :: s2 =>
          if space2 a b then flush cur (fields_from [] s2) else
          match s2 with
          | c :: s3 =>
              if space3 a b c then flush cur (fields_from [] s3) else fields_from (cur ++ [a]) s1
          | [] => fields_from (cur ++ [a]) s1
          end
      | [] => fields_from (cur ++ [a]) s1
      end
  end.

Definition Fields (s : Text) : list Text := fields_from [] s.

(** ** Numbers: [strconv.ParseInt(s, 10, 64)], [None] for an error *)
Definition parse_int (s : Text) : option Z :=
  let '(neg, ds) :=
    match s with
    | "-"%char :: ds => (true, ds)
    | "+"%char :: ds => (false, ds)
    | ds => (false, ds)
    end in
  match ds with
  | [] => None
  | _ =>
      match digits 0 ds with
      | None => None
      | Some n =>
          let v := if neg : bool then - n else n in
          if (- 2 ^ 63 <=? v) && (v <=? 2 ^ 63 - 1) then Some v else None
      end
  end.

(** ** [strings.ReplaceAll] of one byte *)
Definition replace_all (old : ascii) (new : Text) (s : Text) : Text :=
  s ≫= fun c => if decide (c = old) then new else [c].

(** ** net/url *)

(** Bytes [url.QueryEscape] leaves alone. *)
Definition unreserved (c : ascii) : bool :=
  let b := byte c in
  (48 <=? b) && (b <=? 57) || (65 <=? b) && (b <=? 90) || (97 <=? b) && (b <=? 122)
  || (b =? 45) || (b =? 95) || (b =? 46) || (b =? 126).

Definition upper_hex (n : Z) : ascii := chr (if n <? 10 then 48 + n else 55 + n).

Definition escape_byte (c : ascii) : Text :=
  if unreserved c then [c]
  else if byte c =? 32 then ["+"%char]
  else ["%"%char; upper_hex (byte c / 16); upper_hex (byte c mod 16)].

Definition QueryEscape (s : Text) : Text := s ≫= escape_byte.

(** [Values.Encode] of parameters given in key order. *)
Definition encode_pair (kv : Text * Text) : Text := QueryEscape kv.1 ++ "="%char :: QueryEscape kv.2.

Definition Encode (kvs : list (Text * Text)) : Text := join "&" (encode_pair <$> kvs).

Fixpoint QueryUnescape (s : Text) : option Text :=
  match s with
  | [] => Some []
  | c :: s1 =>
      if decide (c = "%"%char) then
        match s1 with
        | h :: l :: s2 =>
            match hex_val h, hex_val l with
            | Some a, Some b => cons (chr (a * 16 + b)) <$> QueryUnescape s2
            | _, _ => None
            end
        | _ => None
        end
      else cons (if decide (c = "+"%char) then " "%char else c) <$> QueryUnescape s1
  end.

Definition decode_pair (s : Text) : option (Text * Text) :=
  '(k, v) ← split2 "=" s; k ← QueryUnescape k; v ← QueryUnescape v; Some (k, v).

(** How a server reads the query part of a URL. *)
Definition ParseQuery (s : Text) : option (list (Text * Text)) :=
  mapM decode_pair (split_on "&" s).

(** ** path/filepath *)
Definition slash : ascii := "/"%char.

(** One component onto the cleaned ones, the last first. *)
Definition push_component (rooted : bool) (out : list Text) (c : Text) : list Text :=
  if bool_decide (c = []) || bool_decide (c = text ".") then out
  else if decide (c = text "..") then
    match out with
    | d :: out' => if decide (d = text "..") then c :: out else out'
    | [] => if rooted then [] else [c]
    end
  else c :: out.

Definition Clean (p : Text) : Text :=
  let rooted := match p with c :: _ => bool_decide (c = slash) | [] => false end in
  let out := reverse (foldl (push_component rooted) [] (split_on slash p)) in
  let s := join slash out in
  if rooted then slash :: s else match s with [] => text "." | _ => s end.

(** Everything up to and including the last slash. *)
Definition dir_part (p : Text) : Text :=
  match split2 slash (reverse p) with
  | Some (_, r) => reverse (slash :: r)
  | None => []
  end.

Definition Dir (p : Text) : Text := Clean (dir_part p).

(** [filepath.Join(a, b)] *)
Definition Join (a b : Text) : Text :=
  match a, b with
  | [], [] => []
  | [], _ => Clean b
  | _, [] => Clean a
  | _, _ => Clean (a ++ slash :: b)
  end.

(** ** Facts *)
Section splitting.

Lemma split_on_nonempty sep s : split_on sep s <> [].
Proof. destruct s; simpl; [done|]. case_decide; [done|]. by case_match. Qed.

Lemma join_split sep s : join sep (split_on sep s) = s.
Proof.
  induction s as [|c s IH]; [done|]. simpl. pose proof (split_on_nonempty sep s).
  case_decide as E; destruct (split_on sep s) as [|p [|q ps]]; simpl in *; simplify_eq; done.
Qed.

Lemma split_no_sep sep s : Forall (fun p => sep ∉ p) (split_on sep s).
Proof.
  induction s as [|c s IH]; simpl; [repeat constructor; set_solver|].
  case_decide; [constructor; [set_solver|done]|].
  destruct (split_on sep s) as [|p ps]; [repeat constructor; set_solver|].
  apply Forall_cons in IH as [Hp Hps]. constructor; [set_solver|done].
Qed.

Lemma split_one sep p : sep ∉ p -> split_on sep p = [p].
Proof.
  induction p as [|c p IH]; intros H; [done|]. simpl.
  rewrite decide_False by set_solver. rewrite IH by set_solver. done.
Qed.

Lemma split_app sep p s : sep ∉ p -> split_on sep (p ++ sep :: s) = p :: split_on sep s.
Proof.
  induction p as [|c p IH]; intros H; simpl.
  - by rewrite decide_True.
  - rewrite decide_False by set_solver. by rewrite IH by set_solver.
Qed.

Lemma split_join sep ps :
  ps <> [] -> Forall (fun p => sep ∉ p) ps -> split_on sep (join sep ps) = ps.
Proof.
  intros Hne H. induction H as [|p ps Hp Hps IH]; [done|].
  destruct ps as [|q ps]; [by apply split_one|].
  change (join sep (p :: q :: ps)) with (p ++ sep :: join sep (q :: ps)).
  rewrite split_app by done. by rewrite IH.
Qed.

Lemma split2_app sep p s : sep ∉ p -> split2 sep (p ++ sep :: s) = Some (p, s).
Proof.
  induction p as [|c p IH]; intros H; simpl; [by rewrite decide_True|].
  rewrite decide_False by set_solver. by rewrite IH by set_solver.
Qed.

Lemma split2_some sep s l r : split2 sep s = Some (l, r) -> s = l ++ sep :: r /\ sep ∉ l.
Proof.
  revert l. induction s as [|c s IH]; intros l H; [done|]. simpl in H. case_decide as E.
  - simplify_eq. set_solver.
  - destruct (split2 sep s) as [[l' r']|] eqn:E2; [|done]. simplify_eq.
    destruct (IH _ eq_refl) as [-> ?]. set_solver.
Qed.

Lemma split2_none sep s : split2 sep s = None <-> sep ∉ s.
Proof.
  induction s as [|c s IH]; simpl; [set_solver|]. case_decide; [set_solver|].
  destruct (split2 sep s) as [[??]|]; set_solver.
Qed.
End splitting.

Section prefixes.

Lemma strip_prefix_app p s : strip_prefix p (p ++ s) = Some s.
Proof. induction p as [|a p IH]; simpl; [done|]. by rewrite decide_True. Qed.

Lemma strip_prefix_some p s r : strip_prefix p s = Some r -> s = p ++ r.
Proof.
  revert s. induction p as [|a p IH]; intros s; simpl; [congruence|].
  destruct s as [|b s]; [done|]. case_decide; [|done]. subst. intros H%IH. by subst.
Qed.

Lemma HasPrefix_true s p : HasPrefix s p = true <-> exists r, s = p ++ r.
Proof.
  unfold HasPrefix. destruct (strip_prefix p s) as [r|] eqn:E; split; try done.
  - apply strip_prefix_some in E. eauto.
  - intros [r ->]. by rewrite strip_prefix_app in E.
Qed.
End prefixes.

Section urls.

Lemma escape_byte_chars c :
  Forall (fun d => d <> "&"%char /\ d <> "="%char) (escape_byte c).
Proof. by destruct c as [[][][][][][][][]]; repeat constructor. Qed.

Lemma unescape_escape_byte c s :
  QueryUnescape (escape_byte c ++ s) = cons c <$> QueryUnescape s.
Proof. by destruct c as [[][][][][][][][]]. Qed.

Lemma QueryEscape_chars s : Forall (fun d => d <> "&"%char /\ d <> "="%char) (QueryEscape s).
Proof.
  induction s as [|c s IH]; [constructor|]. apply Forall_app. split; [|exact IH].
  apply escape_byte_chars.
Qed.

Lemma QueryUnescape_Escape s : QueryUnescape (QueryEscape s) = Some s.
Proof.
  induction s as [|c s IH]; [done|]. unfold QueryEscape. cbn [mbind list_bind].
  rewrite unescape_escape_byte. fold (QueryEscape s). by rewrite IH.
Qed.

Lemma QueryEscape_no_amp s : "&"%char ∉ QueryEscape s.
Proof. intros H. pose proof (QueryEscape_chars s) as HF. by eapply Forall_forall in HF as [? _]. Qed.

Lemma QueryEscape_no_eq s : "="%char ∉ QueryEscape s.
Proof. intros H. pose proof (QueryEscape_chars s) as HF. by eapply Forall_forall in HF as [_ ?]. Qed.

Lemma decode_encode_pair kv : decode_pair (encode_pair kv) = Some kv.
Proof.
  destruct kv as [k v]. unfold decode_pair, encode_pair. simpl.
  rewrite split2_app by apply QueryEscape_no_eq. simpl.
  rewrite QueryUnescape_Escape. simpl. by rewrite QueryUnescape_Escape.
Qed.

Lemma ParseQuery_Encode kvs : kvs <> [] -> ParseQuery (Encode kvs) = Some kvs.
Proof.
  intros Hne. unfold ParseQuery, Encode. rewrite split_join.
  - apply mapM_Some_2, Forall2_fmap_l, Forall_Forall2_diag, Forall_forall.
    intros kv _. apply decode_encode_pair.
  - by destruct kvs.
  - apply Forall_fmap, Forall_forall. intros [k v] _. unfold encode_pair. simpl.
    pose proof (QueryEscape_no_amp k). pose proof (QueryEscape_no_amp v). set_solver.
Qed.
End urls.
