(* ===== verification/VmClient.v ===== *)
(** * The VictoriaMetrics client (web/vm/client.go)

    One GET per query; the answer is checked for its status and decoded in two
    steps. Transport and JSON decoding are libraries: the class [VmJson] has
    what [json.Unmarshal] makes of the client's types, [vm_answer] what the
    server does with the [n]-th request. Every request is logged. *)
From Stdlib Require Import Ascii String.
From stdpp Require Import pretty.
From S2P Require Import Prelude LabelsJson GoFloat GoStrings.

Record Point := { pt_ts : float64; pt_value : float64 }.

Record Series := {
  sr_Metric : gmap string string;
  sr_Values : option (list Point)  (* None: nil *)
}.

Record Vector := { vc_Metric : gmap string string; vc_Value : Point }.

Record queryResponse := { qr_Status : string; qr_Data : Text; qr_Error : string }.

Record queryData := { qd_ResultType : string; qd_Result : Text }.

Class VmJson := {
  json_raw2 : Text -> result (Text * Text);
  json_float : Text -> result float64;
  json_string : Text -> result string;
  json_response : Text -> result queryResponse;
  json_data : Text -> result queryData;
  json_vectors : (Text -> result Point) -> Text -> result (list Vector);
  json_series : (Text -> result Point) -> Text -> result (list Series);
  json_strings : Text -> result (option (list string));
  ParseFloat : string -> result float64
}.

(** What came back: a transport error, or a status with a body that may fail to
    be read. *)
Record Response := { rp_StatusCode : Z; rp_body : result Text }.

Record Vm := {
  vm_answer : nat -> Text -> result Response;
  vm_sent : list Text  (* the URLs requested, in order *)
}.

Definition vm_get (u : Text) : ST Vm (result Response) := fun w =>
  (vm_answer w (List.length (vm_sent w)) u,
   {| vm_answer := vm_answer w; vm_sent := vm_sent w ++ [u] |}).

Section client.
Context {J : VmJson}.
(** Whether [http.NewRequest] takes a URL. *)
Context (NewRequest : Text -> result unit).

Definition UnmarshalJSON (b : Text) : result Point :=
  match json_raw2 b with
  | Err e => Err e
  | Ok (raw0, raw1) =>
      match json_float raw0 with
      | Err e => Err e
      | Ok ts =>
          match json_string raw1 with
          | Err e =>
              match json_float raw1 with
              | Err _ => Err e
              | Ok vn => Ok {| pt_ts := ts; pt_value := vn |}
              end
          | Ok vs =>
              match ParseFloat vs with
              | Err e => Err e
              | Ok v => Ok {| pt_ts := ts; pt_value := v |}
              end
          end
      end
  end.

Record Client := { baseURL : Text }.

(** [q]: the parameters in key order, as [Values.Encode] writes them. *)
Definition query_url (c : Client) (path : Text) (q : list (Text * Text)) : Text :=
  baseURL c ++ path ++ match q with [] => [] | _ => "?"%char :: Encode q end.

(** What the client makes of an answer. *)
Definition response_of (a : result Response) : result queryResponse :=
  match a with
  | Err e => Err ("vm request: " +:+ e)
  | Ok resp =>
      match rp_body resp with
      | Err e => Err e
      | Ok body =>
          if negb (Z.quot (rp_StatusCode resp) 100 =? 2)
          then Err ("vm http " +:+ pretty (rp_StatusCode resp) +:+ ": " +:+ str body)
          else
            match json_response body with
            | Err e => Err ("vm decode: " +:+ e)
            | Ok out =>
                if decide (qr_Status out = "success"%string) then Ok out
                else Err ("vm error: " +:+ qr_Error out)
            end
      end
  end.

Definition doQuery (c : Client) (path : Text) (q : list (Text * Text))
    : ST Vm (result queryResponse) :=
  let u := query_url c path q in
  match NewRequest u with
  | Err e => ret (Err e)
  | Ok _ => a <- vm_get u;; ret (response_of a)
  end.

(** The result array of a response, when it has the expected type. *)
Definition result_array {A} (typ : string) (decode : Text -> result (list A))
    (r : result queryResponse) : result (list A) :=
  match r with
  | Err e => Err e
  | Ok out =>
      match json_data (qr_Data out) with
      | Err e => Err e
      | Ok d => if decide (qd_ResultType d = typ) then decode (qd_Result d) else Ok []
      end
  end.

Definition Query (c : Client) (expr : Text) : ST Vm (result (list Vector)) :=
  out <- doQuery c (text "/api/v1/query") [(text "query", expr)];;
  ret (result_array "vector" (json_vectors UnmarshalJSON) out).

Definition range_params (expr from to step : Text) : list (Text * Text) :=
  [(text "end", to); (text "query", expr); (text "start", from); (text "step", step)].

Definition QueryRange (c : Client) (expr from to step : Text) : ST Vm (result (list Series)) :=
  out <- doQuery c (text "/api/v1/query_range") (range_params expr from to step);;
  ret (result_array "matrix" (json_series UnmarshalJSON) out).

Definition LabelValues (c : Client) (label : Text) : ST Vm (result (option (list string))) :=
  out <- doQuery c (text "/api/v1/label/" ++ label ++ text "/values") [];;
  ret (match out with Err e => Err e | Ok out => json_strings (qr_Data out) end).
End client.
