(* ===== verification/QueryApi.v ===== *)
(** * The query endpoints and routing (web/api/server.go)

    The handlers build PromQL expressions from query parameters, ask
    VictoriaMetrics and reshape the answers. [route] is what the mux built by
    [NewServer] and [RegisterRoutes] does with a request. *)
From Stdlib Require Import Ascii String.
From S2P Require Import Prelude GoTime LabelsJson GoFloat GoStrings Web VmClient.

(** ** Replies *)
Definition badRequest {A} (msg : string) : Reply A := R_error StatusBadRequest msg.
Definition vmError {A} (e : error) : Reply A := R_error StatusBadGateway e.

(** The deferred [recover]: [None] is a handler that panicked. *)
Definition recovery {A} (r : option (Reply A)) : Reply A :=
  match r with Some r => r | None => R_error StatusInternalServerError "internal error" end.

(** ** Query parameters ([url.Values]) *)
Abbreviation Values := (gmap string (list string)).

Definition Get (k : string) (q : Values) : string :=
  match q !! k with Some (v :: _) => v | _ => EmptyString end.

Definition all_of (k : string) (q : Values) : list string := default [] (q !! k).

(** ** Expressions *)
Definition labelMatch (name val : Text) : Text :=
  let val := replace_all backslash [backslash; backslash] val in
  let val := replace_all dquote [backslash; dquote] val in
  name ++ "="%char :: dquote :: val ++ [dquote].

(** [fmt.Sprintf("%s{%s}", metric, m)] *)
Definition selector (metric m : Text) : Text := metric ++ "{"%char :: m ++ ["}"%char].

Definition scalarOf (v : list Vector) : float64 * bool :=
  match v with [] => (fzero, false) | x :: _ => (pt_value (vc_Value x), true) end.

Definition unitOf (m : string) : string :=
  if contains "percent" m then "%"
  else if HasSuffix (text m) (text "_bytes") then "B"
  else EmptyString.

Record hostOut := { ho_Hostname : string; ho_LastSeen : Z }.

Record Summary := {
  su_Hostname : string;
  su_TS : Z;
  CPUUsage : option float64;
  MemUsedPercent : option float64;
  DiskRootUsedPercent : option float64;
  Load1 : option float64;
  NetBytesRecv : option float64;
  NetBytesSent : option float64
}.

Record MetricSeries := {
  ms_Metric : string;
  ms_Unit : string;
  ms_Points : option (list Point)
}.

Record EventsResult := { er_Type : string; er_Points : option (list Point) }.

Record ProbeSeries := { Up : option (list Point); ps_Duration : option (list Point) }.

Record ProbeResult := { pr_Ping : ProbeSeries; pr_TCP : ProbeSeries; pr_HTTP : ProbeSeries }.

Section handlers.
Context {J : VmJson} (NewRequest : Text -> result unit) (vm : Client).

Definition handleHealthz : Reply (string * Text) := R_json ("ok"%string, baseURL vm).

(** A missing label reads as the empty string. *)
Definition hostname_label (v : Vector) : string := default EmptyString (vc_Metric v !! "hostname"%string).

Definition last_seen_map (tsVec : list Vector) : gmap string float64 :=
  foldl (fun m v => <[hostname_label v := pt_value (vc_Value v)]> m) ∅ tsVec.

Definition host_of (tsMap : gmap string float64) (v : Vector) : option hostOut :=
  let h := hostname_label v in
  if decide (h = EmptyString) then None
  else Some {| ho_Hostname := h; ho_LastSeen := to_int64 (default fzero (tsMap !! h)) |}.

Definition handleHosts : ST Vm (Reply (list hostOut)) :=
  hvec <- Query NewRequest vm (text "max by (hostname) (cpu_usage)");;
  match hvec with
  | Err e => ret (vmError e)
  | Ok hvec =>
      tsVec <- Query NewRequest vm (text "max by (hostname) (timestamp(cpu_usage))");;
      match tsVec with
      | Err e => ret (vmError e)
      | Ok tsVec => ret (R_json (omap (host_of (last_seen_map tsVec)) hvec))
      end
  end.

(** The closure [get] of [handleSummary]. *)
Definition get_metric (host : string) (metric : string) : ST Vm (option float64) :=
  v <- Query NewRequest vm (selector (text metric) (labelMatch (text "hostname") (text host)));;
  ret (match v with
       | Ok (x :: _) => Some (pt_value (vc_Value x))
       | _ => None
       end).

Definition handleSummary (now : Time) (host : string) : ST Vm (Reply Summary) :=
  cpu <- get_metric host "cpu_usage";;
  mem <- get_metric host "mem_used_percent";;
  disk <- get_metric host "disk_root_used_percent";;
  load <- get_metric host "load1";;
  recv <- get_metric host "net_bytes_recv";;
  sent <- get_metric host "net_bytes_sent";;
  ret (R_json {| su_Hostname := host; su_TS := Unix now; CPUUsage := cpu; MemUsedPercent := mem;
                 DiskRootUsedPercent := disk; Load1 := load; NetBytesRecv := recv;
                 NetBytesSent := sent |}).

Definition handleHost (now : Time) (path : Text) : ST Vm (Reply Summary) :=
  match split_on slash (TrimPrefix path (text "/api/v1/host/")) with
  | host :: p :: _ =>
      if decide (p = text "summary") then handleSummary now (str host)
      else ret (R_error 404 "404 page not found")
  | _ => ret (R_error 404 "404 page not found")
  end.

Definition points_of (series : list Series) : option (list Point) :=
  match series with [] => Some [] | s :: _ => sr_Values s end.

(** The loop over the metrics; the first failure ends it. *)
Fixpoint range_series (m from to step : Text) (metrics : list string)
    : ST Vm (result (list MetricSeries)) :=
  match metrics with
  | [] => ret (Ok [])
  | metric :: metrics' =>
      series <- QueryRange NewRequest vm (selector (text metric) m) from to step;;
      match series with
      | Err e => ret (Err e)
      | Ok series =>
          rest <- range_series m from to step metrics';;
          ret (match rest with
               | Err e => Err e
               | Ok out =>
                   Ok ({| ms_Metric := metric; ms_Unit := unitOf metric;
                          ms_Points := points_of series |} :: out)
               end)
      end
  end.

Definition default_step (step : string) : string :=
  if decide (step = EmptyString) then "60"%string else step.

Definition is_empty (s : string) : bool := bool_decide (s = EmptyString).

Definition handleRange (q : Values) : ST Vm (Reply (list MetricSeries)) :=
  let host := Get "host" q in
  let metrics := all_of "metric" q in
  if is_empty host || bool_decide (metrics = []) then ret (badRequest "host and metric required")
  else
    let '(from, to) := (Get "from" q, Get "to" q) in
    if is_empty from || is_empty to then ret (badRequest "from and to required")
    else
      out <- range_series (labelMatch (text "hostname") (text host)) (text from) (text to)
               (text (default_step (Get "step" q))) metrics;;
      ret (match out with Err e => vmError e | Ok out => R_json out end).

Definition handleMetricNames : ST Vm (Reply (option (list string))) :=
  names <- LabelValues NewRequest vm (text "__name__");;
  ret (match names with Err e => vmError e | Ok names => R_json names end).

(** [fmt.Sprintf("sum(count_over_time(%s{%s}[%s]))", typ, m, step)] *)
Definition events_expr (typ m step : Text) : Text :=
  text "sum(count_over_time(" ++ selector typ m ++ "["%char :: step ++ text "]))".

Definition handleEvents (q : Values) : ST Vm (Reply EventsResult) :=
  let host := Get "host" q in
  let typ := Get "type" q in
  if is_empty host || is_empty typ then ret (badRequest "host and type required")
  else
    let '(from, to) := (Get "from" q, Get "to" q) in
    if is_empty from || is_empty to then ret (badRequest "from and to required")
    else
      let step := text (default_step (Get "step" q)) in
      let expr := events_expr (text typ) (labelMatch (text "hostname") (text host)) step in
      series <- QueryRange NewRequest vm expr (text from) (text to) step;;
      ret (match series with
           | Err e => vmError e
           | Ok series => R_json {| er_Type := typ; er_Points := points_of series |}
           end).

(** [avg(<metric>{<m>,probe_type="<kind>"})] *)
Definition probe_expr (metric : string) (m : Text) (kind : string) : Text :=
  text "avg(" ++
  selector (text metric)
    (m ++ ","%char :: text "probe_type=" ++ dquote :: text kind ++ [dquote]) ++ [")"%char].

Definition points_or_none (r : result (list Series)) : option (list Point) :=
  match r with Ok series => points_of series | Err _ => Some [] end.

Definition probeSeries (host kind from to step : string) : ST Vm ProbeSeries :=
  let m := labelMatch (text "hostname") (text host) in
  up <- QueryRange NewRequest vm (probe_expr "success" m kind) (text from) (text to) (text step);;
  dur <- QueryRange NewRequest vm (probe_expr "duration_ms" m kind) (text from) (text to)
           (text step);;
  ret {| Up := points_or_none up; ps_Duration := points_or_none dur |}.

Definition handleProbes (q : Values) : ST Vm (Reply ProbeResult) :=
  let host := Get "host" q in
  let '(from, to) := (Get "from" q, Get "to" q) in
  if is_empty host then ret (badRequest "host required")
  else if is_empty from || is_empty to then ret (badRequest "from and to required")
  else
    let step := default_step (Get "step" q) in
    ping <- probeSeries host "ping" from to step;;
    tcp <- probeSeries host "tcp" from to step;;
    http <- probeSeries host "http" from to step;;
    ret (R_json {| pr_Ping := ping; pr_TCP := tcp; pr_HTTP := http |}).
End handlers.

(** ** Routing *)
Inductive Route :=
| To_healthz | To_hosts | To_host | To_range | To_metric_names | To_events | To_probes
| To_listRules | To_createRule | To_updateRule (id : Z) | To_deleteRule (id : Z)
| To_acknowledge | To_history | To_status | To_testQuery
| To_heartbeat | To_agents
| To_ui
| To_redirect (path : Text)
| To_error (code : Z) (msg : string).

Definition method_not_allowed : Route := To_error 405 "method not allowed".

Definition rules_route (method : string) : Route :=
  if decide (method = "GET"%string) then To_listRules
  else if decide (method = "POST"%string) then To_createRule
  else method_not_allowed.

Definition rule_route (method : string) (path : Text) : Route :=
  match parse_int (TrimPrefix path (text "/api/v1/alerts/rules/")) with
  | None => To_error 400 "invalid rule id"
  | Some id =>
      if decide (method = "PUT"%string) then To_updateRule id
      else if decide (method = "DELETE"%string) then To_deleteRule id
      else method_not_allowed
  end.

(** The registered patterns: the method, if the pattern has one, the path, and
    what the handler does. A GET pattern takes HEAD requests as well. *)
Definition patterns : list (option string * Text * (string -> Text -> Route)) :=
  let to (r : Route) := fun (_ : string) (_ : Text) => r in
  [(None, text "/api/v1/healthz", to To_healthz);
   (None, text "/api/v1/hosts", to To_hosts);
   (None, text "/api/v1/host/", to To_host);
   (None, text "/api/v1/query/range", to To_range);
   (None, text "/api/v1/metrics/names", to To_metric_names);
   (None, text "/api/v1/events", to To_events);
   (None, text "/api/v1/probes", to To_probes);
   (None, text "/api/v1/alerts/rules", fun m _ => rules_route m);
   (None, text "/api/v1/alerts/rules/", rule_route);
   (None, text "/api/v1/alerts/acknowledge", to To_acknowledge);
   (None, text "/api/v1/alerts/history", to To_history);
   (None, text "/api/v1/alerts/status", to To_status);
   (None, text "/api/v1/alerts/test-query", to To_testQuery);
   (None, text "/", to To_ui);
   (Some "POST"%string, text "/api/v1/registry/heartbeat", to To_heartbeat);
   (Some "GET"%string, text "/api/v1/registry/agents", to To_agents)].

Definition method_matches (pm : option string) (method : string) : bool :=
  match pm with
  | None => true
  | Some p => bool_decide (p = method) ||
              (bool_decide (p = "GET"%string) && bool_decide (method = "HEAD"%string))
  end.

(** A pattern with a final slash stands for everything below it. *)
Definition path_matches (pat path : Text) : bool :=
  bool_decide (pat = path) || (bool_decide (last pat = Some slash) && HasPrefix path pat).

(** The longest matching pattern; a path that only matches with a slash added
    is redirected there. *)
Definition best (method : string) (path : Text) : option (Text * (string -> Text -> Route)) :=
  foldl (fun acc p =>
    let '(pm, pat, h) := p in
    if method_matches pm method && path_matches pat path then
      match acc with
      | Some (pat', _) => if (List.length pat' <? List.length pat)%nat then Some (pat, h) else acc
      | None => Some (pat, h)
      end
    else acc) None patterns.

Definition route (method : string) (path : Text) : Route :=
  match best method path with
  | None => To_error 404 "404 page not found"
  | Some (pat, h) =>
      if decide (pat = path) then h method path
      else
        match best method (path ++ [slash]) with
        | Some (pat', _) =>
            if decide (pat' = path ++ [slash]) then To_redirect (path ++ [slash]) else h method path
        | None => h method path
        end
  end.
