(* ===== verification/QuerySpec.v ===== *)
(** * What the query endpoints ask VictoriaMetrics and answer

    The expressions reach the server as they were built and select the
    requested host; a range query answers with one series per metric or with
    the first failure; the host list and the summary show what the server
    answered. *)
From Stdlib Require Import Ascii String.
From S2P Require Import Prelude GoTime LabelsJson GoFloat GoStrings Web VmClient QueryApi.

(** ** How a PromQL reader sees a matcher

    A double-quoted string ends at the first quote without a backslash before
    it; a line break is not allowed in it. Other escapes are not read. *)
Definition line_feed : ascii := "010"%char.

Fixpoint read_quoted (s : Text) : option (Text * Text) :=
  match s with
  | [] => None
  | c :: s1 =>
      if decide (c = dquote) then Some ([], s1)
      else if decide (c = line_feed) then None
      else if decide (c = backslash) then
        match s1 with
        | d :: s2 =>
            if decide (d = backslash \/ d = dquote) then
              '(v, rest) ← read_quoted s2; Some (d :: v, rest)
            else None
        | [] => None
        end
      else '(v, rest) ← read_quoted s1; Some (c :: v, rest)
  end.

(** name="value": the label, its value and what follows. *)
Definition read_matcher (s : Text) : option (Text * Text * Text) :=
  '(name, s1) ← split2 "=" s;
  match s1 with
  | c :: s2 =>
      if decide (c = dquote) then '(v, rest) ← read_quoted s2; Some (name, v, rest) else None
  | [] => None
  end.

Section matchers.

Definition escape_label (c : ascii) : Text :=
  if decide (c = backslash) then [backslash; backslash]
  else if decide (c = dquote) then [backslash; dquote] else [c].

Lemma replace_twice v :
  replace_all dquote [backslash; dquote] (replace_all backslash [backslash; backslash] v) =
  v ≫= escape_label.
Proof.
  induction v as [|c v IH]; [done|]. unfold replace_all in *. cbn [mbind list_bind].
  rewrite bind_app. rewrite IH. f_equal. unfold escape_label.
  destruct (decide (c = backslash)) as [->|]; [done|]. simpl. by case_decide.
Qed.

Lemma read_quoted_escaped v rest :
  line_feed ∉ v -> read_quoted ((v ≫= escape_label) ++ dquote :: rest) = Some (v, rest).
Proof.
  induction v as [|c v IH]; intros Hn; [done|]. cbn [mbind list_bind].
  specialize (IH ltac:(set_solver)). rewrite <-app_assoc. unfold escape_label at 1.
  destruct (decide (c = backslash)) as [->|Hb]; [simpl; by rewrite IH|].
  destruct (decide (c = dquote)) as [->|Hq]; [simpl; by rewrite IH|].
  simpl. rewrite !decide_False by set_solver. by rewrite IH.
Qed.

Lemma read_labelMatch name v rest :
  "="%char ∉ name -> line_feed ∉ v ->
  read_matcher (labelMatch name v ++ rest) = Some (name, v, rest).
Proof.
  intros Hn Hv. unfold read_matcher, labelMatch. rewrite replace_twice, <-app_assoc. simpl.
  rewrite split2_app by done. simpl. rewrite <-app_assoc. simpl.
  by rewrite read_quoted_escaped.
Qed.
End matchers.

(** ** One query *)
Section queries.
Context {J : VmJson} (NewRequest : Text -> result unit) (vm : Client).
Context (NewRequest_ok : forall u, NewRequest u = Ok tt).

(** The answer to the next request, and the world after it. *)
Definition next_answer (w : Vm) (u : Text) : result Response :=
  vm_answer w (List.length (vm_sent w)) u.

Definition logged (w : Vm) (us : list Text) : Vm :=
  {| vm_answer := vm_answer w; vm_sent := vm_sent w ++ us |}.

Lemma logged_app w us vs : logged (logged w us) vs = logged w (us ++ vs).
Proof. unfold logged. simpl. by rewrite app_assoc. Qed.

Lemma logged_nil w : logged w [] = w.
Proof. destruct w. unfold logged. simpl. by rewrite app_nil_r. Qed.

Definition instant_url (expr : Text) : Text :=
  query_url vm (text "/api/v1/query") [(text "query", expr)].

Definition range_url (expr from to step : Text) : Text :=
  query_url vm (text "/api/v1/query_range") (range_params expr from to step).

Definition vectors_in (a : result Response) : result (list Vector) :=
  result_array "vector" (json_vectors UnmarshalJSON) (response_of a).

Definition series_in (a : result Response) : result (list Series) :=
  result_array "matrix" (json_series UnmarshalJSON) (response_of a).

Lemma Query_run expr w :
  Query NewRequest vm expr w =
    (vectors_in (next_answer w (instant_url expr)), logged w [instant_url expr]).
Proof using NewRequest_ok. unfold Query, doQuery, bind. by rewrite NewRequest_ok. Qed.

Lemma QueryRange_run expr from to step w :
  QueryRange NewRequest vm expr from to step w =
    (series_in (next_answer w (range_url expr from to step)),
     logged w [range_url expr from to step]).
Proof using NewRequest_ok. unfold QueryRange, doQuery, bind. by rewrite NewRequest_ok. Qed.

(** The answers to several requests in a row. *)
Definition answers (w : Vm) (us : list Text) : list (result Response) :=
  imap (fun i u => vm_answer w (List.length (vm_sent w) + i) u) us.

Lemma answers_cons w u us :
  answers w (u :: us) = next_answer w u :: answers (logged w [u]) us.
Proof.
  unfold answers, next_answer. simpl. rewrite Nat.add_0_r. f_equal. apply imap_ext.
  intros i x _. simpl. rewrite length_app. simpl. f_equal. lia.
Qed.

(** ** Ranges *)
Definition host_matcher (host : string) : Text := labelMatch (text "hostname") (text host).

Definition metric_urls (host : string) (from to step : Text) (metrics : list string) : list Text :=
  (fun m => range_url (selector (text m) (host_matcher host)) from to step) <$> metrics.

Definition series_of (metric : string) (s : list Series) : MetricSeries :=
  {| ms_Metric := metric; ms_Unit := unitOf metric; ms_Points := points_of s |}.

Lemma range_series_run host from to step metrics w :
  let urls := metric_urls host from to step metrics in
  let rs := series_in <$> answers w urls in
  let r := range_series NewRequest vm (host_matcher host) from to step metrics w in
  (forall all, rs = Ok <$> all -> r = (Ok (zip_with series_of metrics all), logged w urls)) /\
  (forall pre e post, rs = (Ok <$> pre) ++ Err e :: post ->
     r = (Err e, logged w (take (S (List.length pre)) urls))).
Proof using NewRequest_ok.
  revert w. induction metrics as [|m metrics IH]; intros w.
  { split; [intros [|a all] E; [by rewrite logged_nil|done]|]. by intros [|p pre] e post E. }
  cbn [metric_urls fmap list_fmap]. rewrite answers_cons.
  set (u := range_url _ _ _ _). specialize (IH (logged w [u])) as [IH1 IH2].
  cbn [range_series]. unfold bind at 1 3. rewrite QueryRange_run. fold u.
  destruct (series_in (next_answer w u)) as [s|e0] eqn:E0; simpl; rewrite E0; split.
  - intros [|a all]; [done|]. simpl. intros [= <- E]. unfold bind. rewrite (IH1 _ E).
    unfold ret. by rewrite logged_app.
  - intros [|p pre] e post; [done|]. simpl. intros [= <- E]. unfold bind. rewrite (IH2 _ _ _ E).
    unfold ret. by rewrite logged_app.
  - by intros [|a all].
  - intros [|p pre] e post; [|done]. simpl. by intros [= <- _].
Qed.

(** What a range request must have. *)
Definition range_ok (q : Values) : Prop :=
  Get "host" q <> EmptyString /\ all_of "metric" q <> [] /\
  Get "from" q <> EmptyString /\ Get "to" q <> EmptyString.

Definition requested_urls (q : Values) : list Text :=
  metric_urls (Get "host" q) (text (Get "from" q)) (text (Get "to" q))
    (text (default_step (Get "step" q))) (all_of "metric" q).

Lemma is_empty_true s : is_empty s = true <-> s = EmptyString.
Proof. unfold is_empty. by rewrite bool_decide_eq_true. Qed.

Lemma is_empty_false s : is_empty s = false <-> s <> EmptyString.
Proof. unfold is_empty. by rewrite bool_decide_eq_false. Qed.

(** A range request that lacks its host, metrics or bounds is refused
    without a query. Any other one asks for its metrics in the order given,
    each for the requested host and bounds; if every answer can be read, the
    reply is one series per metric, in that order, and if one cannot, the reply
    is the bad-gateway error of the first such answer and no further metric is
    asked for. *)
Theorem handleRange_answers q w :
  let r := handleRange NewRequest vm q w in
  let rs := series_in <$> answers w (requested_urls q) in
  (~ range_ok q -> (exists msg, fst r = R_error StatusBadRequest msg) /\ snd r = w) /\
  (range_ok q ->
     (forall all, rs = Ok <$> all ->
        r = (R_json (zip_with series_of (all_of "metric" q) all), logged w (requested_urls q))) /\
     (forall pre e post, rs = (Ok <$> pre) ++ Err e :: post ->
        r = (R_error StatusBadGateway e,
             logged w (take (S (List.length pre)) (requested_urls q))))).
Proof using NewRequest_ok.
  unfold handleRange. cbn zeta. split.
  - intros Hbad. destruct (is_empty (Get "host" q) || bool_decide (all_of "metric" q = [])) eqn:E1.
    { split; [eauto|done]. }
    destruct (is_empty (Get "from" q) || is_empty (Get "to" q)) eqn:E2; [split; [eauto|done]|].
    apply orb_false_iff in E1 as [H1%is_empty_false H2%bool_decide_eq_false].
    apply orb_false_iff in E2 as [H3%is_empty_false H4%is_empty_false].
    by destruct Hbad.
  - intros (H1 & H2 & H3 & H4). rewrite (proj2 (is_empty_false _) H1), (bool_decide_eq_false_2 _ H2).
    rewrite (proj2 (is_empty_false _) H3), (proj2 (is_empty_false _) H4). cbn [orb].
    destruct (range_series_run (Get "host" q) (text (Get "from" q)) (text (Get "to" q))
      (text (default_step (Get "step" q))) (all_of "metric" q) w) as [R1 R2].
    split; [intros all E|intros pre e post E]; unfold bind; fold (host_matcher (Get "host" q)).
    + by rewrite (R1 _ E).
    + by rewrite (R2 _ _ _ E).
Qed.
End queries.

(** ** What is sent *)
Section sent.
Context {J : VmJson} (NewRequest : Text -> result unit) (vm : Client).

(** Whatever the server answers, only URLs with [P] are requested. *)
Definition sends_only {A} (P : Text -> Prop) (m : ST Vm A) : Prop :=
  forall w, exists us, vm_sent (exec m w) = vm_sent w ++ us /\ Forall P us.

Lemma sends_ret {A} P (a : A) : sends_only P (ret a).
Proof. intros w. exists []. by rewrite app_nil_r. Qed.

Lemma sends_bind {A B} P (m : ST Vm A) (k : A -> ST Vm B) :
  sends_only P m -> (forall a, sends_only P (k a)) -> sends_only P (x <- m ;; k x).
Proof.
  intros Hm Hk w. run. destruct (Hm w) as (us & E1 & H1).
  destruct (Hk (m w).1 (exec m w)) as (vs & E2 & H2).
  exists (us ++ vs). rewrite E2, E1, app_assoc. split; [done|]. by apply Forall_app.
Qed.

Lemma sends_doQuery (P : Text -> Prop) path q :
  P (query_url vm path q) -> sends_only P (doQuery NewRequest vm path q).
Proof.
  intros HP. unfold doQuery. destruct (NewRequest _); [|apply sends_ret].
  apply sends_bind; [|intros; apply sends_ret].
  intros w. exists [query_url vm path q]. split; [done|]. by repeat constructor.
Qed.

(** The query part of the URL gives back the parameters; the expression among
    them has, behind its first part, a matcher that reads as the label hostname
    with exactly this value. *)
Definition selects_host (host : string) (u : Text) : Prop :=
  exists path qs params pre body rest,
    u = baseURL vm ++ path ++ "?"%char :: qs /\ ParseQuery qs = Some params /\
    (text "query", pre ++ "{"%char :: body) ∈ params /\
    read_matcher body = Some (text "hostname", text host, rest).

Lemma selects_url host path params pre more :
  line_feed ∉ text host ->
  (text "query", pre ++ "{"%char :: labelMatch (text "hostname") (text host) ++ more) ∈ params ->
  selects_host host (query_url vm path params).
Proof.
  intros Hn Hin. assert (params <> []) as Hne by (intros ->; by apply elem_of_nil in Hin).
  exists path, (Encode params), params, pre, (labelMatch (text "hostname") (text host) ++ more), more.
  split_and!; [by destruct params|by apply ParseQuery_Encode|done|].
  apply read_labelMatch; [|done]. apply (bool_decide_unpack _). exact I.
Qed.

Lemma sends_get_metric host metric :
  line_feed ∉ text host -> sends_only (selects_host host) (get_metric NewRequest vm host metric).
Proof.
  intros Hn. apply sends_bind; [|intros; apply sends_ret].
  apply sends_bind; [|intros; apply sends_ret]. apply sends_doQuery.
  apply (selects_url _ _ _ (text metric) ["}"%char]); [done|]. by left.
Qed.

Lemma sends_range host expr pre more from to step :
  line_feed ∉ text host ->
  expr = pre ++ "{"%char :: labelMatch (text "hostname") (text host) ++ more ->
  sends_only (selects_host host) (QueryRange NewRequest vm expr from to step).
Proof.
  intros Hn ->. apply sends_bind; [|intros; apply sends_ret]. apply sends_doQuery.
  apply (selects_url _ _ _ pre more); [done|]. right. by left.
Qed.

Lemma sends_range_series host from to step metrics :
  line_feed ∉ text host ->
  sends_only (selects_host host)
    (range_series NewRequest vm (labelMatch (text "hostname") (text host)) from to step metrics).
Proof.
  intros Hn. induction metrics as [|m metrics IH]; [apply sends_ret|].
  apply sends_bind; [by apply (sends_range _ _ (text m) ["}"%char])|].
  intros [s|e]; [|apply sends_ret]. apply sends_bind; [done|]. intros; apply sends_ret.
Qed.

(** Both expressions have the matcher right after a brace. *)
Lemma probe_expr_shape metric m kind :
  probe_expr metric m kind =
    (text "avg(" ++ text metric) ++ "{"%char :: m ++
    (","%char :: text "probe_type=" ++ dquote :: text kind ++ [dquote]) ++ ["}"; ")"]%char.
Proof. unfold probe_expr, selector. by rewrite <-!app_assoc, <-app_comm_cons, <-!app_assoc. Qed.

Lemma events_expr_shape typ m step :
  events_expr typ m step =
    (text "sum(count_over_time(" ++ typ) ++ "{"%char :: m ++
    "}"%char :: "["%char :: step ++ text "]))".
Proof. unfold events_expr, selector. by rewrite <-!app_assoc, <-app_comm_cons, <-!app_assoc. Qed.

Lemma sends_probe host kind from to step :
  line_feed ∉ text host ->
  sends_only (selects_host host) (probeSeries NewRequest vm host kind from to step).
Proof.
  intros Hn. unfold probeSeries.
  apply sends_bind; [|intros; apply sends_bind; [|intros; apply sends_ret]];
    (eapply sends_range; [done|apply probe_expr_shape]).
Qed.

(** C21: whatever bytes a host name has (but a line break, which no matcher can
    hold) and whatever VictoriaMetrics answers, every URL requested for the
    summary, the ranges, the events or the probes of the host carries
    parameters that decode to what was encoded, and in the expression among
    them the label hostname is compared with exactly that name: no name can
    end its own quotation. *)
Theorem every_query_selects_the_host host now q :
  line_feed ∉ text host -> Get "host" q = host ->
  sends_only (selects_host host) (handleSummary NewRequest vm now host) /\
  sends_only (selects_host host) (handleRange NewRequest vm q) /\
  sends_only (selects_host host) (handleEvents NewRequest vm q) /\
  sends_only (selects_host host) (handleProbes NewRequest vm q).
Proof.
  intros Hn Hq. split_and!.
  - unfold handleSummary.
    repeat (apply sends_bind; [by apply sends_get_metric|intros]). apply sends_ret.
  - unfold handleRange. rewrite Hq. repeat (case_match; [apply sends_ret|]).
    apply sends_bind; [by apply sends_range_series|intros; apply sends_ret].
  - unfold handleEvents. rewrite Hq. repeat (case_match; [apply sends_ret|]).
    apply sends_bind; [|intros; apply sends_ret].
    eapply sends_range; [done|apply events_expr_shape].
  - unfold handleProbes. rewrite Hq. repeat (case_match; [apply sends_ret|]).
    repeat (apply sends_bind; [by apply sends_probe|intros]). apply sends_ret.
Qed.
End sent.

(** ** Hosts and summaries *)
Section hosts.
Context {J : VmJson} (NewRequest : Text -> result unit) (vm : Client).
Context (NewRequest_ok : forall u, NewRequest u = Ok tt).

Definition usage_url : Text := instant_url vm (text "max by (hostname) (cpu_usage)").
Definition seen_url : Text := instant_url vm (text "max by (hostname) (timestamp(cpu_usage))").

(** The value of the last series with this host name, 0 without one. *)
Definition last_seen (h : string) (ts : list Vector) : float64 :=
  default fzero ((fun v => pt_value (vc_Value v)) <$> last (filter (fun v => hostname_label v = h) ts)).

Lemma last_seen_map_lookup h ts : default fzero (last_seen_map ts !! h) = last_seen h ts.
Proof.
  unfold last_seen_map, last_seen. induction ts as [|v ts IH] using rev_ind; [done|].
  rewrite foldl_snoc, filter_app. destruct (decide (hostname_label v = h)) as [<-|Hne].
  - rewrite lookup_insert_eq, (filter_cons_True _ v), filter_nil by done. by rewrite last_snoc.
  - rewrite lookup_insert_ne by done. by rewrite (filter_cons_False _ v), filter_nil, app_nil_r by done.
Qed.

Lemma hosts_listed ts (hs : list Vector) :
  omap (host_of (last_seen_map ts)) hs =
  (fun h => {| ho_Hostname := h; ho_LastSeen := to_int64 (last_seen h ts) |}) <$>
    filter (fun h => h <> EmptyString) (hostname_label <$> hs).
Proof.
  induction hs as [|v hs IH]; [done|]. rewrite fmap_cons, filter_cons.
  change (omap ?f (v :: hs)) with (from_option (fun o => o :: omap f hs) (omap f hs) (f v)).
  unfold host_of at 3. destruct (decide (hostname_label v = EmptyString)) as [E|E].
  - by rewrite decide_False by tauto.
  - rewrite decide_True, fmap_cons, <-IH by done. simpl. by rewrite last_seen_map_lookup.
Qed.

(** The host list has, in the order of the first answer, every series with
    a host name, with the time stamp the second answer gives last for that
    name, cut to whole seconds, or 0; the second question is asked only if the
    first was answered, and an answer that cannot be read is a bad gateway. *)
Theorem handleHosts_lists w :
  let a1 := vectors_in (next_answer w usage_url) in
  let a2 := vectors_in (next_answer (logged w [usage_url]) seen_url) in
  match a1, a2 with
  | Err e, _ => handleHosts NewRequest vm w = (R_error StatusBadGateway e, logged w [usage_url])
  | Ok _, Err e =>
      handleHosts NewRequest vm w = (R_error StatusBadGateway e, logged w [usage_url; seen_url])
  | Ok hs, Ok ts =>
      handleHosts NewRequest vm w =
        (R_json ((fun h => {| ho_Hostname := h; ho_LastSeen := to_int64 (last_seen h ts) |}) <$>
           filter (fun h => h <> EmptyString) (hostname_label <$> hs)),
         logged w [usage_url; seen_url])
  end.
Proof using NewRequest_ok.
  cbn zeta. unfold handleHosts, bind. rewrite !(Query_run _ _ NewRequest_ok).
  fold usage_url seen_url.
  destruct (vectors_in (next_answer w usage_url)) as [hs|e]; [|done].
  rewrite !(Query_run _ _ NewRequest_ok). fold seen_url.
  destruct (vectors_in _) as [ts|e]; unfold ret; rewrite logged_app; [|done].
  by rewrite hosts_listed.
Qed.

(** What a metric query of the summary shows: the first series' value. *)
Definition shown (a : result Response) : option float64 :=
  match vectors_in a with Ok (v :: _) => Some (pt_value (vc_Value v)) | _ => None end.

Definition summary_urls (host : string) : list Text :=
  (fun m => instant_url vm (selector (text m) (host_matcher host))) <$>
    ["cpu_usage"; "mem_used_percent"; "disk_root_used_percent"; "load1"; "net_bytes_recv";
     "net_bytes_sent"]%string.

Lemma get_metric_run host m w :
  get_metric NewRequest vm host m w =
    (let u := instant_url vm (selector (text m) (host_matcher host)) in
     (shown (next_answer w u), logged w [u])).
Proof using NewRequest_ok.
  unfold get_metric, bind. rewrite (Query_run _ _ NewRequest_ok). cbn zeta. unfold shown, ret.
  by destruct (vectors_in _) as [[|v vs]|e].
Qed.

(** A summary asks all six questions whatever is answered and never fails:
    it has the value of every metric that was answered with a series, and leaves
    out exactly the others. *)
Theorem handleSummary_shows now host w :
  handleSummary NewRequest vm now host w =
    (match shown <$> answers w (summary_urls host) with
     | [cpu; mem; disk; load; recv; sent] =>
         R_json {| su_Hostname := host; su_TS := Unix now; CPUUsage := cpu; MemUsedPercent := mem;
                   DiskRootUsedPercent := disk; Load1 := load; NetBytesRecv := recv;
                   NetBytesSent := sent |}
     | _ => R_error StatusInternalServerError "internal error"
     end, logged w (summary_urls host)).
Proof using NewRequest_ok.
  unfold handleSummary, summary_urls. cbn [fmap list_fmap]. rewrite !answers_cons.
  unfold bind. repeat (rewrite get_metric_run; cbn beta iota zeta). unfold ret.
  rewrite !logged_app. unfold answers. cbn [imap fmap list_fmap app]. reflexivity.
Qed.
End hosts.

(** ** A server with two answers *)
#[local] Instance demo_json : VmJson :=
  {| json_raw2 := fun b => Ok (b, b);
     json_float := fun _ => Ok (float_of 7);
     json_string := fun _ => Err "not a string";
     json_response := fun b => Ok {| qr_Status := "success"; qr_Data := b; qr_Error := EmptyString |};
     json_data := fun b =>
       match b with
       | "M"%char :: r => Ok {| qd_ResultType := "matrix"; qd_Result := r |}
       | _ => Ok {| qd_ResultType := "vector"; qd_Result := b |}
       end;
     json_vectors := fun point b =>
       match point b with
       | Err e => Err e
       | Ok p => Ok [{| vc_Metric := {["hostname"%string := str b]}; vc_Value := p |}]
       end;
     json_series := fun point b =>
       match point b with
       | Err e => Err e
       | Ok p => Ok [{| sr_Metric := ∅; sr_Values := Some [p] |}]
       end;
     json_strings := fun _ => Ok None;
     ParseFloat := fun _ => Err "no number" |}.

Definition demo_client : Client := {| baseURL := text "http://vm:8428" |}.

(** The first request is answered, all others fail. *)
Definition demo_vm : Vm :=
  {| vm_answer := fun n _ =>
       match n with
       | O => Ok {| rp_StatusCode := 200; rp_body := Ok (text "M") |}
       | _ => Ok {| rp_StatusCode := 500; rp_body := Ok (text "overload") |}
       end;
     vm_sent := [] |}.

Definition demo_query : Values :=
  <["host" := ["web-1"]]> (<["metric" := ["load1"; "cpu_usage"; "mem_used_bytes"]]>
    (<["from" := ["1700000000"]]> {["to" := ["1700003600"]]}))%string.

Lemma demo_first_url :
  str <$> head (vm_sent (snd (handleRange (fun _ => Ok tt) demo_client demo_query demo_vm))) =
    Some ("http://vm:8428/api/v1/query_range?end=1700003600&" +:+
          "query=load1%7Bhostname%3D%22web-1%22%7D&start=1700000000&step=60")%string.
Proof. vm_compute. reflexivity. Qed.

Lemma handleRange_answers_witness :
  handleRange (fun _ => Ok tt) demo_client demo_query demo_vm =
    (R_error StatusBadGateway "vm http 500: overload",
     logged demo_vm (take 2 (requested_urls demo_client demo_query))).
Proof.
  destruct (handleRange_answers (fun _ => Ok tt) demo_client (fun _ => eq_refl) demo_query demo_vm)
    as [_ H].
  destruct H as [_ H]; [split_and!; vm_compute; congruence|].
  apply (H [[{| sr_Metric := ∅; sr_Values := Some [{| pt_ts := float_of 7; pt_value := float_of 7 |}] |}]]
    "vm http 500: overload"%string [Err "vm http 500: overload"%string]).
  vm_compute. reflexivity.
Defined.

(** A name that tries to leave its quotation. *)
Definition hostile_host : string :=
  str (text "x" ++ [dquote; "}"%char] ++ text " or up{a=" ++ [dquote; backslash]).

Lemma every_query_selects_the_host_witness :
  sends_only (selects_host demo_client hostile_host)
    (handleSummary (fun _ => Ok tt) demo_client 0 hostile_host).
Proof.
  apply (every_query_selects_the_host (fun _ => Ok tt) demo_client hostile_host 0
    {["host"%string := [hostile_host]]}).
  - apply (bool_decide_unpack _). vm_compute. exact I.
  - vm_compute. reflexivity.
Defined.

Lemma handleHosts_lists_witness :
  fst (handleHosts (fun _ => Ok tt) demo_client
         {| vm_answer := fun _ _ => Ok {| rp_StatusCode := 200; rp_body := Ok (text "db-1") |};
            vm_sent := [] |}) = R_json [{| ho_Hostname := "db-1"; ho_LastSeen := 7 |}].
Proof.
  pose proof (handleHosts_lists (fun _ => Ok tt) demo_client (fun _ => eq_refl)
    {| vm_answer := fun _ _ => Ok {| rp_StatusCode := 200; rp_body := Ok (text "db-1") |};
       vm_sent := [] |}) as H.
  vm_compute in H. apply (f_equal fst) in H. exact H.
Defined.

Lemma handleSummary_shows_witness :
  handleSummary (fun _ => Ok tt) demo_client 0 "web-1" demo_vm =
    (R_json {| su_Hostname := "web-1"; su_TS := 0; CPUUsage := None; MemUsedPercent := None;
               DiskRootUsedPercent := None; Load1 := None; NetBytesRecv := None;
               NetBytesSent := None |}, logged demo_vm (summary_urls demo_client "web-1")).
Proof.
  rewrite (handleSummary_shows (fun _ => Ok tt) demo_client (fun _ => eq_refl)).
  vm_compute. reflexivity.
Defined.
