(* ===== verification/Events.v ===== *)
(** * Events (define/event.go, tasks/hostname.go)

    A task emits a typed map: dimensions, metrics and, depending on the task,
    further entries - rows, texts, or structures of its own ([X]). [view] is
    what the HTTP output finds in such a map. *)
From Stdlib Require Import String.
From S2P Require Import Prelude GoTime GoFloat HttpPublish.

(** A value of a [[]map[string]any]. *)
Inductive Scalar :=
| S_text (s : string)
| S_int (n : Z)
| S_num (x : float64).

(** A value of a [map[string]any]. *)
Inductive Any (X : Type) :=
| A_text (s : string)
| A_num (x : float64)
| A_strings (m : gmap string string)
| A_floats (m : gmap string float64)
| A_rows (rows : list (gmap string Scalar))
| A_other (x : X).
Arguments A_text {X} s. Arguments A_num {X} x. Arguments A_strings {X} m.
Arguments A_floats {X} m. Arguments A_rows {X} rows. Arguments A_other {X} x.

Abbreviation Data X := (gmap string (Any X)).

Record SimpleEvent (X : Type) := {
  se_Type : string;
  se_Data : Data X;
  se_Timestamp : Time
}.
Arguments se_Type {X}. Arguments se_Data {X}. Arguments se_Timestamp {X}.

Definition NewEvent {X} (now : Time) (typ : string) (data : Data X) : SimpleEvent X :=
  {| se_Type := typ; se_Data := data; se_Timestamp := now |}.

(** The environment variable, the host's name, or a placeholder. *)
Definition Hostname (env : string) (os : result string) : string :=
  if decide (env = EmptyString) then match os with Ok h => h | Err _ => "unknown"%string end
  else env.

(** [select { case e <- ev: case <-ctx.Done(): }]; [sent] tells which case ran. *)
Definition emit {X} (sent : bool) (ev : SimpleEvent X) : list (SimpleEvent X) :=
  if sent then [ev] else [].

(** ** What the HTTP output reads: type assertions on two entries, three
    entries as they are *)
Definition strings_of {X} (v : option (Any X)) : gmap string string :=
  match v with Some (A_strings m) => m | _ => ∅ end.

Definition floats_of {X} (v : option (Any X)) : gmap string float64 :=
  match v with Some (A_floats m) => m | _ => ∅ end.

Definition view {X J} (inj : Any X -> J) (d : Data X) : EventData float64 J :=
  {| metrics := floats_of (d !! "metrics"%string);
     dimensions := strings_of (d !! "dimensions"%string);
     processes := inj <$> d !! "processes"%string;
     connections := inj <$> d !! "connections"%string;
     exceptions := inj <$> d !! "exceptions"%string |}.

Definition http_event {X J} (inj : Any X -> J) (raw : Data X -> J) (e : SimpleEvent X)
    : Event float64 J :=
  {| ev_type := se_Type e; ev_millis := se_Timestamp e / Millisecond;
     ev_data := Some (view inj (se_Data e)); ev_raw := raw (se_Data e) |}.

(** The map every task starts from. *)
Definition base_data {X} (dims : gmap string string) (ms : gmap string float64) : Data X :=
  <["metrics" := A_floats ms]> {["dimensions" := A_strings dims]}.

(** ** Well-typed events

    What the outputs rely on: dimensions and metrics have the Go types they
    assert, every series names the host it is about, and there is something to
    report. *)
Record well_typed {X} (host : string) (e : SimpleEvent X) : Prop := {
  wt_dims : exists dims, se_Data e !! "dimensions"%string = Some (A_strings dims) /\
    dims !! "hostname"%string = Some host;
  wt_metrics : exists ms, se_Data e !! "metrics"%string = Some (A_floats ms) /\ ms <> ∅
}.

(** The three parts of it: the types, the host, something to report. *)
Definition typed {X} (e : SimpleEvent X) : Prop := exists dims ms,
  se_Data e !! "dimensions"%string = Some (A_strings dims) /\
  se_Data e !! "metrics"%string = Some (A_floats ms).

Definition names_host {X} (host : string) (e : SimpleEvent X) : Prop := exists dims,
  se_Data e !! "dimensions"%string = Some (A_strings dims) /\ dims !! "hostname"%string = Some host.

Definition has_metrics {X} (e : SimpleEvent X) : Prop := exists ms,
  se_Data e !! "metrics"%string = Some (A_floats ms) /\ ms <> ∅.

Section facts.

Lemma well_typed_parts {X} host (e : SimpleEvent X) :
  well_typed host e <-> typed e /\ names_host host e /\ has_metrics e.
Proof.
  split.
  - intros [(dims & Hd & Hh) (ms & Hm & Hn)]. split_and!; [by exists dims, ms|by exists dims|by exists ms].
  - intros (_ & Hh & Hm). by split.
Qed.

Lemma well_typed_base {X} host now typ (d : Data X) dims ms :
  d !! "dimensions"%string = Some (A_strings dims) ->
  d !! "metrics"%string = Some (A_floats ms) ->
  dims !! "hostname"%string = Some host -> (exists k, is_Some (ms !! k)) ->
  well_typed host (NewEvent now typ d).
Proof.
  intros Hd Hm Hh [k Hk]. split; [eauto|]. exists ms. split; [done|].
  intros ->. rewrite lookup_empty in Hk. by destruct Hk.
Qed.

(** A sent event is well typed, an unsent one is not there. *)
Lemma emit_well_typed {X} host sent (e : SimpleEvent X) :
  well_typed host e -> Forall (well_typed host) (emit sent e).
Proof. intros H. destruct sent; simpl; auto. Qed.
End facts.
