(* ===== verification/Probes.v ===== *)
(** * The network probes (tasks/probe, tasks/ping, tasks/tcp, tasks/udp, tasks/http)

    Every probe makes a [Result] of what the network answered - the outcomes of
    its calls are arguments - and emits one event. The backend of the ping task
    that runs the system's ping parses its output with regular expressions,
    which are arguments too. *)
From Stdlib Require Import Ascii String.
From stdpp Require Import pretty.
From S2P Require Import Prelude GoTime LabelsJson GoFloat GoStrings Configs Ping HttpPublish Events.

(** ** tasks/probe *)
Definition DurationMillis (d : Duration) : float64 := fdiv (float_of d) (float_of Millisecond).

Definition probe_metrics (r : Result) : gmap string float64 :=
  <["duration_ms" := DurationMillis (rs_Duration r)]>
    (<["success" := if rs_Success r then float_of 1 else float_of 0]> (rs_Metrics r)).

Definition probe_dims (host probeType target : string) (taskID : Z) : gmap string string :=
  <["task_id" := pretty taskID]>
    (<["target" := target]> (<["probe_type" := probeType]> {["hostname" := host]})).

Definition BuildEvent {X} (now : Time) (host probeType target : string) (taskID : Z) (r : Result)
    : SimpleEvent X :=
  NewEvent now (probeType +:+ "_event")
    (<["error" := A_text (rs_Error r)]>
       (base_data (probe_dims host probeType target taskID) (probe_metrics r))).

(** ** tasks/tcp/tcp.go *)

(** [dial]: the connection, as the outcome of closing it. *)
Definition tcp_result (dial : result (result unit)) (duration : Duration) : Result :=
  let ms : gmap string float64 := {["connect_ms" := DurationMillis duration]} in
  match dial with
  | Err e => {| rs_Metrics := ms; rs_Error := e; rs_Duration := duration; rs_Success := false |}
  | Ok (Err e) => {| rs_Metrics := ms; rs_Error := e; rs_Duration := duration; rs_Success := false |}
  | Ok (Ok _) =>
      {| rs_Metrics := ms; rs_Error := EmptyString; rs_Duration := duration; rs_Success := true |}
  end.

Definition tcp_run {X} (now : Time) (host : string) (cfg : TCPConfig) (dial : result (result unit))
    (duration : Duration) (sent : bool) : list (SimpleEvent X) :=
  emit sent (BuildEvent now host "tcp" (tcp_Address cfg) (TaskID (tcp_base cfg))
               (tcp_result dial duration)).

(** ** tasks/udp/udp.go *)

(** What the socket does; [n] bytes are written or read also in case of an
    error. [took]: the time since the start when the probe ends. *)
Record UdpCalls := {
  uc_dial : result unit;
  uc_setDeadline : option (result unit);  (* None: the context has no deadline *)
  uc_write : Bytes -> Z * result unit;
  uc_read : Z * result unit;
  uc_took : Duration
}.

Definition failed (ms : gmap string float64) (e : error) (d : Duration) : Result :=
  {| rs_Metrics := ms; rs_Error := e; rs_Duration := d; rs_Success := false |}.

Definition succeeded (ms : gmap string float64) (d : Duration) : Result :=
  {| rs_Metrics := ms; rs_Error := EmptyString; rs_Duration := d; rs_Success := true |}.

Definition bytes_of (s : string) : Bytes := byte <$> text s.

Definition udp_probe (cfg : UDPConfig) (c : UdpCalls) : Result :=
  let d := uc_took c in
  let round_trip (ms : gmap string float64) := <["round_trip_ms" := DurationMillis d]> ms in
  match uc_dial c with
  | Err e => failed (round_trip ∅) e d
  | Ok _ =>
      match default (Ok tt) (uc_setDeadline c) with
      | Err e => failed (round_trip ∅) e d
      | Ok _ =>
          let payload := if decide (Payload cfg = EmptyString) then bytes_of "monitorbeat"
                         else bytes_of (Payload cfg) in
          let '(n, w) := uc_write c payload in
          let ms : gmap string float64 := {["bytes_written" := float_of n]} in
          match w with
          | Err e => failed (round_trip ms) e d
          | Ok _ =>
              if ExpectReply cfg then
                let '(n, r) := uc_read c in
                let ms := round_trip (<["bytes_read" := float_of n]> ms) in
                match r with Err e => failed ms e d | Ok _ => succeeded ms d end
              else succeeded (round_trip ms) d
          end
      end
  end.

Definition udp_run {X} (now : Time) (host : string) (cfg : UDPConfig) (c : UdpCalls) (sent : bool)
    : list (SimpleEvent X) :=
  emit sent (BuildEvent now host "udp" (udp_Address cfg) (TaskID (udp_base cfg)) (udp_probe cfg c)).

(** ** tasks/http/http.go *)
Record traceTimes := {
  dnsStart : Time; dnsDone : Time;
  connectStart : Time; connectDone : Time;
  tlsStart : Time; tlsDone : Time;
  firstByte : Time
}.

Definition put_if {A} (c : bool) (k : string) (v : A) (m : gmap string A) : gmap string A :=
  if c then <[k := v]> m else m.

Definition both_set (a b : Time) : bool := negb (IsZero a) && negb (IsZero b).

Definition trace_metrics (t : traceTimes) (start : Time) (statusCode contentLength : Z)
    : gmap string float64 :=
  put_if (negb (IsZero (firstByte t))) "ttfb_ms" (DurationMillis (Sub (firstByte t) start))
  (put_if (both_set (tlsStart t) (tlsDone t)) "tls_ms" (DurationMillis (Sub (tlsDone t) (tlsStart t)))
  (put_if (both_set (connectStart t) (connectDone t)) "connect_ms"
     (DurationMillis (Sub (connectDone t) (connectStart t)))
  (put_if (both_set (dnsStart t) (dnsDone t)) "dns_ms"
     (DurationMillis (Sub (dnsDone t) (dnsStart t)))
  (<["content_length" := float_of contentLength]>
     {["status_code" := float_of statusCode]})))).

(** [hc_do]: the status and the outcome of reading the body - the bytes read and
    an error. *)
Record HttpCalls := {
  hc_newRequest : result unit;
  hc_do : result (Z * (Z * option error));
  hc_times : traceTimes;
  hc_start : Time;
  hc_took : Duration
}.

Definition http_failure (d : Duration) (e : error) (ms : gmap string float64) : Result :=
  failed (<["total_ms" := DurationMillis d]> ms) e d.

Definition http_probe (cfg : HTTPConfig) (c : HttpCalls) : Result :=
  let d := hc_took c in
  match hc_newRequest c with
  | Err e => http_failure d e ∅
  | Ok _ =>
      match hc_do c with
      | Err e => http_failure d e (trace_metrics (hc_times c) (hc_start c) 0 0)
      | Ok (code, (len, err)) =>
          let ms := <["total_ms" := DurationMillis d]>
                      (trace_metrics (hc_times c) (hc_start c) code len) in
          match err with
          | Some e => failed ms e d
          | None =>
              if negb (code =? ExpectedCode cfg) then
                failed ms ("unexpected status: got " +:+ pretty code +:+ " want " +:+
                           pretty (ExpectedCode cfg)) d
              else succeeded ms d
          end
      end
  end.

Definition http_run {X} (now : Time) (host : string) (cfg : HTTPConfig) (c : HttpCalls) (sent : bool)
    : list (SimpleEvent X) :=
  emit sent (BuildEvent now host "http" (http_URL cfg) (TaskID (http_base cfg)) (http_probe cfg c)).

(** ** tasks/ping/command.go and command_backend.go *)
Definition errBackendUnsupported : error := "ping: command output backend is linux-only".

(** The three expressions: whether the header occurs, and the summary lines
    with their groups (the whole match first). *)
Class PingPatterns := {
  linuxPingHeader : string -> bool;
  linuxStatsLine : string -> option (string * string * string * string);
  linuxRTTLine : string -> option (string * string * string * string);
  parse_float : string -> result float64;
  quote_string : string -> string
}.

Section command.
Context {P : PingPatterns}.

Definition Atoi (s : string) : option Z := parse_int (text s).

Definition stats_metrics (output : string) : result (gmap string float64) :=
  match linuxStatsLine output with
  | None => Err ("ping: linux stats summary line missing: " +:+ errBackendUnsupported)
  | Some (m0, m1, m2, m3) =>
      match Atoi m1, Atoi m2, parse_float m3 with
      | Some sent, Some received, Ok lossPct =>
          if sent <=? 0 then Err "ping: stats line reports zero packets transmitted"
          else Ok (<["available" := fdiv (float_of received) (float_of sent)]>
                    (<["packet_loss_percent" := fdiv lossPct (float_of 100)]>
                      (<["packets_received" := float_of received]>
                        {["packets_sent" := float_of sent]})))
      | _, _, _ => Err ("ping: malformed stats line: " +:+ quote_string m0)
      end
  end.

Definition with_rtt (lo avg hi : float64) (m : gmap string float64) : gmap string float64 :=
  <["max_rtt_ms" := hi]> (<["avg_rtt_ms" := avg]> (<["min_rtt_ms" := lo]> m)).

Definition parseCommandOutput (output : string) : result (gmap string float64) :=
  if negb (linuxPingHeader output) then Err errBackendUnsupported
  else
    match stats_metrics output with
    | Err e => Err e
    | Ok m =>
        match linuxRTTLine output with
        | Some (m0, m1, m2, m3) =>
            match parse_float m1, parse_float m2, parse_float m3 with
            | Ok lo, Ok avg, Ok hi => Ok (with_rtt lo avg hi m)
            | _, _, _ => Err ("ping: malformed rtt line: " +:+ quote_string m0)
            end
        | None =>
            if flt fzero (default fzero (m !! "packets_received"%string))
            then Err "ping: linux rtt summary line missing despite received > 0"
            else Ok (with_rtt (float_of 0) (float_of 0) (float_of 0) m)
        end
    end.

(** [int(d.Seconds())] *)
Definition whole_seconds (d : Duration) : Z :=
  to_int64 (fadd (float_of (Z.quot d Second)) (fdiv (float_of (Z.rem d Second)) (float_of Second))).

Definition perPacketSeconds (maxRTT : Duration) : Z :=
  let n := if (0 <? maxRTT) && (maxRTT <? Second) then 1 else whole_seconds maxRTT in
  if n <? 1 then 1 else n.

Definition ping_args (cfg : PingConfig) : list string :=
  ["-c"; pretty (or_default 2 (PingCount cfg));
   "-s"; pretty (at_least_or 8 56 (PayloadSize cfg));
   "-W"; pretty (perPacketSeconds (MaxRTT cfg)); "-4"; Target cfg]%string.

(** How the command ended. *)
Record Finished := {
  fi_stdout : string;
  fi_stderr : string;
  fi_err : option error;
  fi_ctx : option error;
  fi_took : Duration
}.

Definition runCommandBackend (exec_ping : list string -> Finished) (cfg : PingConfig) : Result :=
  let f := exec_ping (ping_args cfg) in
  let ms0 : gmap string float64 := {["backend" := float_of 0]} in
  match fi_ctx f with
  | Some e => failed ms0 ("command ping aborted: " +:+ e) (fi_took f)
  | None =>
      match parseCommandOutput (fi_stdout f) with
      | Err e =>
          let msg := match fi_err f with Some e' => e +:+ ": " +:+ e' | None => e end in
          let msg := if decide (fi_stderr f = EmptyString) then msg
                     else msg +:+ ": " +:+ fi_stderr f in
          failed ms0 msg (fi_took f)
      | Ok m =>
          let ms := <["backend" := float_of 0]> m in
          {| rs_Metrics := ms; rs_Error := EmptyString; rs_Duration := fi_took f;
             rs_Success := flt fzero (default fzero (ms !! "packets_received"%string)) |}
      end
  end.

(** ** tasks/ping/ping.go *)
Definition ping_probe (icmp_backend : PingConfig -> Result) (exec_ping : list string -> Finished)
    (elapsed : Duration) (cfg : PingConfig) : Result :=
  if decide (Backend cfg = "command"%string) then runCommandBackend exec_ping cfg
  else if decide (Backend cfg = "icmp"%string) then icmp_backend cfg
  else failed ∅ (errBackendUnsupported +:+ ": " +:+ quote_string (Backend cfg)) elapsed.

Definition ping_run {X} (now : Time) (host : string) (icmp_backend : PingConfig -> Result)
    (exec_ping : list string -> Finished) (elapsed : Duration) (cfg : PingConfig) (sent : bool)
    : list (SimpleEvent X) :=
  emit sent (BuildEvent now host "ping" (Target cfg) (TaskID (ping_base cfg))
               (ping_probe icmp_backend exec_ping elapsed cfg)).
End command.
