(* ===== verification/Exception.v ===== *)
(** * The exception task (tasks/exceptionbeat/exceptionbeat.go)

    Four checks - read-only file systems, full disks, new core files, OOM kills -
    and one event per run. The last two compare with what the previous runs
    saw. What the operating system answers during a run is an argument; so are
    [filepath.Match] and the rendering of a float with one decimal. *)
From Stdlib Require Import Ascii String.
From stdpp Require Import pretty.
From S2P Require Import Prelude GoTime LabelsJson GoFloat GoStrings Configs HttpPublish Events.

Definition EventType : string := "exceptionbeat_event".

Abbreviation Row := (gmap string Scalar).

(** ** What a run sees *)
Record PartitionStat := {
  pa_Mountpoint : string;
  pa_Device : string;
  pa_Fstype : string;
  pa_Opts : list string
}.

Record UsageStat := {
  us_Total : Z;
  us_Used : Z;
  us_Free : Z;
  us_UsedPercent : float64;
  us_InodesUsedPercent : float64
}.

(** A directory entry; [de_Info] is its size and modification time. *)
Record DirEntry := {
  de_Name : string;
  de_IsDir : bool;
  de_Info : result (Z * Time)
}.

Record Seen := {
  sn_now : Time;  (* when the core files are checked *)
  sn_partitions_ro : result (list PartitionStat);
  sn_partitions : result (list PartitionStat);
  sn_usage : string -> result UsageStat;
  sn_core_pattern : result string;
  sn_dir : string -> result (list DirEntry);
  sn_vmstat : result string
}.

(** ** The state kept between runs *)
Record Gather := {
  lastCoreFiles : gset string;
  lastCoreCheck : Time;
  lastOOMKillCount : Z
}.

Definition New : Gather :=
  {| lastCoreFiles := ∅; lastCoreCheck := zero_time; lastOOMKillCount := 0 |}.

Section exceptionbeat.
Context (Match : string -> string -> result bool).
Context (fmt1 : float64 -> string).
Context (cfg : ExceptionbeatConfig).

(** ** diskro *)
Definition isReadOnly (opts : list string) : bool := existsb (String.eqb "ro") opts.

Fixpoint join_texts (ss : list string) : string :=
  match ss with
  | [] => EmptyString
  | [s] => s
  | s :: ss' => s +:+ "," +:+ join_texts ss'
  end.

Definition roItem (p : PartitionStat) (reason : string) : Row :=
  <["reason" := S_text reason]>
    (<["opts" := S_text (join_texts (pa_Opts p))]>
      (<["fstype" := S_text (pa_Fstype p)]>
        (<["device" := S_text (pa_Device p)]> {["mount_point" := S_text (pa_Mountpoint p)]}))).

Definition matches (pat s : string) : bool :=
  match Match pat s with Ok b => b | Err _ => false end.

Definition matchAny (s : string) (patterns : list string) : bool :=
  existsb (fun pat => matches pat s) patterns.

Definition ro_row (p : PartitionStat) : option Row :=
  if negb (isReadOnly (pa_Opts p)) then None
  else if matchAny (pa_Mountpoint p) (DiskROWhiteList cfg) then Some (roItem p "white_list")
  else if matchAny (pa_Mountpoint p) (DiskROBlackList cfg) then None
  else Some (roItem p "detected").

Definition collectDiskRO (s : Seen) : list Row :=
  match sn_partitions_ro s with Err _ => [] | Ok parts => omap ro_row parts end.

(** ** diskspace *)
Definition GB : float64 := float_of (1024 * 1024 * 1024).

Definition usage_reason (u : UsageStat) : option string :=
  if flt (float_of (DiskUsagePercent cfg)) (us_UsedPercent u)
  then Some ("usage " +:+ fmt1 (us_UsedPercent u) +:+ "% > " +:+ pretty (DiskUsagePercent cfg) +:+ "%")
  else None.

Definition free_reason (u : UsageStat) : option string :=
  let freeGB := fdiv (float_of (us_Free u)) GB in
  if to_int64 freeGB <? DiskMinFreeGB cfg
  then Some ("free " +:+ fmt1 freeGB +:+ " GB < " +:+ pretty (DiskMinFreeGB cfg) +:+ " GB")
  else None.

Definition space_reason (u : UsageStat) : option string :=
  match usage_reason u, free_reason u with
  | Some a, Some b => Some (a +:+ "; " +:+ b)
  | Some a, None => Some a
  | None, r => r
  end.

Definition space_item (p : PartitionStat) (u : UsageStat) (reason : string) : Row :=
  <["reason" := S_text reason]>
    (<["inodes_used_percent" := S_num (us_InodesUsedPercent u)]>
      (<["used_percent" := S_num (us_UsedPercent u)]>
        (<["free_gb" := S_num (fdiv (float_of (us_Free u)) GB)]>
          (<["used_gb" := S_num (fdiv (float_of (us_Used u)) GB)]>
            (<["total_gb" := S_num (fdiv (float_of (us_Total u)) GB)]>
              (<["fstype" := S_text (pa_Fstype p)]>
                (<["device" := S_text (pa_Device p)]>
                  {["mount_point" := S_text (pa_Mountpoint p)]}))))))).

Definition space_row (usage : string -> result UsageStat) (p : PartitionStat) : option Row :=
  match usage (pa_Mountpoint p) with
  | Err _ => None
  | Ok u => space_item p u <$> space_reason u
  end.

Definition collectDiskSpace (s : Seen) : list Row :=
  match sn_partitions s with Err _ => [] | Ok parts => omap (space_row (sn_usage s)) parts end.

(** ** corefile *)
Definition dir_or_none (d : Text) : option Text :=
  if bool_decide (d = []) || bool_decide (d = text ".") then None else Some d.

Definition kernel_core_dir (core_pattern : result string) : option Text :=
  match core_pattern with
  | Err _ => None
  | Ok data =>
      match TrimSpace (text data) with
      | [] => None
      | c :: pattern' as pattern =>
          if decide (c = "|"%char) then None else dir_or_none (Dir pattern)
      end
  end.

Definition resolveCoreDir (core_pattern : result string) : option Text :=
  if decide (CorefilePattern cfg = EmptyString) then kernel_core_dir core_pattern
  else match dir_or_none (Dir (text (CorefilePattern cfg))) with
       | Some d => Some d
       | None => kernel_core_dir core_pattern
       end.

Definition core_row (path name : string) (size : Z) (mtime : Time) : Row :=
  <["mod_time" := S_int (Unix mtime)]>
    (<["file_size" := S_int size]>
      (<["file_name" := S_text name]> {["file_path" := S_text path]})).

(** One entry: its path, if it counts as a file seen, and its row, if it is
    reported. *)
Definition core_entry (dir : Text) (last : Time) (e : DirEntry) : option (string * option Row) :=
  if de_IsDir e then None
  else
    match de_Info e with
    | Err _ => None
    | Ok (size, mtime) =>
        let path := str (Join dir (text (de_Name e))) in
        Some (path, if IsZero last then None
                    else if Before mtime last then None
                    else Some (core_row path (de_Name e) size mtime))
    end.

Definition collectCorefile (s : Seen) (g : Gather) : list Row * Gather :=
  match resolveCoreDir (sn_core_pattern s) with
  | None => ([], g)
  | Some dir =>
      match sn_dir s (str dir) with
      | Err _ => ([], g)
      | Ok entries =>
          let found := omap (core_entry dir (lastCoreCheck g)) entries in
          (omap snd found,
           {| lastCoreFiles := list_to_set found.*1; lastCoreCheck := sn_now s;
              lastOOMKillCount := lastOOMKillCount g |})
      end
  end.

(** ** outofmem *)
Definition oom_line (line : Text) : option Z :=
  if HasPrefix line (text "oom_kill ") then
    match Fields line with
    | _ :: v :: _ => parse_int v
    | _ => None
    end
  else None.

(** The first line that parses. *)
Definition parseOOMKillCount (content : string) : Z :=
  default 0 (head (omap oom_line (split_on "010"%char (text content)))).

Definition oom_row (newOOMs currentCount : Z) : Row :=
  <["total_count" := S_int currentCount]> {["new_oom_count" := S_int newOOMs]}.

Definition with_oom (n : Z) (g : Gather) : Gather :=
  {| lastCoreFiles := lastCoreFiles g; lastCoreCheck := lastCoreCheck g; lastOOMKillCount := n |}.

Definition collectOOM (s : Seen) (g : Gather) : list Row * Gather :=
  match sn_vmstat s with
  | Err _ => ([], g)
  | Ok data =>
      let currentCount := parseOOMKillCount data in
      if lastOOMKillCount g =? 0 then ([], with_oom currentCount g)
      else if currentCount <=? lastOOMKillCount g then ([], g)
      else ([oom_row (wrap64 (currentCount - lastOOMKillCount g)) currentCount],
            with_oom currentCount g)
  end.

(** ** Run *)
Definition collected (s : Seen) (g : Gather)
    : list Row * list Row * list Row * list Row * Gather :=
  let ro := if CheckDiskRO cfg then collectDiskRO s else [] in
  let space := if CheckDiskSpace cfg then collectDiskSpace s else [] in
  let '(cores, g) := if CheckCorefile cfg then collectCorefile s g else ([], g) in
  let '(ooms, g) := if CheckOOM cfg then collectOOM s g else ([], g) in
  (ro, space, cores, ooms, g).

Definition count {A} (xs : list A) : float64 := float_of (Z.of_nat (List.length xs)).

Definition exception_data {X} (host : string) (cost_ms : Z) (ro space cores ooms : list Row)
    : Data X :=
  <["oom" := A_rows ooms]>
    (<["corefile" := A_rows cores]>
      (<["disk_space" := A_rows space]>
        (<["disk_ro" := A_rows ro]>
          (base_data {["hostname" := host]}
            (<["oom_count" := count ooms]>
              (<["corefile_count" := count cores]>
                (<["disk_space_count" := count space]>
                  (<["disk_ro_count" := count ro]>
                    {["cost_ms" := float_of cost_ms]})))))))).

Definition Run {X} (now : Time) (host : string) (cost_ms : Z) (sent : bool) (s : Seen) (g : Gather)
    : list (SimpleEvent X) * Gather :=
  let '(ro, space, cores, ooms, g) := collected s g in
  (emit sent (NewEvent now EventType (exception_data host cost_ms ro space cores ooms)), g).
End exceptionbeat.
