(* ===== verification/ExceptionSpec.v ===== *)
(** * What the exception task reports over its runs

    Kills are reported as differences against the first count that is not
    zero; a core file is reported once; a run's event is well typed and its
    counts are the lengths of its lists. *)
From Stdlib Require Import Ascii String.
From S2P Require Import Prelude GoTime LabelsJson GoFloat GoStrings Configs HttpPublish Events Exception.

(** ** OOM kills *)
Section oom.

(** The numbers of new kills reported in the runs, in order. *)
Fixpoint oom_runs (ss : list Seen) (g : Gather) : list (list Row) * Gather :=
  match ss with
  | [] => ([], g)
  | s :: ss' =>
      let '(rows, g) := collectOOM s g in
      let '(out, g) := oom_runs ss' g in
      (rows :: out, g)
  end.

Definition new_kills (row : Row) : Z :=
  match row !! "new_oom_count"%string with Some (S_int n) => n | _ => 0 end.

Definition sum (ns : list Z) : Z := foldr Z.add 0 ns.

Definition total_kills (out : list (list Row)) : Z := sum (new_kills <$> concat out).

(** The counts that could be read. *)
Definition counts (ss : list Seen) : list Z :=
  omap (fun s => match sn_vmstat s with Ok d => Some (parseOOMKillCount d) | Err _ => None end) ss.

Definition highest (n : Z) (cs : list Z) : Z := foldr Z.max n cs.

Lemma highest_le n cs : n <= highest n cs.
Proof. unfold highest. induction cs as [|c cs IH]; simpl; lia. Qed.

Lemma highest_step n c cs : highest (Z.max c n) cs = Z.max c (highest n cs).
Proof. unfold highest. induction cs as [|d cs IH]; simpl; lia. Qed.

Lemma total_cons rows out : total_kills (rows :: out) = sum (new_kills <$> rows) + total_kills out.
Proof.
  unfold total_kills. rewrite concat_cons, fmap_app. generalize (new_kills <$> concat out).
  intros ys. unfold sum. induction (new_kills <$> rows) as [|x xs IH]; simpl; lia.
Qed.

Lemma parse_int_bound t n : parse_int t = Some n -> n <= maxInt64.
Proof.
  unfold parse_int. repeat case_match; intros; simplify_eq.
  all: match goal with H : _ && _ = true |- _ => apply andb_true_iff, proj2, Z.leb_le in H; exact H end.
Qed.

Lemma count_bound d : parseOOMKillCount d <= maxInt64.
Proof.
  unfold parseOOMKillCount. destruct (head _) as [n|] eqn:E; [|done]. simpl.
  apply head_Some_elem_of, list_elem_of_omap in E as (line & _ & E). unfold oom_line in E.
  repeat case_match; try done. by eapply parse_int_bound.
Qed.

Lemma kills_of_row n c : sum (new_kills <$> [oom_row n c]) = n.
Proof.
  change (sum (new_kills <$> [oom_row n c])) with (new_kills (oom_row n c) + 0).
  unfold new_kills, oom_row. rewrite lookup_insert_ne, lookup_singleton_eq by done. lia.
Qed.

(** From a baseline on. *)
Lemma oom_runs_from ss g :
  0 < lastOOMKillCount g ->
  total_kills (fst (oom_runs ss g)) = highest (lastOOMKillCount g) (counts ss) - lastOOMKillCount g.
Proof.
  revert g. induction ss as [|s ss IH]; intros g Hg; [simpl; unfold total_kills; simpl; lia|].
  cbn [oom_runs]. unfold collectOOM. unfold counts. cbn [omap list_omap]. fold (counts ss).
  destruct (sn_vmstat s) as [d|e].
  2:{ specialize (IH g Hg). destruct (oom_runs ss g) as [out g']. simpl in *.
      by rewrite total_cons. }
  pose proof (count_bound d) as Hd. set (c := parseOOMKillCount d) in *.
  rewrite (proj2 (Z.eqb_neq _ 0)) by lia. destruct (Z.leb_spec c (lastOOMKillCount g)) as [Hle|Hlt].
  - specialize (IH g Hg). destruct (oom_runs ss g) as [out g']. cbn [fst] in *. rewrite total_cons.
    simpl. rewrite IH. cbn [highest foldr]. pose proof (highest_le (lastOOMKillCount g) (counts ss)).
    unfold highest in *. lia.
  - specialize (IH (with_oom c g) ltac:(simpl; lia)).
    destruct (oom_runs ss (with_oom c g)) as [out g']. cbn [fst lastOOMKillCount with_oom] in *.
    rewrite total_cons, IH. rewrite wrap64_id by (unfold fits64, minInt64, maxInt64 in *; lia).
    rewrite kills_of_row. cbn [highest foldr]. fold (highest (lastOOMKillCount g) (counts ss)).
    pose proof (highest_step (lastOOMKillCount g) c (counts ss)) as E.
    rewrite Z.max_l in E by lia. lia.
Qed.

(** The counts from the first one that is not zero. *)
Fixpoint from_nonzero (cs : list Z) : list Z :=
  match cs with
  | [] => []
  | c :: cs' => if c =? 0 then from_nonzero cs' else cs
  end.

(** C37: over any runs of a new task, readable or not, the kills reported are
    exactly those counted after the first reading that was not zero, even when
    the counter falls back in between. Kills counted by that reading itself are
    never reported: on a host whose counter starts at zero, the first ones. *)
Theorem oom_reports_after_first_nonzero ss :
  Forall (fun c => 0 <= c) (counts ss) ->
  total_kills (fst (oom_runs ss New)) =
    match from_nonzero (counts ss) with
    | [] => 0
    | c :: cs => highest c cs - c
    end.
Proof.
  assert (forall g, lastOOMKillCount g = 0 -> Forall (fun c => 0 <= c) (counts ss) ->
    total_kills (fst (oom_runs ss g)) =
      match from_nonzero (counts ss) with [] => 0 | c :: cs => highest c cs - c end) as H.
  { induction ss as [|s ss IH]; intros g Hg Hc; [done|].
    cbn [oom_runs]. unfold collectOOM. unfold counts in *. cbn [omap list_omap] in *.
    fold (counts ss) in *. destruct (sn_vmstat s) as [d|e].
    - rewrite Hg. cbn [Z.eqb]. apply Forall_cons in Hc as [Hd Hc].
      cbn [from_nonzero]. destruct (Z.eqb_spec (parseOOMKillCount d) 0) as [E|E].
      + specialize (IH (with_oom (parseOOMKillCount d) g) E Hc).
        destruct (oom_runs ss _) as [out g']. cbn [fst] in *. by rewrite total_cons.
      + pose proof (oom_runs_from ss (with_oom (parseOOMKillCount d) g) ltac:(simpl; lia)) as Ho.
        destruct (oom_runs ss _) as [out g']. cbn [fst lastOOMKillCount with_oom] in *.
        by rewrite total_cons.
    - specialize (IH g Hg Hc). destruct (oom_runs ss g) as [out g']. cbn [fst] in *.
      by rewrite total_cons. }
  by apply H.
Qed.
End oom.

(** ** Core files *)
Section cores.
Context (cfg : ExceptionbeatConfig).

Fixpoint core_runs (ss : list Seen) (g : Gather) : list (list Row) :=
  match ss with
  | [] => []
  | s :: ss' => let '(rows, g) := collectCorefile cfg s g in rows :: core_runs ss' g
  end.

(** A check that could list the directory [dir], with entries [es]. *)
Definition listing (dir : Text) (s : Seen) (es : list DirEntry) : Prop :=
  resolveCoreDir cfg (sn_core_pattern s) = Some dir /\ sn_dir s (str dir) = Ok es.

(** A check that could not. *)
Definition unreadable (s : Seen) : Prop :=
  match resolveCoreDir cfg (sn_core_pattern s) with
  | None => True
  | Some dir => is_ok (sn_dir s (str dir)) = false
  end.

Definition mentions (name : string) (row : Row) : Prop :=
  row !! "file_name"%string = Some (S_text name).

#[local] Instance mentions_dec name row : Decision (mentions name row).
Proof. unfold mentions. destruct (row !! _) as [[t| |]|]; try (right; congruence).
  destruct (decide (t = name)); [left|right]; congruence. Defined.

(** How many of the runs report the file. *)
Definition times_reported (name : string) (out : list (list Row)) : nat :=
  List.length (filter (fun rows => Exists (mentions name) rows) out).

Lemma mentions_core_row name p n size m : mentions name (core_row p n size m) <-> n = name.
Proof.
  unfold mentions, core_row. rewrite !lookup_insert_ne, lookup_insert_eq by done.
  split; [by intros [= ->]|by intros ->].
Qed.

Lemma unreadable_run s g : unreadable s -> collectCorefile cfg s g = ([], g).
Proof.
  unfold unreadable, collectCorefile. destruct (resolveCoreDir _ _) as [dir|]; [|done].
  by destruct (sn_dir s (str dir)).
Qed.

(** A readable check moves the time of the last one to its own and reports the
    file - the only entry of its name - exactly if there was one before and the
    file is not older. *)
Lemma listing_run dir s es g name size m :
  listing dir s es ->
  {| de_Name := name; de_IsDir := false; de_Info := Ok (size, m) |} ∈ es ->
  (forall e, e ∈ es -> de_Name e = name -> de_Info e = Ok (size, m)) ->
  let '(rows, g') := collectCorefile cfg s g in
  lastCoreCheck g' = sn_now s /\
  (Exists (mentions name) rows <-> lastCoreCheck g <> zero_time /\ lastCoreCheck g <= m).
Proof.
  intros [Hdir Hes] Hin Huniq. unfold collectCorefile. rewrite Hdir, Hes. split; [done|].
  rewrite Exists_exists. setoid_rewrite list_elem_of_omap. unfold IsZero, Before. split.
  - intros (row & ([p r] & Hpr & Hr) & Hm). simpl in Hr. subst r.
    apply list_elem_of_omap in Hpr as (e & He & Hce). unfold core_entry in Hce.
    destruct (de_IsDir e); [done|]. destruct (de_Info e) as [[sz mt]|] eqn:Ei; [|done].
    unfold IsZero, Before in Hce. destruct (Z.eqb_spec (lastCoreCheck g) zero_time); [by simplify_eq|].
    destruct (Z.ltb_spec mt (lastCoreCheck g)); simplify_eq.
    apply mentions_core_row in Hm. specialize (Huniq e He Hm). rewrite Ei in Huniq. by simplify_eq.
  - intros [Hz Hle]. exists (core_row (str (Join dir (text name))) name size m).
    split; [|by apply mentions_core_row].
    exists (str (Join dir (text name)), Some (core_row (str (Join dir (text name))) name size m)).
    split; [|done]. apply list_elem_of_omap. eexists. split; [exact Hin|].
    unfold core_entry, IsZero, Before. simpl. rewrite (proj2 (Z.eqb_neq _ _)) by done.
    by rewrite (proj2 (Z.ltb_ge _ _)).
Qed.

(** The file is listed in every readable check. *)
Definition always_listed (dir : Text) (name : string) (size : Z) (m : Time) (s : Seen) : Prop :=
  unreadable s \/ exists es, listing dir s es /\
    {| de_Name := name; de_IsDir := false; de_Info := Ok (size, m) |} ∈ es /\
    (forall e, e ∈ es -> de_Name e = name -> de_Info e = Ok (size, m)).

(** Once a check has been made after the file was written, it is reported no
    more. *)
Lemma never_again dir name size m ss g :
  m < lastCoreCheck g -> Forall (always_listed dir name size m) ss ->
  Forall (fun s => m < sn_now s) ss -> times_reported name (core_runs ss g) = 0%nat.
Proof.
  intros Hg Hs Hnow. revert g Hg. induction Hs as [|s ss H Hs IH]; intros g Hg; [done|].
  apply Forall_cons in Hnow as [Hn Hnow]. cbn [core_runs]. destruct H as [H|(es & H1 & H2 & H3)].
  - rewrite (unreadable_run s g H). unfold times_reported. rewrite filter_cons_False
      by (by intros ?%Exists_nil). by apply IH.
  - pose proof (listing_run dir s es g name size m H1 H2 H3) as Hrun.
    destruct (collectCorefile cfg s g) as [rows g']. destruct Hrun as [Ht Hr].
    unfold times_reported. rewrite filter_cons_False by (rewrite Hr; lia).
    apply IH; [done|]. by rewrite Ht.
Qed.

(** A core file written after a check - at a time no later check has
    passed yet - and listed by every later check that can read the directory is
    reported exactly once, by the first of those checks, however many checks
    fail before it; if all fail it is not lost but still to be reported. *)
Theorem core_file_reported_once dir name size m ss g :
  lastCoreCheck g <> zero_time -> lastCoreCheck g <= m ->
  Forall (always_listed dir name size m) ss -> Forall (fun s => m < sn_now s) ss ->
  (Exists (fun s => ~ unreadable s) ss -> times_reported name (core_runs ss g) = 1%nat) /\
  (Forall unreadable ss -> foldl (fun g s => snd (collectCorefile cfg s g)) g ss = g).
Proof.
  intros Hz Hle Hs Hnow. split.
  - intros Hex. revert g Hz Hle. induction Hs as [|s ss H Hs IH]; intros g Hz Hle.
    { by apply Exists_nil in Hex. }
    apply Forall_cons in Hnow as [Hn Hnow]. cbn [core_runs]. destruct H as [H|(es & H1 & H2 & H3)].
    + apply Exists_cons in Hex as [Hex|Hex]; [done|]. rewrite (unreadable_run s g H).
      unfold times_reported. rewrite filter_cons_False by (by intros ?%Exists_nil). by apply IH.
    + pose proof (listing_run dir s es g name size m H1 H2 H3) as Hrun.
      destruct (collectCorefile cfg s g) as [rows g']. destruct Hrun as [Ht Hr].
      unfold times_reported. rewrite filter_cons_True by (by rewrite Hr). cbn [List.length].
      f_equal. apply (never_again dir name size m); [by rewrite Ht|done|done].
  - clear Hs Hnow. intros Hu. induction Hu as [|s ss H Hu IH]; [done|]. simpl.
    by rewrite (unreadable_run s g H).
Qed.
End cores.

(** ** Runs of a new task *)
Definition demo_cfg : ExceptionbeatConfig :=
  {| exceptionbeat_base := {| TaskID := 1; Ident := "exceptionbeat:1"; Period := Minute; Timeout := 0;
                              Enabled := true; Labels := [] |};
     CheckDiskRO := true; CheckDiskSpace := true; CheckCorefile := true; CheckOOM := true;
     DiskUsagePercent := 90; DiskMinFreeGB := 10; DiskROWhiteList := []; DiskROBlackList := [];
     CorefileReportGap := Minute; CorefilePattern := "/var/core/core.%e.%p";
     CorefileMatchRegex := EmptyString; OutOfMemReportGap := Minute |}.

(** At [t], with the core files [es] and this many kills. *)
Definition demo_seen (t : Time) (es : result (list DirEntry)) (kills : string) : Seen :=
  {| sn_now := t; sn_partitions_ro := Ok []; sn_partitions := Ok []; sn_usage := fun _ => Err "none";
     sn_core_pattern := Err "none"; sn_dir := fun _ => es;
     sn_vmstat := Ok ("nr_free_pages 7" +:+ String "010"%char ("oom_kill " +:+ kills)) |}.

Definition demo_core : DirEntry :=
  {| de_Name := "core.web.17"; de_IsDir := false; de_Info := Ok (4096, 90 * Second) |}.

Definition demo_runs : list Seen :=
  [demo_seen (60 * Second) (Ok []) "0"; demo_seen (120 * Second) (Err "input/output error") "2";
   demo_seen (180 * Second) (Ok [demo_core]) "2"; demo_seen (240 * Second) (Ok [demo_core]) "5"].

Lemma demo_core_dir : resolveCoreDir demo_cfg (Err "none") = Some (text "/var/core").
Proof. vm_compute. reflexivity. Qed.

(** Five kills, of which the first two are lost. *)
Lemma oom_reports_after_first_nonzero_witness :
  counts demo_runs = [0; 2; 2; 5] /\ total_kills (fst (oom_runs demo_runs New)) = 3.
Proof.
  split; [vm_compute; reflexivity|].
  rewrite (oom_reports_after_first_nonzero demo_runs); [vm_compute; reflexivity|].
  apply (bool_decide_unpack _). vm_compute. exact I.
Defined.

Lemma core_file_reported_once_witness :
  let g := snd (collectCorefile demo_cfg (demo_seen (60 * Second) (Ok []) "0") New) in
  times_reported "core.web.17" (core_runs demo_cfg (tail demo_runs) g) = 1%nat.
Proof.
  intros g. apply (core_file_reported_once demo_cfg (text "/var/core") "core.web.17" 4096
    (90 * Second) (tail demo_runs) g).
  - vm_compute. congruence.
  - vm_compute. congruence.
  - assert (forall t k, always_listed demo_cfg (text "/var/core") "core.web.17" 4096 (90 * Second)
      (demo_seen t (Ok [demo_core]) k)) as H.
    { intros t k. right. exists [demo_core]. split; [split; [apply demo_core_dir|reflexivity]|].
      split; [by left|]. intros e He _. apply list_elem_of_singleton in He. by subst e. }
    apply Forall_cons_2; [left|do 2 (apply Forall_cons_2; [apply H|]); apply Forall_nil_2].
    vm_compute. reflexivity.
  - apply (bool_decide_unpack _). vm_compute. exact I.
  - right. left. vm_compute. congruence.
Defined.

(** A file written while a check runs - after the check took its time, before
    it listed the directory - is reported by this check and by the next. *)
Lemma written_during_check_reported_twice :
  let core := {| de_Name := "core.db.9"; de_IsDir := false; de_Info := Ok (8192, 121 * Second) |} in
  let g := snd (collectCorefile demo_cfg (demo_seen (60 * Second) (Ok []) "0") New) in
  times_reported "core.db.9"
    (core_runs demo_cfg [demo_seen (120 * Second) (Ok [core]) "0"; demo_seen (180 * Second) (Ok [core]) "0"] g)
    = 2%nat.
Proof. vm_compute. reflexivity. Qed.
