(* ===== verification/Collectors.v ===== *)
(** * The host collectors (tasks/basereport, processbeat, socketsnapshot, dmesg,
    selfstats, gatherupbeat)

    Each run reads counters of the operating system - arguments here - and puts
    them into one event. Regular expressions of the configuration are arguments;
    the fixed patterns of the dmesg task are spelled out. *)
From Stdlib Require Import Ascii String.
From stdpp Require Import pretty.
From S2P Require Import Prelude GoTime LabelsJson GoFloat GoStrings Web Configs HttpPublish Events.

(** ** tasks/basereport/basereport.go *)
Definition defaultCPUSampleWindow : Duration := 1 * Second.
Definition defaultDiskPath : string := "/".

Record MemStat := { me_Total : Z; me_Available : Z; me_Used : Z; me_UsedPercent : float64 }.
Record DiskUsage := { di_Total : Z; di_Used : Z; di_UsedPercent : float64 }.
Record LoadAvg := { la_Load1 : float64; la_Load5 : float64; la_Load15 : float64 }.
Record IOCounters := { io_BytesSent : Z; io_BytesRecv : Z; io_PacketsSent : Z; io_PacketsRecv : Z }.

(** [hr_cancelled]: the context ended during the sampling window. *)
Record HostReadings := {
  hr_cpu : Duration -> result (list float64);
  hr_cancelled : bool;
  hr_mem : result MemStat;
  hr_disk : string -> result DiskUsage;
  hr_load : result LoadAvg;
  hr_net : result (list IOCounters)
}.

Abbreviation Metrics := (gmap string float64).

Definition is_underscore (c : ascii) : bool := bool_decide (c = "_"%char).

Definition letter_or_digit (c : ascii) : bool :=
  let b := byte c in
  (97 <=? b) && (b <=? 122) || (65 <=? b) && (b <=? 90) || (48 <=? b) && (b <=? 57).

Definition separator (c : ascii) : bool :=
  bool_decide (c ∈ ["/"; "."; "-"; "_"]%char).

Definition metric_byte (c : ascii) : option ascii :=
  if letter_or_digit c then Some c else if separator c then Some "_"%char else None.

Fixpoint drop_underscores (s : Text) : Text :=
  match s with
  | c :: s' => if is_underscore c then drop_underscores s' else s
  | [] => []
  end.

Definition sanitizeMetricKey (p : string) : string :=
  let out := omap metric_byte (text p) in
  let out := drop_underscores out in
  let out := reverse (drop_underscores (reverse out)) in
  match out with [] => "root"%string | _ => str out end.

Definition cpu_window (cfg : BasereportConfig) : Duration :=
  or_default defaultCPUSampleWindow (InfoPeriod (Cpu cfg)).

Definition collectCPU (cfg : BasereportConfig) (h : HostReadings) (m : Metrics) : Metrics :=
  match hr_cpu h (cpu_window cfg) with
  | Err _ => m
  | Ok pcts =>
      if hr_cancelled h then m
      else match pcts with p :: _ => <["cpu_usage"%string := p]> m | [] => m end
  end.

Definition collectMem (cfg : BasereportConfig) (h : HostReadings) (m : Metrics) : Metrics :=
  if negb (mem_Enabled (Mem cfg)) then m
  else
    match hr_mem h with
    | Err _ => m
    | Ok v =>
        <["mem_used_percent" := me_UsedPercent v]>
          (<["mem_used_bytes" := float_of (me_Used v)]>
            (<["mem_available_bytes" := float_of (me_Available v)]>
              (<["mem_total_bytes" := float_of (me_Total v)]> m)))%string
    end.

Definition disk_metric (p suffix : string) : string := "disk_" +:+ sanitizeMetricKey p +:+ suffix.

Definition collect_path (h : HostReadings) (m : Metrics) (p : string) : Metrics :=
  match hr_disk h p with
  | Err _ => m
  | Ok u =>
      <[disk_metric p "_used_percent" := di_UsedPercent u]>
        (<[disk_metric p "_used_bytes" := float_of (di_Used u)]>
          (<[disk_metric p "_total_bytes" := float_of (di_Total u)]> m))
  end.

Definition disk_paths (cfg : BasereportConfig) : list string :=
  match Paths (Disk cfg) with [] => [defaultDiskPath] | ps => ps end.

Definition collectDisk (cfg : BasereportConfig) (h : HostReadings) (m : Metrics) : Metrics :=
  if negb (disk_Enabled (Disk cfg)) then m else foldl (collect_path h) m (disk_paths cfg).

Definition collectLoad (cfg : BasereportConfig) (h : HostReadings) (m : Metrics) : Metrics :=
  if negb (load_Enabled (Load cfg)) then m
  else
    match hr_load h with
    | Err _ => m
    | Ok a => <["load15" := la_Load15 a]> (<["load5" := la_Load5 a]> (<["load1" := la_Load1 a]> m))%string
    end.

Definition collectNet (cfg : BasereportConfig) (h : HostReadings) (m : Metrics) : Metrics :=
  if negb (net_Enabled (Net cfg)) then m
  else
    match hr_net h with
    | Ok (c :: _) =>
        <["net_packets_recv" := float_of (io_PacketsRecv c)]>
          (<["net_packets_sent" := float_of (io_PacketsSent c)]>
            (<["net_bytes_recv" := float_of (io_BytesRecv c)]>
              (<["net_bytes_sent" := float_of (io_BytesSent c)]> m)))%string
    | _ => m
    end.

Definition basereport_metrics (cfg : BasereportConfig) (h : HostReadings) : Metrics :=
  collectNet cfg h (collectLoad cfg h (collectDisk cfg h (collectMem cfg h (collectCPU cfg h ∅)))).

Definition hostname_dims (host : string) : gmap string string := {["hostname" := host]}.

Definition basereport_run {X} (now : Time) (host : string) (sent : bool) (cfg : BasereportConfig)
    (h : HostReadings) : list (SimpleEvent X) :=
  emit sent (NewEvent now ModuleBasereport (base_data (hostname_dims host) (basereport_metrics cfg h))).

(** ** tasks/processbeat/processbeat.go *)
Record procInfo := {
  PID : Z;
  Name : string;
  Cmdline : string;
  CPUPercent : float64;
  MemPercent : float64;  (* a float32 *)
  RSSBytes : Z;
  VMSBytes : Z;
  NumFDs : Z;
  NumThreads : Z
}.

Record Process := {
  pc_Pid : Z;
  pc_Name : result string;
  pc_Cmdline : result string;
  pc_CPUPercent : result float64;
  pc_MemoryPercent : result float64;
  pc_MemoryInfo : result (Z * Z);  (* RSS, VMS *)
  pc_NumFDs : result Z;
  pc_NumThreads : result Z
}.

Definition or_zero {A} (d : A) (r : result A) : A := match r with Ok a => a | Err _ => d end.

Definition collectProc (p : Process) (name : string) : procInfo :=
  let mem := or_zero (0, 0) (pc_MemoryInfo p) in
  {| PID := pc_Pid p; Name := name; Cmdline := or_zero EmptyString (pc_Cmdline p);
     CPUPercent := or_zero fzero (pc_CPUPercent p);
     MemPercent := or_zero fzero (pc_MemoryPercent p);
     RSSBytes := mem.1; VMSBytes := mem.2; NumFDs := or_zero 0 (pc_NumFDs p);
     NumThreads := or_zero 0 (pc_NumThreads p) |}.

Section processbeat.
(** [regexp.Compile]: a test, or an error. *)
Context (Compile : string -> result (string -> bool)).
(** [sort.Slice] by falling CPU: some permutation; [less] is what it is given. *)
Context (sort_slice : (procInfo -> procInfo -> bool) -> list procInfo -> list procInfo).

Definition more_cpu (a b : procInfo) : bool := flt (CPUPercent b) (CPUPercent a).

Definition name_wanted (cfg : ProcessbeatConfig) (name : string) : bool :=
  match ProcessNames cfg with [] => true | names => bool_decide (name ∈ names) end.

Definition cmdline_wanted (re : option (string -> bool)) (p : Process) : bool :=
  match re with
  | None => true
  | Some m => match pc_Cmdline p with Ok c => m c | Err _ => false end
  end.

Definition proc_row (cfg : ProcessbeatConfig) (re : option (string -> bool)) (p : Process)
    : option procInfo :=
  match pc_Name p with
  | Err _ => None
  | Ok name =>
      if negb (name_wanted cfg name) then None
      else if negb (cmdline_wanted re p) then None
      else Some (collectProc p name)
  end.

Definition process_regex (cfg : ProcessbeatConfig) : result (option (string -> bool)) :=
  if decide (ProcessRegex cfg = EmptyString) then Ok None
  else match Compile (ProcessRegex cfg) with
       | Err e => Err ("process_regex compile: " +:+ e)
       | Ok m => Ok (Some m)
       end.

Definition top_n (n : Z) (ps : list procInfo) : list procInfo :=
  if (0 <? n) && (n <? Z.of_nat (List.length ps)) then take (Z.to_nat n) ps else ps.

Definition collect_procs (cfg : ProcessbeatConfig) (procs : result (list Process))
    : result (list procInfo) :=
  match procs with
  | Err e => Err ("process.Processes: " +:+ e)
  | Ok allProcs =>
      match process_regex cfg with
      | Err e => Err e
      | Ok re => Ok (top_n (TopN cfg) (sort_slice more_cpu (omap (proc_row cfg re) allProcs)))
      end
  end.

Definition total_and_cost (total cost_ms : Z) : Metrics :=
  <["cost_ms" := float_of cost_ms]> {["total" := float_of total]}.

Definition processbeat_run (now : Time) (host : string) (cost_ms : Z) (sent : bool)
    (cfg : ProcessbeatConfig) (procs : result (list Process)) : list (SimpleEvent (list procInfo)) :=
  match collect_procs cfg procs with
  | Err _ => []
  | Ok ps =>
      emit sent (NewEvent now "processbeat_event"
        (<["processes" := A_other ps]>
          (base_data (hostname_dims host) (total_and_cost (Z.of_nat (List.length ps)) cost_ms))))
  end.
End processbeat.

(** ** tasks/socketsnapshot/socketsnapshot.go *)
Record connInfo := {
  cn_PID : Z;
  Protocol : string;
  cn_Status : string;
  LocalIP : string;
  Port : Z;
  RemoteIP : string;
  RemotePort : Z
}.

Record ConnectionStat := {
  cs_Pid : Z;
  cs_Status : string;
  cs_Laddr : string * Z;
  cs_Raddr : string * Z
}.

Definition conn_of (kind : string) (c : ConnectionStat) : connInfo :=
  {| cn_PID := cs_Pid c; Protocol := kind; cn_Status := cs_Status c; LocalIP := (cs_Laddr c).1;
     Port := (cs_Laddr c).2; RemoteIP := (cs_Raddr c).1; RemotePort := (cs_Raddr c).2 |}.

Definition collect_conns (connections : string -> result (list ConnectionStat)) : list connInfo :=
  ["tcp"; "udp"]%string ≫= fun kind =>
    match connections kind with Err _ => [] | Ok cs => conn_of kind <$> cs end.

Definition socketsnapshot_run (now : Time) (host : string) (cost_ms : Z) (sent : bool)
    (connections : string -> result (list ConnectionStat)) : list (SimpleEvent (list connInfo)) :=
  let cs := collect_conns connections in
  emit sent (NewEvent now "socketsnapshot_event"
    (<["connections" := A_other cs]>
      (base_data (hostname_dims host) (total_and_cost (Z.of_nat (List.length cs)) cost_ms)))).

(** ** tasks/dmesg/dmesg.go *)

(** The fixed patterns: a text that occurs, one the line starts with, one of
    several, or one with one arbitrary character in it. *)
Inductive Pattern :=
| P_text (s : string)
| P_start (s : string)
| P_either (ss : list string)
| P_gap (s t : string).

(** The number of bytes of the first character: [utf8.DecodeRune]. *)
Definition rune_width (s : Text) : nat :=
  match s with
  | [] => 0
  | a :: s1 =>
      match s1 with
      | b :: s2 =>
          if seq2 a b then 2 else
          match s2 with
          | c :: s3 =>
              if seq3 a b c then 3 else
              match s3 with
              | d :: _ => if seq4 a b c d then 4 else 1
              | [] => 1
              end
          | [] => 1
          end
      | [] => 1
      end
  end.

Definition gap_here (s t : Text) (line : Text) : bool :=
  match strip_prefix s line with
  | Some (c :: r) => bool_decide (c <> "010"%char) && HasPrefix (drop (rune_width (c :: r)) (c :: r)) t
  | _ => false
  end.

Fixpoint gap_somewhere (s t : Text) (line : Text) : bool :=
  gap_here s t line || match line with [] => false | _ :: line' => gap_somewhere s t line' end.

Definition MatchString (p : Pattern) (line : string) : bool :=
  match p with
  | P_text s => contains s line
  | P_start s => String.prefix s line
  | P_either ss => existsb (fun s => contains s line) ss
  | P_gap s t => gap_somewhere (text s) (text t) (text line)
  end.

Definition compiledPatterns : list (string * Pattern) :=
  [("ext3_fs_error", P_text "EXT3-fs error");
   ("disk_io_error", P_text "I/O error");
   ("table_full_drop_pkg", P_text "table full, dropping packet");
   ("out_of_socket_mem", P_text "Out of socket memory");
   ("allocation_failed", P_text "allocation failed");
   ("neighbour_table_overf", P_text "neighbour table overflow");
   ("mce_error", P_start "MCE");
   ("run_in_m_clock_mode", P_text "Running in modulated clock mode");
   ("transmit_time_out", P_text "transmit timed out");
   ("oom", P_either ["Out of Memory"; "out_of_memory"; "oom-kill"]);
   ("alloc_kernel_sgl", P_text "Failed to alloc kernel SGL buffer for IOCTL");
   ("nmi_received", P_gap "Uhhuh" " NMI received");
   ("page_alloc_fail", P_text "page allocation failure");
   ("nic_link_change", P_text "NIC Link is")]%string.

Record matchResult := { mt_Name : string; mt_Message : string }.

(** The inner loop: the first pattern that matches and whose pair has not been
    seen. *)
Fixpoint match_line (patterns : list (string * Pattern)) (line : string) (seen : gset string)
    : option matchResult * gset string :=
  match patterns with
  | [] => (None, seen)
  | (name, p) :: patterns' =>
      if MatchString p line then
        let key := name +:+ ":" +:+ line in
        if decide (key ∈ seen) then match_line patterns' line seen
        else (Some {| mt_Name := name; mt_Message := line |}, {[key]} ∪ seen)
      else match_line patterns' line seen
  end.

Fixpoint match_lines (lines : list Text) (seen : gset string) : list matchResult :=
  match lines with
  | [] => []
  | l :: lines' =>
      match TrimSpace l with
      | [] => match_lines lines' seen
      | line =>
          let '(r, seen) := match_line compiledPatterns (str line) seen in
          match r with
          | Some m => m :: match_lines lines' seen
          | None => match_lines lines' seen
          end
      end
  end.

Definition collect_dmesg (out : result string) : list matchResult :=
  match out with
  | Err _ => []
  | Ok s => match_lines (split_on "010"%char (text s)) ∅
  end.

Definition dmesg_run (now : Time) (host : string) (cost_ms : Z) (sent : bool) (out : result string)
    : list (SimpleEvent (list matchResult)) :=
  let ms := collect_dmesg out in
  emit sent (NewEvent now "dmesg_event"
    (<["exceptions" := A_other ms]>
      (base_data (hostname_dims host) (total_and_cost (Z.of_nat (List.length ms)) cost_ms)))).

(** ** tasks/selfstats/selfstats.go *)
Record MemStats := {
  HeapAlloc : Z; HeapSys : Z; HeapObjects : Z; NumGC : Z; PauseTotalNs : Z; Alloc : Z;
  TotalAlloc : Z; Sys : Z
}.

Definition megabytes (n : Z) : float64 := fdiv (float_of n) (float_of (1024 * 1024)).

(** [Duration.Seconds] *)
Definition seconds (d : Duration) : float64 :=
  fadd (float_of (Z.quot d Second)) (fdiv (float_of (Z.rem d Second)) (float_of Second)).

Definition selfstats_metrics (uptime : Duration) (goroutines cpus : Z) (ms : MemStats) : Metrics :=
  <["sys_mb" := megabytes (Sys ms)]>
  (<["total_alloc_mb" := megabytes (TotalAlloc ms)]>
  (<["alloc_mb" := megabytes (Alloc ms)]>
  (<["gc_pause_total_ns" := float_of (PauseTotalNs ms)]>
  (<["num_gc" := float_of (NumGC ms)]>
  (<["heap_objects" := float_of (HeapObjects ms)]>
  (<["heap_sys_mb" := megabytes (HeapSys ms)]>
  (<["heap_alloc_mb" := megabytes (HeapAlloc ms)]>
  (<["num_cpu" := float_of cpus]>
  (<["num_goroutine" := float_of goroutines]> {["uptime_sec" := seconds uptime]})))))))))%string.

Definition selfstats_run {X} (now : Time) (host version : string) (sent : bool) (uptime : Duration)
    (goroutines cpus : Z) (ms : MemStats) : list (SimpleEvent X) :=
  emit sent (NewEvent now "selfstats_event"
    (<["go_version" := A_text version]>
      (base_data (hostname_dims host) (selfstats_metrics uptime goroutines cpus ms)))).

(** ** tasks/gatherupbeat/gatherupbeat.go *)
Definition gatherupbeat_run {X} (now : Time) (host : string) (sent : bool) (uptime : Duration)
    (cfg : GatherUpBeatConfig) : list (SimpleEvent X) :=
  emit sent (NewEvent now "gather_up_beat_event"
    (base_data (<["task_id" := pretty (TaskID (gatherupbeat_base cfg))]> (hostname_dims host))
       {["uptime_sec" := seconds uptime]})).
