(* ===== verification/Script.v ===== *)
(** * Scripts and metric pages (internal/script, tasks/script, tasks/metricbeat)

    A script's output, or a page of metrics, is parsed into metrics and labels,
    which become the event's. Reading numbers and the Prometheus text format
    are library functions and arguments; [scan_lines] is [bufio.Scanner]. *)
From Stdlib Require Import Ascii String.
From stdpp Require Import pretty.
From S2P Require Import Prelude GoTime LabelsJson GoFloat GoStrings Configs HttpPublish Events.

Abbreviation Metrics := (gmap string float64).
Abbreviation LabelSet := (gmap string string).

(** ** bufio.Scanner over lines *)
Definition MaxScanTokenSize : Z := 64 * 1024.

(** A line that does not fit into the buffer ends the scan. *)
Definition fits (line : Text) : bool := Z.of_nat (List.length line) <? MaxScanTokenSize.

Fixpoint take_while {A} (p : A -> bool) (xs : list A) : list A :=
  match xs with
  | x :: xs' => if p x then x :: take_while p xs' else []
  | [] => []
  end.

Definition dropCR (line : Text) : Text :=
  if decide (last line = Some "013"%char) then take (List.length line - 1) line else line.

(** Nothing follows a final line break. *)
Fixpoint without_last_empty (ps : list Text) : list Text :=
  match ps with
  | [] => []
  | [[]] => []
  | p :: ps' => p :: without_last_empty ps'
  end.

Definition scan_lines (s : Text) : list Text :=
  dropCR <$> take_while fits (without_last_empty (split_on "010"%char s)).

(** ** internal/script/parse/parser.go *)

(** A metric of the client model: at most one of its values, its labels. *)
Record PromMetric := {
  pm_gauge : option float64;
  pm_counter : option float64;
  pm_untyped : option float64;
  pm_labels : list (string * string)
}.

Definition extractValue (m : PromMetric) : float64 :=
  match pm_gauge m with
  | Some v => v
  | None =>
      match pm_counter m with
      | Some v => v
      | None => match pm_untyped m with Some v => v | None => float_of 0 end
      end
  end.

Definition nonempty (s : string) : bool := negb (bool_decide (s = EmptyString)).

Section parse.
Context {R : MapRange}.
Context (ParseFloat : string -> result float64).
(** [TextToMetricFamilies]: families by their name. *)
Context (TextToMetricFamilies : string -> result (gmap string (list PromMetric))).

Definition add_label (ls : LabelSet) (lp : string * string) : LabelSet :=
  if nonempty lp.1 && nonempty lp.2 then <[lp.1 := lp.2]> ls else ls.

Definition add_prom (key : string) (acc : Metrics * LabelSet) (m : PromMetric)
    : Metrics * LabelSet :=
  (if nonempty key then <[key := extractValue m]> acc.1 else acc.1,
   foldl add_label acc.2 (pm_labels m)).

Definition parsePrometheus (out : string) : Metrics * LabelSet :=
  match TextToMetricFamilies out with
  | Err _ => (∅, ∅)
  | Ok families => foldl (fun acc kv => foldl (add_prom kv.1) acc kv.2) (∅, ∅) (range families)
  end.

Definition add_line (acc : Metrics * LabelSet) (line : Text) : Metrics * LabelSet :=
  match line with
  | [] => acc
  | c :: _ =>
      if decide (c = "#"%char) then acc
      else
        match split2 "=" line with
        | None => acc
        | Some (k, v) =>
            let key := str (TrimSpace k) in
            let valStr := str (TrimSpace v) in
            match ParseFloat valStr with
            | Err _ => (acc.1, <[key := valStr]> acc.2)
            | Ok val => (<[key := val]> acc.1, acc.2)
            end
        end
  end.

Definition parseCustom (out : string) : Metrics * LabelSet :=
  foldl add_line (∅, ∅) (scan_lines (text out)).

(** The error is always nil. *)
Definition Parse (format stdout : string) : Metrics * LabelSet :=
  if decide (format = "prometheus"%string) then parsePrometheus stdout else parseCustom stdout.

(** ** internal/script/exec/runner.go *)
Definition envSlice (m : gmap string string) : list string :=
  (fun kv => kv.1 +:+ "=" +:+ kv.2) <$> range m.

(** [combined]: what [sh -c] with this environment in addition gives, output and
    error. *)
Definition exec_run (quote_string : string -> string)
    (combined : string -> list string -> string * option error) (command : string)
    (userEnvs : gmap string string) : string * option error :=
  let '(out, err) := combined command (envSlice userEnvs) in
  match err with
  | Some e =>
      (out, Some ("exec " +:+ quote_string command +:+ ": " +:+ e +:+
                  String "010"%char EmptyString +:+ out))
  | None => (out, None)
  end.

(** ** tasks/script/script.go *)
Definition put_labels (labels : LabelSet) (dims : gmap string string) : gmap string string :=
  foldl (fun m kv => <[kv.1 := kv.2]> m) dims (range labels).

Definition script_timeout (cfg : ScriptConfig) : Duration :=
  or_default (30 * Second) (Timeout (script_base cfg)).

Definition script_dims (cfg : ScriptConfig) (host : string) : gmap string string :=
  <["hostname" := host]>
    (<["task_id" := pretty (TaskID (script_base cfg))]> {["command" := Command cfg]}).

Definition put_error {X} (k : string) (e : option error) (d : Data X) : Data X :=
  match e with Some e => <[k := A_text e]> d | None => d end.

(** [run]: the outcome of [exec_run] within the timeout. *)
Definition script_run {X} (now : Time) (host : string) (cost_ms : Z) (sent : bool)
    (run : Duration -> string -> gmap string string -> string * option error) (cfg : ScriptConfig)
    : list (SimpleEvent X) :=
  let '(stdout, execErr) := run (script_timeout cfg) (Command cfg) (UserEnvs cfg) in
  let '(ms, labels) := Parse (script_Format cfg) stdout in
  emit sent (NewEvent now "script_event"
    (put_error "error" execErr
      (base_data (put_labels labels (script_dims cfg host))
        (<["cost_ms" := float_of cost_ms]> ms)))).

(** ** tasks/metricbeat/metricbeat.go *)

(** [get]: the body, at most ten megabytes of it, or an error of one of the
    three steps. *)
Inductive Fetched :=
| F_request (e : error)
| F_get (e : error)
| F_read (e : error)
| F_body (body : string).

Definition fetch (cfg : MetricbeatConfig) (got : Fetched) : Metrics * LabelSet * option error :=
  match got with
  | F_request e => (∅, ∅, Some ("create request: " +:+ e))
  | F_get e => (∅, ∅, Some ("http get: " +:+ e))
  | F_read e => (∅, ∅, Some ("read body: " +:+ e))
  | F_body body => (Parse (mb_Format cfg) body, None)
  end.

(** A nil map of metrics is an empty one to the outputs. *)
Definition metricbeat_run {X} (now : Time) (host : string) (cost_ms : Z) (sent : bool)
    (got : Fetched) (cfg : MetricbeatConfig) : list (SimpleEvent X) :=
  let '(ms, labels, err) := fetch cfg got in
  emit sent (NewEvent now "metricbeat_event"
    (put_error "error" err
      (<["cost_ms" := A_num (float_of cost_ms)]>
        (base_data (put_labels labels {["hostname" := host]}) ms)))).
End parse.
