(* ===== verification/Keyword.v ===== *)
(** * The keyword task (tasks/keyword, internal/regexp/extract)

    The task opens its offset registry and a harvester for its file and emits
    an event for every line its regular expression matches. The expression is a
    value of a library: its groups' names and what it finds in a line. *)
From Stdlib Require Import Ascii String.
From stdpp Require Import pretty.
From S2P Require Import Prelude GoTime LabelsJson GoFloat GoStrings Configs HttpPublish Events Harvester.

Definition RawLogEventType : string := "raw_log".

(** A compiled expression: the names of the groups, the whole match first, and
    the groups found in a line. *)
Record Regexp := {
  SubexpNames : list string;
  FindStringSubmatch : string -> option (list string)
}.

(** ** ExtractLine, and internal/regexp/extract *)
Definition nonempty (s : string) : bool := negb (bool_decide (s = EmptyString)).

Definition all_unnamed (names : list string) : bool := negb (existsb nonempty names).

(** The body of the loop over the names; [m[i]] exists for every group. *)
Definition capture (allUnnamed : bool) (m : list string) (out : gmap string string) (i : nat)
    (name : string) : gmap string string :=
  if (i =? 0)%nat then out
  else if negb allUnnamed && nonempty name then <[name := default EmptyString (m !! i)]> out
  else if allUnnamed || negb (nonempty name)
  then <[pretty (Z.of_nat i) := default EmptyString (m !! i)]> out
  else out.

Fixpoint captures_from (allUnnamed : bool) (m : list string) (i : nat) (names : list string)
    (out : gmap string string) : gmap string string :=
  match names with
  | [] => out
  | name :: names' => captures_from allUnnamed m (S i) names' (capture allUnnamed m out i name)
  end.

Definition ExtractLine (line : string) (re : Regexp) : option (gmap string string) :=
  match FindStringSubmatch re line with
  | None => None
  | Some m => Some (captures_from (all_unnamed (SubexpNames re)) m 0 (SubexpNames re) ∅)
  end.

(** internal/regexp/extract has the same function a second time. *)
Fixpoint extract_all_unnamed (names : list string) : bool :=
  match names with
  | [] => true
  | name :: names' => if nonempty name then false else extract_all_unnamed names'
  end.

Definition extract_group (allUnnamed : bool) (m : list string) (out : gmap string string)
    (group : nat * string) : gmap string string :=
  let '(i, name) := group in
  if (i =? 0)%nat then out
  else if negb allUnnamed && nonempty name then <[name := default EmptyString (m !! i)]> out
  else if allUnnamed || negb (nonempty name)
  then <[pretty (Z.of_nat i) := default EmptyString (m !! i)]> out
  else out.

Definition Extract (line : string) (re : Regexp) : gmap string string * bool :=
  match FindStringSubmatch re line with
  | None => (∅, false)
  | Some m =>
      let names := SubexpNames re in
      (foldl (extract_group (extract_all_unnamed names) m) ∅ (zip (seq 0 (length names)) names), true)
  end.

(** ** raw_event.go *)
Definition raw_dims (file pattern host : string) : gmap string string :=
  <["hostname" := host]> (<["regex" := pattern]> {["file" := file]}).

Definition raw_fields (lineNo : Z) (captures : gmap string string) : gmap string string :=
  <["line_number" := pretty lineNo]> captures.

Definition BuildRawLogEvent {X} (now : Time) (host file pattern : string) (lineNo : Z)
    (captures : gmap string string) (raw : string) : SimpleEvent X :=
  NewEvent now RawLogEventType
    (<["raw" := A_text raw]>
      (<["fields" := A_strings (raw_fields lineNo captures)]>
        (base_data (raw_dims file pattern host) {["matches_count" := float_of 1]}))).

Definition error_event {X} (now : Time) (host : string) (cfg : KeywordConfig) (cause : error)
    : SimpleEvent X :=
  NewEvent now RawLogEventType
    (<["error" := A_text cause]>
      (<["raw" := A_text EmptyString]>
        (<["fields" := A_strings ∅]>
          (base_data (raw_dims (File cfg) (Pattern cfg) host) {["matches_count" := float_of 0]})))).

(** ** Run *)
Section run.
Context {X : Type} (quote_string : string -> string) (now : Time) (host : string).

(** The loop over the lines read; [stop n]: the context ended when the event of
    the [n]-th line was to be sent. *)
Fixpoint keyword_loop (cfg : KeywordConfig) (re : Regexp) (stop : Z -> bool) (lineNo : Z)
    (lines : list string) : list (SimpleEvent X) :=
  match lines with
  | [] => []
  | line :: lines' =>
      let lineNo := lineNo + 1 in
      match ExtractLine line re with
      | None => keyword_loop cfg re stop lineNo lines'
      | Some captures =>
          if stop lineNo then []
          else BuildRawLogEvent now host (File cfg) (Pattern cfg) lineNo captures line
               :: keyword_loop cfg re stop lineNo lines'
      end
  end.

Definition harvester_config (cfg : KeywordConfig) (reg : option (gmap string OffsetEntry))
    : HarvesterConfig :=
  {| hc_File := File cfg; hc_FromBegin := match FromBegin cfg with None => true | Some b => b end;
     hc_Registry := reg |}.

(** The checks of [file.New] before it reads: the path, the encoding and opening
    the file; what is left is whether it puts a decoder on it. *)
Definition open_harvester (cfg : KeywordConfig) (opened : result unit) : result bool :=
  if decide (File cfg = EmptyString) then Err "harvester: empty file path"
  else
    match lookupEncoding quote_string (Encoding cfg) with
    | Err e => Err e
    | Ok enc =>
        match opened with
        | Err e => Err ("harvester open " +:+ File cfg +:+ ": " +:+ e)
        | Ok _ => Ok enc
        end
    end.

(** What is on the disk during a run: the registry's directory and file, the
    file's content when it is opened and the pieces that are appended. *)
Record Disk := {
  dk_mkdir : result unit;
  dk_registry : RegistryFile;
  dk_opened : result unit;
  dk_inode : N;
  dk_content : list ascii;
  dk_appended : list (list ascii);
  dk_clock : nat -> Time
}.

Definition open_registry (cfg : KeywordConfig) (d : Disk) : result (option (gmap string OffsetEntry)) :=
  if decide (Configs.OffsetRegistry cfg = EmptyString) then Ok None
  else
    match NewOffsetRegistry (string_of_list_ascii (GoStrings.Dir (list_ascii_of_string (Configs.OffsetRegistry cfg)))) (dk_mkdir d) (dk_registry d) with
    | Err e => Err ("registry: " +:+ e)
    | Ok r => Ok (Some r)
    end.

(** The harvester at the end of the run: what is there is read first, then
    every piece. [F] is the reader under its buffer. *)
Definition harvested (F : FileReader) (cfg : KeywordConfig)
    (reg : option (gmap string OffsetEntry)) (d : Disk) : Harvester :=
  let hc := harvester_config cfg reg in
  snd (follow (buffer_size (BufferSize cfg)) hc (dk_inode d) (dk_clock d) (dk_content d)
         ([] :: dk_appended d) (NewHarvester hc (dk_inode d) (dk_content d) now)).

(** The lines it has delivered, and the registry as [Close] leaves it. *)
Definition harvest (F : FileReader) (cfg : KeywordConfig)
    (reg : option (gmap string OffsetEntry)) (d : Disk) : list string * option (gmap string OffsetEntry) :=
  let h := harvested F cfg reg d in
  (string_of_list_ascii <$> hv_lines h, CloseHarvester (harvester_config cfg reg) (dk_inode d) h).

(** The events of a run, and the registry as [Close] and [Save] leave it;
    [decoder] is the library's reader of the file in the other encoding. *)
Definition keyword_run (decoder : FileReader) (cfg : KeywordConfig) (re : Regexp)
    (stop : Z -> bool) (d : Disk) : list (SimpleEvent X) * option (gmap string OffsetEntry) :=
  let fail e := if stop 0 then [] else [error_event now host cfg e] in
  match open_registry cfg d with
  | Err e => (fail e, None)
  | Ok reg =>
      match open_harvester cfg (dk_opened d) with
      | Err e => (fail e, reg)
      | Ok enc =>
          let '(lines, saved) := harvest (if enc : bool then decoder else raw_reader) cfg reg d in
          (keyword_loop cfg re stop 0 lines, saved)
      end
  end.
End run.
