(* ===== verification/KeywordSpec.v ===== *)
(** * What the keyword task reports

    Every line of the followed file that matches is reported once, with its
    text and its number since the task started; with a registry and
    [from_begin: false] a restart resumes where the last run stopped, with the
    default of [from_begin] it starts over. *)
From Stdlib Require Import Ascii String.
From stdpp Require Import pretty.
From S2P Require Import Prelude GoTime LabelsJson GoFloat GoStrings Configs HttpPublish Events Harvester HarvesterSpec Keyword.

(** ** Groups *)
Section groups.

(** The key of a group: its name, or its number. *)
Definition group_key (i : nat) (name : string) : string :=
  if decide (name = EmptyString) then pretty (Z.of_nat i) else name.

Lemma capture_key names m out i name :
  name ∈ names -> i <> 0%nat ->
  capture (all_unnamed names) m out i name = <[group_key i name := default EmptyString (m !! i)]> out.
Proof.
  intros Hin Hi. unfold capture, group_key. rewrite (proj2 (Nat.eqb_neq i 0) Hi).
  unfold nonempty. destruct (decide (name = EmptyString)) as [->|Hn].
  - rewrite bool_decide_eq_true_2 by done. simpl. by rewrite andb_false_r, orb_true_r.
  - rewrite bool_decide_eq_false_2 by done. simpl.
    assert (all_unnamed names = false) as ->; [|done].
    unfold all_unnamed. apply negb_false_iff, existsb_exists. exists name.
    split; [by apply list_elem_of_In|]. unfold nonempty. by rewrite bool_decide_eq_false_2.
Qed.

(** The two extraction functions agree. *)
Lemma extract_unnamed names : extract_all_unnamed names = all_unnamed names.
Proof.
  unfold all_unnamed. induction names as [|name names IH]; simpl; [done|].
  rewrite IH. by destruct (nonempty name).
Qed.

Lemma Extract_captures all m names i out :
  foldl (extract_group all m) out (zip (seq i (length names)) names) = captures_from all m i names out.
Proof. revert i out. induction names as [|name names IH]; intros i out; simpl; [done|]. apply IH. Qed.

Lemma Extract_ExtractLine line re :
  Extract line re = match ExtractLine line re with Some c => (c, true) | None => (∅, false) end.
Proof.
  unfold Extract, ExtractLine. destruct (FindStringSubmatch re line) as [m|]; [|done].
  by rewrite extract_unnamed, Extract_captures.
Qed.

(** The groups without the whole match, later ones on top. *)
Definition groups (m : list string) (i : nat) (names : list string) (out : gmap string string)
    : gmap string string :=
  foldl (fun out '(i, name) => <[group_key i name := default EmptyString (m !! i)]> out) out
    (imap (fun k name => ((i + k)%nat, name)) names).

Lemma captures_groups all m i names out :
  (forall n, n ∈ names -> n ∈ all) -> i <> 0%nat ->
  captures_from (all_unnamed all) m i names out = groups m i names out.
Proof.
  revert i out. induction names as [|name names IH]; intros i out Hin Hi; [done|].
  unfold groups. cbn [captures_from imap foldl]. rewrite Nat.add_0_r.
  rewrite capture_key by (done || (apply Hin; by left)). rewrite IH by (done || (intros; apply Hin; by right)).
  unfold groups. f_equal. apply imap_ext. intros k x _. simpl. by rewrite Nat.add_succ_r.
Qed.

Lemma ExtractLine_groups line re whole names :
  SubexpNames re = whole :: names ->
  ExtractLine line re = (fun m => groups m 1 names ∅) <$> FindStringSubmatch re line.
Proof.
  intros Hn. unfold ExtractLine. destruct (FindStringSubmatch re line) as [m|]; [|done].
  rewrite Hn. simpl. f_equal. apply captures_groups; [|done]. intros; by right.
Qed.
End groups.

(** ** The lines of a run

    The file is read as it is, without a decoder. *)
#[local] Existing Instance raw_reader.

Section lines.
Context {X : Type} (quote_string : string -> string) (now : Time) (host : string).

(** The lines that match, with their numbers. *)
Definition matching (re : Regexp) (from : Z) (lines : list string)
    : list (Z * gmap string string * string) :=
  omap (fun x => x) (imap (fun i line =>
    (fun c => (from + Z.of_nat i + 1, c, line)) <$> ExtractLine line re) lines).

Definition event_of (cfg : KeywordConfig) (x : Z * gmap string string * string) : SimpleEvent X :=
  BuildRawLogEvent now host (File cfg) (Pattern cfg) x.1.1 x.1.2 x.2.

Lemma keyword_loop_matching cfg re stop n lines :
  (forall k, stop k = false) ->
  keyword_loop now host cfg re stop n lines = event_of cfg <$> matching re n lines.
Proof.
  intros Hs. revert n. induction lines as [|line lines IH]; intros n; [done|].
  assert (matching re n (line :: lines) =
    match ExtractLine line re with Some c => [(n + 1, c, line)] | None => [] end ++
    matching re (n + 1) lines) as ->.
  { unfold matching. simpl. rewrite Z.add_0_r. destruct (ExtractLine line re); simpl.
    - f_equal. f_equal. apply imap_ext. intros i x _. simpl.
      destruct (ExtractLine x re); [|done]. simpl. do 3 f_equal. lia.
    - f_equal. apply imap_ext. intros i x _. simpl.
      destruct (ExtractLine x re); [|done]. simpl. do 3 f_equal. lia. }
  cbn [keyword_loop]. rewrite IH. destruct (ExtractLine line re); [|done]. by rewrite Hs.
Qed.

Lemma buffer_size_pos n : (0 < buffer_size n)%nat.
Proof. unfold buffer_size. lia. Qed.

(** At the end of the file, with the recorded offset there too. *)
Definition at_end (content : list ascii) (h : Harvester) : Prop :=
  hv_buf h = [] /\ hv_pos h = length content /\ hv_offset h = length content.

Lemma drain_at_end size (Hsize : (0 < size)%nat) hc inode clock fuel content h :
  within content h -> (length (todo content h) < fuel)%nat ->
  (todo content h = [] -> hv_offset h = length content) ->
  at_end content (drain size fuel hc inode clock content h).
Proof.
  revert h. induction fuel as [|fuel IH]; intros h Hw Hf Ho; [lia|]. simpl.
  pose proof (readOne_step size Hsize content h Hw) as H.
  destruct (readOne size content h) as [eof h1].
  destruct (cut (todo content h)) as [[l rest]|] eqn:E.
  - destruct H as (-> & Hl & Ht & Hw1 & Hoff). set (t := clock (length (hv_lines h1))).
    destruct (maybeSave_same hc inode t h1 content) as (_ & Hst & Hsw).
    destruct (cut_nonempty _ _ _ E) as (l0 & -> & El).
    apply (f_equal length) in El. rewrite !length_app in El. simpl in El.
    apply IH; [by apply Hsw|rewrite Hst, Ht; lia|]. rewrite Hst. intros Hnil.
    assert (hv_offset (maybeSaveOffset hc inode t h1) = hv_offset h1) as ->
      by (unfold maybeSaveOffset; by repeat case_match).
    rewrite Hoff. unfold todo in Hnil. apply app_nil in Hnil as [_ Hnil].
    apply (f_equal length) in Hnil. rewrite length_drop in Hnil. simpl in Hnil.
    unfold within in Hw1. lia.
  - destruct H as (-> & _ & Hb & Hp & Hoff). split_and!; simpl; [done|done|]. rewrite Hoff.
    case_decide; [by apply Ho|done].
Qed.

Lemma follow_at_end size (Hsize : (0 < size)%nat) hc inode clock segs content h :
  at_end content h ->
  let '(content', h') := follow size hc inode clock content segs h in at_end content' h'.
Proof.
  revert content h. induction segs as [|seg segs IH]; intros content h (Hb & Hp & Ho); [done|].
  cbn [follow]. assert (todo (content ++ seg) h = seg) as Ht.
  { unfold todo. by rewrite Hb, Hp, drop_app_length. }
  apply IH, drain_at_end; [done| | |].
  - unfold within. rewrite length_app. lia.
  - apply todo_fuel.
  - rewrite Ht. intros ->. by rewrite app_nil_r.
Qed.

(** A registry stays one. *)
Lemma drain_registry size hc inode clock fuel content h :
  is_Some (hv_registry (drain size fuel hc inode clock content h)) <-> is_Some (hv_registry h).
Proof.
  revert h. induction fuel as [|fuel IH]; intros h; [done|]. simpl.
  assert (hv_registry (snd (readOne size content h)) = hv_registry h) as E.
  { unfold readOne. destruct (ReadString _ _ _ _ _) as [[[[line buf] pos] dec] eof]. simpl. by case_decide. }
  destruct (readOne size content h) as [eof h1]. simpl in E. destruct eof; [by rewrite <-E|].
  rewrite IH, <-E. unfold maybeSaveOffset, save_offset. destruct (hv_registry h1) as [r|] eqn:Er.
  - case_match; simpl; rewrite ?Er; split; intros; by eexists.
  - by rewrite Er.
Qed.

Lemma follow_registry size hc inode clock segs content h :
  is_Some (hv_registry (snd (follow size hc inode clock content segs h))) <-> is_Some (hv_registry h).
Proof.
  revert content h. induction segs as [|seg segs IH]; intros content h; [done|]. cbn [follow].
  by rewrite IH, drain_registry.
Qed.

(** The registry is one that [Set] has made of the loaded one. *)
Lemma drain_keyed size hc inode clock fuel content h :
  (forall r, hv_registry h = Some r -> well_keyed r) ->
  forall r, hv_registry (drain size fuel hc inode clock content h) = Some r -> well_keyed r.
Proof.
  revert h. induction fuel as [|fuel IH]; intros h Hh; [done|]. simpl.
  assert (hv_registry (snd (readOne size content h)) = hv_registry h) as E.
  { unfold readOne. destruct (ReadString _ _ _ _ _) as [[[[line buf] pos] dec] eof]. simpl. by case_decide. }
  destruct (readOne size content h) as [eof h1]. simpl in E. destruct eof; [by rewrite <-E in Hh|].
  apply IH. rewrite <-E in Hh. unfold maybeSaveOffset, save_offset.
  destruct (hv_registry h1) as [r1|] eqn:Er; [|by rewrite Er].
  case_match; simpl; [by rewrite Er|]. intros r [= <-]. by apply well_keyed_set, Hh.
Qed.

Lemma follow_keyed size hc inode clock segs content h :
  (forall r, hv_registry h = Some r -> well_keyed r) ->
  forall r, hv_registry (snd (follow size hc inode clock content segs h)) = Some r -> well_keyed r.
Proof.
  revert content h. induction segs as [|seg segs IH]; intros content h Hh; [done|]. cbn [follow].
  by apply IH, drain_keyed.
Qed.

Lemma load_keyed es r : well_keyed r -> well_keyed (load es r).
Proof.
  revert r. induction es as [|e es IH]; intros r Hr; [done|]. apply IH. intros k e'.
  rewrite lookup_insert_Some. intros [[<- <-]|[_ ?]]; [done|by apply Hr].
Qed.

Lemma NewOffsetRegistry_keyed dir mk f r : NewOffsetRegistry dir mk f = Ok r -> well_keyed r.
Proof.
  unfold NewOffsetRegistry, load_file. destruct mk; [|done].
  destruct f as [|e|[es|e]]; try done; intros [= <-]; [done|]. by apply load_keyed.
Qed.

(** What a run delivers: the file from its starting point on, then the pieces;
    it ends with the recorded offset at the end of the file. *)
Lemma harvested_lines cfg reg (d : Disk) k :
  start_offset (harvester_config cfg reg) (dk_inode d) (dk_content d) = k ->
  (k <= length (dk_content d))%nat ->
  let h := harvested now raw_reader cfg reg d in
  hv_lines h = split_lines (drop k (dk_content d)) ++ concat (split_lines <$> dk_appended d) /\
  hv_offset h = length (dk_content d ++ concat (dk_appended d)) /\
  (is_Some (hv_registry h) <-> is_Some reg).
Proof.
  intros Hk Hle. unfold harvested. set (hc := harvester_config cfg reg) in *.
  pose proof (buffer_size_pos (BufferSize cfg)) as Hsize. cbn [follow].
  set (size := buffer_size (BufferSize cfg)) in *. rewrite app_nil_r.
  set (h0 := NewHarvester hc (dk_inode d) (dk_content d) now).
  assert (todo (dk_content d) h0 = drop k (dk_content d)) as Ht
    by (unfold todo, h0, NewHarvester; simpl; by rewrite Hk).
  assert (within (dk_content d) h0) as Hw by (unfold within, h0, NewHarvester; simpl; by rewrite Hk).
  set (fuel := drain_fuel (dk_content d) h0).
  assert (length (todo (dk_content d) h0) < fuel)%nat as Hf by apply todo_fuel.
  destruct (drain_all size Hsize hc (dk_inode d) (dk_clock d) fuel (dk_content d) h0 Hw Hf)
    as (Hl1 & Hb1 & Hp1).
  assert (at_end (dk_content d) (drain size fuel hc (dk_inode d) (dk_clock d) (dk_content d) h0)) as Ha.
  { apply drain_at_end; [done|done|done|]. rewrite Ht. intros Hnil. unfold h0, NewHarvester. simpl.
    rewrite Hk. apply (f_equal length) in Hnil. rewrite length_drop in Hnil. simpl in Hnil. lia. }
  set (h1 := drain size fuel hc (dk_inode d) (dk_clock d) (dk_content d) h0) in *.
  pose proof (follow_all size Hsize hc (dk_inode d) (dk_clock d) (dk_content d) (dk_appended d) h1 Hb1 Hp1) as Hfa.
  pose proof (follow_at_end size Hsize hc (dk_inode d) (dk_clock d) (dk_appended d) (dk_content d) h1 Ha) as Hfe.
  pose proof (follow_registry size hc (dk_inode d) (dk_clock d) (dk_appended d) (dk_content d) h1) as Hfr.
  destruct (follow _ _ _ _ _ _ h1) as [content' h']. destruct Hfa as (-> & _ & _ & Hl).
  destruct Hfe as (_ & _ & Ho). cbn [snd] in *. split_and!; [|exact Ho|].
  - by rewrite Hl, Hl1, Ht.
  - rewrite Hfr. unfold h1. rewrite drain_registry. done.
Qed.
End lines.

(** ** Runs *)
Section runs.
Context {R : MapRange} {X : Type} (quote_string : string -> string) (now : Time) (host : string).
Context (decoder : FileReader).

(** The registry and the file can be opened, and the file's encoding needs no decoder. *)
Definition opens (cfg : KeywordConfig) (d : Disk) (reg : option (gmap string OffsetEntry)) : Prop :=
  open_registry cfg d = Ok reg /\ open_harvester quote_string cfg (dk_opened d) = Ok false.

Definition lines_of (s : list ascii) : list string := string_of_list_ascii <$> split_lines s.

Lemma run_lines cfg re stop d reg k :
  opens cfg d reg -> (forall n, stop n = false) ->
  start_offset (harvester_config cfg reg) (dk_inode d) (dk_content d) = k ->
  (k <= length (dk_content d))%nat ->
  keyword_run (X := X) quote_string now host decoder cfg re stop d =
    (event_of now host cfg <$> matching re 0 (string_of_list_ascii <$>
       (split_lines (drop k (dk_content d)) ++ concat (split_lines <$> dk_appended d))),
     (fun r => SetOffset (File cfg) (dk_inode d)
        (Z.of_nat (length (dk_content d ++ concat (dk_appended d)))) r) <$>
       hv_registry (harvested now raw_reader cfg reg d)).
Proof.
  intros [Ho Hh] Hs Hk Hle. unfold keyword_run. rewrite Ho, Hh.
  destruct (harvested_lines now cfg reg d k Hk Hle) as (Hl & Hoff & _). f_equal.
  - by rewrite (keyword_loop_matching now host cfg re stop 0 _ Hs), Hl.
  - unfold CloseHarvester, save_offset. by rewrite Hoff.
Qed.

Lemma from_begin_starts cfg reg inode content :
  FromBegin cfg <> Some false -> start_offset (harvester_config cfg reg) inode content = 0%nat.
Proof. intros H. unfold start_offset, harvester_config. simpl. by destruct (FromBegin cfg) as [[]|]. Qed.

Lemma drop_zero {A} (s : list A) : drop 0 s = s.
Proof. done. Qed.

(** C25: a keyword task that reads its file from the beginning - [from_begin] is
    not false - and as it is, with or without a registry and whatever that says,
    emits exactly one event for every line
    of the file that its expression matches, in order: the lines that are there
    when it starts and all that are appended in pieces of whole lines, each
    with its text, its captures and its number since the start. *)
Theorem keyword_reports_every_match cfg re stop d reg :
  opens cfg d reg -> FromBegin cfg <> Some false -> (forall n, stop n = false) ->
  complete (dk_content d) -> Forall complete (dk_appended d) ->
  fst (keyword_run (X := X) quote_string now host decoder cfg re stop d) =
    event_of now host cfg <$> matching re 0 (lines_of (dk_content d ++ concat (dk_appended d))).
Proof.
  intros Hop Hb Hs Hc Ha.
  rewrite (run_lines cfg re stop d reg 0 Hop Hs (from_begin_starts _ _ _ _ Hb)) by lia.
  cbn [fst]. rewrite drop_zero. unfold lines_of.
  by rewrite split_lines_app, concat_complete by done.
Qed.

Lemma run_keyed cfg re stop d reg0 reg :
  opens cfg d (Some reg0) ->
  snd (keyword_run (X := X) quote_string now host decoder cfg re stop d) = Some reg -> well_keyed reg.
Proof.
  intros [Ho Hh]. unfold keyword_run. rewrite Ho, Hh. simpl. unfold CloseHarvester, save_offset.
  destruct (hv_registry (harvested now raw_reader cfg (Some reg0) d)) as [r|] eqn:E; [|done].
  intros [= <-]. apply well_keyed_set. unfold harvested in E. eapply follow_keyed; [|exact E].
  simpl. intros r' [= <-]. unfold open_registry in Ho. case_decide; [done|].
  destruct (NewOffsetRegistry _ _ _) eqn:En; [|done]. injection Ho as <-. by eapply NewOffsetRegistry_keyed.
Qed.

(** The disk at the next start: the registry as the last run saved it, the file
    with what was appended in the meantime. *)
Definition after_restart (d : Disk) (reg : gmap string OffsetEntry) (extra : list ascii) : Disk :=
  {| dk_mkdir := dk_mkdir d; dk_registry := snd (save_file (Ok tt) (Ok tt) reg (dk_registry d));
     dk_opened := dk_opened d; dk_inode := dk_inode d;
     dk_content := (dk_content d ++ concat (dk_appended d)) ++ extra; dk_appended := [];
     dk_clock := dk_clock d |}.

(** C36: for a file that is read as it is, without a decoder: after a run that
    ended at the end of a non-empty file, a restart with
    the registry that run has saved reports, if the configuration says
    [from_begin: false], the matching lines of what was appended in between,
    and nothing twice; but with the default, which [Clean] makes explicit, it
    reports every matching line of the whole file again. *)
Theorem restart_resumes_only_without_from_begin cfg re stop d reg0 reg extra :
  opens cfg d (Some reg0) -> (forall n, stop n = false) ->
  Configs.OffsetRegistry cfg <> EmptyString ->
  (start_offset (harvester_config cfg (Some reg0)) (dk_inode d) (dk_content d)
     <= length (dk_content d))%nat ->
  dk_content d ++ concat (dk_appended d) <> [] ->
  snd (keyword_run (X := X) quote_string now host decoder cfg re stop d) = Some reg ->
  let next := fst (keyword_run (X := X) quote_string now host decoder cfg re stop (after_restart d reg extra)) in
  (FromBegin cfg = Some false ->
     next = event_of now host cfg <$> matching re 0 (lines_of extra)) /\
  (FromBegin (clean_KeywordConfig cfg) = Some true -> next = event_of now host cfg <$>
     matching re 0 (lines_of ((dk_content d ++ concat (dk_appended d)) ++ extra))).
Proof.
  intros Hop Hs Hreg Hle Hne Hsaved next. set (whole := dk_content d ++ concat (dk_appended d)) in *.
  assert (opens cfg (after_restart d reg extra) (Some reg)) as Hop2.
  { pose proof (run_keyed _ _ _ _ _ _ Hop Hsaved) as Hkey.
    split; [|apply Hop]. destruct Hop as [Hop _]. unfold open_registry in *.
    rewrite decide_False in Hop |- * by done. unfold NewOffsetRegistry in *. simpl.
    destruct (dk_mkdir d); [|done]. by rewrite load_save. }
  assert (forall k, start_offset (harvester_config cfg (Some reg)) (dk_inode d) (whole ++ extra) = k ->
    (k <= length (whole ++ extra))%nat ->
    next = event_of now host cfg <$> matching re 0 (lines_of (drop k (whole ++ extra)))) as Hrun.
  { intros k Hk Hk'. unfold next. rewrite (run_lines cfg re stop _ (Some reg) k Hop2 Hs Hk Hk').
    simpl. by rewrite app_nil_r. }
  split.
  - intros Hb. specialize (Hrun (length whole)). rewrite drop_app_length in Hrun. apply Hrun.
    + rewrite (run_lines cfg re stop d (Some reg0) _ Hop Hs eq_refl Hle) in Hsaved.
      cbn [snd] in Hsaved. fold whole in Hsaved.
      destruct (hv_registry (harvested now raw_reader cfg (Some reg0) d)) as [r|]; [|done].
      simpl in Hsaved. injection Hsaved as <-. unfold start_offset, harvester_config. simpl.
      rewrite Hb, get_set_offset. destruct whole as [|c w]; [done|].
      rewrite (proj2 (Z.ltb_lt 0 _)) by (simpl; lia). by rewrite Nat2Z.id.
    + rewrite length_app. lia.
  - intros Hb. apply (Hrun 0%nat); [|lia]. apply from_begin_starts. intros E.
    unfold clean_KeywordConfig in Hb. simpl in Hb. rewrite E in Hb. done.
Qed.
End runs.

(** ** A log of three lines *)
#[local] Existing Instance in_key_order.

Definition demo_keyword (fb : option bool) : KeywordConfig :=
  {| keyword_base := {| TaskID := 3; Ident := "keyword:3"; Period := 0; Timeout := 0; Enabled := true;
                        Labels := [] |};
     File := "/var/log/app.log"; Pattern := "E(.*)"; Encoding := "utf-8"; BufferSize := 0;
     FromBegin := fb; Configs.OffsetRegistry := "/var/lib/monitorbeat/offsets.json" |}.

(** Lines that start with E; the rest is the group. *)
Definition demo_regexp : Regexp :=
  {| SubexpNames := [EmptyString; EmptyString];
     FindStringSubmatch := fun s => match s with String "E" r => Some [s; r] | _ => None end |}.

Definition demo_disk : Disk :=
  {| dk_mkdir := Ok tt; dk_registry := NotExist; dk_opened := Ok tt; dk_inode := 7;
     dk_content := text ("E1" +:+ line_break +:+ "ok" +:+ line_break);
     dk_appended := [text ("E2" +:+ line_break)]; dk_clock := fun _ => 0 |}.

Definition no_decoder : FileReader := raw_reader.

Definition same (s : string) : string := s.

Lemma demo_opens fb : opens same (demo_keyword fb) demo_disk (Some ∅).
Proof. split; reflexivity. Qed.

Lemma keyword_reports_every_match_witness :
  fst (keyword_run (X := unit) same 0 "web-1" no_decoder (demo_keyword None) demo_regexp (fun _ => false) demo_disk) =
    [BuildRawLogEvent 0 "web-1" "/var/log/app.log" "E(.*)" 1 {["1"%string := "1"%string]} "E1";
     BuildRawLogEvent 0 "web-1" "/var/log/app.log" "E(.*)" 3 {["1"%string := "2"%string]} "E2"].
Proof.
  rewrite (keyword_reports_every_match same 0 "web-1" no_decoder (demo_keyword None) demo_regexp (fun _ => false)
    demo_disk (Some ∅)).
  - vm_compute. reflexivity.
  - apply demo_opens.
  - discriminate.
  - reflexivity.
  - right. reflexivity.
  - apply Forall_cons_2; [right; reflexivity|apply Forall_nil_2].
Defined.

Lemma restart_resumes_only_without_from_begin_witness : exists reg,
  snd (keyword_run (X := unit) same 0 "web-1" no_decoder (demo_keyword (Some false)) demo_regexp (fun _ => false)
    demo_disk) = Some reg /\
  fst (keyword_run (X := unit) same 0 "web-1" no_decoder (demo_keyword (Some false)) demo_regexp (fun _ => false)
    (after_restart demo_disk reg (text ("E3" +:+ line_break)))) =
  [BuildRawLogEvent 0 "web-1" "/var/log/app.log" "E(.*)" 1 {["1"%string := "3"%string]} "E3"].
Proof.
  eexists. split; [vm_compute; reflexivity|].
  match goal with |- fst (keyword_run _ _ _ _ _ _ _ (after_restart _ ?r _)) = _ => set (reg := r) end.
  refine (eq_trans (proj1 (restart_resumes_only_without_from_begin (X := unit) same 0 "web-1" no_decoder
    (demo_keyword (Some false)) demo_regexp (fun _ => false) demo_disk ∅ reg
    (text ("E3" +:+ line_break)) (demo_opens _) (fun _ => eq_refl) _ _ _ _) eq_refl) _);
    [discriminate|apply Nat.leb_le; vm_compute; reflexivity|vm_compute; discriminate
    |vm_compute; reflexivity|vm_compute; reflexivity].
Defined.
