(* ===== verification/KeywordTail.v ===== *)
(** * The two goroutines of a keyword task (internal/input/file, tasks/keyword)

    [file.New] starts a goroutine that reads the file and sends its lines into a
    channel of 16; the task's goroutine takes them out, and its end closes the
    harvester. [tail_step] has a label per atomic step of the two and of the
    world: the file grows, the context ends, the watcher or the timer wakes the
    reader. [Keyword.keyword_run] is the sequence of these steps without their
    interleaving; here every interleaving is shown to report the lines of the
    file once and in order, and the goroutine that is left behind is exhibited.
    The file only grows, and its registry is used by this task alone. *)
From Stdlib Require Import Ascii String.
From S2P Require Import Prelude GoTime LabelsJson GoFloat GoStrings Configs HttpPublish Events Harvester HarvesterSpec Keyword KeywordSpec.

(** ** State and steps *)

(** What the error of [ReadString] makes of the loop. *)
Inductive ReadEnd := More | Eof | Failed.

Inductive Reader :=
| R_loop                              (* at [readOne] *)
| R_send (line : Bytes) (o : ReadEnd) (* at [h.lineCh <- line] *)
| R_wait                              (* in the select of [waitMore] *)
| R_gone.                             (* returned: [lineCh] is closed *)

Inductive TaskAt {X} :=
| T_read (lineNo : Z)                          (* in [ReadLine] *)
| T_send (lineNo : Z) (e : SimpleEvent X)      (* at the send of an event *)
| T_gone.
Arguments TaskAt : clear implicits.

Record Tail {F : FileReader} {X} := {
  tl_content : Bytes;                 (* the file *)
  tl_h : Harvester;
  tl_reader : Reader;
  tl_ch : list Bytes;                 (* [lineCh] *)
  tl_closed : bool;                   (* [done] and the file are closed *)
  tl_ctx : bool;                      (* the context has ended *)
  tl_task : TaskAt X;
  tl_taken : list Bytes;              (* the lines the task has received *)
  tl_events : list (SimpleEvent X);   (* the events it has sent *)
  tl_saved : option OffsetRegistry    (* what [Save] has written *)
}.
Arguments Tail {F} X.

Inductive Label :=
| L_append (seg : Bytes) | L_cancel | L_wake
| L_read (now : Time) | L_put (now : Time) | L_quit
| L_receive | L_eof | L_cancelled | L_emit.

Definition own (l : Label) : bool :=
  match l with L_append _ | L_cancel | L_wake => false | _ => true end.

(** [make(chan string, 16)] *)
Definition lineCh_cap : nat := 16.

Section tail.
Context {F : FileReader} {X : Type} (now : Time) (host : string) (cfg : KeywordConfig) (re : Regexp) (inode : N).
Context (reg : option OffsetRegistry).

#[local] Abbreviation hc := (harvester_config cfg reg).
#[local] Abbreviation size := (buffer_size (BufferSize cfg)).

Definition set_reader (r : Reader) (h : Harvester) (s : Tail X) : Tail X :=
  {| tl_content := tl_content s; tl_h := h; tl_reader := r; tl_ch := tl_ch s;
     tl_closed := tl_closed s; tl_ctx := tl_ctx s; tl_task := tl_task s; tl_taken := tl_taken s;
     tl_events := tl_events s; tl_saved := tl_saved s |}.

Definition set_ch (ch : list Bytes) (s : Tail X) : Tail X :=
  {| tl_content := tl_content s; tl_h := tl_h s; tl_reader := tl_reader s; tl_ch := ch;
     tl_closed := tl_closed s; tl_ctx := tl_ctx s; tl_task := tl_task s; tl_taken := tl_taken s;
     tl_events := tl_events s; tl_saved := tl_saved s |}.

Definition set_task (t : TaskAt X) (taken : list Bytes) (events : list (SimpleEvent X))
    (s : Tail X) : Tail X :=
  {| tl_content := tl_content s; tl_h := tl_h s; tl_reader := tl_reader s; tl_ch := tl_ch s;
     tl_closed := tl_closed s; tl_ctx := tl_ctx s; tl_task := t; tl_taken := taken;
     tl_events := events; tl_saved := tl_saved s |}.

(** A closed descriptor gives no more bytes. *)
Definition readable (s : Tail X) : Bytes :=
  if tl_closed s then take (hv_pos (tl_h s)) (tl_content s) else tl_content s.

(** The rest of the loop's body after [readOne]. *)
Definition continue (o : ReadEnd) (t : Time) (h : Harvester) (s : Tail X) : Tail X :=
  match o with
  | More => set_reader R_loop (maybeSaveOffset hc inode t h) s
  | Eof => set_reader R_wait (if tl_closed s then h else waitMore h) s
  | Failed => set_reader R_gone h s
  end.

Definition at_buffer (buf : Bytes) (pos : nat) (dec : fr_state) (h : Harvester) : Harvester :=
  {| hv_pos := pos; hv_dec := dec; hv_buf := buf; hv_offset := hv_offset h; hv_lastSave := hv_lastSave h;
     hv_registry := hv_registry h; hv_lines := hv_lines h |}.

(** [ReadString] *)
Definition read_step (t : Time) (s : Tail X) : Tail X :=
  let h := tl_h s in
  let '(line, buf, pos, dec, eof) := ReadString size (readable s) (hv_pos h) (hv_dec h) (hv_buf h) in
  let o := if eof : bool then if tl_closed s then Failed else Eof else More in
  if decide (line = []) then continue o t (at_buffer buf pos dec h) s
  else set_reader (R_send (chomp line) o) (at_buffer buf pos dec h) s.

(** The send, and [trackOffset]. *)
Definition put_step (line : Bytes) (o : ReadEnd) (t : Time) (s : Tail X) : Tail X :=
  let h := tl_h s in
  continue o t
    {| hv_pos := hv_pos h; hv_dec := hv_dec h; hv_buf := hv_buf h;
       hv_offset := if tl_closed s then hv_offset h else hv_pos h;
       hv_lastSave := hv_lastSave h; hv_registry := hv_registry h; hv_lines := hv_lines h ++ [line] |}
    (set_ch (tl_ch s ++ [line]) s).

(** The task's loop from a received line to its next wait. *)
Definition receive_step (n : Z) (line : Bytes) (ch : list Bytes) (s : Tail X) : Tail X :=
  let n := n + 1 in
  let text := string_of_list_ascii line in
  let task :=
    match ExtractLine text re with
    | None => T_read n
    | Some captures => T_send n (BuildRawLogEvent now host (File cfg) (Pattern cfg) n captures text)
    end in
  set_ch ch (set_task task (tl_taken s ++ [line]) (tl_events s) s).

(** The return of [Run]: [Close] - [done], the last offset, the file - and [Save]. *)
Definition return_step (s : Tail X) : Tail X :=
  let saved := CloseHarvester hc inode (tl_h s) in
  let h := tl_h s in
  {| tl_content := tl_content s;
     tl_h := {| hv_pos := hv_pos h; hv_dec := hv_dec h; hv_buf := hv_buf h; hv_offset := hv_offset h;
                hv_lastSave := hv_lastSave h; hv_registry := saved; hv_lines := hv_lines h |};
     tl_reader := tl_reader s; tl_ch := tl_ch s; tl_closed := true; tl_ctx := tl_ctx s;
     tl_task := T_gone; tl_taken := tl_taken s; tl_events := tl_events s; tl_saved := saved |}.

(** [ReadLine] without the context: it blocks ([None]), or the channel is closed ([Some None]),
    or gives a line. *)
Definition ReadLine (s : Tail X) : option (option (Bytes * list Bytes)) :=
  match tl_ch s with
  | line :: ch => Some (Some (line, ch))
  | [] => match tl_reader s with R_gone => Some None | _ => None end
  end.

Definition tail_step (l : Label) (s : Tail X) : option (Tail X) :=
  match l with
  | L_append seg =>
      Some {| tl_content := tl_content s ++ seg; tl_h := tl_h s; tl_reader := tl_reader s;
              tl_ch := tl_ch s; tl_closed := tl_closed s; tl_ctx := tl_ctx s; tl_task := tl_task s;
              tl_taken := tl_taken s; tl_events := tl_events s; tl_saved := tl_saved s |}
  | L_cancel =>
      Some {| tl_content := tl_content s; tl_h := tl_h s; tl_reader := tl_reader s;
              tl_ch := tl_ch s; tl_closed := tl_closed s; tl_ctx := true; tl_task := tl_task s;
              tl_taken := tl_taken s; tl_events := tl_events s; tl_saved := tl_saved s |}
  | L_wake => match tl_reader s with R_wait => Some (set_reader R_loop (tl_h s) s) | _ => None end
  | L_read t => match tl_reader s with R_loop => Some (read_step t s) | _ => None end
  | L_put t =>
      match tl_reader s with
      | R_send line o => if (length (tl_ch s) <? lineCh_cap)%nat then Some (put_step line o t s) else None
      | _ => None
      end
  | L_quit =>
      match tl_reader s with
      | R_wait => if tl_closed s then Some (set_reader R_gone (tl_h s) s) else None
      | _ => None
      end
  | L_receive =>
      match tl_task s, ReadLine s with
      | T_read n, Some (Some (line, ch)) => Some (receive_step n line ch s)
      | _, _ => None
      end
  | L_eof =>
      match tl_task s, ReadLine s with
      | T_read _, Some None => Some (return_step s)
      | _, _ => None
      end
  | L_cancelled =>
      match tl_task s with
      | T_gone => None
      | _ => if tl_ctx s then Some (return_step s) else None
      end
  | L_emit =>
      match tl_task s with
      | T_send n e => Some (set_task (T_read n) (tl_taken s) (tl_events s ++ [e]) s)
      | _ => None
      end
  end.

Definition tail_steps : list Label -> Tail X -> option (Tail X) := run_steps tail_step.

(** [file.New] has opened the file; [Run] enters its loop. *)
Definition new_tail (content : Bytes) : Tail X :=
  {| tl_content := content; tl_h := NewHarvester hc inode content now; tl_reader := R_loop;
     tl_ch := []; tl_closed := false; tl_ctx := false; tl_task := T_read 0; tl_taken := [];
     tl_events := []; tl_saved := None |}.
End tail.

(** ** What every interleaving reports

    of a file that is read as it is, without a decoder. *)
#[local] Existing Instance raw_reader.

Section reports.
Context {X : Type} (now : Time) (host : string) (cfg : KeywordConfig) (re : Regexp) (inode : N).
Context (reg : option OffsetRegistry).
Abbreviation hc := (harvester_config cfg reg).
Abbreviation size := (buffer_size (BufferSize cfg)).
Abbreviation step := (tail_step (X := X) now host cfg re inode reg).
Abbreviation started := (new_tail (X := X) now cfg inode reg).

(** The events of a list of lines. *)
Definition report (lines : list Bytes) : list (SimpleEvent X) :=
  keyword_loop now host cfg re (fun _ => false) 0 (string_of_list_ascii <$> lines).

Lemma keyword_loop_app n xs ys :
  keyword_loop (X := X) now host cfg re (fun _ => false) n (xs ++ ys) =
  keyword_loop now host cfg re (fun _ => false) n xs ++
  keyword_loop now host cfg re (fun _ => false) (n + Z.of_nat (length xs)) ys.
Proof.
  revert n. induction xs as [|x xs IH]; intros n; [by rewrite Z.add_0_r|]. cbn [keyword_loop app length].
  rewrite IH. replace (n + 1 + Z.of_nat (length xs)) with (n + Z.of_nat (S (length xs))) by lia.
  by destruct (ExtractLine x re).
Qed.

Lemma report_app xs ys :
  report (xs ++ ys) = report xs ++
    keyword_loop now host cfg re (fun _ => false) (Z.of_nat (length xs)) (string_of_list_ascii <$> ys).
Proof. unfold report. rewrite fmap_app, keyword_loop_app, length_fmap. done. Qed.

Lemma report_prefix xs ys : xs `prefix_of` ys -> report xs `prefix_of` report ys.
Proof. intros [zs ->]. rewrite report_app. by eexists. Qed.

Lemma complete_app s t : complete s -> complete t -> complete (s ++ t).
Proof.
  intros Hs [->|Ht]; [by rewrite app_nil_r|]. right. destruct t as [|c t]; [done|].
  by rewrite last_app_cons.
Qed.

Lemma complete_rest s l rest : complete s -> cut s = Some (l, rest) -> complete rest.
Proof.
  intros [->|Hs] Hc; [done|]. apply cut_nonempty in Hc as (l0 & -> & ->).
  destruct rest as [|c rest]; [by left|]. right. by rewrite last_app_cons in Hs.
Qed.

Lemma complete_uncut s : complete s -> cut s = None -> s = [].
Proof. intros [->|Hs] Hc; [done|]. by apply cut_none_last in Hc. Qed.

(** What the reader has read and not yet sent. *)
Definition pending (r : Reader) : list Bytes := match r with R_send line _ => [line] | _ => [] end.

(** Where everything is while the task runs: [start] is the text that was there, from the
    first offset on, and what has been appended. *)
Record following (start : Bytes) (s : Tail X) : Prop := {
  fo_open : tl_closed s = false;
  fo_within : within (tl_content s) (tl_h s);
  fo_complete : complete (todo (tl_content s) (tl_h s));
  fo_lines : hv_lines (tl_h s) ++ pending (tl_reader s) ++ split_lines (todo (tl_content s) (tl_h s))
             = split_lines start;
  fo_reader : match tl_reader s with R_send _ o => o = More | R_gone => False | _ => True end;
  fo_task : match tl_task s with
            | T_read n => n = Z.of_nat (length (tl_taken s)) /\ tl_events s = report (tl_taken s)
            | T_send n e => n = Z.of_nat (length (tl_taken s)) /\ tl_events s ++ [e] = report (tl_taken s)
            | T_gone => False
            end
}.

Record tail_ok (start : Bytes) (s : Tail X) : Prop := {
  to_start : complete start;
  to_fifo : hv_lines (tl_h s) = tl_taken s ++ tl_ch s;
  to_taken : tl_taken s `prefix_of` split_lines start;
  to_events : tl_events s `prefix_of` report (tl_taken s);
  to_phase : following start s \/ (tl_closed s = true /\ tl_ctx s = true /\ tl_task s = T_gone)
}.

(** One [ReadString] while the task runs. *)
Lemma read_following start t s :
  following start s -> tl_reader s = R_loop -> following start (read_step cfg inode reg t s).
Proof.
  intros [Ho Hw Hc Hl Hr Ht] Hloop. unfold read_step, readable. rewrite Ho.
  pose proof (ReadString_reads size (tl_content s) (hv_pos (tl_h s)) (hv_dec (tl_h s)) (hv_buf (tl_h s))
    (buffer_size_pos _) Hw) as H.
  fold (todo (tl_content s) (tl_h s)) in H. unfold reads in H. rewrite Hloop in Hl. simpl in Hl.
  destruct (cut (todo (tl_content s) (tl_h s))) as [[l rest]|] eqn:E.
  - destruct H as (buf & pos & -> & Hrest & Hpos). simpl app.
    rewrite decide_False by (destruct (cut_nonempty _ _ _ E) as (l0 & -> & _); by destruct l0).
    split; try done; simpl.
    + unfold todo. simpl. rewrite Hrest. by eapply complete_rest.
    + unfold todo at 1. simpl. rewrite Hrest, <-Hl, (split_lines_cut (todo _ _)), E. done.
  - apply complete_uncut in E; [|done]. rewrite E in *. rewrite H. simpl.
    rewrite Ho. split; try done; simpl.
    + unfold within. simpl. lia.
    + unfold todo. simpl. rewrite drop_all. by left.
    + unfold todo. simpl. rewrite drop_all. exact Hl.
Qed.

(** The send of a line while the task runs. *)
Lemma put_following start line o t s :
  following start s -> tl_reader s = R_send line o -> following start (put_step cfg inode reg line o t s).
Proof.
  intros [Ho Hw Hc Hl Hr Ht] Hsend. rewrite Hsend in Hr, Hl. subst o. unfold put_step, continue. simpl.
  match goal with |- context [maybeSaveOffset ?c ?i ?n ?h] =>
    destruct (maybeSave_same c i n h (tl_content s)) as (E1 & E2 & E3); set (h1 := maybeSaveOffset c i n h) in * end.
  split; simpl; [done|by apply E3|by rewrite E2| |done|done].
  rewrite E1, E2. simpl. by rewrite <-Hl, <-app_assoc.
Qed.

(** The reader's steps once the harvester is closed touch neither the task nor its events. *)
Lemma continue_frame o t h (s : Tail X) :
  let s' := continue cfg inode reg o t h s in
  tl_content s' = tl_content s /\ tl_ch s' = tl_ch s /\ tl_closed s' = tl_closed s /\
  tl_ctx s' = tl_ctx s /\ tl_task s' = tl_task s /\ tl_taken s' = tl_taken s /\
  tl_events s' = tl_events s /\ hv_lines (tl_h s') = hv_lines h.
Proof.
  destruct o; simpl; split_and!; try done; [|by case_match].
  by apply (maybeSave_same hc inode t h []).
Qed.

Lemma read_frame t (s : Tail X) :
  let s' := read_step cfg inode reg t s in
  tl_content s' = tl_content s /\ tl_ch s' = tl_ch s /\ tl_closed s' = tl_closed s /\
  tl_ctx s' = tl_ctx s /\ tl_task s' = tl_task s /\ tl_taken s' = tl_taken s /\
  tl_events s' = tl_events s /\ hv_lines (tl_h s') = hv_lines (tl_h s).
Proof.
  unfold read_step. destruct (ReadString _ _ _ _ _) as [[[[line buf] pos] dec] eof]. cbv zeta.
  case_decide; [exact (continue_frame _ t (at_buffer buf pos dec (tl_h s)) s)|done].
Qed.

Lemma put_frame line o t (s : Tail X) :
  let s' := put_step cfg inode reg line o t s in
  tl_content s' = tl_content s /\ tl_ch s' = tl_ch s ++ [line] /\ tl_closed s' = tl_closed s /\
  tl_ctx s' = tl_ctx s /\ tl_task s' = tl_task s /\ tl_taken s' = tl_taken s /\
  tl_events s' = tl_events s /\ hv_lines (tl_h s') = hv_lines (tl_h s) ++ [line].
Proof.
  unfold put_step. cbv zeta.
  match goal with |- context [continue _ _ _ o t ?h ?s1] => exact (continue_frame o t h s1) end.
Qed.

(** A step of the reader that keeps what the task has and the order of the lines. *)
Lemma reader_step_ok start s s' :
  tail_ok start s -> hv_lines (tl_h s') = tl_taken s' ++ tl_ch s' -> tl_taken s' = tl_taken s ->
  tl_events s' = tl_events s -> tl_closed s' = tl_closed s -> tl_ctx s' = tl_ctx s ->
  tl_task s' = tl_task s -> (following start s -> following start s') -> tail_ok start s'.
Proof.
  intros [Hs Hf Ht He Hp] Hf' Et Ee Ec Ex Ek Hfo. split; rewrite ?Et, ?Ee; try done.
  - by rewrite <-Et.
  - rewrite Ec, Ex, Ek. destruct Hp as [Hp|Hp]; [left; auto|by right].
Qed.

(** The task takes the next line. *)
Lemma receive_ok start n line ch s :
  tail_ok start s -> tl_task s = T_read n -> tl_ch s = line :: ch ->
  tail_ok start (receive_step now host cfg re n line ch s).
Proof.
  intros [Hs Hf Ht He Hp] Hk Hch. destruct Hp as [Hp|(_ & _ & Hg)]; [|congruence].
  destruct Hp as [Ho Hw Hc Hl Hr Htk]. rewrite Hk in Htk. destruct Htk as [Hn Hev].
  rewrite Hch in Hf.
  assert (hv_lines (tl_h s) `prefix_of` split_lines start) as Hpre by (rewrite <-Hl; by eexists).
  split; simpl; [done| | | |left; split; simpl; try done].
  - rewrite Hf, <-app_assoc. done.
  - etrans; [|exact Hpre]. rewrite Hf. exists ch. by rewrite <-app_assoc.
  - rewrite Hev. by apply report_prefix, prefix_app_r.
  - rewrite report_app, <-Hev, length_app, <-Hn. simpl. unfold receive_step. simpl.
    destruct (ExtractLine (string_of_list_ascii line) re); simpl.
    + split; [lia|done].
    + split; [lia|by rewrite app_nil_r].
Qed.

(** The return of the task, at the end of the lines or of the context. *)
Lemma return_ok start s : tail_ok start s -> tl_ctx s = true -> tail_ok start (return_step cfg inode reg s).
Proof. intros [Hs Hf Ht He Hp] Hctx. split; try done. by right. Qed.

Definition grows_by_lines (l : Label) : Prop := match l with L_append seg => complete seg | _ => True end.

(** [start] after a step. *)
Definition grown (l : Label) (start : Bytes) : Bytes :=
  match l with L_append seg => start ++ seg | _ => start end.

(** The file grows. *)
Lemma append_ok start seg s s' :
  complete seg -> tail_ok start s -> step (L_append seg) s = Some s' -> tail_ok (start ++ seg) s'.
Proof.
  intros Hg [Hst Hf Ht He Hp] Hs. simpl in Hs. injection Hs as <-.
  split; simpl; [by apply complete_app|done| |done|].
  - rewrite split_lines_app by done. by apply prefix_app_r.
  - destruct Hp as [[Ho Hw Hc Hl Hr Htk]|]; [left|by right].
    assert (todo (tl_content s ++ seg) (tl_h s) = todo (tl_content s) (tl_h s) ++ seg) as Htd.
    { unfold todo. by rewrite drop_app_le, app_assoc. }
    split; simpl; [done| | | |done|done].
    + unfold within in *. rewrite length_app. lia.
    + rewrite Htd. by apply complete_app.
    + by rewrite Htd, !split_lines_app, <-Hl, <-(app_assoc (hv_lines _)), <-(app_assoc (pending _)) by done.
Qed.

Lemma step_ok start l s s' :
  grows_by_lines l -> tail_ok start s -> step l s = Some s' -> tail_ok (grown l start) s'.
Proof.
  intros Hg Hok Hs. destruct l as [seg| | |t|t| | | | |]; simpl in Hs |- *;
    unfold ReadLine in Hs.
  - simplify_eq. by apply (append_ok _ _ s).
  - simplify_eq. destruct Hok as [Hst Hf Ht He Hp]. split; try done.
    destruct Hp as [[]|(? & ? & ?)]; [by left|by right].
  - destruct (tl_reader s) eqn:Hr; simplify_eq. apply (reader_step_ok _ s); try done; [apply Hok|].
    intros [? ? ? Hl ? ?]. rewrite Hr in Hl. by split.
  - destruct (tl_reader s) eqn:Hr; simplify_eq.
    destruct (read_frame t s) as (? & Hch & ? & ? & ? & Htk & ? & Hl).
    apply (reader_step_ok _ s); try done; [rewrite Hl, Htk, Hch; apply Hok|].
    intros. by apply read_following.
  - destruct (tl_reader s) as [|line o| |] eqn:Hr; try done. case_match; simplify_eq.
    destruct (put_frame line o t s) as (? & Hch & ? & ? & ? & Htk & ? & Hl).
    apply (reader_step_ok _ s); try done.
    + rewrite Hl, Htk, Hch, app_assoc. f_equal. apply Hok.
    + intros. by apply put_following.
  - destruct (tl_reader s) eqn:Hr; try done. destruct (tl_closed s) eqn:Hc; simplify_eq.
    apply (reader_step_ok _ s); try done; [apply Hok|]. intros []. congruence.
  - destruct (tl_task s) as [n| |] eqn:Hk; try done. destruct (tl_ch s) as [|line ch] eqn:Hch; [by destruct (tl_reader s)|]. simplify_eq.
    by apply receive_ok.
  - destruct (tl_task s) eqn:Hk; try done. destruct (tl_ch s) eqn:Hch; try done.
    destruct (tl_reader s) eqn:Hr; simplify_eq. exfalso.
    destruct (to_phase _ _ Hok) as [[]|(_ & _ & ?)]; [|congruence].
    match goal with H : match tl_reader s with _ => _ end |- _ => by rewrite Hr in H end.
  - destruct (tl_task s); try done; destruct (tl_ctx s) eqn:Hctx; simplify_eq; by apply return_ok.
  - destruct (tl_task s) as [|n e|] eqn:Hk; simplify_eq. destruct Hok as [Hst Hf Ht He Hp].
    destruct Hp as [[Ho Hw Hc Hl Hr Htk]|(_ & _ & ?)]; [|congruence].
    rewrite Hk in Htk. destruct Htk as [-> Hev]. split; simpl; try done.
    + by rewrite Hev.
    + left. by split.
Qed.

(** What has been appended to the file during a run. *)
Definition appended (ls : list Label) : Bytes :=
  concat ((fun l => match l with L_append seg => seg | _ => [] end) <$> ls).

Lemma steps_ok start ls s s' :
  Forall grows_by_lines ls -> tail_ok start s -> run_steps step ls s = Some s' ->
  tail_ok (start ++ appended ls) s'.
Proof.
  intros Hg. revert start s. induction Hg as [|l ls Hl _ IH]; intros start s Hok Hr; simpl in Hr.
  { simplify_eq. unfold appended. simpl. by rewrite app_nil_r. }
  destruct (step l s) as [s1|] eqn:E; [|done].
  pose proof (IH _ _ (step_ok _ _ _ _ Hl Hok E) Hr) as H. unfold appended in *. simpl.
  destruct l; simpl in *; try done. by rewrite app_assoc.
Qed.

Lemma new_tail_ok content :
  let off := start_offset hc inode content in
  (off <= length content)%nat -> complete (drop off content) ->
  tail_ok (drop off content) (started content).
Proof.
  intros off Hoff Hc. split; simpl; [done|done|apply prefix_nil|apply prefix_nil|].
  left. split; try done.
Qed.

(** When none of the two goroutines can move, the context lives and the file has been read
    to its end, everything has been reported. *)
Lemma settled_reports_all start s :
  tail_ok start s -> tl_ctx s = false -> (forall l, own l = true -> step l s = None) ->
  todo (tl_content s) (tl_h s) = [] -> tl_events s = report (split_lines start).
Proof.
  intros [Hst Hf Ht He Hp] Hctx Hown Htodo. destruct Hp as [Hp|(_ & ? & _)]; [|congruence].
  destruct Hp as [Ho Hw Hc Hl Hr Htk]. rewrite Htodo in Hl. simpl in Hl.
  destruct (tl_task s) as [n|n e|] eqn:Hk; [| |done].
  2: { pose proof (Hown L_emit eq_refl) as H. simpl in H. by rewrite Hk in H. }
  destruct (tl_ch s) as [|line ch] eqn:Hch.
  2: { pose proof (Hown L_receive eq_refl) as H. simpl in H. unfold ReadLine in H. by rewrite Hk, Hch in H. }
  destruct (tl_reader s) as [|line o| |] eqn:Hrd; [| | |done].
  - pose proof (Hown (L_read 0) eq_refl) as H. simpl in H. by rewrite Hrd in H.
  - pose proof (Hown (L_put 0) eq_refl) as H. simpl in H. by rewrite Hrd, Hch in H.
  - destruct Htk as [_ ->]. simpl in Hl. rewrite !app_nil_r in Hl. by rewrite <-Hl, Hf, app_nil_r.
Qed.

(** How far the two goroutines can still go by themselves. *)
Definition reader_weight (r : Reader) : nat :=
  match r with R_gone => 0 | R_wait => 1 | R_loop => 2 | R_send _ _ => 6 end.
Definition task_weight (t : TaskAt X) : nat :=
  match t with T_gone => 0 | T_read _ => 1 | T_send _ _ => 2 end.
Definition weight (s : Tail X) : nat :=
  7 * length (todo (readable s) (tl_h s)) + reader_weight (tl_reader s) +
  3 * length (tl_ch s) + task_weight (tl_task s).

#[local] Abbreviation left_over s := (length (todo (readable s) (tl_h s))).

Lemma readable_closed (s : Tail X) : tl_closed s = true -> left_over s = length (hv_buf (tl_h s)).
Proof.
  intros Hc. unfold readable, todo. rewrite Hc, length_app, length_drop, length_take. lia.
Qed.

Lemma readable_within (s : Tail X) :
  within (tl_content s) (tl_h s) -> (hv_pos (tl_h s) <= length (readable s) <= length (tl_content s))%nat.
Proof. unfold within, readable. intros H. case_match; rewrite ?length_take; lia. Qed.

Lemma continue_lighter o t h (s : Tail X) :
  within (tl_content s) h ->
  let s' := continue cfg inode reg o t h s in
  (reader_weight (tl_reader s') <= 2)%nat /\ within (tl_content s') (tl_h s') /\
  (left_over s' <= length (todo (readable (set_reader R_loop h s)) h))%nat.
Proof.
  intros Hw. unfold readable. destruct o; simpl.
  - destruct (maybeSave_same hc inode t h (tl_content s)) as (_ & _ & E3).
    unfold todo, maybeSaveOffset. repeat case_match; simpl; split_and!; (lia || done).
  - split; [lia|]. case_match; simpl; split; try done. unfold todo. simpl. rewrite length_app. lia.
  - split_and!; [lia|done|done].
Qed.

Lemma read_lighter t (s : Tail X) :
  within (tl_content s) (tl_h s) -> tl_reader s = R_loop ->
  within (tl_content s) (tl_h (read_step cfg inode reg t s)) /\
  (7 * left_over (read_step cfg inode reg t s) + reader_weight (tl_reader (read_step cfg inode reg t s))
   < 7 * left_over s + 2)%nat.
Proof.
  intros Hw Hloop. pose proof (readable_within s Hw) as Hrd. unfold read_step.
  pose proof (ReadString_reads size (readable s) (hv_pos (tl_h s)) (hv_dec (tl_h s)) (hv_buf (tl_h s))
    (buffer_size_pos _) (proj1 Hrd)) as H.
  fold (todo (readable s) (tl_h s)) in H. unfold reads in H.
  destruct (cut (todo (readable s) (tl_h s))) as [[l rest]|] eqn:E.
  - destruct H as (buf & pos & -> & Hrest & Hpos). destruct (cut_nonempty _ _ _ E) as (l0 & -> & El).
    simpl app. rewrite decide_False by (by destruct l0). simpl. split; [unfold within; simpl; lia|].
    apply (f_equal length) in El, Hrest. rewrite !length_app in El. rewrite length_app in Hrest. simpl in El.
    set (N := left_over s) in *. clearbody N. unfold todo, readable. simpl. rewrite length_app.
    revert Hrest. unfold readable. case_match; rewrite !length_drop, ?length_take; lia.
  - rewrite H. simpl app. set (T := todo (readable s) (tl_h s)) in *.
    assert (forall s' : Tail X, hv_buf (tl_h s') = [] -> hv_pos (tl_h s') = length (readable s) ->
      tl_closed s' = tl_closed s -> tl_content s' = tl_content s -> left_over s' = 0%nat) as Hnone.
    { intros s' Hb Hp Hc Ho. unfold todo, readable in *. rewrite Hb, Hp, Hc, Ho. simpl.
      case_match; rewrite length_drop, ?length_take; lia. }
    case_decide as ET.
    + rewrite ET. unfold continue. split.
      * destruct (tl_closed s); unfold within; simpl; lia.
      * rewrite Hnone by (by destruct (tl_closed s) eqn:Ec; simpl; rewrite ?Ec). destruct (tl_closed s); simpl; lia.
    + split; [unfold within; simpl; lia|]. rewrite Hnone by done. simpl.
      destruct T; [done|]. simpl. lia.
Qed.

Lemma own_lighter l s s' :
  own l = true -> within (tl_content s) (tl_h s) -> step l s = Some s' ->
  (weight s' < weight s)%nat /\ within (tl_content s') (tl_h s').
Proof.
  intros Ho Hw Hs. unfold weight. destruct l as [seg| | |t|t| | | | |]; try done; simpl in Hs;
    unfold ReadLine in Hs.
  - destruct (tl_reader s) eqn:Hr; simplify_eq. destruct (read_lighter t s Hw Hr) as [Hw' Hlt].
    destruct (read_frame t s) as (-> & -> & _ & _ & -> & _). simpl. split; [lia|done].
  - destruct (tl_reader s) as [|line o| |] eqn:Hr; try done. case_match; simplify_eq.
    destruct (put_frame line o t s) as (Hc & -> & _ & _ & -> & _).
    unfold put_step in *.
    match goal with |- context [continue _ _ _ o t ?h ?s1] =>
      destruct (continue_lighter o t h s1) as (H1 & H2 & H3); [done|];
      assert (length (todo (readable (set_reader R_loop h s1)) h) = left_over s) as H4 by done;
      cbv zeta in *; set (s2 := continue cfg inode reg o t h s1) in * end.
    rewrite length_app. simpl. split; [lia|done].
  - destruct (tl_reader s) eqn:Hr; try done. destruct (tl_closed s); simplify_eq.
    simpl. split; [|done]. change (readable (set_reader R_gone (tl_h s) s)) with (readable s). lia.
  - destruct (tl_task s) as [n| |] eqn:Hk; try done. destruct (tl_ch s) as [|line ch] eqn:Hch; [by destruct (tl_reader s)|]. simplify_eq.
    change (readable (receive_step now host cfg re n line ch s)) with (readable s).
    simpl. split; [|done]. case_match; simpl; lia.
  - destruct (tl_task s) eqn:Hk; try done. destruct (tl_ch s) eqn:Hch; try done.
    destruct (tl_reader s) eqn:Hr; simplify_eq. split; [|done]. rewrite readable_closed by done. simpl.
    unfold todo. rewrite Hr, Hch, length_app. simpl. lia.
  - destruct (tl_task s) eqn:Hk; try done; destruct (tl_ctx s); simplify_eq; (split; [|done]);
      rewrite readable_closed by done; simpl; unfold todo; rewrite length_app; lia.
  - destruct (tl_task s) as [|n e|] eqn:Hk; simplify_eq.
    change (readable (set_task (T_read n) (tl_taken s) (tl_events s ++ [e]) s)) with (readable s).
    simpl. split; [lia|done].
Qed.

(** The reader does not wait in front of text: nothing has been appended since the watcher
    or the timer woke it last. *)
Definition awake (s : Tail X) : Prop :=
  tl_reader s = R_wait -> todo (tl_content s) (tl_h s) = [].

Lemma own_awake start l s s' :
  own l = true -> following start s -> tl_ctx s = false -> awake s -> step l s = Some s' ->
  awake s' /\ tl_ctx s' = false.
Proof.
  intros Ho Hfo Hctx Haw Hs. destruct l as [seg| | |t|t| | | | |]; try done; simpl in Hs;
    unfold ReadLine in Hs.
  - destruct (tl_reader s) eqn:Hr; simplify_eq. destruct Hfo as [Hop Hw Hc _ _ _].
    destruct (read_frame t s) as (_ & _ & _ & Hx & _). rewrite Hx. split; [|done].
    unfold awake, read_step, readable. rewrite Hop.
    pose proof (ReadString_reads size (tl_content s) (hv_pos (tl_h s)) (hv_dec (tl_h s)) (hv_buf (tl_h s))
      (buffer_size_pos _) Hw) as H.
    fold (todo (tl_content s) (tl_h s)) in H. unfold reads in H.
    destruct (cut (todo (tl_content s) (tl_h s))) as [[l rest]|] eqn:E.
    + destruct H as (buf & pos & -> & _). simpl app.
      rewrite decide_False by (destruct (cut_nonempty _ _ _ E) as (l0 & -> & _); by destruct l0). done.
    + apply complete_uncut in E; [|done]. rewrite E in H. rewrite H. simpl. rewrite Hop. intros _.
      unfold todo. simpl. by rewrite drop_all.
  - destruct (tl_reader s) as [|line o| |] eqn:Hr; try done. case_match; simplify_eq.
    destruct (put_frame line o t s) as (_ & _ & _ & Hx & _). rewrite Hx. split; [|done].
    pose proof (fo_reader _ _ Hfo) as Hmore. rewrite Hr in Hmore. by subst o.
  - destruct (tl_reader s) eqn:Hr; try done. destruct (tl_closed s); by simplify_eq.
  - destruct (tl_task s); try done. destruct (tl_ch s); [by destruct (tl_reader s)|]. simplify_eq. by split; [exact Haw|].
  - destruct (tl_task s) eqn:Hk; try done. destruct (tl_ch s); try done.
    destruct (tl_reader s) eqn:Hr; simplify_eq. pose proof (fo_reader _ _ Hfo) as Hn. by rewrite Hr in Hn.
  - destruct (tl_task s); try done; rewrite Hctx in Hs; done.
  - destruct (tl_task s); simplify_eq. by split; [exact Haw|].
Qed.

Lemma own_grown l start : own l = true -> grows_by_lines l /\ grown l start = start.
Proof. by destruct l. Qed.

(** The two goroutines by themselves: they stop, and then everything is reported. *)
Lemma own_run start ls s s' :
  Forall (fun l => own l = true) ls -> tail_ok start s -> tl_ctx s = false -> awake s ->
  run_steps step ls s = Some s' ->
  (length ls + weight s' <= weight s)%nat /\
  ((forall l, own l = true -> step l s' = None) -> tl_events s' = report (split_lines start)).
Proof.
  intros Hls. revert s. induction Hls as [|l ls Hl _ IH]; intros s Hok Hctx Haw Hr; simpl in Hr |- *.
  - simplify_eq. split; [lia|]. intros Hown. apply settled_reports_all; [done..|].
    destruct (to_phase _ _ Hok) as [Hfo|(_ & ? & _)]; [|congruence].
    destruct (tl_reader s') as [|line o| |] eqn:Hrd; [| |by apply Haw|].
    + pose proof (Hown (L_read 0) eq_refl) as H. simpl in H. by rewrite Hrd in H.
    + destruct (tl_task s') as [n|n e|] eqn:Hk;
        [|pose proof (Hown L_emit eq_refl) as H; simpl in H; by rewrite Hk in H
         |pose proof (fo_task _ _ Hfo) as H; by rewrite Hk in H].
      destruct (tl_ch s') eqn:Hch;
        [pose proof (Hown (L_put 0) eq_refl) as H; simpl in H; by rewrite Hrd, Hch in H
        |pose proof (Hown L_receive eq_refl) as H; simpl in H; unfold ReadLine in H; by rewrite Hk, Hch in H].
    + pose proof (fo_reader _ _ Hfo) as H. by rewrite Hrd in H.
  - destruct (step l s) as [s1|] eqn:E; [|done].
    destruct (to_phase _ _ Hok) as [Hfo|(_ & ? & _)]; [|congruence].
    destruct (own_grown l start Hl) as [Hg Hst].
    pose proof (step_ok _ _ _ _ Hg Hok E) as Hok1. rewrite Hst in Hok1.
    destruct (own_awake _ _ _ _ Hl Hfo Hctx Haw E) as [Haw1 Hctx1].
    destruct (own_lighter _ _ _ Hl (fo_within _ _ Hfo) E) as [Hlt _].
    destruct (IH _ Hok1 Hctx1 Haw1 Hr) as [Hle Hall]. split; [lia|done].
Qed.

(** A reader at its send, with the channel full and nobody to receive, stays there. *)
Definition stuck (s : Tail X) : Prop :=
  tl_task s = T_gone /\ (lineCh_cap <= length (tl_ch s))%nat /\
  match tl_reader s with R_send _ _ => True | _ => False end.

Lemma stuck_stays ls s s' : stuck s -> run_steps step ls s = Some s' -> stuck s'.
Proof.
  intros Hs. apply run_steps_preserves; [|done]. clear. intros l s s' (Hk & Hch & Hr) Hs.
  assert ((length (tl_ch s) <? lineCh_cap)%nat = false) as Hfull by (apply Nat.ltb_ge; lia).
  destruct l; simpl in Hs; rewrite ?Hk, ?Hfull in Hs; try discriminate Hs;
    try (injection Hs as <-; by split_and!);
    destruct (tl_reader s); try done; discriminate Hs.
Qed.
End reports.

(** ** The theorems *)
Section theorems.
Context {X : Type} (now : Time) (host : string) (cfg : KeywordConfig) (re : Regexp) (inode : N).
Context (reg : option OffsetRegistry).
Abbreviation steps := (tail_steps (X := X) now host cfg re inode reg).

(** C24: a task whose file needs no decoder and, from its starting offset on, consists of
    whole lines: whatever the interleaving of the goroutine that reads the file with the one
    of the task, with the growth of the file by whole lines, with the wake-ups and with the
    end of the context, the events sent are at any time the first ones of those of the file's
    lines, once each, in order and with the lines' numbers. While the context lives and the
    reader has been woken since the file grew last, the two come to rest after a bounded
    number of steps, and then all are sent. *)
Theorem keyword_task_reports quote_string content ls s :
  let start := drop (start_offset (harvester_config cfg reg) inode content) content in
  let all := keyword_loop now host cfg re (fun _ => false) 0
               (string_of_list_ascii <$> split_lines (start ++ appended ls)) in
  lookupEncoding quote_string (Encoding cfg) = Ok false ->
  (start_offset (harvester_config cfg reg) inode content <= length content)%nat -> complete start ->
  Forall grows_by_lines ls -> steps ls (new_tail now cfg inode reg content) = Some s ->
  tl_events s `prefix_of` all /\
  (tl_ctx s = false -> awake s -> forall ls' s', Forall (fun l => own l = true) ls' ->
     steps ls' s = Some s' ->
     (length ls' <= weight s)%nat /\
     ((forall l, own l = true -> tail_step now host cfg re inode reg l s' = None) ->
      tl_events s' = all)).
Proof.
  intros start all _ Hoff Hc Hg Hr.
  pose proof (steps_ok _ _ _ _ _ _ _ _ _ _ Hg (new_tail_ok now host cfg re inode reg content Hoff Hc) Hr)
    as Hok.
  split.
  - destruct Hok as [_ _ Htk Hev _]. etrans; [exact Hev|].
    exact (report_prefix now host cfg re _ _ Htk).
  - intros Hctx Haw ls' s' Hown Hr'.
    destruct (own_run _ _ _ _ _ _ _ _ _ _ Hown Hok Hctx Haw Hr') as [Hle Hall]. split; [lia|done].
Qed.
End theorems.

(** ** Runs *)
Definition demo_tail (content : Bytes) : Tail unit :=
  new_tail 0 (demo_keyword None) 7 (Some ∅) content.

#[local] Abbreviation demo_steps :=
  (tail_steps (X := unit) 0 "web-1" (demo_keyword None) demo_regexp 7 (Some ∅)).
#[local] Abbreviation demo_all lines :=
  (keyword_loop (X := unit) 0 "web-1" (demo_keyword None) demo_regexp (fun _ => false) 0 lines).

(** The second line arrives while the first one's event waits to be sent. *)
Definition demo_labels : list Label :=
  [L_read 0; L_put 0; L_receive; L_append (text ("E2" +:+ line_break)); L_read 1; L_emit].

Lemma keyword_task_reports_witness : exists s s',
  demo_steps demo_labels (demo_tail (text ("E1" +:+ line_break))) = Some s /\
  demo_steps [L_put 1; L_receive; L_read 2; L_emit] s = Some s' /\
  tl_events s `prefix_of` demo_all ["E1"; "E2"]%string /\
  tl_events s' = demo_all ["E1"; "E2"]%string /\ length (tl_events s') = 2%nat.
Proof.
  eexists _, _. split; [vm_compute; reflexivity|]. split; [vm_compute; reflexivity|].
  match goal with |- tl_events ?a `prefix_of` _ /\ tl_events ?b = _ /\ _ =>
    set (s := a); set (s' := b) end.
  refine (match keyword_task_reports (X := unit) 0 "web-1" (demo_keyword None) demo_regexp 7 (Some ∅)
    same (text ("E1" +:+ line_break)) demo_labels s _ _ _ _ _ with conj Hp Hall => conj Hp (conj (proj2 (Hall _ _
      [L_put 1; L_receive; L_read 2; L_emit] s' _ _) _) _) end).
  - vm_compute. reflexivity.
  - vm_compute. lia.
  - right. vm_compute. reflexivity.
  - do 3 (constructor; [exact I|]). constructor; [right; reflexivity|].
    do 2 (constructor; [exact I|]). constructor.
  - vm_compute. reflexivity.
  - vm_compute. reflexivity.
  - vm_compute. discriminate.
  - repeat constructor.
  - vm_compute. reflexivity.
  - intros l Hl. destruct l; first [discriminate Hl|vm_compute; reflexivity].
  - reflexivity.
Defined.

(** The context ends while an event waits to be sent and the reader is 17 lines ahead: the
    task closes the harvester, and the reader's goroutine, with its watcher, stays for good. *)
Definition ahead : list Label :=
  [L_read 0; L_put 0; L_receive] ++ concat (replicate 16 [L_read 0; L_put 0]) ++
  [L_read 0; L_cancel; L_cancelled].

Lemma close_leaves_the_reader : exists s,
  demo_steps ahead (demo_tail (concat (replicate 18 (text ("E" +:+ line_break))))) = Some s /\
  tl_task s = T_gone /\ tl_closed s = true /\
  forall ls s', demo_steps ls s = Some s' -> tl_reader s' <> R_gone.
Proof.
  eexists. split; [vm_compute; reflexivity|]. do 2 (split; [reflexivity|]).
  intros ls s' Hr. eapply stuck_stays in Hr as (_ & _ & H).
  - intros E. by rewrite E in H.
  - split; [reflexivity|]. split; [vm_compute; lia|exact I].
Qed.
