(* ===== verification/CollectorSpec.v ===== *)
(** * What the host collectors report

    The names of the metrics of a host report are names VictoriaMetrics takes;
    the process list has the busiest wanted processes; the kernel messages are
    reported per line and pattern. *)
From Stdlib Require Import Ascii String.
From stdpp Require Import pretty.
From S2P Require Import Prelude GoTime LabelsJson GoFloat GoStrings Web Configs HttpPublish Events Collectors.

(** ** Kernel messages *)
Section dmesg.

Definition message_key (name line : string) : string := name +:+ ":" +:+ line.

(** The names of the patterns a line matches, in the order of the table. *)
Definition names_in (ps : list (string * Pattern)) (line : string) : list string :=
  (filter (fun p => MatchString p.2 line = true) ps).*1.

Definition names_of (line : string) : list string := names_in compiledPatterns line.

(** No name has a colon. *)
Definition no_colon (name : string) : Prop := ":"%char ∉ text name.

Lemma pattern_names_no_colon : Forall (fun p => no_colon p.1) compiledPatterns.
Proof. apply (bool_decide_unpack _). vm_compute. exact I. Qed.

Lemma pattern_names_distinct : NoDup (compiledPatterns.*1).
Proof. apply (bool_decide_unpack _). vm_compute. exact I. Qed.

Lemma names_of_no_colon line name : name ∈ names_of line -> no_colon name.
Proof.
  intros ([n p] & -> & Hin)%list_elem_of_fmap. apply list_elem_of_filter in Hin as [_ Hin].
  exact (proj1 (Forall_forall _ _) pattern_names_no_colon _ Hin).
Qed.

Lemma names_in_distinct ps line : NoDup ps.*1 -> NoDup (names_in ps line).
Proof.
  induction ps as [|[n p] ps IH]; [done|]. simpl. intros [Hn Hnd]%NoDup_cons.
  unfold names_in. rewrite filter_cons. case_decide; [|by apply IH]. simpl. apply NoDup_cons.
  split; [|by apply IH]. intros ([n' p'] & -> & Hin)%list_elem_of_fmap. apply Hn.
  apply list_elem_of_filter in Hin as [_ Hin]. apply list_elem_of_fmap. by exists (n', p').
Qed.

Lemma text_app s t : text (s +:+ t) = text s ++ text t.
Proof. induction s as [|c s IH]; [done|]. simpl. by f_equal. Qed.

Lemma text_inj s t : text s = text t -> s = t.
Proof.
  intros H. rewrite <-(string_of_list_ascii_of_string s), <-(string_of_list_ascii_of_string t).
  by rewrite H.
Qed.

Lemma message_key_inj n1 l1 n2 l2 :
  no_colon n1 -> no_colon n2 -> message_key n1 l1 = message_key n2 l2 -> n1 = n2 /\ l1 = l2.
Proof.
  unfold message_key. intros H1 H2 E%(f_equal text). rewrite !text_app in E. simpl in E.
  apply app_sep_inj in E as [E1%text_inj E2%text_inj]; done.
Qed.

(** [done l]: how often the line [l] has been reported. *)
Definition seen_after (report : string -> nat) (seen : gset string) : Prop := forall l name,
  name ∈ names_of l -> message_key name l ∈ seen <-> name ∈ take (report l) (names_of l).

Lemma match_line_nth ps line seen n :
  NoDup (names_in ps line) ->
  (forall name, name ∈ names_in ps line ->
     message_key name line ∈ seen <-> name ∈ take n (names_in ps line)) ->
  match_line ps line seen =
    match names_in ps line !! n with
    | Some name => (Some {| mt_Name := name; mt_Message := line |}, {[message_key name line]} ∪ seen)
    | None => (None, seen)
    end.
Proof.
  revert n. induction ps as [|[name p] ps IH]; intros n Hnd Hs; [done|].
  unfold names_in in *. rewrite filter_cons in *. cbn [match_line]. simpl in *.
  destruct (MatchString p line) eqn:Em; [|by apply IH].
  rewrite decide_True in * by done. rewrite fmap_cons in *. apply NoDup_cons in Hnd as [Hni Hnd].
  fold (message_key name line). destruct n as [|n].
  - rewrite decide_False; [done|]. intros Hin. apply Hs in Hin; [by apply elem_of_nil in Hin|by left].
  - rewrite decide_True by (apply Hs; [by left|simpl; by left]). simpl. apply IH; [done|].
    intros name' Hin. rewrite Hs by (by right). simpl. rewrite elem_of_cons.
    split; [|by right]. intros [->|]; done.
Qed.

Definition reported (l : string) (rs : list matchResult) : list string :=
  mt_Name <$> filter (fun m => mt_Message m = l) rs.

Definition occurrences (l : string) (lines : list Text) : nat :=
  List.length (filter (fun x => str (TrimSpace x) = l) lines).

(** One more report of [l]. *)
Definition once_more (l : string) (report : string -> nat) : string -> nat :=
  fun l' => if decide (l' = l) then S (report l') else report l'.

Lemma seen_after_step report seen l name :
  seen_after report seen -> names_of l !! report l = Some name ->
  seen_after (once_more l report) ({[message_key name l]} ∪ seen).
Proof.
  intros Hs Hn l' name' Hin'. assert (name ∈ names_of l) as Hin by (by eapply list_elem_of_lookup_2).
  rewrite elem_of_union, elem_of_singleton, (Hs _ _ Hin'). unfold once_more.
  destruct (decide (l' = l)) as [->|Hl].
  - rewrite (take_S_r _ _ _ Hn), elem_of_app, list_elem_of_singleton.
    split; intros [H|H]; [|by left|by right|left; by rewrite H].
    apply message_key_inj in H as [-> _]; [by right|by eapply names_of_no_colon|by eapply names_of_no_colon].
  - split; [|tauto]. intros [H|H]; [|done].
    apply message_key_inj in H as [_ ->]; [done|by eapply names_of_no_colon|by eapply names_of_no_colon].
Qed.

Lemma str_cons_nonempty c (s : Text) : str (c :: s) <> EmptyString.
Proof. done. Qed.

Lemma match_lines_reported lines seen report l :
  l <> EmptyString -> seen_after report seen ->
  reported l (match_lines lines seen) = take (occurrences l lines) (drop (report l) (names_of l)).
Proof.
  intros Hl. revert seen report. induction lines as [|x lines IH]; intros seen report Hs; [done|].
  cbn [match_lines]. unfold occurrences. rewrite filter_cons.
  destruct (TrimSpace x) as [|c s] eqn:Ex.
  { rewrite decide_False by (simpl; congruence). by apply IH. }
  set (line := str (c :: s)).
  rewrite (match_line_nth compiledPatterns line seen (report line)).
  2:{ apply names_in_distinct, pattern_names_distinct. }
  2:{ intros name. apply Hs. }
  fold (names_of line). destruct (names_of line !! report line) as [name|] eqn:En.
  - specialize (IH _ _ (seen_after_step _ _ _ _ Hs En)). unfold reported in *. rewrite filter_cons.
    unfold once_more in IH. cbn [mt_Message]. destruct (decide (line = l)) as [<-|Hne].
    + rewrite decide_True in IH by done. rewrite fmap_cons, IH. simpl.
      rewrite (drop_S _ _ _ En). done.
    + rewrite decide_False in IH by congruence. exact IH.
  - rewrite (IH _ _ Hs). destruct (decide (line = l)) as [<-|]; [|done].
    apply lookup_ge_None in En. by rewrite (drop_ge (names_of line)), !take_nil by done.
Qed.

(** Of every line of the kernel's messages, the first occurrence is
    reported under the first pattern that matches it, the second occurrence
    under the second such pattern, and so on until none is left: a repeated
    line that matches one pattern is reported once, one that matches two is
    reported twice, under different names. *)
Theorem dmesg_reports_by_occurrence out l :
  l <> EmptyString ->
  reported l (collect_dmesg (Ok out)) =
    take (occurrences l (split_on "010"%char (text out))) (names_of l).
Proof.
  intros Hl. unfold collect_dmesg.
  rewrite (match_lines_reported _ _ (fun _ => 0%nat)); [by rewrite drop_0|done|].
  intros l' name _. rewrite take_0. set_solver.
Qed.
End dmesg.

(** ** Names of metrics *)
Section names.

Definition name_byte (c : ascii) : bool := letter_or_digit c || is_underscore c.

(** A name the Prometheus data model admits; the first byte is no digit. *)
Definition metric_name (s : Text) : bool :=
  match s with
  | [] => false
  | c :: _ => negb ((48 <=? byte c) && (byte c <=? 57)) && forallb name_byte s
  end.

Lemma metric_byte_name c d : metric_byte c = Some d -> name_byte d = true.
Proof.
  unfold metric_byte, name_byte. destruct (letter_or_digit c) eqn:E; [intros [= <-]; by rewrite E|].
  destruct (separator c); [|done]. by intros [= <-].
Qed.

Lemma drop_underscores_suffix s : exists k, drop_underscores s = drop k s.
Proof.
  induction s as [|c s [k IH]]; [by exists 0%nat|]. simpl.
  destruct (is_underscore c); [by exists (S k)|by exists 0%nat].
Qed.

Lemma drop_underscores_Forall (P : ascii -> Prop) s : Forall P s -> Forall P (drop_underscores s).
Proof. destruct (drop_underscores_suffix s) as [k ->]. apply Forall_drop. Qed.

Lemma drop_underscores_head s c s' : drop_underscores s = c :: s' -> is_underscore c = false.
Proof.
  induction s as [|d s IH]; [done|]. simpl. destruct (is_underscore d) eqn:E; [done|].
  by intros [= -> _].
Qed.

Definition trimmed (s : Text) : Text := reverse (drop_underscores (reverse (drop_underscores s))).

Lemma sanitize_text p :
  text (sanitizeMetricKey p) =
    match trimmed (omap metric_byte (text p)) with [] => text "root" | s => s end.
Proof.
  unfold sanitizeMetricKey, trimmed. destruct (reverse _); [done|].
  by rewrite list_ascii_of_string_of_list_ascii.
Qed.

Lemma sanitize_bytes p : Forall (fun c => name_byte c = true) (text (sanitizeMetricKey p)).
Proof.
  rewrite sanitize_text. destruct (trimmed _) as [|c s] eqn:E; [by repeat constructor|].
  rewrite <-E. unfold trimmed. apply Forall_reverse, drop_underscores_Forall, Forall_reverse,
    drop_underscores_Forall, Forall_forall. intros d (c' & _ & H)%list_elem_of_omap.
  by eapply metric_byte_name.
Qed.

Lemma metric_name_app p s :
  metric_name p = true -> Forall (fun c => name_byte c = true) s -> metric_name (p ++ s) = true.
Proof.
  destruct p as [|c p]; [done|]. simpl. intros [H1 H2]%andb_true_iff Hs.
  rewrite H1. simpl. apply andb_true_iff in H2 as [H2 H3]. rewrite H2, forallb_app, H3. simpl.
  apply forallb_forall. intros x Hx. by eapply Forall_forall in Hs; [|apply list_elem_of_In].
Qed.

Lemma disk_metric_name p suffix :
  forallb name_byte (text suffix) = true -> metric_name (text (disk_metric p suffix)) = true.
Proof.
  intros Hs. unfold disk_metric. rewrite !text_app. apply (metric_name_app (text "disk_")); [done|].
  apply Forall_app. split; [apply sanitize_bytes|].
  apply Forall_forall. intros c Hc. by eapply forallb_forall in Hs; [|apply list_elem_of_In].
Qed.

(** All names of a map are admitted. *)
Definition names_ok (m : Metrics) : Prop := forall k, is_Some (m !! k) -> metric_name (text k) = true.

Lemma names_ok_insert k v m : metric_name (text k) = true -> names_ok m -> names_ok (<[k := v]> m).
Proof.
  intros Hk Hm k' H. destruct (decide (k = k')) as [<-|Hne]; [done|].
  rewrite lookup_insert_ne in H by done. by apply Hm.
Qed.

Lemma names_ok_disk h ps m : names_ok m -> names_ok (foldl (collect_path h) m ps).
Proof.
  revert m. induction ps as [|p ps IH]; intros m Hm; [done|]. simpl. apply IH.
  unfold collect_path. destruct (hr_disk h p); [|done].
  repeat (apply names_ok_insert; [by apply disk_metric_name|]). done.
Qed.

(** Whatever mount points are configured - empty, of slashes only, in any
    script - and whatever parts of the collection fail, every metric of a host
    report has a name of the Prometheus data model. *)
Theorem basereport_metric_names cfg h : names_ok (basereport_metrics cfg h).
Proof.
  assert (names_ok ∅) as H0 by (intros k; rewrite lookup_empty; intros [? ?]; done).
  unfold basereport_metrics, collectNet, collectLoad, collectDisk, collectMem, collectCPU.
  repeat first
    [ exact H0
    | match goal with |- names_ok (<[_ := _]> _) => apply names_ok_insert; [reflexivity|] end
    | match goal with |- names_ok (foldl _ _ _) => apply names_ok_disk end
    | match goal with |- names_ok (match ?x with _ => _ end) => destruct x end ].
Qed.

(** Paths that differ only in what is dropped or replaced share their metrics. *)
Lemma sanitize_collides :
  sanitizeMetricKey "/" = sanitizeMetricKey "/root" /\
  sanitizeMetricKey "/var/log" = sanitizeMetricKey "/var.log".
Proof. split; vm_compute; reflexivity. Qed.
End names.

(** ** Processes *)
Section processes.
Context (Compile : string -> result (string -> bool)).
Context (sort_slice : (procInfo -> procInfo -> bool) -> list procInfo -> list procInfo).

(** The rows before sorting. *)
Definition wanted (cfg : ProcessbeatConfig) (re : option (string -> bool)) (ps : list Process)
    : list procInfo := omap (proc_row cfg re) ps.

(** If the configured expression compiles and sorting by CPU use does what
    it promises on the wanted processes - those with a wanted name and, where
    there is an expression, a matching command line - the report holds the
    configured number of them, or all, and no process left out uses more CPU
    than one reported. *)
Theorem processbeat_reports_busiest cfg ps re :
  process_regex Compile cfg = Ok re -> 0 < TopN cfg ->
  sort_slice more_cpu (wanted cfg re ps) ≡ₚ wanted cfg re ps ->
  StronglySorted (fun a b => more_cpu b a = false) (sort_slice more_cpu (wanted cfg re ps)) ->
  exists top rest,
    collect_procs Compile sort_slice cfg (Ok ps) = Ok top /\
    top ++ rest ≡ₚ wanted cfg re ps /\
    Z.of_nat (List.length top) = Z.min (TopN cfg) (Z.of_nat (List.length (wanted cfg re ps))) /\
    (forall a b, a ∈ top -> b ∈ rest -> more_cpu b a = false).
Proof.
  intros Hre Hn Hperm Hsorted. set (xs := sort_slice more_cpu (wanted cfg re ps)) in *.
  pose proof (Permutation_length Hperm) as Hlen.
  exists (take (Z.to_nat (TopN cfg)) xs), (drop (Z.to_nat (TopN cfg)) xs). split_and!.
  - unfold collect_procs. rewrite Hre. f_equal. fold (wanted cfg re ps). fold xs. unfold top_n.
    rewrite (proj2 (Z.ltb_lt 0 _) Hn). simpl. destruct (Z.ltb_spec (TopN cfg) (Z.of_nat (List.length xs)));
      [done|]. by rewrite take_ge by lia.
  - by rewrite take_drop.
  - rewrite length_take. lia.
  - intros a b Ha Hb. rewrite <-(take_drop (Z.to_nat (TopN cfg)) xs) in Hsorted.
    apply StronglySorted_app_inv in Hsorted as (_ & _ & H). by apply H.
Qed.
End processes.

(** ** Witnesses *)
Lemma dmesg_reports_by_occurrence_witness :
  let l := "sda: I/O error, page allocation failure"%string in
  let nl := String "010"%char EmptyString in
  let out := (l +:+ nl +:+ l +:+ nl +:+ l +:+ nl)%string in
  names_of l = ["disk_io_error"; "page_alloc_fail"]%string /\
  reported l (collect_dmesg (Ok out)) =
    take (occurrences l (split_on "010"%char (text out))) (names_of l).
Proof.
  cbn zeta. split; [by vm_compute|]. by apply dmesg_reports_by_occurrence.
Defined.

Definition demo_processes : ProcessbeatConfig :=
  {| processbeat_base := {| TaskID := 1; Ident := "processbeat:1"; Period := 60 * Second;
                            Timeout := 0; Enabled := true; Labels := [] |};
     ProcessNames := ["nginx"]%string; ProcessRegex := EmptyString; TopN := 1 |}.

Definition demo_process (pid : Z) (name : string) (cpu : Z) : Process :=
  {| pc_Pid := pid; pc_Name := Ok name; pc_Cmdline := Ok name; pc_CPUPercent := Ok (float_of cpu);
     pc_MemoryPercent := Err "permission denied"%string; pc_MemoryInfo := Ok (4096, 8192);
     pc_NumFDs := Ok 3; pc_NumThreads := Ok 2 |}.

(** The second nginx uses more of the CPU; bash is not wanted. *)
Definition demo_ps : list Process :=
  [demo_process 10 "nginx" 5; demo_process 11 "bash" 99; demo_process 12 "nginx" 7].

Fixpoint insert_by (less : procInfo -> procInfo -> bool) (x : procInfo) (xs : list procInfo)
    : list procInfo :=
  match xs with
  | [] => [x]
  | y :: xs' => if less y x then y :: insert_by less x xs' else x :: xs
  end.

Definition insertion_sort (less : procInfo -> procInfo -> bool) (xs : list procInfo)
    : list procInfo := foldr (insert_by less) [] xs.

Lemma processbeat_reports_busiest_witness :
  PID <$> insertion_sort more_cpu (wanted demo_processes None demo_ps) = [12; 10] /\
  exists top rest,
    collect_procs (fun _ => Err EmptyString) insertion_sort demo_processes (Ok demo_ps) = Ok top /\
    top ++ rest ≡ₚ wanted demo_processes None demo_ps /\
    Z.of_nat (List.length top) =
      Z.min (TopN demo_processes) (Z.of_nat (List.length (wanted demo_processes None demo_ps))) /\
    (forall a b, a ∈ top -> b ∈ rest -> more_cpu b a = false).
Proof.
  split; [by vm_compute|].
  apply (processbeat_reports_busiest (fun _ => Err EmptyString) insertion_sort demo_processes
    demo_ps None); [reflexivity|reflexivity| |].
  - apply perm_swap.
  - repeat constructor.
Defined.
