(* ===== verification/EventSpec.v ===== *)
(** * From the collectors through the HTTP output to the query endpoints

    The events of the collectors have the types the outputs rely on, and the
    series the query endpoints ask for are those a VictoriaMetrics body of these
    events has. *)
From Stdlib Require Import Ascii String.
From stdpp Require Import pretty.
From S2P Require Import Prelude GoTime LabelsJson GoFloat GoStrings Web Configs Ping HttpOutput HttpPublish HttpSpec VmClient QueryApi QuerySpec Events Probes Exception Collectors CollectorSpec Script Harvester Keyword.

(** ** Types *)
Section types.
Context (now : Time) (host : string) (sent : bool).

Lemma probe_event_well_typed {X} typ target id r :
  well_typed (X := X) host (BuildEvent now host typ target id r).
Proof.
  eapply well_typed_base; [unfold base_data; by simplify_map_eq..| |].
  - unfold probe_dims. by simplify_map_eq.
  - exists "duration_ms"%string. unfold probe_metrics. by simplify_map_eq.
Qed.

Lemma exception_event_well_typed {X} cost ro space cores ooms :
  well_typed (X := X) host (NewEvent now EventType (exception_data host cost ro space cores ooms)).
Proof.
  eapply well_typed_base; [unfold exception_data, base_data; by simplify_map_eq..| |].
  - by simplify_map_eq.
  - exists "oom_count"%string. by simplify_map_eq.
Qed.

(** Total and cost, and a list of the task's own. *)
Lemma list_event_well_typed {X} typ k (x : X) n cost :
  k <> "dimensions"%string -> k <> "metrics"%string ->
  well_typed host (NewEvent now typ
    (<[k := A_other x]> (base_data (hostname_dims host) (total_and_cost n cost)))).
Proof.
  intros H1 H2. eapply well_typed_base; [unfold base_data; by simplify_map_eq..| |].
  - unfold hostname_dims. by simplify_map_eq.
  - exists "total"%string. unfold total_and_cost. by simplify_map_eq.
Qed.

Lemma raw_log_event_well_typed {X} file pattern n c raw :
  well_typed (X := X) host (BuildRawLogEvent now host file pattern n c raw).
Proof.
  eapply well_typed_base; [unfold base_data; by simplify_map_eq..| |].
  - unfold raw_dims. by simplify_map_eq.
  - exists "matches_count"%string. by simplify_map_eq.
Qed.

Lemma error_event_well_typed {X} cfg e : well_typed (X := X) host (error_event now host cfg e).
Proof.
  eapply well_typed_base; [unfold base_data; by simplify_map_eq..| |].
  - unfold raw_dims. by simplify_map_eq.
  - exists "matches_count"%string. by simplify_map_eq.
Qed.

Lemma keyword_loop_well_typed {X} cfg re stop n lines :
  Forall (well_typed (X := X) host) (keyword_loop now host cfg re stop n lines).
Proof.
  revert n. induction lines as [|l lines IH]; intros n; simpl; [constructor|].
  destruct (ExtractLine l re); [|apply IH]. destruct (stop _); [constructor|].
  constructor; [apply raw_log_event_well_typed|apply IH].
Qed.

(** *** The host report *)

Definition gives_one {A} (r : result (list A)) : bool :=
  match r with Ok (_ :: _) => true | _ => false end.

(** A reading that is switched on succeeds. *)
Definition some_reading (cfg : BasereportConfig) (h : HostReadings) : bool :=
  (negb (hr_cancelled h) && gives_one (hr_cpu h (cpu_window cfg)))
  || (mem_Enabled (Mem cfg) && is_ok (hr_mem h))
  || (disk_Enabled (Configs.Disk cfg) && existsb (fun p => is_ok (hr_disk h p)) (disk_paths cfg))
  || (load_Enabled (Load cfg) && is_ok (hr_load h))
  || (net_Enabled (Configs.Net cfg) && gives_one (hr_net h)).

(** What a part of the report adds to the metrics before it. *)
Definition adds (added : bool) (m m' : gmap string float64) : Prop :=
  m' <> ∅ <-> m <> ∅ \/ added = true.

Lemma adds_none m : adds false m m.
Proof. split; [by left|]. by intros [?|?]. Qed.

Lemma adds_some k v m m0 : adds true m (<[k := v]> m0).
Proof. split; [by right|]. intros _. apply insert_non_empty. Qed.

Lemma adds_trans b c m m1 m2 : adds b m m1 -> adds c m1 m2 -> adds (b || c) m m2.
Proof. unfold adds. rewrite orb_true_iff. tauto. Qed.

Lemma collect_path_adds h m p : adds (is_ok (hr_disk h p)) m (collect_path h m p).
Proof. unfold collect_path. destruct (hr_disk h p); [apply adds_some|apply adds_none]. Qed.

Lemma collect_paths_adds h ps m :
  adds (existsb (fun p => is_ok (hr_disk h p)) ps) m (foldl (collect_path h) m ps).
Proof.
  revert m. induction ps as [|p ps IH]; intros m; [apply adds_none|].
  exact (adds_trans _ _ _ _ _ (collect_path_adds h m p) (IH _)).
Qed.

Lemma collectCPU_adds cfg h m :
  adds (negb (hr_cancelled h) && gives_one (hr_cpu h (cpu_window cfg))) m (collectCPU cfg h m).
Proof. unfold collectCPU. destruct (hr_cpu h _) as [[|p ps]|e], (hr_cancelled h); simpl; (apply adds_none || apply adds_some). Qed.

Lemma collectMem_adds cfg h m : adds (mem_Enabled (Mem cfg) && is_ok (hr_mem h)) m (collectMem cfg h m).
Proof. unfold collectMem. destruct (mem_Enabled _), (hr_mem h); simpl; (apply adds_none || apply adds_some). Qed.

Lemma collectDisk_adds cfg h m :
  adds (disk_Enabled (Configs.Disk cfg) && existsb (fun p => is_ok (hr_disk h p)) (disk_paths cfg)) m
    (collectDisk cfg h m).
Proof. unfold collectDisk. destruct (disk_Enabled _); [apply collect_paths_adds|apply adds_none]. Qed.

Lemma collectLoad_adds cfg h m : adds (load_Enabled (Load cfg) && is_ok (hr_load h)) m (collectLoad cfg h m).
Proof. unfold collectLoad. destruct (load_Enabled _), (hr_load h); simpl; (apply adds_none || apply adds_some). Qed.

Lemma collectNet_adds cfg h m :
  adds (net_Enabled (Configs.Net cfg) && gives_one (hr_net h)) m (collectNet cfg h m).
Proof. unfold collectNet. destruct (net_Enabled _), (hr_net h) as [[|c cs]|e]; simpl; (apply adds_none || apply adds_some). Qed.

Lemma basereport_metrics_adds cfg h : adds (some_reading cfg h) ∅ (basereport_metrics cfg h).
Proof.
  unfold some_reading, basereport_metrics.
  refine (adds_trans _ _ _ _ _ (adds_trans _ _ _ _ _ (adds_trans _ _ _ _ _ (adds_trans _ _ _ _ _
    (collectCPU_adds cfg h ∅) (collectMem_adds cfg h _)) (collectDisk_adds cfg h _))
    (collectLoad_adds cfg h _)) (collectNet_adds cfg h _)).
Qed.

Lemma basereport_event {X} cfg h :
  Forall (fun e => typed (X := X) e /\ names_host host e /\ (has_metrics e <-> some_reading cfg h = true))
    (basereport_run now host sent cfg h).
Proof.
  unfold basereport_run. destruct sent; [|constructor]. apply Forall_singleton.
  unfold typed, names_host, has_metrics. cbn [se_Data NewEvent]. unfold base_data. simplify_map_eq.
  split_and!; [by eexists _, _| |].
  - eexists. split; [done|]. unfold hostname_dims. by simplify_map_eq.
  - pose proof (basereport_metrics_adds cfg h) as Ha. unfold adds in Ha. split.
    + intros (ms & [= <-] & Hm). by destruct (proj1 Ha Hm).
    + intros Hs. eexists. split; [done|]. apply Ha. by right.
Qed.

(** *** Scripts and metric pages *)

(** A label of the output on top of the dimension of that name. *)
Lemma put_labels_hostname {R : MapRange} labels dims :
  dims !! "hostname"%string = Some host ->
  put_labels labels dims !! "hostname"%string = Some (default host (labels !! "hostname"%string)).
Proof.
  intros Hd. unfold put_labels. rewrite (foldl_put_range (fun s => s)), Hd.
  by destruct (labels !! _).
Qed.

(** A run emits only such events. *)
Definition all_well_typed {X} (h : string) (evs : list (SimpleEvent X)) : Prop :=
  Forall (well_typed h) evs.

Lemma script_event_well_typed {R : MapRange} {X} ParseFloat families cost run cfg :
  all_well_typed (X := X)
    (default host ((Parse ParseFloat families (script_Format cfg)
       (fst (run (script_timeout cfg) (Command cfg) (UserEnvs cfg)))).2 !! "hostname"%string))
    (script_run ParseFloat families now host cost sent run cfg).
Proof.
  unfold script_run. destruct (run _ _ _) as [out err]. cbn [fst].
  destruct (Parse _ _ _ out) as [ms labels]. apply emit_well_typed. cbn [snd].
  assert (forall d k, k <> "error"%string -> put_error (X := X) "error" err d !! k = d !! k) as Hput
    by (intros d k Hk; destruct err; [by apply lookup_insert_ne|done]).
  eapply well_typed_base.
  - rewrite Hput by done. unfold base_data. by simplify_map_eq.
  - rewrite Hput by done. unfold base_data. by simplify_map_eq.
  - apply put_labels_hostname. unfold script_dims. by simplify_map_eq.
  - exists "cost_ms"%string. by simplify_map_eq.
Qed.

Lemma metricbeat_event {R : MapRange} {X} ParseFloat families cost got cfg :
  let read := fetch ParseFloat families cfg got in
  Forall (fun e => typed (X := X) e /\
      names_host (default host (read.1.2 !! "hostname"%string)) e /\ (has_metrics e <-> read.1.1 <> ∅))
    (metricbeat_run ParseFloat families now host cost sent got cfg).
Proof.
  intros read. unfold metricbeat_run. fold read. destruct read as [[ms labels] err]. cbn [fst snd].
  destruct sent; [|constructor]. apply Forall_singleton.
  assert (forall d k, k <> "error"%string -> put_error (X := X) "error" err d !! k = d !! k) as Hput
    by (intros d k Hk; destruct err; [by apply lookup_insert_ne|done]).
  unfold typed, names_host, has_metrics. cbn [se_Data NewEvent].
  rewrite !Hput by done. unfold base_data. simplify_map_eq. split_and!.
  - by eexists _, _.
  - eexists. split; [done|]. apply put_labels_hostname. by simplify_map_eq.
  - split; [by intros (? & [= <-] & ?)|eauto].
Qed.

(** C30: every event a probe, the exception, process, socket, kernel-message,
    self-monitoring or keyword task emits - on every path, failures included -
    has dimensions and metrics of the types the outputs assert, names the host
    it was made on and has at least one metric. So has a script's, but for a
    [hostname] label in the script's output, which replaces the host. The host
    report has the types and the host, and a metric exactly if a reading that is
    switched on succeeds; a metric page's event has the types, the host or the
    page's [hostname] label, and a metric exactly if the page was fetched and
    has one. *)
Theorem collector_events_well_typed :
  (forall X tcp dial d, all_well_typed (X := X) host (tcp_run now host tcp dial d sent)) /\
  (forall X udp c, all_well_typed (X := X) host (udp_run now host udp c sent)) /\
  (forall X http c, all_well_typed (X := X) host (http_run now host http c sent)) /\
  (forall X (P : PingPatterns) icmp exec_ping d ping,
     all_well_typed (X := X) host (ping_run now host icmp exec_ping d ping sent)) /\
  (forall X Match fmt1 cfg cost s g,
     all_well_typed (X := X) host (fst (Run Match fmt1 cfg now host cost sent s g))) /\
  (forall Compile sort_slice cfg cost procs,
     all_well_typed host (processbeat_run Compile sort_slice now host cost sent cfg procs)) /\
  (forall cost connections,
     all_well_typed host (socketsnapshot_run now host cost sent connections)) /\
  (forall cost out, all_well_typed host (dmesg_run now host cost sent out)) /\
  (forall X version up g c ms,
     all_well_typed (X := X) host (selfstats_run now host version sent up g c ms)) /\
  (forall X up cfg, all_well_typed (X := X) host (gatherupbeat_run now host sent up cfg)) /\
  (forall X quote_string decoder cfg re stop d,
     all_well_typed (X := X) host (fst (keyword_run quote_string now host decoder cfg re stop d))) /\
  (forall (R : MapRange) X ParseFloat families cost run cfg,
     all_well_typed (X := X)
       (default host ((Parse ParseFloat families (script_Format cfg)
          (fst (run (script_timeout cfg) (Command cfg) (UserEnvs cfg)))).2 !! "hostname"%string))
       (script_run ParseFloat families now host cost sent run cfg)) /\
  (forall X cfg h,
     Forall (fun e => typed (X := X) e /\ names_host host e /\ (has_metrics e <-> some_reading cfg h = true))
       (basereport_run now host sent cfg h)) /\
  (forall (R : MapRange) X ParseFloat families cost got cfg,
     let read := fetch ParseFloat families cfg got in
     Forall (fun e => typed (X := X) e /\
         names_host (default host (read.1.2 !! "hostname"%string)) e /\ (has_metrics e <-> read.1.1 <> ∅))
       (metricbeat_run ParseFloat families now host cost sent got cfg)).
Proof.
  unfold all_well_typed.
  split_and!; intros.
  - apply emit_well_typed, probe_event_well_typed.
  - apply emit_well_typed, probe_event_well_typed.
  - apply emit_well_typed, probe_event_well_typed.
  - apply emit_well_typed, probe_event_well_typed.
  - unfold Run. destruct (collected _ _ _ _ _) as [[[[ro space] cores] ooms] g']. cbn [fst].
    apply emit_well_typed, exception_event_well_typed.
  - unfold processbeat_run. destruct (collect_procs _ _ _ _); [|constructor].
    by apply emit_well_typed, list_event_well_typed.
  - by apply emit_well_typed, list_event_well_typed.
  - by apply emit_well_typed, list_event_well_typed.
  - apply emit_well_typed. eapply well_typed_base; [unfold base_data; by simplify_map_eq..| |].
    + unfold hostname_dims. by simplify_map_eq.
    + exists "sys_mb"%string. unfold selfstats_metrics. by rewrite lookup_insert_eq.
  - apply emit_well_typed. eapply well_typed_base; [unfold base_data; by simplify_map_eq..| |].
    + unfold hostname_dims. by simplify_map_eq.
    + exists "uptime_sec"%string. by simplify_map_eq.
  - unfold keyword_run. destruct (open_registry cfg d) as [reg|e].
    + destruct (open_harvester _ _ _); cbn [harvest fst]; [apply keyword_loop_well_typed|].
      destruct (stop 0); [constructor|]. repeat constructor; apply error_event_well_typed.
    + cbn [fst]. destruct (stop 0); [constructor|]. repeat constructor; apply error_event_well_typed.
  - apply script_event_well_typed.
  - apply basereport_event.
  - apply metricbeat_event.
Qed.
End types.

Definition ok_of {A} (r : result A) : option A :=
  match r with Ok a => Some a | Err _ => None end.

(** ** Reading a selector

    name{label="value",...}: the name, the labels and what follows. *)
Fixpoint read_labels (fuel : nat) (s : Text) : option (list (Text * Text) * Text) :=
  match fuel with
  | O => None
  | S n =>
      '(name, v, rest) ← read_matcher s;
      match rest with
      | c :: rest' =>
          if decide (c = "}"%char) then Some ([(name, v)], rest')
          else if decide (c = ","%char) then
            '(ls, r) ← read_labels n rest'; Some ((name, v) :: ls, r)
          else None
      | [] => None
      end
  end.

Definition read_selector (s : Text) : option (Text * list (Text * Text) * Text) :=
  '(metric, s1) ← split2 "{" s;
  '(ls, r) ← read_labels (S (List.length s1)) s1;
  Some (metric, ls, r).

(** The series a selector stands for: the name and every label are equal. *)
Definition selects (sel : Text * list (Text * Text)) (line : vmMetric float64) : Prop :=
  vm_metric line !! "__name__"%string = Some (str sel.1) /\
  Forall (fun kv => vm_metric line !! str kv.1 = Some (str kv.2)) sel.2.

(** Among these lines, one is selected, and all that are carry this value. *)
Definition found (sel : Text * list (Text * Text)) (v : float64) (lines : list (vmMetric float64))
    : Prop :=
  Exists (selects sel) lines /\ Forall (fun l => selects sel l -> vm_values l = [v]) lines.

(** No line is selected. *)
Definition absent (sel : Text * list (Text * Text)) (lines : list (vmMetric float64)) : Prop :=
  Forall (fun l => ~ selects sel l) lines.

Section composition.
Context {R : MapRange} (one : float64).

(** The lines the HTTP output makes of an event, formatted for VictoriaMetrics. *)
Definition body_lines {X J} (inj : Any X -> J) (raw : Data X -> J) (e : SimpleEvent X)
    : list (vmMetric float64) :=
  match ev_data (http_event inj raw e) with
  | Some d => vm_lines one (ev_type (http_event inj raw e)) (ev_millis (http_event inj raw e))
                (metrics d) (dimensions d)
  | None => []
  end.

Lemma body_lines_of {X J} (inj : Any X -> J) raw now typ (d : Data X) dims ms :
  d !! "dimensions"%string = Some (A_strings dims) ->
  d !! "metrics"%string = Some (A_floats ms) ->
  body_lines inj raw (NewEvent now typ d) = vm_lines one typ (now / Millisecond) ms dims.
Proof. intros Hd Hm. unfold body_lines, http_event, view. simpl. by rewrite Hd, Hm. Qed.

Lemma found_in_lines typ ts ms dims name ls v :
  ms !! str name = Some v ->
  Forall (fun kv => str kv.1 <> "__name__"%string /\ dims !! str kv.1 = Some (str kv.2)) ls ->
  found (name, ls) v (vm_lines one typ ts ms dims).
Proof.
  intros Hv Hls. pose proof (vm_one_line_per_metric one typ ts ms dims) as Hp.
  rewrite decide_False in Hp by (intros ->; done).
  split.
  - apply Exists_exists. exists (vm_line dims ts (str name) v). split.
    + rewrite Hp. apply list_elem_of_fmap. exists (str name, v). split; [done|].
      by apply elem_of_map_to_list.
    + split; [by apply lookup_insert_eq|]. eapply Forall_impl; [exact Hls|]. intros kv [H1 H2].
      simpl. by rewrite lookup_insert_ne by done.
  - apply Forall_forall. intros l. rewrite Hp. intros Hl [Hn _].
    apply list_elem_of_fmap in Hl as ([k w] & -> & Hk%elem_of_map_to_list). simpl in Hn |- *.
    rewrite lookup_insert_eq in Hn. simpl. apply Some_inj in Hn. subst k. rewrite Hk in Hv. by simplify_eq.
Qed.

Lemma absent_from_lines typ ts ms dims name ls :
  ms !! str name = None -> typ <> str name -> absent (name, ls) (vm_lines one typ ts ms dims).
Proof.
  intros Hv Ht. apply Forall_forall. intros l. rewrite (vm_one_line_per_metric one typ ts ms dims).
  case_decide as Hms.
  - intros ->%list_elem_of_singleton [Hn _]. simpl in Hn. rewrite lookup_insert_eq in Hn.
    by simplify_eq.
  - intros ([k w] & -> & Hk%elem_of_map_to_list)%list_elem_of_fmap [Hn _]. simpl in Hn, Hk.
    rewrite lookup_insert_eq in Hn. apply Some_inj in Hn. subst k. by rewrite Hk in Hv.
Qed.

Lemma read_labels_last n name v rest :
  "="%char ∉ name -> line_feed ∉ v ->
  read_labels (S n) (labelMatch name v ++ "}"%char :: rest) = Some ([(name, v)], rest).
Proof. intros H1 H2. cbn [read_labels]. by rewrite (read_labelMatch _ _ _ H1 H2). Qed.

Lemma read_labels_more n name v rest :
  "="%char ∉ name -> line_feed ∉ v ->
  read_labels (S n) (labelMatch name v ++ ","%char :: rest) =
    ('(ls, r) ← read_labels n rest; Some ((name, v) :: ls, r)).
Proof. intros H1 H2. cbn [read_labels]. by rewrite (read_labelMatch _ _ _ H1 H2). Qed.

Lemma hostname_no_eq : "="%char ∉ text "hostname".
Proof. apply (bool_decide_unpack _). exact I. Qed.

Lemma read_selector_host metric host :
  "{"%char ∉ metric -> line_feed ∉ text host ->
  read_selector (selector metric (host_matcher host)) =
    Some (metric, [(text "hostname", text host)], []).
Proof.
  intros Hm Hn. unfold read_selector, selector. rewrite split2_app by done. cbn [mbind option_bind].
  unfold host_matcher. by rewrite (read_labels_last _ _ _ _ hostname_no_eq Hn).
Qed.

(** The selector inside an aggregation. *)
Definition read_avg (s : Text) : option (Text * list (Text * Text)) :=
  s' ← strip_prefix (text "avg(") s;
  '(metric, ls, r) ← read_selector s';
  if decide (r = [")"%char]) then Some (metric, ls) else None.

Abbreviation probe_kinds := ["ping"; "tcp"; "http"]%string.

(** A kind needs no escape. *)
Lemma kind_literal kind :
  kind ∈ probe_kinds ->
  text "probe_type=" ++ dquote :: text kind ++ [dquote] =
    labelMatch (text "probe_type") (text kind) /\ line_feed ∉ text kind.
Proof.
  intros H. rewrite !elem_of_cons, elem_of_nil in H.
  destruct H as [->|[->|[->|[]]]]; (split; [done|apply (bool_decide_unpack _); exact I]).
Qed.

Lemma read_probe_expr metric host kind :
  "{"%char ∉ text metric -> line_feed ∉ text host -> kind ∈ probe_kinds ->
  read_avg (probe_expr metric (host_matcher host) kind) =
    Some (text metric, [(text "hostname", text host); (text "probe_type", text kind)]).
Proof.
  intros Hm Hn [Ek Hlf]%kind_literal. rewrite probe_expr_shape, Ek.
  rewrite <- app_assoc. unfold read_avg. rewrite strip_prefix_app. cbn [mbind option_bind].
  unfold read_selector. rewrite split2_app by done. cbn [mbind option_bind].
  unfold host_matcher. rewrite <- app_comm_cons.
  rewrite (read_labels_more _ _ _ _ hostname_no_eq Hn), length_app. cbn [List.length].
  rewrite Nat.add_succ_r, (read_labels_last _ (text "probe_type") _ _); [done| |done].
  apply (bool_decide_unpack _). exact I.
Qed.

(** C20: the success and the duration of a ping, tcp or http probe are found by
    the expression the probe endpoint asks for on the probe's host: it reads as
    one selector inside an average, the body the HTTP output makes of the
    probe's event has a line it selects, and every line it selects has the
    probe's success as 1 or 0, or its duration in milliseconds. *)
Theorem probes_are_found {X J} (inj : Any X -> J) raw now host kind target id r :
  line_feed ∉ text host -> kind ∈ probe_kinds ->
  let lines := body_lines inj raw (BuildEvent now host kind target id r) in
  (exists sel, read_avg (probe_expr "success" (host_matcher host) kind) = Some sel /\
     found sel (float_of (if rs_Success r then 1 else 0)) lines) /\
  (exists sel, read_avg (probe_expr "duration_ms" (host_matcher host) kind) = Some sel /\
     found sel (DurationMillis (rs_Duration r)) lines).
Proof.
  intros Hn Hk. cbn zeta.
  assert (forall m v, probe_metrics r !! m = Some v ->
    found (text m, [(text "hostname", text host); (text "probe_type", text kind)]) v
      (body_lines inj raw (BuildEvent now host kind target id r))) as H.
  { intros m v Hv. unfold BuildEvent. erewrite body_lines_of by (unfold base_data; by simplify_map_eq).
    apply found_in_lines.
    - unfold text. rewrite String.string_of_list_ascii_of_string. done.
    - unfold text, probe_dims. repeat constructor; simpl;
        rewrite ?String.string_of_list_ascii_of_string; try done; by simplify_map_eq. }
  split; (eexists; split;
    [apply read_probe_expr; [apply (bool_decide_unpack _); exact I|done|done]|]); apply H;
    unfold probe_metrics; simplify_map_eq; by destruct (rs_Success r).
Qed.

(** ** The host report and the summary *)

(** What is shown as the root disk: the last reading that succeeded of a path
    whose name in the metrics is [root]. *)
Definition root_reading (cfg : BasereportConfig) (h : HostReadings) : option float64 :=
  di_UsedPercent <$> last (omap (fun p =>
    if decide (sanitizeMetricKey p = "root"%string) then ok_of (hr_disk h p) else None) (disk_paths cfg)).

(** What a summary shows of a host, by the readings of its report. *)
Definition summary_readings (cfg : BasereportConfig) (h : HostReadings)
    : list (string * option float64) :=
  [("cpu_usage",
    if hr_cancelled h then None
    else match hr_cpu h (cpu_window cfg) with Ok (p :: _) => Some p | _ => None end);
   ("mem_used_percent",
    if mem_Enabled (Mem cfg) then me_UsedPercent <$> ok_of (hr_mem h) else None);
   ("disk_root_used_percent",
    if disk_Enabled (Configs.Disk cfg) then root_reading cfg h else None);
   ("load1", if load_Enabled (Load cfg) then la_Load1 <$> ok_of (hr_load h) else None);
   ("net_bytes_recv",
    if net_Enabled (Configs.Net cfg) then
      c ← ok_of (hr_net h) ≫= head; Some (float_of (io_BytesRecv c)) else None);
   ("net_bytes_sent",
    if net_Enabled (Configs.Net cfg) then
      c ← ok_of (hr_net h) ≫= head; Some (float_of (io_BytesSent c)) else None)]%string.

Section lookups.
Context (cfg : BasereportConfig) (h : HostReadings).

Lemma net_other m k :
  k ∉ ["net_packets_recv"; "net_packets_sent"; "net_bytes_recv"; "net_bytes_sent"]%string ->
  collectNet cfg h m !! k = m !! k.
Proof. intros H. unfold collectNet. repeat case_match; rewrite ?lookup_insert_ne by set_solver; done. Qed.

Lemma load_other m k :
  k ∉ ["load1"; "load5"; "load15"]%string -> collectLoad cfg h m !! k = m !! k.
Proof. intros H. unfold collectLoad. repeat case_match; rewrite ?lookup_insert_ne by set_solver; done. Qed.

Lemma disk_other m k :
  String.prefix "disk_" k = false -> collectDisk cfg h m !! k = m !! k.
Proof.
  intros Hk. unfold collectDisk. destruct (negb _); [done|].
  assert (forall p suf, disk_metric p suf <> k) as Hne.
  { intros p suf <-. revert Hk. unfold disk_metric. simpl. by destruct (_ +:+ _)%string. }
  revert m. induction (disk_paths cfg) as [|p ps IH]; intros m; [done|]. cbn [foldl]. rewrite IH.
  unfold collect_path. case_match; by rewrite ?lookup_insert_ne by done.
Qed.

Lemma collect_path_root m p :
  collect_path h m p !! "disk_root_used_percent"%string =
    match (if decide (sanitizeMetricKey p = "root"%string) then ok_of (hr_disk h p) else None) with
    | Some u => Some (di_UsedPercent u)
    | None => m !! "disk_root_used_percent"%string
    end.
Proof.
  unfold collect_path. destruct (hr_disk h p) as [u|e]; [|by case_decide].
  cbn [ok_of]. case_decide as Hr.
  - unfold disk_metric. rewrite Hr. simpl. by rewrite lookup_insert_eq.
  - assert (forall suf, suf ∈ ["_used_percent"; "_used_bytes"; "_total_bytes"]%string ->
      disk_metric p suf <> "disk_root_used_percent"%string) as Hne.
    { intros suf Hs E. unfold disk_metric in E.
      apply (inj (String.append "disk_")) in E.
      apply (f_equal text) in E. rewrite text_app in E.
      change (text "root_used_percent") with (text "root" ++ text "_used_percent") in E.
      rewrite !elem_of_cons, elem_of_nil in Hs. destruct Hs as [->|[->|[->|[]]]].
      - by apply app_inv_tail, text_inj in E.
      - apply (f_equal last) in E. by rewrite !last_app in E.
      - apply (f_equal last) in E. by rewrite !last_app in E. }
    rewrite !lookup_insert_ne by (apply Hne; set_solver). done.
Qed.

Lemma collectDisk_root m :
  m !! "disk_root_used_percent"%string = None ->
  collectDisk cfg h m !! "disk_root_used_percent"%string =
    if disk_Enabled (Configs.Disk cfg) then root_reading cfg h else None.
Proof.
  intros Hm. unfold collectDisk, root_reading. destruct (disk_Enabled _); [|done]. cbn [negb].
  induction (disk_paths cfg) as [|p ps IH] using rev_ind; [done|].
  rewrite foldl_snoc, collect_path_root, omap_app. cbn [omap list_omap].
  destruct (if decide _ then _ else _); [by rewrite last_snoc|]. by rewrite app_nil_r.
Qed.

Lemma mem_other m k :
  k ∉ ["mem_used_percent"; "mem_used_bytes"; "mem_available_bytes"; "mem_total_bytes"]%string ->
  collectMem cfg h m !! k = m !! k.
Proof. intros H. unfold collectMem. repeat case_match; rewrite ?lookup_insert_ne by set_solver; done. Qed.

Lemma cpu_other m k : k <> "cpu_usage"%string -> collectCPU cfg h m !! k = m !! k.
Proof. intros H. unfold collectCPU. repeat case_match; rewrite ?lookup_insert_ne by congruence; done. Qed.

Lemma summary_lookup : Forall (fun kv => basereport_metrics cfg h !! kv.1 = kv.2) (summary_readings cfg h).
Proof.
  unfold basereport_metrics.
  assert (forall k (l : list string), bool_decide (k ∈ l) = false -> k ∉ l) as Hnot
    by (intros k l; apply bool_decide_eq_false).
  repeat constructor; cbn [fst snd].
  - rewrite net_other, load_other, disk_other, mem_other by (done || by apply Hnot).
    unfold collectCPU. repeat case_match; by simplify_map_eq.
  - rewrite net_other, load_other, disk_other by (done || by apply Hnot).
    unfold collectMem. repeat case_match; simplify_eq/=; rewrite ?cpu_other; by simplify_map_eq.
  - rewrite net_other, load_other by by apply Hnot. apply collectDisk_root.
    by rewrite mem_other, cpu_other by (done || by apply Hnot).
  - rewrite net_other by by apply Hnot.
    unfold collectLoad. repeat case_match; simplify_eq/=;
      rewrite ?disk_other, ?mem_other, ?cpu_other by (done || by apply Hnot); by simplify_map_eq.
  - unfold collectNet. repeat case_match; simplify_eq/=;
      rewrite ?load_other, ?disk_other, ?mem_other, ?cpu_other by (done || by apply Hnot);
      by simplify_map_eq.
  - unfold collectNet. repeat case_match; simplify_eq/=;
      rewrite ?load_other, ?disk_other, ?mem_other, ?cpu_other by (done || by apply Hnot);
      by simplify_map_eq.
Qed.
End lookups.

Lemma str_text s : str (text s) = s.
Proof. apply string_of_list_ascii_of_string. Qed.

Lemma summary_names_plain cfg h :
  Forall (fun kv => ("{"%char ∉ text kv.1) /\ kv.1 <> ModuleBasereport) (summary_readings cfg h).
Proof. repeat constructor; try done; apply (bool_decide_unpack _); exact I. Qed.

(** C19: the summary and the host report fit: whatever disk paths are configured,
    each of the six expressions of a summary reads as one selector, and in the
    body the HTTP output makes of the host's report its metric is found with the
    value read for it, or - where the reading failed or is switched off - no
    line is selected at all. What stands for the root disk is the last reading
    that succeeded among the paths whose name in the metrics is [root]; with
    none of them configured, no line. *)
Theorem summary_finds_basereport {X J} (inj : Any X -> J) raw now host cfg h :
  line_feed ∉ text host ->
  Forall (fun e => Forall (fun kv =>
      exists ls, read_selector (selector (text kv.1) (host_matcher host)) = Some (text kv.1, ls, []) /\
        (match kv.2 with
         | Some v => found (text kv.1, ls) v (body_lines inj raw e)
         | None => absent (text kv.1, ls) (body_lines inj raw e)
         end)) (summary_readings cfg h))
    (basereport_run now host true cfg h).
Proof.
  intros Hn. apply Forall_singleton, Forall_forall. intros [m v] Hin.
  pose proof (proj1 (Forall_forall _ _) (summary_lookup cfg h) _ Hin) as Hm.
  destruct (proj1 (Forall_forall _ _) (summary_names_plain cfg h) _ Hin) as [Hb Ht].
  cbn [fst snd] in *. eexists. split; [by apply read_selector_host|].
  erewrite body_lines_of by (unfold base_data; by simplify_map_eq).
  destruct v as [v|]; [apply found_in_lines|apply absent_from_lines]; rewrite ?str_text; try done.
  repeat constructor; simpl; [done|]. rewrite str_text. unfold hostname_dims. by simplify_map_eq.
Qed.
End composition.

(** ** Witnesses *)
Definition demo_task : BaseTaskParam :=
  {| TaskID := 1; Ident := "basereport:1"; Period := 60 * Second; Timeout := 10 * Second;
     Enabled := true; Labels := [] |}.

Definition demo_basereport : BasereportConfig :=
  {| basereport_base := demo_task; Cpu := {| InfoPeriod := 0 |}; Mem := {| mem_Enabled := true |};
     Configs.Disk := {| disk_Enabled := true; Paths := [] |}; Load := {| load_Enabled := true |};
     Configs.Net := {| net_Enabled := false |} |}.

(** The load cannot be read. *)
Definition demo_readings : HostReadings :=
  {| hr_cpu := fun _ => Ok [float_of 12]; hr_cancelled := false;
     hr_mem := Ok {| me_Total := 8192; me_Available := 4096; me_Used := 4096;
                     me_UsedPercent := float_of 50 |};
     hr_disk := fun _ => Ok {| di_Total := 100; di_Used := 93; di_UsedPercent := float_of 93 |};
     hr_load := Err "not implemented yet"%string;
     hr_net := Ok [] |}.

Lemma summary_finds_basereport_witness :
  snd <$> summary_readings demo_basereport demo_readings =
    [Some (float_of 12); Some (float_of 50); Some (float_of 93); None; None; None] /\
  Forall (fun e => Forall (fun kv =>
      exists ls, read_selector (selector (text kv.1) (host_matcher "web-1")) =
                   Some (text kv.1, ls, []) /\
        (match kv.2 with
         | Some v => found (text kv.1, ls) v
                       (body_lines (R := in_key_order) (float_of 1) (fun _ : Any unit => tt) (fun _ => tt) e)
         | None => absent (text kv.1, ls)
                     (body_lines (R := in_key_order) (float_of 1) (fun _ : Any unit => tt) (fun _ => tt) e)
         end)) (summary_readings demo_basereport demo_readings))
    (basereport_run 0 "web-1" true demo_basereport demo_readings).
Proof.
  split; [vm_compute; reflexivity|].
  apply (summary_finds_basereport (R := in_key_order) (float_of 1)).
  apply (bool_decide_unpack _). exact I.
Defined.

(** The paths of the Helm chart, and two paths that the metrics call [root]: the
    report says the disk is 93% full, the summary shows nothing, or the other
    path's figure. *)
Definition with_paths (ps : list string) : BasereportConfig :=
  {| basereport_base := demo_task; Cpu := {| InfoPeriod := 0 |}; Mem := {| mem_Enabled := true |};
     Configs.Disk := {| disk_Enabled := true; Paths := ps |}; Load := {| load_Enabled := true |};
     Configs.Net := {| net_Enabled := false |} |}.

Definition two_disks : HostReadings :=
  {| hr_cpu := fun _ => Ok []; hr_cancelled := false; hr_mem := Err EmptyString;
     hr_disk := fun p => Ok {| di_Total := 100; di_Used := 0;
       di_UsedPercent := float_of (if decide (p = "/"%string) then 93 else 10) |};
     hr_load := Err EmptyString; hr_net := Ok [] |}.

Lemma other_paths_hide_the_root_disk :
  basereport_metrics (with_paths ["/host"]) demo_readings !! "disk_host_used_percent"%string =
    Some (float_of 93) /\
  root_reading (with_paths ["/host"]) demo_readings = None /\
  root_reading (with_paths ["/"; "/root"]) two_disks = Some (float_of 10).
Proof. vm_compute. done. Qed.

Lemma probes_are_found_witness :
  let r := {| rs_Metrics := ∅; rs_Error := EmptyString; rs_Duration := 3 * Millisecond;
              rs_Success := true |} in
  let lines := body_lines (R := in_key_order) (float_of 1) (fun _ : Any unit => tt) (fun _ => tt)
                 (BuildEvent 0 "web-1" "tcp" "db:5432" 7 r) in
  (exists sel, read_avg (probe_expr "success" (host_matcher "web-1") "tcp") = Some sel /\
     found sel (float_of 1) lines) /\
  (exists sel, read_avg (probe_expr "duration_ms" (host_matcher "web-1") "tcp") = Some sel /\
     found sel (DurationMillis (3 * Millisecond)) lines).
Proof.
  apply (probes_are_found (R := in_key_order) (float_of 1) (fun _ : Any unit => tt) (fun _ => tt) 0
    "web-1" "tcp" "db:5432" 7
    {| rs_Metrics := ∅; rs_Error := EmptyString; rs_Duration := 3 * Millisecond;
       rs_Success := true |}).
  - apply (bool_decide_unpack _). exact I.
  - right. left.
Defined.
