(* ===== verification/ScriptSpec.v ===== *)
(** * What becomes of a script's output

    The lines of the custom format are read back, up to the first one that is
    too long; a number that JSON cannot hold costs the whole event; labels and
    failed scrapes as the outputs see them. *)
From Stdlib Require Import Ascii String.
From stdpp Require Import pretty.
From S2P Require Import Prelude GoTime LabelsJson FileSystem GoFloat GoStrings Configs HttpOutput HttpPublish HttpSpec Events Script EventSpec.

(** ** Printing the custom format *)

(** A line with a key and a value, or one that has none: empty, a comment or
    without an equals sign. *)
Inductive Printed :=
| P_pair (k v : Text)
| P_other (s : Text).

Definition shown_line (l : Printed) : Text :=
  match l with P_pair k v => k ++ "="%char :: v | P_other s => s end.

Definition print_lines (ls : list Printed) : Text :=
  ls ≫= (fun l => shown_line l ++ ["010"%char]).

(** Neither line has a line break, ends in a carriage return or starts as a
    comment unless it is one. *)
Definition printable (l : Printed) : Prop :=
  ("010"%char ∉ shown_line l) /\ last (shown_line l) <> Some "013"%char /\
  match l with
  | P_pair k v => head (shown_line l) <> Some "#"%char /\ ("="%char ∉ k)
  | P_other s => s = [] \/ head s = Some "#"%char \/ ("="%char ∉ s)
  end.

#[export] Instance printable_dec l : Decision (printable l).
Proof. destruct l; unfold printable; apply _. Defined.

(** The lines before the first one of 64 KiB or more. *)
Definition kept (ls : list Printed) : list Printed := take_while (fun l => fits (shown_line l)) ls.

Section custom.
Context {R : MapRange}.
Context (ParseFloat : string -> result float64).

Definition number_of (l : Printed) : option (string * float64) :=
  match l with
  | P_pair k v =>
      match ParseFloat (str (TrimSpace v)) with
      | Ok x => Some (str (TrimSpace k), x)
      | Err _ => None
      end
  | P_other _ => None
  end.

Definition word_of (l : Printed) : option (string * string) :=
  match l with
  | P_pair k v =>
      match ParseFloat (str (TrimSpace v)) with
      | Ok _ => None
      | Err _ => Some (str (TrimSpace k), str (TrimSpace v))
      end
  | P_other _ => None
  end.

(** The last line of a key wins. *)
Definition numbers (ls : list Printed) : gmap string float64 :=
  list_to_map (reverse (omap number_of ls)).
Definition words (ls : list Printed) : gmap string string :=
  list_to_map (reverse (omap word_of ls)).

Lemma split_printed ls :
  Forall printable ls ->
  split_on "010"%char (print_lines ls) = (shown_line <$> ls) ++ [[]].
Proof.
  induction 1 as [|l ls (Hl & _) _ IH]; [done|]. unfold print_lines in *. cbn [mbind list_bind].
  rewrite <- app_assoc. simpl. rewrite split_app by done. by rewrite IH.
Qed.

Lemma without_last_empty_app ps : without_last_empty (ps ++ [[]]) = ps.
Proof.
  induction ps as [|p ps IH]; [done|]. simpl. rewrite IH.
  destruct p; [|done]. by destruct ps.
Qed.

Lemma take_while_fmap {A B} (f : A -> B) p xs :
  take_while p (f <$> xs) = f <$> take_while (fun x => p (f x)) xs.
Proof.
  induction xs as [|x xs IH]; [done|]. rewrite fmap_cons. cbn [take_while].
  destruct (p (f x)); [|done]. by rewrite IH, fmap_cons.
Qed.

Lemma take_while_Forall {A} (P : A -> Prop) p (xs : list A) :
  Forall P xs -> Forall P (take_while p xs).
Proof. induction 1; simpl; [constructor|]. destruct (p x); by constructor. Qed.

Lemma kept_printable ls : Forall printable ls -> Forall printable (kept ls).
Proof. apply take_while_Forall. Qed.

Lemma scan_printed ls :
  Forall printable ls -> scan_lines (print_lines ls) = shown_line <$> kept ls.
Proof.
  intros H. unfold scan_lines. rewrite split_printed, without_last_empty_app by done.
  rewrite (take_while_fmap shown_line).
  fold (kept ls). rewrite <- list_fmap_compose. apply list_fmap_ext. intros i l Hi.
  apply kept_printable in H. eapply Forall_lookup_1 in H as (_ & Hcr & _); [|done]. unfold dropCR, compose.
  by rewrite decide_False.
Qed.

Lemma list_to_map_last {A} (kvs : list (string * A)) k v :
  list_to_map (reverse (kvs ++ [(k, v)])) = <[k := v]> (list_to_map (reverse kvs) : gmap string A).
Proof. by rewrite reverse_snoc. Qed.

Lemma add_line_printed ls l :
  printable l ->
  add_line ParseFloat (numbers ls, words ls) (shown_line l) = (numbers (ls ++ [l]), words (ls ++ [l])).
Proof.
  intros (_ & _ & Hl). unfold numbers, words. rewrite !omap_app. simpl. destruct l as [k v|s].
  - destruct Hl as [Hh Hk]. assert (split2 "=" (shown_line (P_pair k v)) = Some (k, v)) as Hs
      by by apply split2_app.
    unfold add_line. destruct (shown_line (P_pair k v)) as [|c line]; [done|]. simpl in Hh.
    rewrite decide_False by congruence. rewrite Hs. unfold number_of, word_of.
    destruct (ParseFloat _); by rewrite list_to_map_last, app_nil_r.
  - rewrite !app_nil_r. unfold add_line. destruct s as [|c s]; [done|]. simpl.
    destruct (decide (c = "#"%char)) as [|Hc]; [done|].
    destruct Hl as [?|[?|Hl]]; simplify_eq/=. apply split2_none in Hl. simpl in Hl. by rewrite Hl.
Qed.

Lemma foldl_printed ls :
  Forall printable ls ->
  foldl (add_line ParseFloat) (∅, ∅) (shown_line <$> ls) = (numbers ls, words ls).
Proof.
  induction ls as [|l ls IH] using rev_ind; [done|].
  intros [H1 H2]%Forall_app. apply Forall_cons in H2 as [H2 _].
  rewrite fmap_app, foldl_app, (IH H1). exact (add_line_printed ls l H2).
Qed.

(** C31: a script's custom output gives its numbers and words back: with any
    comments and lines without an equals sign in between, and spaces around
    keys and values, each line k=v counts as a number if v is one and as a
    label otherwise, and the last line of a key wins - but from the first line
    of 64 KiB or more on everything is lost without an error. *)
Theorem custom_output_read ls :
  Forall printable ls ->
  parseCustom ParseFloat (str (print_lines ls)) = (numbers (kept ls), words (kept ls)).
Proof.
  intros H. unfold parseCustom, text. rewrite list_ascii_of_string_of_list_ascii, scan_printed by done.
  by apply foldl_printed, kept_printable.
Qed.
End custom.

(** ** Numbers JSON cannot hold *)
Section events.
Context {R : MapRange} {J X : Type}.
Context (ParseFloat : string -> result float64).
Context (TextToMetricFamilies : string -> result (gmap string (list PromMetric))).
Context (render : float64 -> result string) (one : float64).
Context (marshal_event : Event float64 J -> result string).
Context (marshal_record : gmap string (Cell float64 J) -> result string).
Context (valid : string -> string -> bool).
Context (inj : Any X -> J) (raw : Data X -> J).

Lemma write_lines_fails ls l e :
  l ∈ ls -> marshal_metric render l = Err e -> exists e', write_lines render ls = Err e'.
Proof.
  intros Hin He. induction ls as [|k ls IH]; [by apply elem_of_nil in Hin|].
  apply elem_of_cons in Hin as [<-|Hin]; simpl; [rewrite He; eauto|].
  destruct (IH Hin) as [e' ->]. destruct (marshal_metric render k); eauto.
Qed.

Lemma body_fails typ ts ms dims k v e :
  ms !! k = Some v -> render v = Err e ->
  exists e', write_lines render (vm_lines one typ ts ms dims) = Err e'.
Proof.
  intros Hk He. eapply (write_lines_fails _ (vm_line dims ts k v) e).
  - rewrite vm_one_line_per_metric, decide_False by (intros ->; done).
    apply list_elem_of_fmap. exists (k, v). split; [done|]. by apply elem_of_map_to_list.
  - unfold marshal_metric, vm_line. simpl. by rewrite He.
Qed.

(** C32: one number that JSON cannot hold - nan and inf are numbers to the
    parser - costs a script's whole event: no other metric of the run is sent
    and nothing is kept in the fallback file; the HTTP output answers with an
    error and leaves the server and the file system as they were. *)
Theorem unprintable_number_loses_event run cfg ls k x e now host cost sent h w :
  Forall printable ls -> script_Format cfg <> "prometheus"%string ->
  fst (run (script_timeout cfg) (Command cfg) (UserEnvs cfg)) = str (print_lines ls) ->
  numbers ParseFloat (kept ls) !! k = Some x -> render x = Err e -> k <> "cost_ms"%string ->
  ho_Format (h_cfg h) = "victoriametrics"%string -> closed h = false ->
  Forall (fun ev => exists e',
      Publish render one marshal_event marshal_record valid (http_event inj raw ev) h w =
        (Err ("http output format: " +:+ e')%string, h, w))
    (script_run ParseFloat TextToMetricFamilies now host cost sent run cfg).
Proof.
  intros Hls Hf Hrun Hk He Hne Hh Hc. unfold script_run.
  destruct (run _ _ _) as [stdout execErr]. simpl in Hrun. subst stdout.
  unfold Parse. rewrite decide_False by done. unfold parseCustom, text.
  rewrite list_ascii_of_string_of_list_ascii, scan_printed, foldl_printed
    by (done || by apply kept_printable).
  destruct sent; [|constructor]. apply Forall_singleton. unfold Publish. rewrite Hc.
  unfold formatBody. rewrite decide_True by done. unfold formatVictoriaMetrics.
  cbn [http_event ev_data]. edestruct (body_fails) as [e' E]; [|exact He|].
  2:{ unfold NewEvent. cbn [ev_type ev_millis se_Data view metrics dimensions].
      erewrite E. by exists e'. }
  assert (forall d, put_error (X := X) "error" execErr d !! "metrics"%string = d !! "metrics"%string)
    as -> by (intros d; destruct execErr; simpl; by simplify_map_eq).
  unfold base_data. rewrite lookup_insert_eq. simpl. by rewrite lookup_insert_ne.
Qed.

(** ** Labels *)

Lemma put_labels_lookup labels dims k :
  put_labels labels dims !! k = match labels !! k with Some v => Some v | None => dims !! k end.
Proof. exact (foldl_put_range (fun v => v) k labels dims). Qed.

(** The dimensions of a script's event are the labels of its output over
    the task's own, so a line hostname=other in the output files the whole
    event under another host. *)
Theorem script_labels_win run cfg out err now host cost sent :
  run (script_timeout cfg) (Command cfg) (UserEnvs cfg) = (out, err) ->
  let labels := snd (Parse ParseFloat TextToMetricFamilies (script_Format cfg) out) in
  Forall (fun ev : SimpleEvent X => forall k,
      strings_of (se_Data ev !! "dimensions"%string) !! k =
        match labels !! k with Some v => Some v | None => script_dims cfg host !! k end)
    (script_run ParseFloat TextToMetricFamilies now host cost sent run cfg).
Proof.
  intros Hrun. cbn zeta. unfold script_run. rewrite Hrun.
  destruct (Parse _ _ _ _) as [ms labels]. destruct sent; [|constructor].
  apply Forall_singleton. intros k. rewrite <- put_labels_lookup. simpl.
  f_equal. destruct err; unfold base_data; simpl; by simplify_map_eq.
Qed.

(** A metric page that cannot be fetched is not silent: the body has
    exactly one line, metricbeat_event of the host with the value one - the
    same line a fetched page without any metric gives. *)
Theorem failed_scrape_reports_one got cfg now host cost :
  (exists e, (fetch ParseFloat TextToMetricFamilies cfg got).2 = Some e) \/
  (exists body, got = F_body body /\ Parse ParseFloat TextToMetricFamilies (mb_Format cfg) body = (∅, ∅)) ->
  body_lines one inj raw <$> metricbeat_run ParseFloat TextToMetricFamilies now host cost true got cfg =
    [[vm_line {["hostname" := host]} (now / Millisecond) "metricbeat_event" one]].
Proof.
  intros H. assert ((fetch ParseFloat TextToMetricFamilies cfg got).1 = (∅, ∅)) as Hf.
  { destruct H as [[e He]|[body [-> Hb]]]; [|by simpl; rewrite Hb]. by destruct got. }
  unfold metricbeat_run. destruct (fetch _ _ _ _) as [[ms labels] err]. simpl in Hf. simplify_eq.
  cbn [emit fmap list_fmap]. f_equal.
  rewrite (body_lines_of _ _ _ _ _ _ {["hostname" := host]} ∅).
  - apply Permutation_length_1_inv. by rewrite (vm_one_line_per_metric one).
  - assert (put_labels ∅ {["hostname" := host]} = {["hostname" := host]}) as ->
      by (unfold put_labels; by rewrite range_empty).
    destruct err; unfold base_data; simpl; by simplify_map_eq.
  - destruct err; unfold base_data; simpl; by simplify_map_eq.
Qed.
End events.

(** ** Witnesses *)

(** A comment, two numbers, the first of them not finite, and a label. *)
Definition demo_lines : list Printed :=
  [P_other (text "# queue"); P_pair (text "ratio ") (text " nan"); P_pair (text "depth") (text "3");
   P_other []; P_pair (text "hostname") (text "db-2")].

Definition demo_ParseFloat (s : string) : result float64 :=
  if decide (s = "nan"%string) then Ok SpecFloat.S754_nan
  else if decide (s = "3"%string) then Ok (float_of 3)
  else Err "invalid syntax"%string.

Definition demo_script : ScriptConfig :=
  {| script_base := demo_task; Command := "/opt/queue.sh"; script_Format := "custom";
     UserEnvs := ∅ |}.

Definition demo_exec (_ : Duration) (_ : string) (_ : gmap string string)
    : string * option error := (str (print_lines demo_lines), None).

Lemma demo_printable : Forall printable demo_lines.
Proof. apply (bool_decide_unpack _). vm_compute. exact I. Qed.

Lemma custom_output_read_witness :
  numbers demo_ParseFloat (kept demo_lines) = {["ratio" := SpecFloat.S754_nan; "depth" := float_of 3]}%string /\
  parseCustom demo_ParseFloat (str (print_lines demo_lines)) =
    (numbers demo_ParseFloat (kept demo_lines), words demo_ParseFloat (kept demo_lines)).
Proof.
  split; [by vm_compute|]. apply custom_output_read. exact demo_printable.
Defined.

Lemma script_labels_win_witness :
  Forall (fun ev : SimpleEvent unit => forall k,
      strings_of (se_Data ev !! "dimensions"%string) !! k =
        match words demo_ParseFloat demo_lines !! k with
        | Some v => Some v
        | None => script_dims demo_script "web-1" !! k
        end)
    (script_run (R := in_key_order) demo_ParseFloat (fun _ => Ok ∅) 0 "web-1" 12 true demo_exec demo_script) /\
  words demo_ParseFloat demo_lines !! "hostname"%string = Some "db-2"%string.
Proof.
  split; [|by vm_compute].
  exact (script_labels_win (R := in_key_order) (X := unit) demo_ParseFloat (fun _ => Ok ∅) demo_exec
    demo_script _ None 0 "web-1" 12 true eq_refl).
Defined.

(** A server that takes everything, an open output with a fallback file. *)
Definition demo_world : World :=
  {| wd_fs := on_files demo_files;
     wd_net := {| n_answer := fun _ => Ok 204; n_done := fun _ => false; n_sent := [];
                  n_slept := [] |} |}.

Definition demo_render (x : float64) : result string :=
  match x with
  | SpecFloat.S754_nan | SpecFloat.S754_infinity _ => Err "json: unsupported value"%string
  | _ => Ok "1"%string
  end.

Lemma unprintable_number_loses_event_witness :
  Forall (fun ev => exists e',
      Publish (R := in_key_order) demo_render (float_of 1) (fun _ => Ok EmptyString)
        (fun _ => Ok EmptyString) (fun _ _ => true)
        (http_event (fun _ : Any unit => tt) (fun _ => tt) ev) demo_fallback demo_world =
        (Err ("http output format: " +:+ e')%string, demo_fallback, demo_world))
    (script_run (R := in_key_order) demo_ParseFloat (fun _ => Ok ∅) 0 "web-1" 12 true demo_exec
       demo_script).
Proof.
  apply (unprintable_number_loses_event (R := in_key_order) demo_ParseFloat (fun _ => Ok ∅) demo_render
    (float_of 1) (fun _ => Ok EmptyString) (fun _ => Ok EmptyString) (fun _ _ => true)
    (fun _ : Any unit => tt) (fun _ => tt) demo_exec demo_script demo_lines "ratio"%string
    SpecFloat.S754_nan "json: unsupported value"%string); try done. exact demo_printable.
Defined.

Lemma failed_scrape_reports_one_witness :
  body_lines (R := in_key_order) (float_of 1) (fun _ : Any unit => tt) (fun _ => tt) <$>
    metricbeat_run (R := in_key_order) demo_ParseFloat (fun _ => Ok ∅) 0 "web-1" 3 true
      (F_get "connection refused")
      {| metricbeat_base := demo_task; mb_URL := "http://db:9100/metrics"; mb_Format := "prometheus" |} =
    [[vm_line {["hostname" := "web-1"]}%string 0 "metricbeat_event" (float_of 1)]].
Proof.
  apply (failed_scrape_reports_one (R := in_key_order) demo_ParseFloat (fun _ => Ok ∅) (float_of 1)
    (fun _ : Any unit => tt) (fun _ => tt)).
  left. by eexists.
Defined.
