(* ===== verification/JsonSpec.v ===== *)
(** * JSON is read back (encoding/json)

    Every rendering of a value - its tokens with any white space in between - is
    read as that value, and [Marshal] and [MarshalIndent] write such renderings: strings of valid
    UTF-8, integer literals, nesting within the limit. *)
From Stdlib Require Import Ascii String.
From stdpp Require Import pretty.
From S2P Require Import Prelude LabelsJson GoStrings Json.

(** ** Strings *)

(** The sequences [utf8.DecodeRune] accepts. *)
Fixpoint valid_utf8 (s : Text) : bool :=
  match s with
  | [] => true
  | a :: s1 =>
      if byte a <? 128 then valid_utf8 s1 else
      match s1 with
      | b :: s2 =>
          if seq2 a b then valid_utf8 s2 else
          match s2 with
          | c :: s3 =>
              if seq3 a b c then valid_utf8 s3 else
              match s3 with
              | d :: s4 => if seq4 a b c d then valid_utf8 s4 else false
              | [] => false
              end
          | [] => false
          end
      | [] => false
      end
  end.

(** What [escape] makes of an ASCII character, in the shapes of [read_str]. *)
Definition escape_is_read (c : ascii) : bool :=
  match escape c with
  | [d] => (32 <=? byte d) && (byte d <? 128) && negb (byte d =? 34) && negb (byte d =? 92)
           && bool_decide (d = c)
  | [b; e] => negb (byte b =? 34) && (byte b =? 92) && negb (byte e =? 117)
              && bool_decide (simple_escape e = Some c)
  | [b; u; h1; h2; h3; h4] =>
      negb (byte b =? 34) && (byte b =? 92) && (byte u =? 117)
      && match hex4_any h1 h2 h3 h4 with
         | Some r => negb (surrogate r) && bool_decide (utf8 r = [c])
         | None => false
         end
  | _ => false
  end.

Lemma escape_read c : byte c < 128 -> escape_is_read c = true.
Proof. destruct c as [[] [] [] [] [] [] [] []]; vm_compute; by intros ?. Qed.

Lemma read_escape c s : byte c < 128 -> read_str (escape c ++ s) = prepend [c] (read_str s).
Proof.
  intros H%escape_read. unfold escape_is_read in H.
  destruct (escape c) as [|d [|e [|h1 [|h2 [|h3 [|h4 [|]]]]]]]; try done;
    rewrite ?andb_true_iff, ?negb_true_iff, ?bool_decide_eq_true in H; simpl.
  - destruct H as ((((H1 & H2) & Hq) & Hb) & ->). apply Z.leb_le in H1.
    by rewrite Hq, Hb, (proj2 (Z.ltb_ge _ _) H1), H2.
  - destruct H as (((Hq & ->) & Hu) & ->). by rewrite Hq, Hu.
  - destruct H as (((Hq & ->) & ->) & Hx). rewrite Hq.
    destruct (hex4_any h1 h2 h3 h4) as [r|]; [|done].
    rewrite andb_true_iff, negb_true_iff, bool_decide_eq_true in Hx. destruct Hx as [-> ->]. done.
Qed.

Lemma byte_range c : 0 <= byte c < 256.
Proof. unfold byte. pose proof (N_ascii_bounded c). lia. Qed.

Lemma byte_eq c n : byte c = n -> c = chr n.
Proof. intros <-. unfold byte, chr. by rewrite N2Z.id, ascii_N_embedding. Qed.

(** A byte that begins a multi-byte sequence is copied with it. *)
Lemma high_byte {A} c (quote_ esc low ascii_ other : A) :
  128 <= byte c ->
  (if byte c =? 34 then quote_ else if byte c =? 92 then esc else if byte c <? 32 then low
   else if byte c <? 128 then ascii_ else other) = other.
Proof. intros H. repeat case_match; try done; rewrite ?Z.eqb_eq, ?Z.ltb_lt in *; lia. Qed.

Lemma read_seq2 a b s :
  128 <= byte a -> seq2 a b = true -> read_str (a :: b :: s) = prepend [a; b] (read_str s).
Proof. intros H E. cbn [read_str]. rewrite high_byte by done. by rewrite E. Qed.

Lemma read_seq3 a b c s :
  128 <= byte a -> seq2 a b = false -> seq3 a b c = true ->
  read_str (a :: b :: c :: s) = prepend [a; b; c] (read_str s).
Proof. intros H E2 E. cbn [read_str]. rewrite high_byte by done. by rewrite E2, E. Qed.

Lemma read_seq4 a b c d s :
  128 <= byte a -> seq2 a b = false -> seq3 a b c = false -> seq4 a b c d = true ->
  read_str (a :: b :: c :: d :: s) = prepend [a; b; c; d] (read_str s).
Proof. intros H E2 E3 E. cbn [read_str]. rewrite high_byte by done. by rewrite E2, E3, E. Qed.

Lemma read_line_sep a b c s :
  line_sep a b c = true ->
  read_str (u_escape "2" "0" "2" (hex_digit (Z.land (byte c) 15)) ++ s) =
    prepend [a; b; c] (read_str s).
Proof.
  unfold line_sep. rewrite !andb_true_iff, orb_true_iff, !Z.eqb_eq. intros [[Ha Hb] Hc].
  apply byte_eq in Ha as ->. apply byte_eq in Hb as ->.
  destruct Hc as [->%byte_eq| ->%byte_eq]; reflexivity.
Qed.

Lemma prepend_Some p v r : prepend p (Some (v, r)) = Some (p ++ v, r).
Proof. done. Qed.

(** A string of valid UTF-8 is read back. *)
Lemma read_quote s rest :
  valid_utf8 s = true -> read_str (quote_body s ++ dquote :: rest) = Some (s, rest).
Proof.
  remember (List.length s) as n eqn:Hn. revert s Hn.
  induction n as [n IH] using lt_wf_ind. intros s -> Hv.
  assert (forall t, (List.length t < List.length s)%nat -> valid_utf8 t = true ->
    read_str (quote_body t ++ dquote :: rest) = Some (t, rest)) as Hrec by (intros; by eapply IH).
  clear IH. destruct s as [|a s1]; [reflexivity|]. cbn [valid_utf8 quote_body] in *.
  destruct (Z.ltb_spec (byte a) 128) as [Ha|Ha].
  { rewrite <- app_assoc, read_escape, Hrec by (done || simpl; lia). done. }
  destruct s1 as [|b s2]; [done|]. destruct (seq2 a b) eqn:E2.
  { rewrite <- !app_comm_cons, read_seq2, Hrec by (done || simpl; lia). done. }
  destruct s2 as [|c s3]; [done|]. destruct (seq3 a b c) eqn:E3.
  { destruct (line_sep a b c) eqn:El.
    - rewrite <- app_assoc, (read_line_sep a b c), Hrec by (done || simpl; lia). done.
    - rewrite <- !app_comm_cons, read_seq3, Hrec by (done || simpl; lia). done. }
  destruct s3 as [|d s4]; [done|]. destruct (seq4 a b c d) eqn:E4; [|done].
  rewrite <- !app_comm_cons, read_seq4, Hrec by (done || simpl; lia). done.
Qed.

(** ** Numbers *)

(** What cannot continue a number. *)
Definition stops (s : Text) : bool :=
  match s with
  | [] => true
  | c :: _ => negb (is_digit c) && negb (byte c =? 46) && negb (byte c =? 101) && negb (byte c =? 69)
  end.

Definition number_start (l : Text) : bool :=
  match l with c :: _ => is_digit c || (byte c =? 45) | [] => false end.

Definition number_ok (l : Text) : Prop :=
  number_start l = true /\ forall rest, stops rest = true -> read_number (l ++ rest) = Some (l, rest).

Lemma read_digits_app d rest :
  Forall (fun c => is_digit c = true) d -> stops rest = true -> read_digits (d ++ rest) = (d, rest).
Proof.
  intros Hd Hr. induction Hd as [|c d Hc _ IH]; simpl.
  - destruct rest as [|c r]; [done|]. simpl in *. by destruct (is_digit c).
  - by rewrite Hc, IH.
Qed.

Lemma stops_after rest : stops rest = true ->
  read_frac rest = Some ([], rest) /\ read_exp rest = Some ([], rest).
Proof.
  intros H. destruct rest as [|c r]; [done|]. simpl in *.
  rewrite !andb_true_iff, !negb_true_iff in H. destruct H as (((_ & ->) & ->) & ->). done.
Qed.

(** A digit sequence without a leading zero, or zero itself; possibly negative. *)
Definition int_digits (l : Text) : Prop :=
  Forall (fun c => is_digit c = true) l /\
  match l with
  | [] => False
  | [_] => True
  | c :: _ => byte c <> 48
  end.

Lemma read_int_digits l rest :
  int_digits l -> stops rest = true -> read_int (l ++ rest) = Some (l, rest).
Proof.
  intros [Hd Hl] Hr. destruct l as [|c l]; [done|]. cbn [app read_int].
  destruct (Z.eqb_spec (byte c) 48) as [E|E].
  - destruct l as [|c' l]; [done|]. done.
  - unfold some_digits. by rewrite app_comm_cons, read_digits_app.
Qed.

Lemma digit_not_minus c : is_digit c = true -> (byte c =? 45) = false.
Proof. unfold is_digit. rewrite andb_true_iff, !Z.leb_le. intros ?. apply Z.eqb_neq. lia. Qed.

Lemma nonneg_number l : int_digits l -> number_ok l.
Proof.
  intros H. pose proof H as [Hd Hl]. destruct l as [|c l]; [done|].
  apply Forall_cons in Hd as [Hc Hd]. split; [simpl; by rewrite Hc|]. intros rest Hr.
  unfold read_number. cbn [app]. rewrite digit_not_minus by done.
  rewrite app_comm_cons, read_int_digits by done. cbn [mbind option_bind].
  destruct (stops_after rest Hr) as [-> Hex]. cbn [mbind option_bind]. rewrite Hex.
  cbn [mbind option_bind]. by rewrite !app_nil_r.
Qed.

Lemma neg_number l : int_digits l -> number_ok ("-"%char :: l).
Proof.
  intros H. split; [done|]. intros rest Hr. unfold read_number. cbn [app].
  change (byte "-" =? 45) with true. cbn match. rewrite read_int_digits by done. cbn [mbind option_bind].
  destruct (stops_after rest Hr) as [-> Hex]. cbn [mbind option_bind]. rewrite Hex.
  cbn [mbind option_bind]. by rewrite !app_nil_r.
Qed.

(** *** Decimal text *)
Definition dvalue (acc : Z) (l : Text) : Z := foldl (fun a c => a * 10 + (byte c - 48)) acc l.

Lemma digit_char (n : N) : (n < 10)%N ->
  is_digit (pretty_N_char n) = true /\ byte (pretty_N_char n) = 48 + Z.of_N n.
Proof.
  intros H.
  assert (Forall (fun n => is_digit (pretty_N_char n) = true /\ byte (pretty_N_char n) = 48 + Z.of_N n)
    ([0; 1; 2; 3; 4; 5; 6; 7; 8; 9]%N)) as Hall by (repeat constructor).
  rewrite Forall_forall in Hall. apply Hall. rewrite !elem_of_cons. lia.
Qed.

Lemma pretty_N_go_digits x s : exists l,
  text (pretty_N_go x s) = l ++ text s /\ Forall (fun c => is_digit c = true) l /\
  (forall acc, dvalue acc l = acc * 10 ^ Z.of_nat (List.length l) + Z.of_N x) /\
  (x = 0%N -> l = []) /\
  ((0 < x)%N -> match l with [] => False | c :: _ => byte c <> 48 end).
Proof.
  revert s. induction (N.lt_wf_0 x) as [x _ IH]. intros s.
  destruct (decide (0 < x)%N) as [Hx|Hx].
  2: { assert (x = 0%N) as -> by lia. exists []. rewrite pretty_N_go_0.
       split_and!; [done|constructor| |done|lia]. intros acc. unfold dvalue. simpl. lia. }
  rewrite pretty_N_go_step by done.
  destruct (IH (x `div` 10)%N ltac:(apply N.div_lt; lia) (String (pretty_N_char (x `mod` 10)) s))
    as (l & Hl & Hd & Hv & H0 & Hz).
  destruct (digit_char (x `mod` 10)%N) as [Hdig Hbyte]; [apply N.mod_lt; lia|].
  assert (x = 10 * (x `div` 10) + x `mod` 10)%N as Hdm by (apply N.div_mod; lia).
  exists (l ++ [pretty_N_char (x `mod` 10)]). split_and!.
  - rewrite Hl. simpl. by rewrite <- app_assoc.
  - apply Forall_app. by repeat constructor.
  - intros acc. unfold dvalue in *. rewrite foldl_app, Hv. cbn [foldl]. rewrite Hbyte, length_app.
    cbn [List.length]. rewrite Nat2Z.inj_add, Z.pow_add_r by lia. change (10 ^ Z.of_nat 1) with 10. lia.
  - lia.
  - intros _. destruct (decide (0 < x `div` 10)%N) as [H|H].
    + specialize (Hz H). by destruct l.
    + assert (x `div` 10 = 0)%N as Hq by (by apply N.le_0_r, N.nlt_ge). rewrite H0 by exact Hq. rewrite Hq in Hdm. simpl. rewrite Hbyte. lia.
Qed.

Lemma pretty_N_digits (n : N) :
  int_digits (text (pretty n)) /\ forall acc, exists k, dvalue acc (text (pretty n)) = acc * k + Z.of_N n.
Proof.
  unfold pretty, pretty_N. case_decide as E.
  - subst n. split; [by repeat constructor|]. intros acc. exists 10. unfold dvalue. simpl.
    change (byte "0") with 48. lia.
  - destruct (pretty_N_go_digits n "") as (l & Hl & Hd & Hv & _ & Hz). simpl in Hl.
    rewrite app_nil_r in Hl. rewrite Hl. specialize (Hz ltac:(lia)). split.
    + split; [done|]. destruct l as [|c [|c' l]]; done.
    + intros acc. eexists. apply Hv.
Qed.

Lemma text_append a b : text (a +:+ b) = text a ++ text b.
Proof. induction a as [|c a IH]; [done|]. simpl. by rewrite IH. Qed.

(** An integer's text is a JSON number. *)
Lemma pretty_number_ok (z : Z) : number_ok (text (pretty z)).
Proof.
  destruct z as [|p|p]; unfold pretty, pretty_Z; cbn match.
  - apply nonneg_number. by repeat constructor.
  - apply nonneg_number. apply pretty_N_digits.
  - change (text ("-" +:+ pretty (Npos p))) with ("-"%char :: text (pretty (Npos p))).
    apply neg_number. apply pretty_N_digits.
Qed.

(** ** Renderings *)
Definition blank (w : Text) : Prop := Forall (fun c => is_ws c = true) w.

Inductive renders : Z -> json -> Text -> Prop :=
| rn_null d : renders d J_null lit_null
| rn_bool d b : renders d (J_bool b) (if b then lit_true else lit_false)
| rn_num d l : number_ok l -> renders d (J_num l) l
| rn_str d s : valid_utf8 s = true -> renders d (J_str s) (quote_text s)
| rn_arr0 d w : d < max_depth -> blank w -> renders d (J_arr []) ("["%char :: w ++ ["]"%char])
| rn_arr d xs s : d < max_depth -> renders_elems (d + 1) xs s ->
    renders d (J_arr xs) ("["%char :: s ++ ["]"%char])
| rn_obj0 d w : d < max_depth -> blank w -> renders d (J_obj []) ("{"%char :: w ++ ["}"%char])
| rn_obj d kvs s : d < max_depth -> renders_members (d + 1) kvs s ->
    renders d (J_obj kvs) ("{"%char :: s ++ ["}"%char])
with renders_elems : Z -> list json -> Text -> Prop :=
| re_one d x sx w1 w2 : blank w1 -> blank w2 -> renders d x sx ->
    renders_elems d [x] (w1 ++ sx ++ w2)
| re_cons d x xs sx s w1 w2 : blank w1 -> blank w2 -> renders d x sx -> renders_elems d xs s ->
    renders_elems d (x :: xs) (w1 ++ sx ++ w2 ++ ","%char :: s)
with renders_members : Z -> list (Text * json) -> Text -> Prop :=
| rm_one d k x sx w1 w2 w3 w4 : blank w1 -> blank w2 -> blank w3 -> blank w4 ->
    valid_utf8 k = true -> renders d x sx ->
    renders_members d [(k, x)] (w1 ++ quote_text k ++ w2 ++ ":"%char :: w3 ++ sx ++ w4)
| rm_cons d k x kvs sx s w1 w2 w3 w4 : blank w1 -> blank w2 -> blank w3 -> blank w4 ->
    valid_utf8 k = true -> renders d x sx -> renders_members d kvs s ->
    renders_members d ((k, x) :: kvs) (w1 ++ quote_text k ++ w2 ++ ":"%char :: w3 ++ sx ++ w4 ++ ","%char :: s).

Scheme renders_ind2 := Induction for renders Sort Prop
  with renders_elems_ind2 := Induction for renders_elems Sort Prop
  with renders_members_ind2 := Induction for renders_members Sort Prop.
Combined Scheme renders_mutind from renders_ind2, renders_elems_ind2, renders_members_ind2.

Lemma skip_blank w s : blank w -> skip_ws (w ++ s) = skip_ws s.
Proof. induction 1 as [|c w Hc _ IH]; [done|]. simpl. by rewrite Hc. Qed.

Lemma skip_char c s : is_ws c = false -> skip_ws (c :: s) = c :: s.
Proof. intros H. simpl. by rewrite H. Qed.

Lemma blank_stops w c s : blank w -> stops (c :: s) = true -> stops (w ++ c :: s) = true.
Proof.
  intros Hw Hs. destruct Hw as [|a w Ha _]; [done|]. unfold is_ws in Ha. cbn [app stops].
  rewrite !orb_true_iff, !Z.eqb_eq in Ha. unfold is_digit.
  destruct Ha as [[[-> | ->] | ->] | ->]; reflexivity.
Qed.

(** The first character of a rendering is not white space. *)
Definition starts (s : Text) : bool := match s with c :: _ => negb (is_ws c) | [] => false end.

Lemma number_not_ws l : number_start l = true -> starts l = true.
Proof.
  destruct l as [|c l]; [done|]. simpl. unfold is_digit, is_ws.
  rewrite orb_true_iff, andb_true_iff, !Z.leb_le, Z.eqb_eq. intros H.
  apply negb_true_iff. repeat (apply orb_false_iff; split); apply Z.eqb_neq; lia.
Qed.

Lemma renders_starts d v s : renders d v s -> starts s = true.
Proof. destruct 1 as [|? []|? ? [H _]| | | | |]; try done. by apply number_not_ws. Qed.

Lemma skip_start w s : blank w -> starts s = true -> skip_ws (w ++ s) = s.
Proof.
  intros Hw Hs. rewrite skip_blank by done. destruct s as [|c s]; [done|]. simpl in Hs.
  apply skip_char. by apply negb_true_iff.
Qed.

Lemma starts_app s t : starts s = true -> starts (s ++ t) = true.
Proof. by destruct s. Qed.

(** The first character tells a number from the other values. *)
Lemma number_dispatch {A} c l (obj arr str : A) (other : A) :
  number_start (c :: l) = true ->
  (if byte c =? 123 then obj else if byte c =? 91 then arr else if byte c =? 34 then str else other) = other.
Proof.
  simpl. unfold is_digit. rewrite orb_true_iff, andb_true_iff, !Z.leb_le, Z.eqb_eq. intros H.
  repeat case_match; try done; rewrite ?Z.eqb_eq in *; lia.
Qed.

Lemma number_no_literal c l a p : number_start (c :: l) = true -> is_digit a = false -> byte a <> 45 ->
  strip_prefix (a :: p) (c :: l) = None.
Proof.
  intros Hn Ha Hm. cbn [strip_prefix]. rewrite decide_False; [done|]. intros ->.
  simpl in Hn. rewrite Ha in Hn. simpl in Hn. by apply Z.eqb_eq in Hn.
Qed.

Section reading.

Lemma quote_text_app k r : quote_text k ++ r = dquote :: (quote_body k ++ dquote :: r).
Proof. unfold quote_text. simpl. by rewrite <- app_assoc. Qed.

Lemma quote_text_starts k : starts (quote_text k) = true.
Proof. done. Qed.

(** One element and what follows it. *)
Definition value_reads (d : Z) (v : json) (s : Text) : Prop :=
  forall n w rest, blank w -> stops rest = true -> (2 * List.length s + 2 <= n)%nat ->
    parse_value n d (w ++ s ++ rest) = Some (v, rest).

Definition elems_read (d : Z) (xs : list json) (s : Text) : Prop :=
  (forall r, exists c t, skip_ws (s ++ r) = c :: t /\ byte c <> 93) /\
  forall n rest, (2 * List.length s + 3 <= n)%nat ->
    parse_elems n d (s ++ "]"%char :: rest) = Some (xs, rest).

Definition members_read (d : Z) (kvs : list (Text * json)) (s : Text) : Prop :=
  (forall r, exists t, skip_ws (s ++ r) = dquote :: t) /\
  forall n rest, (2 * List.length s + 3 <= n)%nat ->
    parse_members n d (s ++ "}"%char :: rest) = Some (kvs, rest).

(** A rendering does not begin with a closing bracket. *)
Lemma renders_not_bracket d v s : renders d v s -> match s with c :: _ => byte c <> 93 | [] => False end.
Proof.
  destruct 1 as [|? []|? l [H _]| | | | |]; try (by vm_compute).
  destruct l as [|c l]; [done|]. simpl in H. unfold is_digit in H.
  rewrite orb_true_iff, andb_true_iff, !Z.leb_le, Z.eqb_eq in H. lia.
Qed.

Lemma read_number_value d l n w rest :
  number_ok l -> blank w -> stops rest = true -> (0 < n)%nat ->
  parse_value n d (w ++ l ++ rest) = Some (J_num l, rest).
Proof.
  intros [Hs Hr] Hw Hst Hn. destruct n as [|n]; [lia|]. cbn [parse_value].
  rewrite skip_start by (done || by apply starts_app, number_not_ws).
  specialize (Hr rest Hst). destruct l as [|c l]; [done|]. cbn [app].
  rewrite (number_dispatch c l) by done. unfold lit_null, lit_true, lit_false.
  assert (forall a p, is_digit a = false -> byte a <> 45 -> strip_prefix (a :: p) (c :: (l ++ rest)) = None) as Hl
    by (intros; by apply number_no_literal).
  cbn [list_ascii_of_string]. rewrite !Hl by done. cbn [app] in Hr. rewrite Hr. done.
Qed.

Lemma first_of_elems w sx t r d x : blank w -> renders d x sx ->
  exists c t', skip_ws ((w ++ sx ++ t) ++ r) = c :: t' /\ byte c <> 93.
Proof.
  intros Hw Hx. rewrite <- !app_assoc, skip_start;
    [|done|by apply starts_app; eapply renders_starts].
  pose proof (renders_not_bracket _ _ _ Hx). destruct sx as [|c sx]; [done|]. by eexists _, _.
Qed.

Lemma parse_elems_one n d x sx w1 w2 rest :
  value_reads d x sx -> blank w1 -> blank w2 -> (2 * List.length sx + 3 <= n)%nat ->
  parse_elems n d ((w1 ++ sx ++ w2) ++ "]"%char :: rest) = Some ([x], rest).
Proof.
  intros Hx H1 H2 Hn. destruct n as [|n]; [lia|]. cbn [parse_elems].
  rewrite <- !app_assoc, Hx by (done || lia || by apply blank_stops). cbn [mbind option_bind].
  rewrite skip_start by done. reflexivity.
Qed.

Lemma parse_elems_cons n d x xs sx s w1 w2 rest :
  value_reads d x sx -> elems_read d xs s -> blank w1 -> blank w2 ->
  (2 * List.length (w1 ++ sx ++ w2 ++ ","%char :: s) + 3 <= n)%nat ->
  parse_elems n d ((w1 ++ sx ++ w2 ++ ","%char :: s) ++ "]"%char :: rest) = Some (x :: xs, rest).
Proof.
  intros Hx [_ Hs] H1 H2 Hn. rewrite !length_app in Hn. simpl in Hn.
  destruct n as [|n]; [lia|]. cbn [parse_elems].
  rewrite <- !app_assoc, Hx by (done || lia || by apply blank_stops). cbn [mbind option_bind].
  rewrite <- app_comm_cons, skip_start by done. change (byte "," =? 44) with true. cbn match.
  rewrite Hs by lia. done.
Qed.

(** A member up to its value. *)
Lemma parse_member n d k x sx w1 w2 w3 rest :
  value_reads d x sx -> blank w1 -> blank w2 -> blank w3 -> valid_utf8 k = true ->
  stops rest = true -> (2 * List.length sx + 2 <= n)%nat ->
  parse_members (S n) d (w1 ++ quote_text k ++ w2 ++ ":"%char :: w3 ++ sx ++ rest) =
    match skip_ws rest with
    | c :: r => if byte c =? 44 then '(kvs, r) ← parse_members n d r; Some ((k, x) :: kvs, r)
                else if byte c =? 125 then Some ([(k, x)], r) else None
    | [] => None
    end.
Proof.
  intros Hx H1 H2 H3 Hk Hst Hn. cbn [parse_members].
  rewrite skip_start by done. rewrite quote_text_app. change (byte dquote =? 34) with true. cbn match.
  rewrite read_quote by done. cbn [mbind option_bind].
  rewrite skip_start by done. change (byte ":" =? 58) with true. cbn match.
  rewrite Hx by done. reflexivity.
Qed.

Lemma first_of_members w k t r : blank w -> exists t', skip_ws ((w ++ quote_text k ++ t) ++ r) = dquote :: t'.
Proof. intros Hw. rewrite <- !app_assoc, skip_start by done. by eexists. Qed.

Lemma parse_members_one n d k x sx w1 w2 w3 w4 rest :
  value_reads d x sx -> blank w1 -> blank w2 -> blank w3 -> blank w4 -> valid_utf8 k = true ->
  (2 * List.length sx + 3 <= n)%nat ->
  parse_members n d ((w1 ++ quote_text k ++ w2 ++ ":"%char :: w3 ++ sx ++ w4) ++ "}"%char :: rest) =
    Some ([(k, x)], rest).
Proof.
  intros Hx H1 H2 H3 H4 Hk Hn. destruct n as [|n]; [lia|].
  repeat (rewrite <- !app_assoc || rewrite <- app_comm_cons).
  rewrite (parse_member n d k x sx) by (done || lia || by apply blank_stops). by rewrite skip_start.
Qed.

Lemma parse_members_cons n d k x kvs sx s w1 w2 w3 w4 rest :
  value_reads d x sx -> members_read d kvs s ->
  blank w1 -> blank w2 -> blank w3 -> blank w4 -> valid_utf8 k = true ->
  (2 * List.length (w1 ++ quote_text k ++ w2 ++ ":"%char :: w3 ++ sx ++ w4 ++ ","%char :: s) + 3 <= n)%nat ->
  parse_members n d
    ((w1 ++ quote_text k ++ w2 ++ ":"%char :: w3 ++ sx ++ w4 ++ ","%char :: s) ++ "}"%char :: rest) =
    Some ((k, x) :: kvs, rest).
Proof.
  intros Hx [_ Hs] H1 H2 H3 H4 Hk Hn.
  repeat (rewrite length_app in Hn || simpl List.length in Hn). destruct n as [|n]; [lia|].
  repeat (rewrite <- !app_assoc || rewrite <- app_comm_cons).
  rewrite (parse_member n d k x sx) by (done || lia || by apply blank_stops). rewrite skip_start by done.
  change (byte "," =? 44) with true. cbn match. rewrite Hs by lia. done.
Qed.

(** Every rendering is read as the value it renders. *)
Lemma renders_read :
  (forall d v s, renders d v s -> value_reads d v s) /\
  (forall d xs s, renders_elems d xs s -> elems_read d xs s) /\
  (forall d kvs s, renders_members d kvs s -> members_read d kvs s).
Proof.
  apply renders_mutind.
  - intros d n w rest Hw Hst Hn. destruct n as [|n]; [lia|]. cbn [parse_value].
    rewrite skip_start by done. reflexivity.
  - intros d b n w rest Hw Hst Hn. destruct n as [|n]; [lia|]. cbn [parse_value].
    rewrite skip_start by (done || by destruct b). by destruct b.
  - intros d l Hl n w rest Hw Hst Hn. apply read_number_value; done || lia.
  - intros d s Hs n w rest Hw Hst Hn. destruct n as [|n]; [lia|]. cbn [parse_value].
    rewrite skip_start by done. rewrite quote_text_app. cbv beta iota zeta.
    change (byte dquote =? 123) with false. change (byte dquote =? 91) with false.
    change (byte dquote =? 34) with true. cbn match. by rewrite read_quote.
  - intros d w0 Hd Hb n w rest Hw Hst Hn. destruct n as [|n]; [lia|]. cbn [parse_value].
    rewrite skip_start by done. cbn [app]. change (byte "[" =? 123) with false.
    change (byte "[" =? 91) with true. cbn match. rewrite (proj2 (Z.leb_gt _ _) Hd).
    rewrite <- app_assoc, skip_start by done. reflexivity.
  - intros d xs s Hd _ [Hf Hs] n w rest Hw Hst Hn. destruct n as [|n]; [lia|]. cbn [parse_value].
    rewrite skip_start by done. cbn [app]. change (byte "[" =? 123) with false.
    change (byte "[" =? 91) with true. cbn match. rewrite (proj2 (Z.leb_gt _ _) Hd).
    rewrite <- app_assoc. destruct (Hf ("]"%char :: rest)) as (c & t & Hc & H93). cbn [app].
    rewrite Hc, (proj2 (Z.eqb_neq _ _) H93). simpl in Hn. rewrite length_app in Hn. simpl in Hn.
    rewrite Hs by lia. done.
  - intros d w0 Hd Hb n w rest Hw Hst Hn. destruct n as [|n]; [lia|]. cbn [parse_value].
    rewrite skip_start by done. cbn [app]. change (byte "{" =? 123) with true. cbn match.
    rewrite (proj2 (Z.leb_gt _ _) Hd), <- app_assoc, skip_start by done. reflexivity.
  - intros d kvs s Hd _ [Hf Hs] n w rest Hw Hst Hn. destruct n as [|n]; [lia|]. cbn [parse_value].
    rewrite skip_start by done. cbn [app]. change (byte "{" =? 123) with true. cbn match.
    rewrite (proj2 (Z.leb_gt _ _) Hd), <- app_assoc. destruct (Hf ("}"%char :: rest)) as (t & Hc). cbn [app].
    rewrite Hc. change (byte dquote =? 125) with false. cbn match.
    simpl in Hn. rewrite length_app in Hn. simpl in Hn. rewrite Hs by lia. done.
  - intros d x sx w1 w2 H1 H2 Hx IH. split; [intros r; exact (first_of_elems w1 sx w2 r d x H1 Hx)|].
    intros n rest Hn. rewrite !length_app in Hn. apply parse_elems_one; done || lia.
  - intros d x xs sx s w1 w2 H1 H2 Hx IH _ IHs. split; [intros r; exact (first_of_elems w1 sx _ r d x H1 Hx)|].
    intros n rest Hn. by apply parse_elems_cons.
  - intros d k x sx w1 w2 w3 w4 H1 H2 H3 H4 Hk Hx IH. split; [intros r; exact (first_of_members w1 k _ r H1)|].
    intros n rest Hn. repeat (rewrite length_app in Hn || simpl List.length in Hn).
    apply parse_members_one; done || lia.
  - intros d k x kvs sx s w1 w2 w3 w4 H1 H2 H3 H4 Hk Hx IH _ IHs.
    split; [intros r; exact (first_of_members w1 k _ r H1)|]. intros n rest Hn. by apply parse_members_cons.
Qed.
End reading.

(** White space before, anything that cannot continue the value behind. *)
Lemma parse_rendered v s w rest :
  renders 0 v s -> blank w -> stops rest = true -> parse (w ++ s ++ rest) = Some (v, rest).
Proof.
  intros H Hw Hst. unfold parse. apply (proj1 renders_read _ _ _ H); [done|done|].
  rewrite !length_app. lia.
Qed.

(** ** What [Marshal] and [MarshalIndent] write *)
Section printing.
Context (gap : nat -> Text) (sp : Text).
Context (gap_blank : forall n, blank (gap n)) (sp_blank : blank sp).

(** [v], printed at depth [n], is a rendering. *)
Definition prints (n : nat) (v : json) : Prop := renders (Z.of_nat n) v (print_with gap sp n v).

Lemma prints_elems n xs pre post :
  blank pre -> blank post -> xs <> [] -> Forall (prints (S n)) xs ->
  renders_elems (Z.of_nat n + 1) xs (elems_with (print_with gap sp (S n)) pre post xs).
Proof using Type.
  intros Hpre Hpost Hne Hx. induction Hx as [|x xs Hx Hxs IH]; [done|].
  unfold prints in Hx. rewrite Nat2Z.inj_succ in Hx. unfold Z.succ in Hx.
  destruct xs as [|y xs]; [by constructor|].
  change (elems_with ?f pre post (x :: y :: xs)) with
    (pre ++ f x ++ ([] ++ ","%char :: elems_with f pre post (y :: xs))).
  constructor; [done|constructor|done|by apply IH].
Qed.

Lemma prints_members n kvs pre post :
  blank pre -> blank post -> kvs <> [] ->
  Forall (fun kx => valid_utf8 kx.1 = true /\ prints (S n) kx.2) kvs ->
  renders_members (Z.of_nat n + 1) kvs (members_with sp (print_with gap sp (S n)) pre post kvs).
Proof using sp_blank.
  intros Hpre Hpost Hne Hx. induction Hx as [|[k x] kvs [Hk Hx] Hkvs IH]; [done|]. simpl in Hk, Hx.
  unfold prints in Hx. rewrite Nat2Z.inj_succ in Hx. unfold Z.succ in Hx.
  destruct kvs as [|y kvs].
  - change (members_with sp ?f pre post [(k, x)]) with
      (pre ++ quote_text k ++ ([] ++ ":"%char :: sp ++ f x ++ post)).
    constructor; try done. constructor.
  - change (members_with sp ?f pre post ((k, x) :: y :: kvs)) with
      (pre ++ quote_text k ++ ([] ++ ":"%char :: sp ++ f x ++ ([] ++ ","%char :: members_with sp f pre post (y :: kvs)))).
    constructor; try done; [constructor|constructor|by apply IH].
Qed.

Lemma prints_arr n xs : Z.of_nat n < max_depth -> Forall (prints (S n)) xs -> prints n (J_arr xs).
Proof using gap_blank.
  intros Hd Hx. unfold prints. cbn [print_with]. destruct xs as [|x xs].
  - apply (rn_arr0 _ []); [done|constructor].
  - constructor; [done|]. by apply prints_elems.
Qed.

Lemma prints_obj n kvs : Z.of_nat n < max_depth ->
  Forall (fun kx => valid_utf8 kx.1 = true /\ prints (S n) kx.2) kvs -> prints n (J_obj kvs).
Proof using gap_blank sp_blank.
  intros Hd Hx. unfold prints. cbn [print_with]. destruct kvs as [|x kvs].
  - apply (rn_obj0 _ []); [done|constructor].
  - constructor; [done|]. by apply prints_members.
Qed.

Lemma prints_str n s : valid_utf8 s = true -> prints n (J_str s).
Proof using Type. by constructor. Qed.

Lemma prints_int n (z : Z) : prints n (J_num (text (pretty z))).
Proof using Type. constructor. apply pretty_number_ok. Qed.

Lemma prints_null n : prints n J_null.
Proof using Type. constructor. Qed.
End printing.

Create HintDb json.
#[export] Hint Resolve prints_arr prints_obj prints_str prints_int prints_null : json.

Lemma nothing_blank : blank [].
Proof. constructor. Qed.

Lemma indent_blank n : blank ("010"%char :: repeat " "%char (2 * n)).
Proof. constructor; [done|]. apply Forall_forall. intros c Hc%list_elem_of_In%repeat_spec. by subst. Qed.

(** A decoder reads what was marshalled, whatever follows that cannot continue
    it; [Unmarshal] reads the whole text. *)
Lemma decode_Marshal v rest :
  prints (fun _ => []) [] 0 v -> stops rest = true -> decode_first (Marshal v ++ rest) = Some v.
Proof.
  intros H Hr. pose proof (parse_rendered v _ [] rest H nothing_blank Hr) as E.
  unfold decode_first, Marshal. cbn [app] in E. by rewrite E.
Qed.

Lemma unmarshal_MarshalIndent v :
  prints (fun n => "010"%char :: repeat " "%char (2 * n)) [" "%char] 0 v ->
  unmarshal (MarshalIndent v) = Some v.
Proof.
  intros H. pose proof (parse_rendered v _ [] [] H nothing_blank eq_refl) as E.
  unfold unmarshal, MarshalIndent. rewrite app_nil_r in E. cbn [app] in E. by rewrite E.
Qed.

(** ** The reader's fuel is enough *)

Lemma prepend_rest p o v r : prepend p o = Some (v, r) -> exists v', o = Some (v', r).
Proof. destruct o as [[v' r']|]; [|done]. simpl. intros [= <- <-]. by exists v'. Qed.

Lemma read_str_shorter s v r : read_str s = Some (v, r) -> (List.length r < List.length s)%nat.
Proof.
  remember (List.length s) as n eqn:Hn. revert s v Hn.
  induction n as [n IH] using lt_wf_ind. intros s v ->.
  assert (forall p s' v, (List.length s' < List.length s)%nat ->
    prepend p (read_str s') = Some (v, r) -> (List.length r < List.length s)%nat) as Hrec.
  { intros p s' v' Hl [v0 E]%prepend_rest. specialize (IH _ Hl s' v0 eq_refl E). lia. }
  clear IH. destruct s as [|c s1]; [done|]. cbn [read_str].
  repeat case_match; try done; subst; first [intros [= <- <-]; simpl; lia|apply Hrec; simpl; lia].
Qed.

Lemma read_digits_length s d r : read_digits s = (d, r) ->
  (List.length d + List.length r = List.length s)%nat.
Proof.
  revert d r. induction s as [|c s IH]; intros d r; simpl; [by intros [= <- <-]|].
  case_match; [|by intros [= <- <-]]. destruct (read_digits s) as [d' r'] eqn:E.
  intros [= <- <-]. simpl. by rewrite (IH _ _ eq_refl).
Qed.

Lemma some_digits_shorter s d r : some_digits s = Some (d, r) -> (List.length r < List.length s)%nat.
Proof.
  unfold some_digits. destruct (read_digits s) as [d' r'] eqn:E. apply read_digits_length in E.
  destruct d' as [|c d']; [done|]. intros [= <- <-]. simpl in E. lia.
Qed.

Ltac digits_shorter :=
  repeat match goal with
  | |- context [some_digits ?s] =>
      let E := fresh in destruct (some_digits s) as [[? ?]|] eqn:E; [apply some_digits_shorter in E|]
  end; cbn [mbind option_bind]; intros; simplify_eq/=; lia.

Lemma read_int_shorter s d r : read_int s = Some (d, r) -> (List.length r < List.length s)%nat.
Proof.
  destruct s as [|c s]; [done|]. cbn [read_int]. case_match; [intros [= <- <-]; simpl; lia|].
  apply some_digits_shorter.
Qed.

Lemma read_frac_shorter s d r : read_frac s = Some (d, r) -> (List.length r <= List.length s)%nat.
Proof. destruct s as [|c s]; [by intros [= <- <-]|]. cbn [read_frac]. case_match; digits_shorter. Qed.

Lemma read_exp_shorter s d r : read_exp s = Some (d, r) -> (List.length r <= List.length s)%nat.
Proof.
  destruct s as [|c s]; [by intros [= <- <-]|]. cbn [read_exp]. repeat case_match; digits_shorter.
Qed.

Lemma read_number_shorter s l r : read_number s = Some (l, r) -> (List.length r < List.length s)%nat.
Proof.
  unfold read_number.
  assert (exists sg s', (match s with c :: s' => if byte c =? 45 then ([c], s') else ([], s)
    | [] => ([], []) end) = (sg, s') /\ (List.length s' <= List.length s)%nat) as (sg & s' & -> & Hs).
  { destruct s as [|c s]; [by eexists _, _|]. case_match; eexists _, _; (split; [reflexivity|]); simpl; lia. }
  destruct (read_int s') as [[i s1]|] eqn:E1; [|done]. cbn [mbind option_bind].
  destruct (read_frac s1) as [[f s2]|] eqn:E2; [|done]. cbn [mbind option_bind].
  destruct (read_exp s2) as [[e s3]|] eqn:E3; [|done]. cbn [mbind option_bind].
  apply read_int_shorter in E1. apply read_frac_shorter in E2. apply read_exp_shorter in E3.
  intros [= <- <-]. lia.
Qed.

Lemma skip_ws_shorter s : (List.length (skip_ws s) <= List.length s)%nat.
Proof. induction s as [|c s IH]; [done|]. simpl. case_match; simpl; lia. Qed.

Lemma skip_ws_cons s c r : skip_ws s = c :: r -> (List.length r < List.length s)%nat.
Proof. intros E. pose proof (skip_ws_shorter s) as H. rewrite E in H. simpl in H. lia. Qed.

Lemma strip_prefix_shorter p s r : strip_prefix p s = Some r ->
  (List.length r + List.length p = List.length s)%nat.
Proof.
  revert s. induction p as [|a p IH]; intros s; simpl; [intros [= <-]; lia|].
  destruct s as [|b s]; [done|]. case_decide; [|done]. intros E%IH. simpl. lia.
Qed.

(** What follows a value is shorter than the text it was read from. *)
Ltac rest_shorter := repeat match goal with
  | H : skip_ws _ = _ :: _ |- _ => apply skip_ws_cons in H
  | H : read_str _ = Some _ |- _ => apply read_str_shorter in H
  | H : read_number _ = Some _ |- _ => apply read_number_shorter in H
  | H : strip_prefix _ _ = Some _ |- _ => apply strip_prefix_shorter in H
  end; simpl List.length in *; try lia.

Ltac step_reader := repeat match goal with
  | H : Some _ = Some _ |- _ => injection H as ? ?; subst
  | H : None = Some _ |- _ => discriminate H
  | H : context [match ?x with _ => _ end] |- _ => destruct x eqn:?
  | H : ((_ ← ?o; _) = Some _) |- _ => destruct o as [[? ?]|] eqn:?; cbn [mbind option_bind] in H
  end.

Lemma read_shorter n :
  (forall d s v r, parse_value n d s = Some (v, r) -> (List.length r < List.length s)%nat) /\
  (forall d s v r, parse_elems n d s = Some (v, r) -> (List.length r < List.length s)%nat) /\
  (forall d s v r, parse_members n d s = Some (v, r) -> (List.length r < List.length s)%nat).
Proof.
  induction n as [|n (IHv & IHe & IHm)]; [done|]. split_and!; intros d s v r H.
  - cbn [parse_value] in H. step_reader;
    repeat match goal with
    | H : parse_elems _ _ _ = Some _ |- _ => apply IHe in H
    | H : parse_members _ _ _ = Some _ |- _ => apply IHm in H
    end; rest_shorter.
  - cbn [parse_elems] in H. step_reader;
    repeat match goal with
    | H : parse_value _ _ _ = Some _ |- _ => apply IHv in H
    | H : parse_elems _ _ _ = Some _ |- _ => apply IHe in H
    end; rest_shorter.
  - cbn [parse_members] in H. step_reader;
    repeat match goal with
    | H : parse_value _ _ _ = Some _ |- _ => apply IHv in H
    | H : parse_members _ _ _ = Some _ |- _ => apply IHm in H
    end; rest_shorter.
Qed.

Lemma value_shorter n d s v r : parse_value n d s = Some (v, r) -> (List.length r < List.length s)%nat.
Proof. apply read_shorter. Qed.

(** More fuel than [parse] provides changes nothing, for any text: a refusal is
    never for want of fuel. *)
Lemma read_enough n : forall m,
  (forall d s, (2 * List.length s + 2 <= n)%nat -> (2 * List.length s + 2 <= m)%nat ->
     parse_value n d s = parse_value m d s) /\
  (forall d s, (2 * List.length s + 3 <= n)%nat -> (2 * List.length s + 3 <= m)%nat ->
     parse_elems n d s = parse_elems m d s) /\
  (forall d s, (2 * List.length s + 3 <= n)%nat -> (2 * List.length s + 3 <= m)%nat ->
     parse_members n d s = parse_members m d s).
Proof.
  induction n as [|n IH]; intros m; [split_and!; intros; lia|].
  destruct m as [|m]; [split_and!; intros; lia|]. destruct (IH m) as (IHv & IHe & IHm).
  split_and!; intros d s Hn Hm.
  - cbn [parse_value]. destruct (skip_ws s) as [|c r] eqn:E; [done|]. apply skip_ws_cons in E.
    by rewrite IHm, IHe by lia.
  - cbn [parse_elems]. rewrite (IHv d s) by lia.
    destruct (parse_value m d s) as [[x r]|] eqn:Ev; [|done]. cbn [mbind option_bind].
    apply value_shorter in Ev. destruct (skip_ws r) as [|c r'] eqn:Er; [done|].
    apply skip_ws_cons in Er. by rewrite (IHe d r') by lia.
  - cbn [parse_members]. destruct (skip_ws s) as [|q r] eqn:E; [done|]. apply skip_ws_cons in E.
    case_match; [|done]. destruct (read_str r) as [[k r1]|] eqn:Ek; [|done]. cbn [mbind option_bind].
    apply read_str_shorter in Ek. destruct (skip_ws r1) as [|c r2] eqn:E1; [done|].
    apply skip_ws_cons in E1. case_match; [|done]. rewrite (IHv d r2) by lia.
    destruct (parse_value m d r2) as [[x r3]|] eqn:Ev; [|done]. cbn [mbind option_bind].
    apply value_shorter in Ev. destruct (skip_ws r3) as [|c' r4] eqn:E3; [done|].
    apply skip_ws_cons in E3. by rewrite (IHm d r4) by lia.
Qed.

Lemma parse_enough n s : (2 * List.length s + 2 <= n)%nat -> parse_value n 0 s = parse s.
Proof. intros H. by apply read_enough. Qed.
