(* ===== verification/Bodies.v ===== *)
(** * The JSON bodies the program reads and writes

    Go's decoding of a JSON value into a struct - members matched by name
    without regard to case, unknown ones ignored, null leaving a field as it is -
    and with it the bodies of requests: an agent's heartbeat, as the sender
    writes it and the registry's handler reads it, a rule, an acknowledgement, a
    test query; and the file of the offset registry. An error's text is an
    argument of the handlers; here it is only that there is one. *)
From Stdlib Require Import Ascii String.
From stdpp Require Import pretty.
From S2P Require Import Prelude GoTime LabelsJson Harvester HarvesterSpec GoStrings Json JsonSpec Web AlertStore AlertsApi AgentRegistry.

(** ** Decoding into Go values; [old] is what the variable held *)

(** [foldName]: letters in one case; the two other characters that fold to
    letters of ASCII are U+017F and U+212A. *)
Definition lower_char (c : ascii) : ascii :=
  if (65 <=? byte c) && (byte c <=? 90) then chr (byte c + 32) else c.

Fixpoint fold_name (s : Text) : Text :=
  match s with
  | [] => []
  | a :: s1 =>
      match s1 with
      | b :: s2 =>
          if (byte a =? 197) && (byte b =? 191) then "s"%char :: fold_name s2 else
          match s2 with
          | c :: s3 =>
              if (byte a =? 226) && (byte b =? 132) && (byte c =? 170) then "k"%char :: fold_name s3
              else lower_char a :: fold_name s1
          | [] => lower_char a :: fold_name s1
          end
      | [] => [lower_char a]
      end
  end.

Definition into_string (old : string) (v : json) : option string :=
  match v with J_str s => Some (str s) | J_null => Some old | _ => None end.

Definition into_bool_ptr (v : json) : option (option bool) :=
  match v with J_bool b => Some (Some b) | J_null => Some None | _ => None end.

Definition into_bool (old : bool) (v : json) : option bool :=
  match v with J_bool b => Some b | J_null => Some old | _ => None end.

(** [strconv.ParseInt(lit, 10, 64)], [strconv.ParseUint]: no fraction, no exponent. *)
Definition int_literal (l : Text) : option Z :=
  let '(neg, ds) := match l with c :: ds => if byte c =? 45 then (true, ds) else (false, l) | [] => (false, []) end in
  n ← digits 0 ds;
  let z := if neg then - n else n in
  if (- 2 ^ 63 <=? z) && (z <=? 2 ^ 63 - 1) then Some z else None.

Definition uint_literal (l : Text) : option N :=
  n ← digits 0 l; if n <=? 2 ^ 64 - 1 then Some (Z.to_N n) else None.

Definition into_int64 (old : Z) (v : json) : option Z :=
  match v with J_num l => int_literal l | J_null => Some old | _ => None end.

Definition into_uint64 (old : N) (v : json) : option N :=
  match v with J_num l => uint_literal l | J_null => Some old | _ => None end.

(** Elements are decoded over those already there. *)
Fixpoint strings_over (old : list string) (xs : list json) : option (list string) :=
  match xs with
  | [] => Some []
  | x :: xs' =>
      s ← into_string (default EmptyString (head old)) x;
      ss ← strings_over (tail old) xs'; Some (s :: ss)
  end.

Definition into_strings (old : option (list string)) (v : json) : option (option (list string)) :=
  match v with
  | J_arr xs => Some <$> strings_over (default [] old) xs
  | J_null => Some None
  | _ => None
  end.

(** A struct: its fields' names, each with what a member does to the struct. *)
Record Field (S : Type) := { fld_name : string; fld_set : json -> S -> option S }.
Arguments Build_Field {S} _ _.
Arguments fld_name {S} _.
Arguments fld_set {S} _ _ _.

Section structs.
Context {S : Type} (fields : list (Field S)).

Definition field_of (k : Text) : option (Field S) :=
  head (filter (fun f => fold_name (text (fld_name f)) = fold_name k) fields).

Definition set_member (s : option S) (kv : Text * json) : option S :=
  s ← s; match field_of kv.1 with Some f => fld_set f kv.2 s | None => Some s end.

Definition into_struct (zero : S) (v : json) : option S :=
  match v with J_obj kvs => foldl set_member (Some zero) kvs | J_null => Some zero | _ => None end.
End structs.

(** ** The heartbeat (tasks/registry/models.go, web/registry/models.go) *)
Definition set_hostname (v : json) (i : AgentInfo) : option AgentInfo :=
  s ← into_string (Hostname i) v;
  Some {| Hostname := s; Version := Version i; Tasks := Tasks i; IP := IP i; K8sNode := K8sNode i;
          StartTime := StartTime i; LastSeen := LastSeen i; Online := Online i |}.
Definition set_version (v : json) (i : AgentInfo) : option AgentInfo :=
  s ← into_string (Version i) v;
  Some {| Hostname := Hostname i; Version := s; Tasks := Tasks i; IP := IP i; K8sNode := K8sNode i;
          StartTime := StartTime i; LastSeen := LastSeen i; Online := Online i |}.
Definition set_tasks (v : json) (i : AgentInfo) : option AgentInfo :=
  ts ← into_strings (Tasks i) v;
  Some {| Hostname := Hostname i; Version := Version i; Tasks := ts; IP := IP i; K8sNode := K8sNode i;
          StartTime := StartTime i; LastSeen := LastSeen i; Online := Online i |}.
Definition set_ip (v : json) (i : AgentInfo) : option AgentInfo :=
  s ← into_string (IP i) v;
  Some {| Hostname := Hostname i; Version := Version i; Tasks := Tasks i; IP := s; K8sNode := K8sNode i;
          StartTime := StartTime i; LastSeen := LastSeen i; Online := Online i |}.
Definition set_k8s_node (v : json) (i : AgentInfo) : option AgentInfo :=
  s ← into_string (K8sNode i) v;
  Some {| Hostname := Hostname i; Version := Version i; Tasks := Tasks i; IP := IP i; K8sNode := s;
          StartTime := StartTime i; LastSeen := LastSeen i; Online := Online i |}.
Definition set_start_time (v : json) (i : AgentInfo) : option AgentInfo :=
  z ← into_int64 (StartTime i) v;
  Some {| Hostname := Hostname i; Version := Version i; Tasks := Tasks i; IP := IP i; K8sNode := K8sNode i;
          StartTime := z; LastSeen := LastSeen i; Online := Online i |}.
Definition set_last_seen (v : json) (i : AgentInfo) : option AgentInfo :=
  z ← into_int64 (LastSeen i) v;
  Some {| Hostname := Hostname i; Version := Version i; Tasks := Tasks i; IP := IP i; K8sNode := K8sNode i;
          StartTime := StartTime i; LastSeen := z; Online := Online i |}.
Definition set_online (v : json) (i : AgentInfo) : option AgentInfo :=
  b ← into_bool (Online i) v;
  Some {| Hostname := Hostname i; Version := Version i; Tasks := Tasks i; IP := IP i; K8sNode := K8sNode i;
          StartTime := StartTime i; LastSeen := LastSeen i; Online := b |}.

Definition agent_fields : list (Field AgentInfo) :=
  [Build_Field "hostname" set_hostname; Build_Field "version" set_version; Build_Field "tasks" set_tasks;
   Build_Field "ip" set_ip; Build_Field "k8s_node" set_k8s_node; Build_Field "start_time" set_start_time;
   Build_Field "last_seen" set_last_seen; Build_Field "online" set_online].

Definition zero_agent : AgentInfo :=
  {| Hostname := EmptyString; Version := EmptyString; Tasks := None; IP := EmptyString;
     K8sNode := EmptyString; StartTime := 0; LastSeen := 0; Online := false |}.

(** What [Decode] makes of a body; [e] is the text of the error, if it is one. *)
Definition decode_body {A} (into : json -> option A) (e : error) (body : Text) : result A :=
  match decode_first body ≫= into with Some a => Ok a | None => Err e end.

Definition decode_agent : error -> Text -> result AgentInfo :=
  decode_body (into_struct agent_fields zero_agent).

(** The sender's [json.Marshal(s.info)]; its struct has neither the time of the
    last report nor the online flag. *)
Definition json_string (s : string) : json := J_str (text s).
Definition json_int (z : Z) : json := J_num (text (pretty z)).

Definition json_agent (i : AgentInfo) : json :=
  J_obj ([(text "hostname", json_string (Hostname i)); (text "version", json_string (Version i));
          (text "tasks", match Tasks i with Some ts => J_arr (json_string <$> ts) | None => J_null end);
          (text "ip", json_string (IP i))] ++
         (if decide (K8sNode i = EmptyString) then [] else [(text "k8s_node", json_string (K8sNode i))]) ++
         [(text "start_time", json_int (StartTime i))]).

Definition heartbeat_body (i : AgentInfo) : Text := Marshal (json_agent i).

(** ** The requests of the alert endpoints (web/alerts/models.go) *)
Definition set_rule_name (v : json) (r : CreateRuleRequest) : option CreateRuleRequest :=
  s ← into_string (req_Name r) v;
  Some {| req_Name := s; req_Enabled := req_Enabled r; req_Expr := req_Expr r;
          req_Duration := req_Duration r; req_Description := req_Description r |}.
Definition set_rule_enabled (v : json) (r : CreateRuleRequest) : option CreateRuleRequest :=
  b ← into_bool_ptr v;
  Some {| req_Name := req_Name r; req_Enabled := b; req_Expr := req_Expr r;
          req_Duration := req_Duration r; req_Description := req_Description r |}.
Definition set_rule_expr (v : json) (r : CreateRuleRequest) : option CreateRuleRequest :=
  s ← into_string (req_Expr r) v;
  Some {| req_Name := req_Name r; req_Enabled := req_Enabled r; req_Expr := s;
          req_Duration := req_Duration r; req_Description := req_Description r |}.
Definition set_rule_duration (v : json) (r : CreateRuleRequest) : option CreateRuleRequest :=
  z ← into_int64 (req_Duration r) v;
  Some {| req_Name := req_Name r; req_Enabled := req_Enabled r; req_Expr := req_Expr r;
          req_Duration := z; req_Description := req_Description r |}.
Definition set_rule_description (v : json) (r : CreateRuleRequest) : option CreateRuleRequest :=
  s ← into_string (req_Description r) v;
  Some {| req_Name := req_Name r; req_Enabled := req_Enabled r; req_Expr := req_Expr r;
          req_Duration := req_Duration r; req_Description := s |}.

Definition rule_fields : list (Field CreateRuleRequest) :=
  [Build_Field "name" set_rule_name; Build_Field "enabled" set_rule_enabled;
   Build_Field "expr" set_rule_expr; Build_Field "duration" set_rule_duration;
   Build_Field "description" set_rule_description].

Definition decode_rule : error -> Text -> result CreateRuleRequest :=
  decode_body (into_struct rule_fields
    {| req_Name := EmptyString; req_Enabled := None; req_Expr := EmptyString; req_Duration := 0;
       req_Description := EmptyString |}).

Definition set_rule_id (v : json) (r : AckRequest) : option AckRequest :=
  z ← into_int64 (ack_RuleID r) v;
  Some {| ack_RuleID := z; ack_Fingerprint := ack_Fingerprint r; SilenceHours := SilenceHours r |}.
Definition set_fingerprint (v : json) (r : AckRequest) : option AckRequest :=
  s ← into_string (ack_Fingerprint r) v;
  Some {| ack_RuleID := ack_RuleID r; ack_Fingerprint := s; SilenceHours := SilenceHours r |}.
Definition set_silence_hours (v : json) (r : AckRequest) : option AckRequest :=
  z ← into_int64 (SilenceHours r) v;
  Some {| ack_RuleID := ack_RuleID r; ack_Fingerprint := ack_Fingerprint r; SilenceHours := z |}.

Definition ack_fields : list (Field AckRequest) :=
  [Build_Field "rule_id" set_rule_id; Build_Field "fingerprint" set_fingerprint;
   Build_Field "silence_hours" set_silence_hours].

Definition decode_ack : error -> Text -> result AckRequest :=
  decode_body (into_struct ack_fields {| ack_RuleID := 0; ack_Fingerprint := EmptyString; SilenceHours := 0 |}).

(** A test query's struct has the expression alone. *)
Definition decode_expr : error -> Text -> result string :=
  decode_body (into_struct [Build_Field "expr" (fun v s => into_string s v)] EmptyString).

(** ** The offset registry's file (internal/input/file/registry.go) *)
Definition set_path (v : json) (e : OffsetEntry) : option OffsetEntry :=
  s ← into_string (oe_Path e) v; Some {| oe_Path := s; oe_Inode := oe_Inode e; oe_Off := oe_Off e |}.
Definition set_inode (v : json) (e : OffsetEntry) : option OffsetEntry :=
  n ← into_uint64 (oe_Inode e) v; Some {| oe_Path := oe_Path e; oe_Inode := n; oe_Off := oe_Off e |}.
Definition set_off (v : json) (e : OffsetEntry) : option OffsetEntry :=
  z ← into_int64 (oe_Off e) v; Some {| oe_Path := oe_Path e; oe_Inode := oe_Inode e; oe_Off := z |}.

Definition entry_fields : list (Field OffsetEntry) :=
  [Build_Field "path" set_path; Build_Field "inode" set_inode; Build_Field "off" set_off].

Definition into_entries (v : json) : option (list OffsetEntry) :=
  match v with
  | J_arr xs => mapM (into_struct entry_fields {| oe_Path := EmptyString; oe_Inode := 0; oe_Off := 0 |}) xs
  | J_null => Some []
  | _ => None
  end.

Definition decode_entries (e : error) (b : Text) : result (list OffsetEntry) :=
  match unmarshal b ≫= into_entries with Some es => Ok es | None => Err e end.

Definition json_entry (e : OffsetEntry) : json :=
  J_obj [(text "path", json_string (oe_Path e)); (text "inode", J_num (text (pretty (oe_Inode e))));
         (text "off", json_int (oe_Off e))].

Definition entries_text (es : list OffsetEntry) : Text := MarshalIndent (J_arr (json_entry <$> es)).

(** ** Round trips *)
Definition int64_ok (z : Z) : Prop := - 2 ^ 63 <= z <= 2 ^ 63 - 1.
Definition utf8_string (s : string) : Prop := valid_utf8 (text s) = true.

Lemma str_of_text s : str (text s) = s.
Proof. apply string_of_list_ascii_of_string. Qed.

Lemma digits_dvalue l acc : Forall (fun c => is_digit c = true) l -> digits acc l = Some (dvalue acc l).
Proof.
  intros H. revert acc. induction H as [|c l Hc _ IH]; intros acc; [done|].
  cbn [digits]. unfold is_digit in Hc. rewrite Hc. apply IH.
Qed.

Lemma digits_pretty (n : N) : digits 0 (text (pretty n)) = Some (Z.of_N n).
Proof.
  destruct (pretty_N_digits n) as [[Hd _] Hv]. rewrite digits_dvalue by done.
  destruct (Hv 0) as [k ->]. reflexivity.
Qed.

Lemma int_literal_digits (neg : bool) l n :
  int_digits l -> digits 0 l = Some n -> int64_ok (if neg then - n else n) ->
  int_literal (if neg then "-"%char :: l else l) = Some (if neg then - n else n).
Proof.
  intros [Hd Hl] Hn [H1 H2]. apply Z.leb_le in H1, H2. unfold int_literal. destruct neg.
  - change (byte "-" =? 45) with true. cbn iota beta. rewrite Hn. cbn [mbind option_bind]. by rewrite H1, H2.
  - destruct l as [|c l]; [done|]. apply Forall_cons in Hd as [Hc _].
    rewrite digit_not_minus, Hn by done. cbn [mbind option_bind]. by rewrite H1, H2.
Qed.

Lemma int_literal_pretty (z : Z) : int64_ok z -> int_literal (text (pretty z)) = Some z.
Proof.
  intros H. destruct z as [|p|p]; [reflexivity| |].
  - apply (int_literal_digits false _ (Zpos p)); [apply pretty_N_digits|apply (digits_pretty (Npos p))|done].
  - apply (int_literal_digits true _ (Zpos p)); [apply pretty_N_digits|apply (digits_pretty (Npos p))|done].
Qed.

Lemma uint_literal_pretty n : (n < 2 ^ 64)%N -> uint_literal (text (pretty n)) = Some n.
Proof.
  intros H. unfold uint_literal. rewrite digits_pretty. cbn [mbind option_bind].
  rewrite (proj2 (Z.leb_le _ _)) by lia. by rewrite N2Z.id.
Qed.

Lemma strings_read ts : strings_over [] (json_string <$> ts) = Some ts.
Proof.
  induction ts as [|t ts IH]; [done|].
  change (json_string <$> t :: ts) with (J_str (text t) :: (json_string <$> ts)).
  cbn [strings_over]. cbn [into_string mbind option_bind tail]. rewrite IH. simpl. by rewrite str_of_text.
Qed.

(** What is decoded is the value, however it is written: any white space before
    and between its tokens, anything behind it that cannot continue it. *)
Lemma decode_rendering {A} (into : json -> option A) e v s w rest :
  renders 0 v s -> blank w -> stops rest = true ->
  decode_body into e (w ++ s ++ rest) = match into v with Some a => Ok a | None => Err e end.
Proof. intros Hv Hw Hr. unfold decode_body, decode_first. by rewrite (parse_rendered v s w rest). Qed.

(** What a sender can report: texts that are UTF-8, a time that is an int64. *)
Record reportable (i : AgentInfo) : Prop := {
  rp_hostname : utf8_string (Hostname i);
  rp_version : utf8_string (Version i);
  rp_tasks : Forall utf8_string (default [] (Tasks i));
  rp_ip : utf8_string (IP i);
  rp_k8s_node : utf8_string (K8sNode i);
  rp_start : int64_ok (StartTime i);
  rp_last_seen : LastSeen i = 0;
  rp_online : Online i = false
}.

Lemma json_agent_prints i : reportable i -> prints (fun _ => []) [] 0 (json_agent i).
Proof.
  intros []. unfold json_agent. apply prints_obj; [intros; apply nothing_blank|apply nothing_blank|done|].
  rewrite !Forall_app. split_and!.
  - repeat (apply Forall_cons; split; [split; [done|]|]); [..|constructor];
      cbn [snd]; [by apply prints_str|by apply prints_str| |by apply prints_str].
    destruct (Tasks i) as [ts|]; [|apply prints_null]. apply prints_arr; [intros; apply nothing_blank|done|].
    apply Forall_fmap. eapply Forall_impl; [exact rp_tasks0|]. intros t Ht. by apply prints_str.
  - case_decide; [constructor|]. apply Forall_singleton. split; [done|by apply prints_str].
  - apply Forall_singleton. split; [done|apply prints_int].
Qed.

(** A member of a known name. *)
Lemma set_known {S} (fields : list (Field S)) k f v s :
  field_of fields (text k) = Some f -> set_member fields (Some s) (text k, v) = fld_set f v s.
Proof. intros E. unfold set_member. cbn [mbind option_bind fst snd]. by rewrite E. Qed.

Ltac set_next fields k f :=
  rewrite (set_known fields k (Build_Field k f)) by reflexivity;
  unfold fld_set, f, json_string, json_int;
  cbn [into_string into_int64 into_uint64 into_strings default mbind option_bind
       Hostname Version Tasks IP K8sNode StartTime LastSeen Online oe_Path oe_Inode oe_Off];
  rewrite ?str_of_text, ?int_literal_pretty, ?uint_literal_pretty by done;
  cbn [mbind option_bind].

Lemma into_json_agent i : reportable i -> into_struct agent_fields zero_agent (json_agent i) = Some i.
Proof.
  destruct i as [h v ts ip k st ls on]. intros [_ _ _ _ _ Hs Hl Ho]. simpl in Hs, Hl, Ho. subst ls on.
  unfold json_agent, into_struct.
  cbn [Hostname Version Tasks IP K8sNode StartTime]. rewrite !foldl_app. cbn [foldl]. unfold zero_agent.
  set_next agent_fields "hostname"%string set_hostname.
  set_next agent_fields "version"%string set_version.
  rewrite (set_known agent_fields "tasks" (Build_Field "tasks" set_tasks)) by reflexivity.
  assert (forall i, set_tasks (match ts with Some ts => J_arr (json_string <$> ts) | None => J_null end) i =
    match Tasks i with None => set_tasks J_null i ≫= fun i =>
      Some {| Hostname := Hostname i; Version := Version i; Tasks := ts; IP := IP i; K8sNode := K8sNode i;
          StartTime := StartTime i; LastSeen := LastSeen i; Online := Online i |} | Some _ =>
      set_tasks (match ts with Some ts => J_arr (json_string <$> ts) | None => J_null end) i end) as Ht.
  { intros i. destruct (Tasks i) eqn:E; [done|]. unfold set_tasks. destruct ts as [ts|]; [|done].
    cbn [into_strings]. rewrite E. cbn [default]. by rewrite strings_read. }
  cbn [fld_set]. rewrite Ht. cbn [Tasks set_tasks into_strings mbind option_bind Hostname Version IP K8sNode StartTime LastSeen Online].
  set_next agent_fields "ip"%string set_ip.
  case_decide as Hk.
  - subst k. cbn [foldl].
    set_next agent_fields "start_time"%string set_start_time.
    reflexivity.
  - cbn [foldl].
    set_next agent_fields "k8s_node"%string set_k8s_node.
    set_next agent_fields "start_time"%string set_start_time.
    reflexivity.
Qed.

(** The registry's handler decodes what the sender marshalled, whatever follows
    in the body that cannot continue it. *)
Lemma decode_heartbeat_body i e rest :
  reportable i -> stops rest = true -> decode_agent e (heartbeat_body i ++ rest) = Ok i.
Proof.
  intros Hi Hr.
  change (decode_body (into_struct agent_fields zero_agent) e ([] ++ heartbeat_body i ++ rest) = Ok i).
  rewrite (decode_rendering _ _ (json_agent i) _ [] rest) by (done || by apply json_agent_prints || apply nothing_blank).
  by rewrite into_json_agent.
Qed.

(** ** The registry's file *)
Record entry_ok (e : OffsetEntry) : Prop := {
  eo_path : utf8_string (oe_Path e);
  eo_inode : (oe_Inode e < 2 ^ 64)%N;
  eo_off : int64_ok (oe_Off e)
}.

Lemma into_json_entry e : entry_ok e ->
  into_struct entry_fields {| oe_Path := EmptyString; oe_Inode := 0; oe_Off := 0 |} (json_entry e) = Some e.
Proof.
  destruct e as [p n z]. intros [_ Hn Hz]. simpl in Hn, Hz. unfold json_entry, into_struct.
  cbn [oe_Path oe_Inode oe_Off foldl].
  set_next entry_fields "path"%string set_path. set_next entry_fields "inode"%string set_inode.
  by set_next entry_fields "off"%string set_off.
Qed.

(** [load] reads the entries [Save] wrote. *)
Lemma decode_entries_text es e : Forall entry_ok es -> decode_entries e (entries_text es) = Ok es.
Proof.
  intros H. unfold decode_entries, entries_text. rewrite unmarshal_MarshalIndent.
  - cbn [mbind option_bind into_entries]. replace (mapM _ _) with (Some es); [done|].
    symmetry. apply mapM_Some. induction H as [|x es Hx _ IH]; constructor; [by apply into_json_entry|done].
  - apply prints_arr; [apply indent_blank|done|]. apply Forall_fmap. eapply Forall_impl; [exact H|].
    intros x []. apply prints_obj; [apply indent_blank|by repeat constructor|done|].
    repeat (apply Forall_cons; split; [split; [done|]|]); [by apply prints_str| |apply prints_int|constructor].
    constructor. apply (nonneg_number _ (proj1 (pretty_N_digits _))).
Qed.

Section registry_file.
Context {R : MapRange}.

(** The bytes [Save] writes are read back as the registry: offsets survive the
    file, for paths that are UTF-8. *)
Lemma registry_file_survives dir r e :
  well_keyed r -> map_Forall (fun _ x => entry_ok x) r ->
  NewOffsetRegistry dir (Ok tt) (Entries (decode_entries e (entries_text (Save r)))) = Ok r.
Proof.
  intros Hw Hr. rewrite decode_entries_text.
  - unfold NewOffsetRegistry, load_file. by rewrite load_save.
  - unfold Save. apply Forall_fmap, Forall_forall. intros [k x] Hx%elem_of_range. by eapply Hr.
Qed.
End registry_file.

(** ** Bodies as clients may send them *)
Definition body (s : string) : Text :=
  (fun c => if decide (c = "'"%char) then dquote else c) <$> text s.

(** Names in any case, unknown members, white space, trailing bytes. *)
Example lenient_body :
  decode_rule "" (body " { 'NAME':'cpu', 'Expr' : 'up == 0','x':[{},null], 'enabled':false } trailing") =
    Ok {| req_Name := "cpu"; req_Enabled := Some false; req_Expr := "up == 0"; req_Duration := 0;
          req_Description := EmptyString |}.
Proof. vm_compute. reflexivity. Qed.

(** A body [null] decodes to the zero request, which the handlers then refuse. *)
Example null_body :
  (decode_agent "" (body "null"), decode_ack "" (body "null")) =
  (Ok zero_agent, Ok {| ack_RuleID := 0; ack_Fingerprint := EmptyString; SilenceHours := 0 |}).
Proof. vm_compute. reflexivity. Qed.

(** Numbers of integer fields have no fraction or exponent and are in range. *)
Example refused_numbers :
  (fun n => is_ok (decode_ack "" (body ("{'rule_id':" +:+ n +:+ "}")))) <$>
    ["7"; "-7"; "7.0"; "7e0"; "'7'"; "9223372036854775807"; "9223372036854775808"; "07"; "null"]%string =
  [true; true; false; false; false; true; false; false; true].
Proof. vm_compute. reflexivity. Qed.
