(* ===== verification/OffsetSharing.v ===== *)
(** * Several keyword tasks with one offset registry (tasks/keyword/keyword.go,
    internal/input/file/registry.go)

    Every task reads the registry file named in its configuration when it
    starts, works on a copy of its own and writes that copy back, whole, when it
    ends: first to a file beside it, whose name depends on the registry's only,
    then by renaming. The file beside it is truncated when it is opened and
    written piece by piece, and any call may fail. The steps of several tasks
    with the same registry interleave; a start reads the file at one moment. *)
From Stdlib Require Import Ascii String.
From stdpp Require Import pretty.
From S2P Require Import Prelude GoTime LabelsJson Harvester HarvesterSpec Configs Keyword KeywordSpec GoStrings Json JsonSpec Bodies.

Section sharing.
Context {R : MapRange}.

(** The log a task follows. *)
Record Follower := { fw_path : string; fw_inode : N }.
Context (tasks : nat -> Follower).
(** The text of a decoding error. *)
Context (malformed : error).

Definition key_of (i : nat) : string := registry_key (fw_path (tasks i)) (fw_inode (tasks i)).

(** A task in the middle of [os.WriteFile]: the inode it has opened, its own
    position in it, and the bytes still to be written. *)
Record Saving := { sv_inode : nat; sv_pos : nat; sv_rest : Text }.

Record Shared := {
  sh_inodes : gmap nat Text;                     (* the files' contents *)
  sh_next : nat;                                 (* the next file that is made *)
  sh_registry : option nat;                      (* the registry's name *)
  sh_tmp : option nat;                           (* the name beside it *)
  sh_open : gmap nat (gmap string OffsetEntry);  (* each running task's copy *)
  sh_saving : gmap nat Saving
}.

(** What task [i] does: it starts; it notes how far it has read; at its end it
    opens the file beside the registry, writes it piece by piece - the next [n]
    bytes - unless a write fails, closes and renames it. *)
Inductive TaskStep :=
| T_open (i : nat) (mkdir read : result unit)
| T_note (i : nat) (off : Z)
| T_create (i : nat) (r : result unit)
| T_write (i : nat) (n : nat)
| T_fail (i : nat)
| T_rename (i : nat) (r : result unit).

(** A write at a position; a gap is filled with zeros. *)
Definition write_at (pos : nat) (b content : Text) : Text :=
  take pos content ++ replicate (pos - List.length content) (chr 0) ++ b ++
  drop (pos + List.length b) content.

(** What [os.ReadFile] finds under the registry's name. *)
Definition registry_file (s : Shared) : RegistryFile :=
  match sh_registry s with
  | None => NotExist
  | Some ino => Entries (decode_entries malformed (default [] (sh_inodes s !! ino)))
  end.

Definition with_copy (i : nat) (r : gmap string OffsetEntry) (s : Shared) : Shared :=
  {| sh_inodes := sh_inodes s; sh_next := sh_next s; sh_registry := sh_registry s;
     sh_tmp := sh_tmp s; sh_open := <[i := r]> (sh_open s); sh_saving := sh_saving s |}.

Definition saved (i : nat) (s : Shared) : Shared :=
  {| sh_inodes := sh_inodes s; sh_next := sh_next s; sh_registry := sh_registry s;
     sh_tmp := sh_tmp s; sh_open := sh_open s; sh_saving := delete i (sh_saving s) |}.

(** [O_CREATE | O_TRUNC] *)
Definition created (i : nat) (b : Text) (s : Shared) : Shared :=
  let '(ino, next) := match sh_tmp s with
                      | Some ino => (ino, sh_next s)
                      | None => (sh_next s, S (sh_next s))
                      end in
  {| sh_inodes := <[ino := []]> (sh_inodes s); sh_next := next; sh_registry := sh_registry s;
     sh_tmp := Some ino; sh_open := sh_open s;
     sh_saving := <[i := {| sv_inode := ino; sv_pos := 0; sv_rest := b |}]> (sh_saving s) |}.

Definition written (i : nat) (n : nat) (v : Saving) (s : Shared) : Shared :=
  let b := take n (sv_rest v) in
  {| sh_inodes := alter (write_at (sv_pos v) b) (sv_inode v) (sh_inodes s); sh_next := sh_next s;
     sh_registry := sh_registry s; sh_tmp := sh_tmp s; sh_open := sh_open s;
     sh_saving := <[i := {| sv_inode := sv_inode v; sv_pos := sv_pos v + List.length b;
                            sv_rest := drop n (sv_rest v) |}]> (sh_saving s) |}.

Definition renamed (ino : nat) (s : Shared) : Shared :=
  {| sh_inodes := sh_inodes s; sh_next := sh_next s; sh_registry := Some ino; sh_tmp := None;
     sh_open := sh_open s; sh_saving := sh_saving s |}.

Definition task_step (l : TaskStep) (s : Shared) : option Shared :=
  match l with
  | T_open i mkdir read =>
      match NewOffsetRegistry EmptyString mkdir
              (match read with Ok _ => registry_file s | Err e => Unreadable e end) with
      | Ok r => Some (with_copy i r s)
      | Err _ => Some s
      end
  | T_note i off =>
      r ← sh_open s !! i;
      match sh_saving s !! i with
      | Some _ => None
      | None => Some (with_copy i (SetOffset (fw_path (tasks i)) (fw_inode (tasks i)) off r) s)
      end
  | T_create i c =>
      r ← sh_open s !! i;
      match sh_saving s !! i, c with
      | Some _, _ => None
      | None, Err _ => Some s
      | None, Ok _ => Some (created i (entries_text (Save r)) s)
      end
  | T_write i n => v ← sh_saving s !! i; Some (written i n v s)
  | T_fail i => v ← sh_saving s !! i; Some (saved i s)
  | T_rename i c =>
      v ← sh_saving s !! i;
      match sv_rest v with
      | [] => Some (saved i (match c, sh_tmp s with
                             | Ok _, Some ino => renamed ino s
                             | _, _ => s      (* the rename's error is dropped *)
                             end))
      | _ => None
      end
  end.

Definition task_steps : list TaskStep -> Shared -> option Shared := run_steps task_step.

(** What the next start makes of a registry file. *)
Definition loaded (f : RegistryFile) : gmap string OffsetEntry :=
  match NewOffsetRegistry EmptyString (Ok tt) f with Ok r => r | Err _ => ∅ end.

(** The copy of task [i] and the registry it started from differ in its own
    entry only; it can be written and read back. *)
Record news_of (r0 : gmap string OffsetEntry) (i : nat) (r : gmap string OffsetEntry) : Prop := {
  nw_own : forall k, k <> key_of i -> r !! k = r0 !! k;
  nw_keyed : well_keyed r;
  nw_ok : map_Forall (fun _ e => entry_ok e) r
}.

Definition registry_of (s : Shared) : option Text := ino ← sh_registry s; sh_inodes s !! ino.

(** A save that nobody else disturbs. *)
Record saving_ok (r0 : gmap string OffsetEntry) (s : Shared) (i : nat) (v : Saving) : Prop := {
  so_alone : sh_saving s = {[i := v]};
  so_tmp : sh_tmp s = Some (sv_inode v);
  so_bytes : exists r done, news_of r0 i r /\ done ++ sv_rest v = entries_text (Save r) /\
    List.length done = sv_pos v /\ sh_inodes s !! sv_inode v = Some done
}.

Record one_sided (r0 : gmap string OffsetEntry) (s : Shared) : Prop := {
  os_copies : forall i r, sh_open s !! i = Some r -> news_of r0 i r;
  os_saving : forall i v, sh_saving s !! i = Some v -> saving_ok r0 s i v;
  os_names : forall a, sh_tmp s = Some a \/ sh_registry s = Some a -> (a < sh_next s)%nat;
  os_apart : sh_tmp s <> None -> sh_tmp s <> sh_registry s;
  os_file : loaded (registry_file s) = r0 \/
    exists i r, registry_of s = Some (entries_text (Save r)) /\ news_of r0 i r
}.

Definition opens_registry (l : TaskStep) : bool := match l with T_open _ _ _ => true | _ => false end.

(** What a task notes can be written. *)
Definition notable (l : TaskStep) : Prop :=
  match l with
  | T_note i off => entry_ok {| oe_Path := fw_path (tasks i); oe_Inode := fw_inode (tasks i); oe_Off := off |}
  | _ => True
  end.

(** No save begins while another is under way. *)
Definition takes_turns (l : TaskStep) (s : Shared) : Prop :=
  match l with T_create _ _ => sh_saving s = ∅ | _ => True end.

Fixpoint one_at_a_time (ls : list TaskStep) (s : Shared) : Prop :=
  match ls with
  | [] => True
  | l :: ls' => takes_turns l s /\
      match task_step l s with Some s' => one_at_a_time ls' s' | None => True end
  end.

Lemma with_copy_one_sided r0 i r s :
  one_sided r0 s -> news_of r0 i r -> one_sided r0 (with_copy i r s).
Proof.
  intros [Hc Hs Hn Ha Hf] Hr. split; [|by intros j v Hv; destruct (Hs j v Hv)|done..].
  intros j r' Hj. simpl in Hj. destruct (decide (i = j)) as [<-|]; simplify_map_eq; [done|by apply Hc].
Qed.

Lemma set_news r0 i off r :
  news_of r0 i r -> notable (T_note i off) ->
  news_of r0 i (SetOffset (fw_path (tasks i)) (fw_inode (tasks i)) off r).
Proof.
  intros [Ho Hk He] Hn. split.
  - intros k Hne. unfold SetOffset. rewrite lookup_insert_ne by done. by apply Ho.
  - by apply well_keyed_set.
  - by apply map_Forall_insert_2.
Qed.

(** A change to another file. *)
Lemma file_frame s s' :
  sh_registry s' = sh_registry s ->
  (forall a, sh_registry s = Some a -> sh_inodes s' !! a = sh_inodes s !! a) ->
  registry_file s' = registry_file s /\ registry_of s' = registry_of s.
Proof.
  intros Hr Hi. unfold registry_file, registry_of. rewrite Hr.
  destruct (sh_registry s) as [a|]; [|done]. simpl. by rewrite Hi.
Qed.

Lemma saving_none r0 s i v :
  one_sided r0 s -> sh_saving s !! i = Some v -> delete i (sh_saving s) = ∅.
Proof. intros Hs Hv. rewrite (so_alone _ _ _ _ (os_saving _ _ Hs _ _ Hv)). by rewrite delete_singleton_eq. Qed.

Lemma saved_one_sided r0 s i v :
  one_sided r0 s -> sh_saving s !! i = Some v -> one_sided r0 (saved i s).
Proof.
  intros Hs Hv. pose proof (saving_none _ _ _ _ Hs Hv) as He. destruct Hs as [Hc _ Hn Ha Hf].
  split; [done| |done..]. simpl. rewrite He. by intros j w Hw.
Qed.

Lemma created_one_sided r0 i r s :
  one_sided r0 s -> sh_saving s = ∅ -> news_of r0 i r ->
  one_sided r0 (created i (entries_text (Save r)) s).
Proof.
  intros Hs He Hr. unfold created.
  assert (exists ino next, match sh_tmp s with Some ino => (ino, sh_next s) | None => (sh_next s, S (sh_next s)) end
    = (ino, next) /\ sh_registry s <> Some ino /\ (ino < next)%nat /\ (sh_next s <= next)%nat)
    as (ino & next & -> & Hne & Hlt & Hle).
  { destruct (sh_tmp s) as [a|] eqn:Et.
    - exists a, (sh_next s). split; [done|]. split; [|split; [|lia]].
      + intros E. apply (os_apart _ _ Hs); congruence.
      + apply (os_names _ _ Hs). by left.
    - exists (sh_next s), (S (sh_next s)). split; [done|]. split; [|lia].
      intros E. pose proof (os_names _ _ Hs _ (or_intror E)). lia. }
  destruct (file_frame s {| sh_inodes := <[ino := []]> (sh_inodes s); sh_next := next;
    sh_registry := sh_registry s; sh_tmp := Some ino; sh_open := sh_open s;
    sh_saving := <[i := {| sv_inode := ino; sv_pos := 0; sv_rest := entries_text (Save r) |}]> (sh_saving s) |})
    as [E1 E2]; [done|intros a Ea; simpl; by rewrite lookup_insert_ne by congruence|].
  destruct Hs as [Hc _ Hn Ha Hf]. split; simpl; [done| | |congruence|by rewrite E1, E2].
  - intros j v. rewrite He, insert_empty. intros [<- <-]%lookup_singleton_Some.
    split; simpl; [done|done|]. exists r, []. by rewrite lookup_insert_eq.
  - intros a [[= <-]|Ea]; [done|]. specialize (Hn a (or_intror Ea)). lia.
Qed.

Lemma write_at_end b content : write_at (List.length content) b content = content ++ b.
Proof.
  unfold write_at. rewrite take_ge, Nat.sub_diag by done. simpl. rewrite drop_ge by lia.
  by rewrite app_nil_r.
Qed.

Lemma written_one_sided r0 i n v s :
  one_sided r0 s -> sh_saving s !! i = Some v -> one_sided r0 (written i n v s).
Proof.
  intros Hs Hv. destruct (os_saving _ _ Hs _ _ Hv) as [Ho Ht (r & done & Hr & Hb & Hl & Hi)].
  destruct (file_frame s (written i n v s)) as [E1 E2]; [done| |].
  { intros a Ea. simpl. rewrite lookup_alter_ne; [done|]. intros <-.
    apply (os_apart _ _ Hs); congruence. }
  destruct Hs as [Hc _ Hn Ha Hf]. split; [done| |done..|by rewrite E1, E2].
  intros j w. unfold written at 1. simpl. rewrite Ho, insert_singleton_eq. intros [<- <-]%lookup_singleton_Some.
  split; simpl; [by rewrite Ho, insert_singleton_eq|done|]. exists r, (done ++ take n (sv_rest v)).
  split_and!; [done|by rewrite <- app_assoc, take_drop|by rewrite length_app, Hl|].
  by rewrite lookup_alter_eq, Hi, <- Hl, <- write_at_end.
Qed.

Lemma renamed_one_sided r0 i v s :
  one_sided r0 s -> sh_saving s !! i = Some v -> sv_rest v = [] ->
  one_sided r0 (saved i (renamed (sv_inode v) s)).
Proof.
  intros Hs Hv Hrest. destruct (os_saving _ _ Hs _ _ Hv) as [Ho Ht (r & done & Hr & Hb & Hl & Hi)].
  pose proof (saving_none _ _ _ _ Hs Hv) as He. destruct Hs as [Hc _ Hn Ha Hf].
  split; simpl; [done|rewrite He; by intros j w Hw| |done|].
  - intros a [|[= <-]]; [done|]. apply Hn. by left.
  - right. exists i, r. split; [|done]. unfold registry_of. simpl. rewrite Hi, <- Hb, Hrest. by rewrite app_nil_r.
Qed.

Lemma registry_survives r e :
  well_keyed r -> map_Forall (fun _ x => entry_ok x) r ->
  loaded (Entries (decode_entries e (entries_text (Save r)))) = r.
Proof. intros Hw Hr. unfold loaded. by rewrite registry_file_survives. Qed.

Lemma one_sided_loaded r0 s :
  one_sided r0 s -> exists i, forall k, k <> key_of i -> loaded (registry_file s) !! k = r0 !! k.
Proof.
  intros [_ _ _ _ [->|(i & r & Hr & [Ho Hw He])]]; [by exists O|].
  exists i. unfold registry_file, registry_of in *. destruct (sh_registry s) as [a|]; [|done].
  simpl in Hr. rewrite Hr. simpl. rewrite registry_survives by done. exact Ho.
Qed.

(** Starting: the file is still the one all tasks start from. *)
Lemma open_keeps_one_sided r0 l s s' :
  opens_registry l = true -> map_Forall (fun _ e => entry_ok e) r0 ->
  loaded (registry_file s) = r0 /\ one_sided r0 s ->
  task_step l s = Some s' -> loaded (registry_file s') = r0 /\ one_sided r0 s'.
Proof.
  intros Hl Hok [Hf Hs] E. destruct l as [i mk rd| | | | |]; try done. simpl in E.
  destruct (NewOffsetRegistry EmptyString mk _) as [r|e] eqn:En; simplify_eq; [|done].
  split; [done|]. apply with_copy_one_sided; [done|].
  assert (r = loaded (registry_file s)) as Er.
  { unfold loaded. destruct mk as [[]|]; [|done]. destruct rd; [by rewrite En|done]. }
  split; [by rewrite Er|by eapply NewOffsetRegistry_keyed|by rewrite Er].
Qed.

Lemma work_keeps_one_sided r0 l s s' :
  opens_registry l = false -> notable l -> takes_turns l s ->
  one_sided r0 s -> task_step l s = Some s' -> one_sided r0 s'.
Proof.
  intros Hl Hn Ht Hs E. destruct l as [|i off|i c|i n|i|i c]; [done|..]; simpl in E.
  - destruct (sh_open s !! i) as [r|] eqn:Er; [|done]. simpl in E. case_match; simplify_eq.
    apply with_copy_one_sided; [done|]. apply set_news; [|done]. by apply (os_copies _ _ Hs).
  - destruct (sh_open s !! i) as [r|] eqn:Er; [|done]. simpl in E. case_match; [done|].
    destruct c; simplify_eq; [|done]. apply created_one_sided; [done|done|]. by apply (os_copies _ _ Hs).
  - destruct (sh_saving s !! i) as [v|] eqn:Ev; [|done]. simplify_eq/=. by apply written_one_sided.
  - destruct (sh_saving s !! i) as [v|] eqn:Ev; [|done]. simplify_eq/=. by eapply saved_one_sided.
  - destruct (sh_saving s !! i) as [v|] eqn:Ev; [|done]. simpl in E.
    destruct (sv_rest v) eqn:Erest; [|done].
    rewrite (so_tmp _ _ _ _ (os_saving _ _ Hs _ _ Ev)) in E.
    destruct c; simplify_eq; [by eapply renamed_one_sided|by eapply saved_one_sided].
Qed.

(** Steps that open only keep the file; then any number of the others. *)
Lemma phases_one_sided r0 starts works s0 s :
  map_Forall (fun _ e => entry_ok e) r0 ->
  Forall (fun l => opens_registry l = true) starts ->
  Forall (fun l => opens_registry l = false /\ notable l) works ->
  one_at_a_time (starts ++ works) s0 ->
  loaded (registry_file s0) = r0 -> one_sided r0 s0 ->
  task_steps (starts ++ works) s0 = Some s -> one_sided r0 s.
Proof.
  intros Hok Ho Hw. revert s0. induction Ho as [|l starts Hl _ IH]; intros s0 Ht Hf Hs Hr; simpl in Ht, Hr.
  - clear Hf. revert s0 Ht Hs Hr.
    induction Hw as [|l works [Hl Hn] _ IH]; intros s0 Ht Hs Hr; simpl in Ht, Hr; [by simplify_eq|].
    destruct Ht as [Ht Hts]. destruct (task_step l s0) as [s1|] eqn:E; [|done].
    apply (IH s1); [done| |done]. by eapply work_keeps_one_sided.
  - destruct Ht as [_ Hts]. destruct (task_step l s0) as [s1|] eqn:E; [|done].
    destruct (open_keeps_one_sided r0 l s0 s1) as [Hf1 Hs1]; [done..|]. by apply (IH s1).
Qed.

(** A registry's file and what an earlier save may have left beside it, before any
    task has started. *)
Definition at_start (registry tmp : option Text) : Shared :=
  {| sh_inodes := (match registry with Some b => <[0%nat := b]> | None => id end)
                    (match tmp with Some b => {[1%nat := b]} | None => ∅ end);
     sh_next := 2; sh_registry := (fun _ => 0%nat) <$> registry; sh_tmp := (fun _ => 1%nat) <$> tmp;
     sh_open := ∅; sh_saving := ∅ |}.

Lemma at_start_one_sided registry tmp :
  one_sided (loaded (registry_file (at_start registry tmp))) (at_start registry tmp).
Proof.
  split; [done|done| | |by left]; destruct registry, tmp; simpl; try done; intros a [Ha|Ha]; simplify_eq; lia.
Qed.

(** C34: of several keyword tasks that share a registry file and are started before
    the first of them ends, as the scheduler starts them, only one can leave a
    trace in it: however their notes and saves follow one another - one save at a
    time - and wherever a save fails, in opening, in the middle of writing or in
    renaming, for all logs but one the file they leave says what it said before
    they started, so that a restart with [from_begin: false] takes those logs up
    where the previous start did - at their end, if the registry was new -
    although each task noted how far it had got and saved. *)
Theorem one_offset_survives starts works registry tmp s :
  let s0 := at_start registry tmp in
  let r0 := loaded (registry_file s0) in
  map_Forall (fun _ e => entry_ok e) r0 ->
  Forall (fun l => opens_registry l = true) starts ->
  Forall (fun l => opens_registry l = false /\ notable l) works ->
  one_at_a_time (starts ++ works) s0 ->
  task_steps (starts ++ works) s0 = Some s ->
  exists i, forall j cfg content,
    key_of j <> key_of i -> File cfg = fw_path (tasks j) ->
    GetOffset (fw_path (tasks j)) (fw_inode (tasks j)) (loaded (registry_file s)) =
      GetOffset (fw_path (tasks j)) (fw_inode (tasks j)) r0 /\
    start_offset (harvester_config cfg (Some (loaded (registry_file s)))) (fw_inode (tasks j)) content =
      start_offset (harvester_config cfg (Some r0)) (fw_inode (tasks j)) content /\
    (registry = None -> FromBegin cfg = Some false ->
     start_offset (harvester_config cfg (Some (loaded (registry_file s)))) (fw_inode (tasks j)) content =
       List.length content).
Proof.
  intros s0 r0 Hok Hst Hw Ht Hr.
  assert (one_sided r0 s) as Hs.
  { eapply (phases_one_sided r0); [done|exact Hst|exact Hw|exact Ht|done| |exact Hr].
    apply at_start_one_sided. }
  destruct (one_sided_loaded _ _ Hs) as [i Hn]. exists i. intros j cfg content Hj Hc.
  assert (GetOffset (fw_path (tasks j)) (fw_inode (tasks j)) (loaded (registry_file s)) =
    GetOffset (fw_path (tasks j)) (fw_inode (tasks j)) r0) as Hg.
  { unfold GetOffset. fold (key_of j). by rewrite Hn. }
  assert (start_offset (harvester_config cfg (Some (loaded (registry_file s)))) (fw_inode (tasks j)) content =
    start_offset (harvester_config cfg (Some r0)) (fw_inode (tasks j)) content) as Hso.
  { unfold start_offset, harvester_config. cbn [hc_FromBegin hc_Registry hc_File]. by rewrite Hc, Hg. }
  split_and!; [done|done|]. intros -> Hb. rewrite Hso. unfold start_offset, harvester_config.
  cbn [hc_FromBegin hc_Registry hc_File]. rewrite Hb. unfold GetOffset, r0, loaded. simpl.
  by rewrite lookup_empty.
Qed.
End sharing.

(** ** Two tasks, one registry file *)
#[local] Existing Instance in_key_order.

Definition demo_tasks (i : nat) : Follower :=
  match i with
  | O => {| fw_path := "/var/log/application.log"; fw_inode := 7 |}
  | _ => {| fw_path := "/var/log/b.log"; fw_inode := 8 |}
  end.

Definition demo_starts : list TaskStep := [T_open 0 (Ok tt) (Ok tt); T_open 1 (Ok tt) (Ok tt)].

(** Both note and save, one after the other; the second needs two attempts. *)
Definition demo_works : list TaskStep :=
  [T_note 0 100; T_note 1 200;
   T_create 0 (Ok tt); T_write 0 1000; T_rename 0 (Ok tt);
   T_create 1 (Ok tt); T_write 1 20; T_fail 1;
   T_create 1 (Ok tt); T_write 1 20; T_write 1 1000; T_rename 1 (Ok tt)].

Definition demo_sharing : option Shared :=
  task_steps demo_tasks "unexpected end of JSON input" (demo_starts ++ demo_works) (at_start None None).

Lemma demo_sharing_file :
  (fun s => let r := loaded (registry_file "unexpected end of JSON input" s) in
     (GetOffset "/var/log/application.log" 7 r, GetOffset "/var/log/b.log" 8 r)) <$> demo_sharing =
  Some (0, 200).
Proof. vm_compute. reflexivity. Qed.

(** Two saves at once: both write the same file beside the registry, the longer text
    first; what the first rename makes the registry is no JSON, every later start
    fails, and no system call has failed. *)
Definition demo_overlap : list TaskStep :=
  [T_note 0 100; T_note 1 200; T_create 0 (Ok tt); T_create 1 (Ok tt);
   T_write 0 1000; T_write 1 1000; T_rename 0 (Ok tt); T_rename 1 (Ok tt)].

Theorem overlapping_saves_break_registry :
  exists s, task_steps demo_tasks "invalid character" (demo_starts ++ demo_overlap) (at_start None None) = Some s /\
    sh_saving s = ∅ /\
    NewOffsetRegistry EmptyString (Ok tt) (registry_file "invalid character" s) =
      Err "registry load: registry unmarshal: invalid character"%string.
Proof. eexists. split; [vm_compute; reflexivity|]. split; vm_compute; reflexivity. Qed.

Lemma one_offset_survives_witness : exists s i,
  demo_sharing = Some s /\ forall j content,
    key_of demo_tasks j <> key_of demo_tasks i ->
    File (demo_keyword (Some false)) = fw_path (demo_tasks j) ->
    start_offset (harvester_config (demo_keyword (Some false))
        (Some (loaded (registry_file "unexpected end of JSON input" s))))
      (fw_inode (demo_tasks j)) content = List.length content.
Proof.
  destruct demo_sharing as [s|] eqn:E; [|vm_compute in E; discriminate].
  destruct (one_offset_survives demo_tasks "unexpected end of JSON input" demo_starts demo_works None None s)
    as [i H]; [|repeat constructor| | |exact E|].
  - apply map_Forall_empty.
  - repeat constructor; vm_compute; (reflexivity || discriminate).
  - vm_compute. repeat split.
  - exists s, i. split; [reflexivity|]. intros j content Hj Hf.
    by apply (H j (demo_keyword (Some false)) content).
Defined.
