(* ===== verification/Reloader.v ===== *)
(** * Reloading on a signal (internal/reloader, the callback in cmd/monitorbeat)

    The loop takes a signal from a channel that holds one and starts a
    goroutine for it, which reads the configuration file and then hands what it
    read to the scheduler; several may run at once. The interleavings are the
    runs of a labelled step function. *)
From Stdlib Require Import String.
From S2P Require Import Prelude.

(** ** State

    Versions of the file are counted; [valid] tells which of them
    [loadConfig] and [Clean] accept. *)

(** A goroutine that has not read the file, or what it has read. *)
Inductive Stage := Started | Loaded (v : nat).

(** The loop, [wg.Wait] after the context's end, after the return. *)
Inductive Loop := Looping | Waiting | Returned.

Record Reloader := {
  r_file : nat;            (* the version on disk *)
  r_ch : bool;             (* a signal is in the channel *)
  r_running : list Stage;
  r_applied : list nat;    (* handed to the scheduler, the last one last *)
  r_rejected : list nat;   (* read and refused *)
  r_loop : Loop;
  r_done : bool;
  r_signal : option nat    (* the version on disk at the last signal *)
}.

Definition new_reloader : Reloader :=
  {| r_file := 0; r_ch := false; r_running := []; r_applied := []; r_rejected := [];
     r_loop := Looping; r_done := false; r_signal := None |}.

(** What the world does: a new file, a signal, the end of the context; and what
    the program does: taking a signal, reading the file in goroutine [i],
    handing over, leaving the loop, returning. *)
Inductive Label :=
| L_edit | L_signal | L_done
| L_take | L_read (i : nat) | L_apply (i : nat) | L_leave | L_return.

Definition own (l : Label) : bool :=
  match l with L_edit | L_signal | L_done => false | _ => true end.

Section reloader.
Context (valid : nat -> bool).

Definition remove_at (i : nat) (xs : list Stage) : list Stage := take i xs ++ drop (S i) xs.

Definition set_running (xs : list Stage) (s : Reloader) : Reloader :=
  {| r_file := r_file s; r_ch := r_ch s; r_running := xs; r_applied := r_applied s;
     r_rejected := r_rejected s; r_loop := r_loop s; r_done := r_done s; r_signal := r_signal s |}.

Definition set_loop (l : Loop) (s : Reloader) : Reloader :=
  {| r_file := r_file s; r_ch := r_ch s; r_running := r_running s; r_applied := r_applied s;
     r_rejected := r_rejected s; r_loop := l; r_done := r_done s; r_signal := r_signal s |}.

(** The goroutine ends: the error is logged. *)
Definition reject (i v : nat) (s : Reloader) : Reloader :=
  {| r_file := r_file s; r_ch := r_ch s; r_running := remove_at i (r_running s);
     r_applied := r_applied s; r_rejected := r_rejected s ++ [v]; r_loop := r_loop s;
     r_done := r_done s; r_signal := r_signal s |}.

Definition apply_version (i v : nat) (s : Reloader) : Reloader :=
  {| r_file := r_file s; r_ch := r_ch s; r_running := remove_at i (r_running s);
     r_applied := r_applied s ++ [v]; r_rejected := r_rejected s; r_loop := r_loop s;
     r_done := r_done s; r_signal := r_signal s |}.

Definition take_signal (s : Reloader) : Reloader :=
  {| r_file := r_file s; r_ch := false; r_running := r_running s ++ [Started];
     r_applied := r_applied s; r_rejected := r_rejected s; r_loop := r_loop s;
     r_done := r_done s; r_signal := r_signal s |}.

(** A signal that finds the channel full is dropped. *)
Definition deliver_signal (s : Reloader) : Reloader :=
  {| r_file := r_file s; r_ch := true; r_running := r_running s; r_applied := r_applied s;
     r_rejected := r_rejected s; r_loop := r_loop s; r_done := r_done s;
     r_signal := Some (r_file s) |}.

Definition step (l : Label) (s : Reloader) : option Reloader :=
  match l with
  | L_edit =>
      Some {| r_file := S (r_file s); r_ch := r_ch s; r_running := r_running s;
              r_applied := r_applied s; r_rejected := r_rejected s; r_loop := r_loop s;
              r_done := r_done s; r_signal := r_signal s |}
  | L_signal => Some (deliver_signal s)
  | L_done =>
      Some {| r_file := r_file s; r_ch := r_ch s; r_running := r_running s;
              r_applied := r_applied s; r_rejected := r_rejected s; r_loop := r_loop s;
              r_done := true; r_signal := r_signal s |}
  | L_take =>
      match r_loop s, r_ch s with Looping, true => Some (take_signal s) | _, _ => None end
  | L_read i =>
      match r_running s !! i with
      | Some Started =>
          if valid (r_file s) then Some (set_running (<[i := Loaded (r_file s)]> (r_running s)) s)
          else Some (reject i (r_file s) s)
      | _ => None
      end
  | L_apply i =>
      match r_running s !! i with
      | Some (Loaded v) => Some (apply_version i v s)
      | _ => None
      end
  | L_leave =>
      match r_loop s, r_done s with Looping, true => Some (set_loop Waiting s) | _, _ => None end
  | L_return =>
      match r_loop s, r_running s with Waiting, [] => Some (set_loop Returned s) | _, _ => None end
  end.

Definition steps : list Label -> Reloader -> option Reloader := run_steps step.

(** ** Termination *)
Definition stage_weight (g : Stage) : nat := match g with Started => 2 | Loaded _ => 1 end.

Definition weight (s : Reloader) : nat :=
  (if r_ch s then 3 else 0) + sum_list_with stage_weight (r_running s) +
  match r_loop s with Looping => 2 | Waiting => 1 | Returned => 0 end.

Lemma sum_at (xs : list Stage) i g :
  xs !! i = Some g ->
  sum_list_with stage_weight xs = (stage_weight g + sum_list_with stage_weight (remove_at i xs))%nat.
Proof.
  intros H. rewrite <- (take_drop_middle _ _ _ H) at 1. unfold remove_at.
  rewrite !sum_list_with_app. simpl. lia.
Qed.

Lemma sum_insert (xs : list Stage) i g g' :
  xs !! i = Some g ->
  (sum_list_with stage_weight (<[i := g']> xs) + stage_weight g =
   sum_list_with stage_weight xs + stage_weight g')%nat.
Proof.
  intros H. rewrite (sum_at xs i g H).
  rewrite (sum_at (<[i := g']> xs) i g') by (apply list_lookup_insert_eq; by eapply lookup_lt_Some).
  unfold remove_at. rewrite take_insert_ge, drop_insert_lt by lia. lia.
Qed.

Lemma reload_step_lighter l s s' : own l = true -> step l s = Some s' -> (weight s' < weight s)%nat.
Proof.
  intros Ho Hs. destruct l as [| | | |i|i| |]; try done; unfold step in Hs.
  - destruct (r_loop s) eqn:El, (r_ch s) eqn:Ec; simplify_eq. unfold weight, take_signal. simpl.
    rewrite sum_list_with_app, El, Ec. simpl. lia.
  - destruct (r_running s !! i) as [[|v]|] eqn:Ei; try done.
    destruct (valid (r_file s)); simplify_eq; unfold weight; simpl.
    + pose proof (sum_insert _ _ _ (Loaded (r_file s)) Ei). simpl in *. lia.
    + rewrite (sum_at _ _ _ Ei). simpl. lia.
  - destruct (r_running s !! i) as [[|v]|] eqn:Ei; simplify_eq. unfold weight. simpl.
    rewrite (sum_at _ _ _ Ei). simpl. lia.
  - destruct (r_loop s) eqn:El, (r_done s); simplify_eq. unfold weight. simpl. rewrite El. lia.
  - destruct (r_loop s) eqn:El, (r_running s) eqn:Er; simplify_eq. unfold weight. simpl.
    rewrite El, Er. lia.
Qed.

(** Nothing of the program's own is left to do. *)
Definition settled (s : Reloader) : Prop := forall l, own l = true -> step l s = None.

Lemma settled_idle s : settled s -> r_running s = [] /\ (r_loop s = Looping -> r_ch s = false).
Proof.
  intros H. split.
  - destruct (r_running s) as [|[|v] xs] eqn:E; [done| |].
    + specialize (H (L_read 0) eq_refl). simpl in H. rewrite E in H. by destruct (valid _).
    + specialize (H (L_apply 0) eq_refl). simpl in H. by rewrite E in H.
  - intros El. specialize (H L_take eq_refl). simpl in H. rewrite El in H. by destruct (r_ch s).
Qed.

(** C27: reloading terminates: whatever order the goroutines run in, between
    two events of the outside world the program makes at most as many steps as
    the weight of its state, and when it can make no step of its own no reload
    is running and - unless the loop has been left - no signal is waiting. *)
Theorem reloads_finish ls s s' :
  Forall (fun l => own l = true) ls -> steps ls s = Some s' ->
  (List.length ls + weight s' <= weight s)%nat /\
  (settled s' -> r_running s' = [] /\ (r_loop s' = Looping -> r_ch s' = false)).
Proof.
  intros Ho Hs. split; [|apply settled_idle].
  by apply (run_steps_lighter step own weight _ _ _ reload_step_lighter).
Qed.

(** ** No signal is lost *)

(** The version at the last signal, or a later one, has been dealt with or is
    on its way. *)
Definition answered (v : nat) (s : Reloader) : Prop :=
  exists w, (v <= w)%nat /\ (w ∈ r_applied s \/ w ∈ r_rejected s).

Definition on_its_way (v : nat) (s : Reloader) : Prop :=
  r_ch s = true \/ Started ∈ r_running s \/ exists w, (v <= w)%nat /\ Loaded w ∈ r_running s.

Record fresh (s : Reloader) : Prop := {
  fresh_signal : forall v, r_signal s = Some v -> (v <= r_file s)%nat;
  fresh_answer : forall v, r_signal s = Some v -> answered v s \/ on_its_way v s
}.

Lemma elem_of_remove_at (xs : list Stage) i g g' :
  xs !! i = Some g -> g' ∈ xs -> g' = g \/ g' ∈ remove_at i xs.
Proof.
  intros H Hin. rewrite <- (take_drop_middle _ _ _ H) in Hin. unfold remove_at.
  rewrite elem_of_app, elem_of_cons in Hin. rewrite elem_of_app.
  destruct Hin as [H1|[H1|H1]]; auto.
Qed.

Lemma elem_of_set_at (xs : list Stage) i g g' h :
  xs !! i = Some g -> h ∈ xs -> h = g \/ h ∈ <[i := g']> xs.
Proof.
  intros H [j Hj]%list_elem_of_lookup_1. destruct (decide (i = j)) as [->|Hne].
  - left. congruence.
  - right. apply list_elem_of_lookup_2 with j. by rewrite list_lookup_insert_ne.
Qed.

Lemma answered_mono v s s' :
  r_applied s ⊆ r_applied s' -> r_rejected s ⊆ r_rejected s' -> answered v s -> answered v s'.
Proof. intros H1 H2 (w & Hw & [H|H]); exists w; split; auto. Qed.

Lemma step_fresh l s s' : fresh s -> step l s = Some s' -> fresh s'.
Proof.
  intros [H1 H2] Hs. destruct l as [| | | |i|i| |]; simpl in Hs.
  - simplify_eq. split; simpl; [intros v Hv; specialize (H1 v Hv); lia|done].
  - simplify_eq. split; simpl; intros v Hv; simplify_eq; [done|]. right. by left.
  - simplify_eq. split; done.
  - destruct (r_loop s), (r_ch s); simplify_eq. split; [done|].
    intros v Hv. destruct (H2 v Hv) as [H|H]; [by left|right]. right; left. simpl. set_solver.
  - destruct (r_running s !! i) as [[|w]|] eqn:Ei; try done.
    destruct (valid (r_file s)); simplify_eq; (split; [done|]); intros v Hv; simpl in Hv;
      pose proof (H1 v Hv) as Hf; destruct (H2 v Hv) as [H|H].
    + by left.
    + right. destruct H as [H|[H|(w & Hw & H)]]; [by left| |].
      * right; right. exists (r_file s). split; [done|]. simpl.
        apply list_elem_of_lookup_2 with i. apply list_lookup_insert_eq. by eapply lookup_lt_Some.
      * right; right. exists w. split; [done|]. simpl.
        by destruct (elem_of_set_at _ i _ (Loaded (r_file s)) _ Ei H).
    + left. eapply answered_mono; [| |exact H]; simpl; set_solver.
    + destruct H as [H|[H|(w & Hw & H)]].
      * right. by left.
      * left. exists (r_file s). split; [done|]. right. simpl. set_solver.
      * right; right; right. exists w. split; [done|]. simpl.
        by destruct (elem_of_remove_at _ _ _ _ Ei H).
  - destruct (r_running s !! i) as [[|w]|] eqn:Ei; simplify_eq. split; [done|].
    intros v Hv. simpl in Hv. destruct (H2 v Hv) as [H|[H|[H|(u & Hu & H)]]].
    + left. eapply answered_mono; [| |exact H]; simpl; set_solver.
    + right. by left.
    + right; right; left. simpl. by destruct (elem_of_remove_at _ _ _ _ Ei H).
    + destruct (elem_of_remove_at _ _ _ _ Ei H) as [E|H']; simplify_eq.
      * left. exists w. split; [done|]. left. simpl. set_solver.
      * right; right; right. by exists u.
  - destruct (r_loop s), (r_done s); simplify_eq. by split.
  - destruct (r_loop s), (r_running s) eqn:Er; simplify_eq. split; [done|]. intros v Hv.
    destruct (H2 v Hv) as [H|H]; [by left|by right].
Qed.

Lemma steps_fresh ls s s' : fresh s -> steps ls s = Some s' -> fresh s'.
Proof. apply run_steps_preserves. exact step_fresh. Qed.

Lemma new_reloader_fresh : fresh new_reloader.
Proof. by split. Qed.

(** C26: no signal is lost while the loop runs: after any history - edits,
    bursts of signals that find the channel full, reloads in any order - once
    the program has nothing left to do the scheduler has been handed the
    version of the file at the last signal or a later one, or such a version
    has been read and refused. *)
Theorem signal_is_answered ls s v :
  steps ls new_reloader = Some s -> r_signal s = Some v -> settled s -> r_loop s = Looping ->
  answered v s.
Proof.
  intros Hs Hv Hset Hl. destruct (settled_idle _ Hset) as [Hr Hc].
  destruct (fresh_answer _ (steps_fresh _ _ _ new_reloader_fresh Hs) _ Hv) as [H|H]; [done|].
  unfold on_its_way in H. rewrite Hr, (Hc Hl) in H. destruct H as [H|[H|(w & _ & H)]]; [done| |];
    by apply elem_of_nil in H.
Qed.

(** But the last reload to be applied need not be the newest: each signal
    starts a goroutine of its own, and between reading the file and handing
    the result over one can be overtaken, so that the scheduler is left with a
    version older than the one it had - with nothing more to come. *)
Theorem older_reload_may_win :
  valid 1%nat = true -> valid 2%nat = true ->
  exists ls s, steps ls new_reloader = Some s /\ settled s /\ r_file s = 2%nat /\
    r_signal s = Some 2%nat /\ r_applied s = [2; 1]%nat.
Proof.
  intros H1 H2.
  exists [L_edit; L_signal; L_take; L_read 0; L_edit; L_signal; L_take; L_read 1; L_apply 1;
          L_apply 0].
  eexists. split; [simpl; rewrite H1; simpl; rewrite H2; reflexivity|].
  split; [|done]. intros l Hl. destruct l; try done.
Qed.
End reloader.

Lemma older_reload_may_win_witness :
  exists ls s, steps (fun _ => true) ls new_reloader = Some s /\ settled (fun _ => true) s /\
    r_file s = 2%nat /\ r_signal s = Some 2%nat /\ r_applied s = [2; 1]%nat.
Proof. apply (older_reload_may_win (fun _ => true)); reflexivity. Defined.

(** Two signals, the second one dropped; the file changes in between. *)
Definition demo_run : list Label := [L_edit; L_signal; L_edit; L_signal; L_take; L_read 0; L_apply 0].

Definition demo_end : Reloader :=
  {| r_file := 2; r_ch := false; r_running := []; r_applied := [2%nat]; r_rejected := [];
     r_loop := Looping; r_done := false; r_signal := Some 2%nat |}.

Lemma demo_settled : settled (fun _ => true) demo_end.
Proof. intros l Hl. by destruct l. Qed.

Lemma signal_is_answered_witness :
  steps (fun _ => true) demo_run new_reloader = Some demo_end /\ answered 2 demo_end.
Proof.
  split; [reflexivity|].
  apply (signal_is_answered (fun _ => true) demo_run); [reflexivity|reflexivity|exact demo_settled|reflexivity].
Defined.

Lemma reloads_finish_witness :
  exists s', steps (fun _ => true) [L_take; L_read 0; L_apply 0] (deliver_signal demo_end) = Some s' /\
    (3 + weight s' <= weight (deliver_signal demo_end))%nat /\
    r_running s' = [] /\ (r_loop s' = Looping -> r_ch s' = false).
Proof.
  eexists. split; [reflexivity|].
  match goal with |- (3 + weight ?s' <= _)%nat /\ _ =>
    destruct (reloads_finish (fun _ => true) [L_take; L_read 0; L_apply 0] (deliver_signal demo_end) s')
      as [H1 H2]; [by repeat constructor|reflexivity|split; [exact H1|]]
  end.
  apply H2. intros l Hl. by destruct l.
Defined.
