(* ===== verification/Sender.v ===== *)
(** * The heartbeat sender (tasks/registry) and the agent's place in the listing

    The sender reports at once and then at every tick of a ticker whose channel
    holds one tick. What a request does - how long it takes, whether and when
    its body reaches the server - is an argument. *)
From Stdlib Require Import String.
From S2P Require Import Prelude GoTime Web Configs AgentRegistry Bodies.

(** ** The sender *)

(** The socket's local address; [None]: not a UDP address. *)
Definition resolveOutboundIP (dial : result (option string)) : string :=
  match dial with Ok (Some ip) => ip | _ => EmptyString end.

Record Sender := { sd_cfg : RegistryConfig; sd_info : AgentInfo }.

Definition NewSender (cfg : RegistryConfig) (version hostname k8s_node : string)
    (types : list string) (dial : result (option string)) (now : Time) : Sender :=
  {| sd_cfg := cfg;
     sd_info := {| Hostname := hostname; Version := version; Tasks := Some types;
                   IP := resolveOutboundIP dial; K8sNode := k8s_node; StartTime := Unix now;
                   LastSeen := 0; Online := false |} |}.

(** One [send]: its duration and, if the request reaches the server, after how
    long. *)
Record Send := { sn_took : Duration; sn_arrives : option Duration }.

(** The ticks of a ticker made at [base] are at multiples of the interval;
    [j] is the last one received, [f] the time at which the loop waits again. A
    tick that finds the channel full is dropped. *)
Fixpoint ticked (interval : Duration) (base : Time) (j : Z) (f : Time) (sends : list Send)
    : list (Time * Send) :=
  match sends with
  | [] => []
  | c :: sends' =>
      let '(j', t) :=
        if base + (j + 1) * interval <=? f then ((f - base) / interval, f)
        else (j + 1, base + (j + 1) * interval) in
      (t, c) :: ticked interval base j' (t + sn_took c) sends'
  end.

(** The requests until the loop is stopped. *)
Definition sender_run (s : Sender) (start : Time) (sends : list Send) : list (Time * Send) :=
  if decide (reg_URL (sd_cfg s) = EmptyString) then []
  else
    match sends with
    | [] => []
    | c :: sends' =>
        let f := start + sn_took c in
        (start, c) :: ticked (reg_Interval (sd_cfg s)) f 0 f sends'
    end.

(** ** How far apart the requests are *)
Section gaps.
Context (interval timeout : Duration).
Context (interval_pos : 0 < interval).

Definition within_timeout (c : Send) : Prop :=
  0 <= sn_took c <= timeout /\
  match sn_arrives c with Some a => 0 <= a <= sn_took c | None => True end.

(** Consecutive requests are at most this far apart. *)
Definition gap : Duration := interval + timeout.

Definition close (t : Time) (xs : list (Time * Send)) : Prop :=
  forall k x, xs !! k = Some x -> t <= x.1 <= t + (Z.of_nat k + 1) * gap.

Lemma ticked_close base j t f sends :
  Forall within_timeout sends -> base + j * interval <= f -> t <= f <= t + timeout ->
  close t (ticked interval base j f sends).
Proof using interval_pos.
  intros Hw. revert j t f. induction Hw as [|c sends [Hc _] _ IH]; intros j t f Hj Hf; [done|].
  cbn [ticked].
  assert (exists j' t', (if base + (j + 1) * interval <=? f then ((f - base) / interval, f)
      else (j + 1, base + (j + 1) * interval)) = (j', t') /\
    base + j' * interval <= t' /\ t <= t' <= t + interval + timeout) as (j' & t' & -> & H1 & H2).
  { destruct (Z.leb_spec (base + (j + 1) * interval) f); eexists _, _; (split; [reflexivity|]).
    - split; [|lia]. pose proof (Z.mul_div_le (f - base) interval interval_pos). lia.
    - lia. }
  intros [|k] x Hx; simpl in Hx; [simplify_eq; unfold gap; simpl; lia|].
  specialize (IH j' t' (t' + sn_took c) ltac:(lia) ltac:(lia) k x Hx).
  rewrite Nat2Z.inj_succ, Z.add_succ_l, Z.mul_succ_l. unfold gap in *. lia.
Qed.

(** Of two requests, the later one is at most this much later. *)
Definition spaced (xs : list (Time * Send)) : Prop :=
  forall i k x y, xs !! i = Some x -> xs !! (i + k)%nat = Some y ->
    x.1 <= y.1 <= x.1 + Z.of_nat k * gap.

Lemma spaced_cons t c xs : close t xs -> spaced xs -> spaced ((t, c) :: xs).
Proof.
  intros Hc Hs i k x y Hx Hy. destruct i as [|i]; [|by apply (Hs i)].
  simpl in Hx. simplify_eq. destruct k as [|k]; simpl in Hy; [simplify_eq; simpl; lia|].
  specialize (Hc k y Hy). rewrite Nat2Z.inj_succ, Z.mul_succ_l.
  rewrite Z.mul_add_distr_r in Hc. simpl. lia.
Qed.

Lemma ticked_spaced base j f sends :
  Forall within_timeout sends -> base + j * interval <= f ->
  spaced (ticked interval base j f sends).
Proof using interval_pos.
  intros Hw. revert j f. induction Hw as [|c sends Hc Hw IH]; intros j f Hj; [done|].
  cbn [ticked]. destruct Hc as [Hc _].
  assert (exists j' t', (if base + (j + 1) * interval <=? f then ((f - base) / interval, f)
      else (j + 1, base + (j + 1) * interval)) = (j', t') /\ base + j' * interval <= t')
    as (j' & t' & -> & H1).
  { destruct (Z.leb_spec (base + (j + 1) * interval) f); eexists _, _; (split; [reflexivity|]).
    - pose proof (Z.mul_div_le (f - base) interval interval_pos). lia.
    - lia. }
  apply spaced_cons; [|apply IH; lia]. apply ticked_close; [done|lia|lia].
Qed.
End gaps.

Lemma sender_run_spaced s start sends :
  0 < reg_Interval (sd_cfg s) -> Forall (within_timeout (reg_Timeout (sd_cfg s))) sends ->
  spaced (reg_Interval (sd_cfg s)) (reg_Timeout (sd_cfg s)) (sender_run s start sends).
Proof.
  intros Hi Hw. unfold sender_run. case_decide; [done|].
  destruct Hw as [|c sends [Hc _] Hw]; [done|].
  apply spaced_cons; [apply ticked_close; try done; lia|apply ticked_spaced; try done; lia].
Qed.

Lemma ticked_within timeout interval base j f sends :
  Forall (within_timeout timeout) sends ->
  Forall (fun x => within_timeout timeout x.2) (ticked interval base j f sends).
Proof.
  intros Hw. revert j f. induction Hw as [|c sends Hc _ IH]; intros j f; simpl; [constructor|].
  by case_match; constructor.
Qed.

Lemma sender_run_within s start sends :
  Forall (within_timeout (reg_Timeout (sd_cfg s))) sends ->
  Forall (fun x => within_timeout (reg_Timeout (sd_cfg s)) x.2) (sender_run s start sends).
Proof.
  intros Hw. unfold sender_run. case_decide; [constructor|].
  destruct Hw; constructor; [done|]. by apply ticked_within.
Qed.

(** ** The registry's side *)
(** The body the sender makes is read as what it reports. *)
Lemma sent_is_received i e : reportable i -> decode_agent e (heartbeat_body i) = Ok i.
Proof. intros H. rewrite <- (app_nil_r (heartbeat_body i)). by apply decode_heartbeat_body. Qed.

Section online.
Context (ttl : Duration).

(** A host that has reported keeps a report at least as recent. *)
Lemma reported_recent t info os m :
  Hostname info <> EmptyString ->
  Sorted Z.le (t :: (op_time <$> os)) ->
  (exists r, m !! Hostname info = Some r /\ Unix t <= ar_last_seen r) ->
  exists r, foldl (fun m o => reported o m) m os !! Hostname info = Some r /\
    Unix t <= ar_last_seen r.
Proof.
  intros Hne Hs. apply Sorted_StronglySorted in Hs; [|intros x y z; lia].
  apply StronglySorted_inv in Hs as [_ Hall]. rewrite Forall_fmap in Hall.
  revert m. induction Hall as [|o os Ho _ IH]; intros m Hm; [done|]. simpl. apply IH.
  destruct o as [t' [i|e]|t'|t' online]; simpl in *; try done. case_decide; [done|].
  destruct (decide (Hostname i = Hostname info)) as [E|E].
  - rewrite E, lookup_insert_eq. eexists. split; [done|]. simpl.
    unfold Unix. by apply Z.div_le_mono.
  - by rewrite lookup_insert_ne.
Qed.

Lemma reports_recent t info os :
  Hostname info <> EmptyString -> Sorted Z.le (op_time <$> os) ->
  Op_heartbeat t (Ok info) ∈ os ->
  exists r, reports os !! Hostname info = Some r /\ Unix t <= ar_last_seen r.
Proof.
  intros Hne Hs (pre & post & ->)%list_elem_of_split. unfold reports.
  rewrite foldl_app. simpl. apply reported_recent; [done| |].
  - rewrite fmap_app in Hs. apply Sorted_StronglySorted in Hs; [|intros x y z; lia].
    by apply StronglySorted_app_inv in Hs as (_ & Hs%StronglySorted_Sorted & _).
  - rewrite decide_False by done. rewrite lookup_insert_eq. eexists. split; [done|]. simpl. lia.
Qed.

(** Such a host is in the listing of online agents. *)
Lemma recent_is_listed t info os now db :
  rg_agents db = ∅ -> rg_faults db = [] -> Sorted Z.le ((op_time <$> os) ++ [now]) ->
  Hostname info <> EmptyString -> Op_heartbeat t (Ok info) ∈ os ->
  now <= t + Z.quot ttl Second * Second ->
  exists agents a, fst (handleListAgents ttl now "true" (do_ops ttl os db)) = R_json agents /\
    a ∈ agents /\ Hostname a = Hostname info /\ Online a = true.
Proof.
  destruct db as [m fl]. simpl. intros -> -> Hs Hne Hin Hnow.
  assert (exists clk, Sorted Z.le (clk :: (op_time <$> os) ++ [now])) as [clk Hs'].
  { destruct os as [|o os]; [by apply elem_of_nil in Hin|]. simpl in *.
    exists (op_time o). constructor; [done|]. by constructor. }
  destruct (remembers_ops ttl os clk ∅ ∅ now) as (m' & -> & H); [|done|].
  { intros h. by rewrite !lookup_empty. }
  destruct (reports_recent t info os) as (r & Hr & Ht); [done| |done|].
  { apply Sorted_StronglySorted in Hs; [|intros x y z; lia].
    by apply StronglySorted_app_inv in Hs as (Hs%StronglySorted_Sorted & _ & _). }
  assert (cutoff ttl now <= ar_last_seen r) as Hc.
  { unfold cutoff. assert (Unix now <= Unix t + Z.quot ttl Second); [|lia]. unfold Unix.
    rewrite <- Z.div_add by done. by apply Z.div_le_mono. }
  specialize (H (Hostname info)). unfold reports in Hr. rewrite Hr in H.
  destruct H as [H|[_ H]]; [|lia].
  unfold handleListAgents, ListAgents, statement. simpl. eexists _, _. split; [reflexivity|].
  split; [apply list_elem_of_fmap; exists (Hostname info, r); split; [reflexivity|]|].
  - apply elem_of_rows_by_hostname. by apply map_lookup_filter_Some.
  - split; [done|]. simpl. by apply Z.leb_le.
Qed.

(** C18: an agent that keeps sending stays in the listing of online agents. Let
    requests end within the client's timeout and let at least one in every
    L + 1 consecutive ones reach the server. If the TTL, in whole seconds, is
    at least L + 1 gaps of interval and timeout, and one timeout more, then at
    any time from the (L+1)-st request on until the next one is due to have
    ended, whatever other agents report and however often stale agents are
    removed in between, the host is listed as online: with the defaults - 30 s,
    5 s, a TTL of 90 s - one lost heartbeat is tolerated. What reaches the
    server is the JSON text the sender made of its information, and the
    handler's decoder is what reads it. *)
Theorem agent_stays_online s start sends L m x now os db :
  let cfg := sd_cfg s in
  let reqs := sender_run s start sends in
  rg_agents db = ∅ -> rg_faults db = [] ->
  Hostname (sd_info s) <> EmptyString -> reportable (sd_info s) ->
  0 < reg_Interval cfg -> Forall (within_timeout (reg_Timeout cfg)) sends ->
  (forall i, (i + L < List.length reqs)%nat -> exists k y,
     (i <= k <= i + L)%nat /\ reqs !! k = Some y /\ is_Some (sn_arrives y.2)) ->
  (Z.of_nat L + 1) * gap (reg_Interval cfg) (reg_Timeout cfg) + reg_Timeout cfg <=
    Z.quot ttl Second * Second ->
  reqs !! m = Some x -> (L <= m)%nat ->
  x.1 + reg_Timeout cfg <= now <= x.1 + gap (reg_Interval cfg) (reg_Timeout cfg) + reg_Timeout cfg ->
  Sorted Z.le ((op_time <$> os) ++ [now]) ->
  (forall y a, y ∈ reqs -> sn_arrives y.2 = Some a -> y.1 + a <= now ->
     exists e, Op_heartbeat (y.1 + a) (decode_agent e (heartbeat_body (sd_info s))) ∈ os) ->
  exists agents a, fst (handleListAgents ttl now "true" (do_ops ttl os db)) = R_json agents /\
    a ∈ agents /\ Hostname a = Hostname (sd_info s) /\ Online a = true.
Proof.
  cbn zeta. intros Hdb Hf Hne Hrep Hi Hw Harr Httl Hm HLm Hnow Hs Hops.
  pose proof (sender_run_spaced s start sends Hi Hw) as Hsp.
  pose proof (sender_run_within s start sends Hw) as Hwr.
  destruct (Harr (m - L)%nat) as (k & y & Hk & Hy & [a Ha]).
  { apply lookup_lt_Some in Hm. lia. }
  destruct (Hsp k (m - k)%nat y x Hy) as [H1 H2]; [by replace (k + (m - k))%nat with m by lia|].
  destruct (Forall_lookup_1 _ _ _ _ Hwr Hy) as [Htook Hat]. rewrite Ha in Hat.
  apply (recent_is_listed (y.1 + a) (sd_info s)); try done.
  - destruct (Hops y a) as [e He]; [by eapply list_elem_of_lookup_2|done|lia|].
    by rewrite sent_is_received in He.
  - assert (Z.of_nat (m - k) * gap (reg_Interval (sd_cfg s)) (reg_Timeout (sd_cfg s)) <=
      Z.of_nat L * gap (reg_Interval (sd_cfg s)) (reg_Timeout (sd_cfg s))).
    { apply Z.mul_le_mono_nonneg_r; [unfold gap|]; lia. }
    lia.
Qed.
End online.

(** ** A concrete agent: the second of its three heartbeats is lost *)
Definition demo_sender : Sender :=
  NewSender {| reg_URL := "http://web:8080/api/v1/registry/heartbeat"; reg_Interval := 30 * Second;
               reg_Timeout := 5 * Second |}
    "1.2.0" "web-1" EmptyString ["ping"%string] (Ok (Some "10.0.0.7"%string)) (100 * Second).

Definition demo_sends : list Send :=
  [{| sn_took := Second; sn_arrives := Some Second |}; {| sn_took := 5 * Second; sn_arrives := None |};
   {| sn_took := Second; sn_arrives := Some Second |}].

Definition demo_history : list Op :=
  [Op_heartbeat (101 * Second) (decode_agent "EOF" (heartbeat_body (sd_info demo_sender)));
   Op_heartbeat (140 * Second) (Ok (demo_info "db-1")); Op_clean (150 * Second);
   Op_heartbeat (162 * Second) (decode_agent "EOF" (heartbeat_body (sd_info demo_sender)))].

Lemma demo_reqs :
  sender_run demo_sender (100 * Second) demo_sends =
    zip [100 * Second; 131 * Second; 161 * Second] demo_sends.
Proof. vm_compute. reflexivity. Qed.

Lemma agent_stays_online_witness :
  exists agents a,
    fst (handleListAgents (90 * Second) (190 * Second) "true"
           (do_ops (90 * Second) demo_history empty_registry)) = R_json agents /\
    a ∈ agents /\ Hostname a = "web-1"%string /\ Online a = true.
Proof.
  apply (agent_stays_online (90 * Second) demo_sender (100 * Second) demo_sends 1 2
    (161 * Second, {| sn_took := Second; sn_arrives := Some Second |}) (190 * Second)
    demo_history empty_registry); rewrite ?demo_reqs.
  - reflexivity.
  - reflexivity.
  - discriminate.
  - split; try done. repeat constructor.
  - reflexivity.
  - repeat constructor; vm_compute; discriminate.
  - intros [|[|i]] Hi; simpl in Hi; [| |lia].
    + exists 0%nat. eexists. split_and!; [lia|lia|reflexivity|by eexists].
    + exists 2%nat. eexists. split_and!; [lia|lia|reflexivity|by eexists].
  - vm_compute. discriminate.
  - reflexivity.
  - lia.
  - split; vm_compute; discriminate.
  - repeat constructor; vm_compute; discriminate.
  - intros y a Hy Ha _. simpl in Hy. rewrite !elem_of_cons, elem_of_nil in Hy.
    destruct Hy as [->|[->|[->|[]]]]; simpl in Ha; simplify_eq; exists "EOF"%string; repeat constructor.
Defined.
