(* ===== verification/Pipeline.v ===== *)
(** * From the tasks through the channel to the engine, and the shutdown

    Tasks send their events into a channel of bounded size, the engine takes
    them out and hands each to every output; the end of the context stops both.
    A periodic task runs under the context of its job, a child of the
    scheduler's, which a reload cancels when it drops the job. The
    interleavings are the runs of a labelled step function: the select
    statements of the tasks' Run, of the engine's loop and the waits at the end
    of main (tasks/*/*.go, scheduler/daemon/job.go, internal/engine/engine.go,
    cmd/monitorbeat/main.go). *)
From S2P Require Import Prelude.

Section pipeline.
Context {E : Type} (cap : nat).

(** A task at its send: its event, whether it is one of the keyword scheduler,
    for which [main] waits, and whether the context of its job has been
    cancelled. *)
Record Sending := { sd_keyword : bool; sd_cancelled : bool; sd_event : E }.

(** [Stop] of the task's job. *)
Definition cancel (x : Sending) : Sending :=
  {| sd_keyword := sd_keyword x; sd_cancelled := true; sd_event := sd_event x |}.

Record Pipeline := {
  pl_waiting : list Sending;
  pl_ch : list E;         (* the channel, first in first *)
  pl_engine : bool;       (* the loop of the engine runs *)
  pl_done : bool;         (* the context has ended *)
  pl_returned : bool;     (* main has returned, and with it the process is gone *)
  pl_emitted : list E;    (* every event that came up for sending *)
  pl_sent : list E;
  pl_given_up : list Sending; (* the select took ctx.Done *)
  pl_published : list E   (* handed to every output *)
}.

Definition new_pipeline : Pipeline :=
  {| pl_waiting := []; pl_ch := []; pl_engine := true; pl_done := false; pl_returned := false;
     pl_emitted := []; pl_sent := []; pl_given_up := []; pl_published := [] |}.

(** What the world does: a task reaches its send (a run whose job was dropped
    before reaches it cancelled), a reload drops the job of the task [i] that is
    at its send, the signal to end; and what the program does: task [i] sends,
    gives up, the engine takes an event, leaves, [main] returns. *)
Inductive Label :=
| P_emit (x : Sending) | P_cancel (i : nat) | P_signal
| P_send (i : nat) | P_give_up (i : nat) | P_take | P_leave | P_return.

Definition own (l : Label) : bool := match l with P_emit _ | P_cancel _ | P_signal => false | _ => true end.

Definition delete_at {A} (i : nat) (xs : list A) : list A := take i xs ++ drop (S i) xs.

(** [main] waits for the goroutines of the keyword scheduler and for the engine.
    Waiting for the periodic scheduler ends with its loop: a task's own [Wait]
    only waits for what [Track] has started, which is nothing (see
    [Lifecycle]). *)
Definition may_return (s : Pipeline) : bool :=
  pl_done s && negb (pl_engine s) && forallb (fun x => negb (sd_keyword x)) (pl_waiting s).

(** Whether the task's context has ended: a job's context is a child of the
    scheduler's and has a cancel of its own. *)
Definition ctx_done (s : Pipeline) (x : Sending) : bool := pl_done s || sd_cancelled x.

Definition with_waiting (xs : list Sending) (s : Pipeline) : Pipeline :=
  {| pl_waiting := xs; pl_ch := pl_ch s; pl_engine := pl_engine s; pl_done := pl_done s;
     pl_returned := pl_returned s; pl_emitted := pl_emitted s; pl_sent := pl_sent s;
     pl_given_up := pl_given_up s; pl_published := pl_published s |}.

(** The two cases of the select at a task's send. *)
Definition task_sends (i : nat) (x : Sending) (s : Pipeline) : option Pipeline :=
  if (List.length (pl_ch s) <? cap)%nat then
    Some {| pl_waiting := delete_at i (pl_waiting s); pl_ch := pl_ch s ++ [sd_event x];
            pl_engine := pl_engine s; pl_done := pl_done s; pl_returned := pl_returned s;
            pl_emitted := pl_emitted s; pl_sent := pl_sent s ++ [sd_event x];
            pl_given_up := pl_given_up s; pl_published := pl_published s |}
  else None.

Definition task_gives_up (i : nat) (x : Sending) (s : Pipeline) : option Pipeline :=
  if ctx_done s x then
    Some {| pl_waiting := delete_at i (pl_waiting s); pl_ch := pl_ch s;
            pl_engine := pl_engine s; pl_done := pl_done s; pl_returned := pl_returned s;
            pl_emitted := pl_emitted s; pl_sent := pl_sent s;
            pl_given_up := pl_given_up s ++ [x]; pl_published := pl_published s |}
  else None.

(** The keyword scheduler has no jobs: its tasks run under one context, which
    ends with the program's, and a reload does not reach them. *)
Definition step_alive (l : Label) (s : Pipeline) : option Pipeline :=
  match l with
  | P_emit x =>
      if sd_keyword x && sd_cancelled x then None
      else
        Some {| pl_waiting := pl_waiting s ++ [x]; pl_ch := pl_ch s;
                pl_engine := pl_engine s; pl_done := pl_done s; pl_returned := pl_returned s;
                pl_emitted := pl_emitted s ++ [sd_event x]; pl_sent := pl_sent s;
                pl_given_up := pl_given_up s; pl_published := pl_published s |}
  | P_cancel i =>
      match pl_waiting s !! i with
      | Some x =>
          if sd_keyword x then None else Some (with_waiting (<[i := cancel x]> (pl_waiting s)) s)
      | None => None
      end
  | P_signal =>
      Some {| pl_waiting := pl_waiting s; pl_ch := pl_ch s; pl_engine := pl_engine s;
              pl_done := true; pl_returned := pl_returned s; pl_emitted := pl_emitted s;
              pl_sent := pl_sent s; pl_given_up := pl_given_up s; pl_published := pl_published s |}
  | P_send i =>
      match pl_waiting s !! i with Some x => task_sends i x s | None => None end
  | P_give_up i =>
      match pl_waiting s !! i with Some x => task_gives_up i x s | None => None end
  | P_take =>
      match pl_engine s, pl_ch s with
      | true, e :: ch =>
          Some {| pl_waiting := pl_waiting s; pl_ch := ch; pl_engine := true; pl_done := pl_done s;
                  pl_returned := pl_returned s; pl_emitted := pl_emitted s; pl_sent := pl_sent s;
                  pl_given_up := pl_given_up s; pl_published := pl_published s ++ [e] |}
      | _, _ => None
      end
  | P_leave =>
      if pl_engine s && pl_done s then
        Some {| pl_waiting := pl_waiting s; pl_ch := pl_ch s; pl_engine := false;
                pl_done := pl_done s; pl_returned := pl_returned s; pl_emitted := pl_emitted s;
                pl_sent := pl_sent s; pl_given_up := pl_given_up s; pl_published := pl_published s |}
      else None
  | P_return =>
      if may_return s then
        Some {| pl_waiting := pl_waiting s; pl_ch := pl_ch s; pl_engine := pl_engine s;
                pl_done := pl_done s; pl_returned := true; pl_emitted := pl_emitted s;
                pl_sent := pl_sent s; pl_given_up := pl_given_up s; pl_published := pl_published s |}
      else None
  end.

(** Nothing happens in a process that has ended. *)
Definition step (l : Label) (s : Pipeline) : option Pipeline :=
  if pl_returned s then None else step_alive l s.

Definition steps : list Label -> Pipeline -> option Pipeline := run_steps step.

Definition waiting_events (s : Pipeline) : list E := sd_event <$> pl_waiting s.
Definition lost_events (s : Pipeline) : list E := sd_event <$> pl_given_up s.

(** ** Where every event is *)
Record accounted (s : Pipeline) : Prop := {
  acc_fifo : pl_sent s = pl_published s ++ pl_ch s;
  acc_all : pl_emitted s ≡ₚ pl_sent s ++ lost_events s ++ waiting_events s;
  acc_done : pl_done s = false ->
    Forall (fun x => sd_cancelled x = true) (pl_given_up s) /\
    pl_engine s = true /\ pl_returned s = false;
  acc_cap : (List.length (pl_ch s) <= cap)%nat
}.

(** The steps by which a reload reaches a task that runs. *)
Definition drops_job (l : Label) : bool :=
  match l with P_cancel _ => true | P_emit x => sd_cancelled x | _ => false end.

(** No job has been dropped under a running task. *)
Definition undropped (s : Pipeline) : Prop :=
  Forall (fun x => sd_cancelled x = false) (pl_waiting s) /\
  (pl_done s = false -> pl_given_up s = []).

Lemma delete_at_perm {A} (xs : list A) i x : xs !! i = Some x -> xs ≡ₚ x :: delete_at i xs.
Proof.
  intros H. rewrite <- (take_drop_middle _ _ _ H) at 1. unfold delete_at.
  by rewrite Permutation_middle.
Qed.

Lemma waiting_perm s i x :
  pl_waiting s !! i = Some x ->
  waiting_events s ≡ₚ sd_event x :: (sd_event <$> delete_at i (pl_waiting s)).
Proof. intros H. unfold waiting_events. by rewrite (delete_at_perm _ _ _ H) at 1. Qed.

Lemma waiting_cancelled s i x :
  pl_waiting s !! i = Some x ->
  sd_event <$> <[i := cancel x]> (pl_waiting s) = waiting_events s.
Proof.
  intros H. unfold waiting_events. rewrite list_fmap_insert. apply list_insert_id.
  unfold cancel. simpl. by rewrite list_lookup_fmap, H.
Qed.

Lemma step_accounted l s s' : accounted s -> step l s = Some s' -> accounted s'.
Proof.
  intros [Hf Ha Hd Hc] Hs. unfold step in Hs. destruct (pl_returned s) eqn:Er; [done|].
  destruct l as [x|i| |i|i| | |]; simpl in Hs.
  - case_match; [done|]. simplify_eq. split; simpl; [done| |by rewrite Er|done].
    unfold waiting_events, lost_events in *. simpl. rewrite fmap_app, Ha. by rewrite <- !app_assoc.
  - destruct (pl_waiting s !! i) as [x|] eqn:Ei; [|done]. case_match; [done|]. simplify_eq.
    split; simpl; [done| |by rewrite Er|done]. unfold waiting_events. simpl.
    by rewrite (waiting_cancelled _ _ _ Ei), Ha.
  - simplify_eq. by split.
  - destruct (pl_waiting s !! i) as [x|] eqn:Ei; [|done]. unfold task_sends in Hs.
    destruct (Nat.ltb_spec (List.length (pl_ch s)) cap) as [Hlt|]; [|done]. simplify_eq.
    split; simpl; [by rewrite Hf, app_assoc| |by rewrite Er|].
    + etrans; [exact Ha|]. etrans; [do 2 apply Permutation_app_head; exact (waiting_perm _ _ _ Ei)|].
      unfold waiting_events, lost_events. simpl. solve_Permutation.
    + rewrite length_app. simpl. lia.
  - destruct (pl_waiting s !! i) as [x|] eqn:Ei; [|done]. unfold task_gives_up, ctx_done in Hs.
    destruct (pl_done s || sd_cancelled x) eqn:Ed; [|done]. simplify_eq.
    split; simpl; [done| | |done].
    + etrans; [exact Ha|]. etrans; [do 2 apply Permutation_app_head; exact (waiting_perm _ _ _ Ei)|].
      unfold waiting_events, lost_events. simpl. rewrite fmap_app. simpl. solve_Permutation.
    + intros Hn. destruct (Hd Hn) as (Hg & He & _). rewrite Hn in Ed. simpl in Ed.
      split_and!; [|done|by rewrite Er]. apply Forall_app. by repeat constructor.
  - destruct (pl_engine s) eqn:Ee, (pl_ch s) as [|e ch] eqn:Ec; simplify_eq.
    split; simpl in *; [by rewrite Hf, <- app_assoc|done| |lia].
    intros Hn. split_and!; [by apply Hd|done|done].
  - destruct (pl_engine s), (pl_done s) eqn:Ed; simpl in Hs; simplify_eq.
    split; simpl; [done|done|intros E1; congruence|done].
  - unfold may_return in Hs. destruct (pl_done s) eqn:Ed; [|done].
    case_match; [|done]. simplify_eq. split; simpl; [done|done|intros E1; congruence|done].
Qed.

Lemma steps_accounted ls s s' : accounted s -> steps ls s = Some s' -> accounted s'.
Proof. apply run_steps_preserves. exact step_accounted. Qed.

Lemma new_accounted : accounted new_pipeline.
Proof. split; simpl; [done|done|done|lia]. Qed.

Lemma delete_at_Forall {A} (P : A -> Prop) i xs : Forall P xs -> Forall P (delete_at i xs).
Proof. intros H. apply Forall_app. split; [by apply Forall_take|by apply Forall_drop]. Qed.

Lemma step_undropped l s s' :
  drops_job l = false -> undropped s -> step l s = Some s' -> undropped s'.
Proof.
  intros Hl [Hw Hg] Hs. unfold step in Hs. destruct (pl_returned s); [done|].
  destruct l as [x|i| |i|i| | |]; try done; simpl in Hl, Hs; unfold task_sends, task_gives_up in Hs;
    repeat case_match; simplify_eq; split; simpl; auto using delete_at_Forall.
  - apply Forall_app. by repeat constructor.
  - done.
  - intros Hn. match goal with H : ctx_done _ ?x = true |- _ =>
      unfold ctx_done in H; rewrite Hn in H; simpl in H end.
    match goal with H : pl_waiting s !! _ = Some ?x |- _ =>
      pose proof (Forall_lookup_1 _ _ _ _ Hw H) end. congruence.
Qed.

Lemma new_undropped : undropped new_pipeline.
Proof. by split. Qed.

(** C22: every event a task has come up with is published, in the channel, about to
    be sent or given up by its task, and the outputs get them in the order they
    were sent. Until the end is signalled only a task whose job a reload has
    dropped gives its event up - none when no reload drops the job of a running
    task. Afterwards an event is lost only if its task gave up or was cut off
    at its send, or if it stayed in the channel. *)
Theorem events_are_accounted_for ls s :
  steps ls new_pipeline = Some s ->
  pl_emitted s ≡ₚ pl_published s ++ pl_ch s ++ lost_events s ++ waiting_events s /\
  pl_published s `prefix_of` pl_sent s /\ (List.length (pl_ch s) <= cap)%nat /\
  (pl_done s = false -> Forall (fun x => sd_cancelled x = true) (pl_given_up s)) /\
  (pl_done s = false -> Forall (fun l => drops_job l = false) ls -> lost_events s = []).
Proof.
  intros Hs. destruct (steps_accounted _ _ _ new_accounted Hs) as [Hf Ha Hd Hc].
  split_and!; [|exists (pl_ch s); done|done|by intros Hn; apply Hd|].
  - etrans; [exact Ha|]. rewrite Hf. by rewrite <- app_assoc.
  - intros Hn Hl. unfold lost_events.
    destruct (run_steps_preserves_on step undropped (fun l => drops_job l = false) ls new_pipeline s)
      as [_ Hg]; [exact step_undropped|done|exact new_undropped|done|]. by rewrite Hg.
Qed.

(** ** The shutdown *)
Definition weight (s : Pipeline) : nat :=
  (2 * List.length (pl_waiting s) + List.length (pl_ch s) + (if pl_engine s then 1 else 0) +
   if pl_returned s then 0 else 1)%nat.

Lemma length_delete_at {A} (xs : list A) i x :
  xs !! i = Some x -> List.length xs = S (List.length (delete_at i xs)).
Proof. intros H. exact (Permutation_length (delete_at_perm _ _ _ H)). Qed.

Lemma send_step_lighter l s s' : own l = true -> step l s = Some s' -> (weight s' < weight s)%nat.
Proof.
  intros Ho Hs. unfold weight, step in *. destruct (pl_returned s) eqn:Er; [done|].
  destruct l as [x|i| |i|i| | |]; try done; simpl in Hs;
    unfold task_sends, task_gives_up in Hs.
  - destruct (pl_waiting s !! i) as [x|] eqn:Ei; [|done]. case_match; [|done]. simplify_eq. simpl.
    rewrite (length_delete_at _ _ _ Ei), length_app, Er. simpl. lia.
  - destruct (pl_waiting s !! i) as [x|] eqn:Ei; [|done]. case_match; [|done]. simplify_eq. simpl.
    rewrite (length_delete_at _ _ _ Ei), Er. lia.
  - destruct (pl_engine s), (pl_ch s); simplify_eq. simpl. rewrite Er. lia.
  - destruct (pl_engine s), (pl_done s); simpl in Hs; simplify_eq. simpl. rewrite Er. lia.
  - destruct (may_return s); simplify_eq. simpl. lia.
Qed.

(** Nothing of the program's own is left to do. *)
Definition settled (s : Pipeline) : Prop := forall l, own l = true -> step l s = None.

Lemma step_done l s s' : pl_done s = true -> step l s = Some s' -> pl_done s' = true.
Proof. unfold step. intros Hd Hs. destruct l; simpl in Hs;
  unfold task_sends, task_gives_up in Hs; repeat case_match; by simplify_eq. Qed.

(** Main returns only when no keyword task is at its send and the engine is gone. *)
Definition left_behind (s : Pipeline) : Prop :=
  pl_returned s = true -> pl_engine s = false /\ Forall (fun x => sd_keyword x = false) (pl_waiting s).

Lemma step_left_behind l s s' : left_behind s -> step l s = Some s' -> left_behind s'.
Proof.
  unfold step, left_behind. intros H Hs. destruct (pl_returned s) eqn:Er; [done|].
  destruct l; simpl in Hs; unfold task_sends, task_gives_up in Hs; try (repeat case_match; simplify_eq; simpl; congruence).
  unfold may_return in Hs. destruct (pl_engine s), (pl_done s); try done. simpl in Hs.
  destruct (forallb _ _) eqn:Ef; [|done]. simplify_eq. intros _. split; [done|]. simpl.
  apply Forall_forall. intros x Hx%list_elem_of_In. rewrite forallb_forall in Ef.
  by apply negb_true_iff, Ef.
Qed.

(** C23: the shutdown finishes: from any state of a running process - a full
    channel, any number of tasks blocked at their sends - once the context has
    ended the program makes a bounded number of steps in whatever order, and
    when nothing of it is left to do and no task comes up with anything new,
    [main] has returned; by then every keyword task has left its send and the
    engine has stopped. *)
Theorem shutdown_finishes ls s s' :
  pl_done s = true -> pl_returned s = false ->
  Forall (fun l => own l = true) ls -> steps ls s = Some s' ->
  (List.length ls + weight s' <= weight s)%nat /\ (settled s' -> pl_returned s' = true) /\
  (pl_returned s' = true ->
   pl_engine s' = false /\ Forall (fun x => sd_keyword x = false) (pl_waiting s')).
Proof.
  intros Hd Hr Ho Hs. pose proof (run_steps_preserves step _ _ _ _ step_done Hd Hs) as Hd'.
  split; [by apply (run_steps_lighter step own weight _ _ _ send_step_lighter)|]. split.
  - intros Hset. destruct (pl_returned s') eqn:Er; [done|].
    pose proof (Hset P_leave eq_refl) as H1. pose proof (Hset P_return eq_refl) as H3.
    unfold step in H1, H3. rewrite Er in H1, H3. simpl in H1, H3. unfold may_return in H3.
    rewrite Hd' in H1, H3. rewrite andb_true_r in H1.
    destruct (pl_engine s'); [done|]. simpl in H3.
    destruct (pl_waiting s') as [|x xs] eqn:Ew; [done|].
    pose proof (Hset (P_give_up 0) eq_refl) as H2. unfold step in H2. rewrite Er in H2.
    simpl in H2. rewrite Ew in H2. simpl in H2. unfold task_gives_up, ctx_done in H2.
    by rewrite Hd' in H2.
  - apply (run_steps_preserves step left_behind ls s s'); [exact step_left_behind| |done].
    unfold left_behind. by rewrite Hr.
Qed.

(** The shutdown does not drain the channel: the engine's loop ends with
    the context, before main waits for the tasks, so an event that was sent -
    even one sent before the signal - can be left in the channel when main
    returns. *)
Theorem sent_events_may_be_lost e :
  (0 < cap)%nat ->
  exists ls s, steps ls new_pipeline = Some s /\ pl_returned s = true /\
    pl_sent s = [e] /\ pl_published s = [].
Proof.
  intros Hc.
  exists [P_emit {| sd_keyword := false; sd_cancelled := false; sd_event := e |};
          P_send 0; P_signal; P_leave; P_return]. eexists. split.
  - unfold steps, step. simpl. unfold task_sends. simpl. destruct cap as [|n]; [lia|]. reflexivity.
  - by split_and!.
Qed.

(** Nor does it wait for the periodic tasks: one that is at its send, with room
    in the channel, can be cut off by the end of the process. *)
Theorem periodic_task_may_be_cut_off e :
  exists ls s, steps ls new_pipeline = Some s /\ pl_returned s = true /\
    waiting_events s = [e] /\ pl_sent s = [] /\ pl_given_up s = [].
Proof.
  exists [P_emit {| sd_keyword := false; sd_cancelled := false; sd_event := e |};
          P_signal; P_leave; P_return]. eexists. split; [reflexivity|].
  by split_and!.
Qed.

(** A reload that drops a job loses the event its running task has come up with,
    whatever room the channel has. *)
Theorem dropped_job_loses_event e :
  exists ls s, steps ls new_pipeline = Some s /\ pl_done s = false /\
    pl_emitted s = [e] /\ lost_events s = [e] /\ pl_sent s = [].
Proof.
  exists [P_emit {| sd_keyword := false; sd_cancelled := false; sd_event := e |};
          P_cancel 0; P_give_up 0]. eexists. split; [reflexivity|].
  by split_and!.
Qed.
End pipeline.

(** ** Concrete runs: a channel of one, three tasks *)
Definition at_send (keyword : bool) {E} (e : E) : Sending :=
  {| sd_keyword := keyword; sd_cancelled := false; sd_event := e |}.

Definition demo_state : Pipeline (E := nat) :=
  {| pl_waiting := [at_send true 2%nat; at_send false 3%nat];
     pl_ch := [1%nat]; pl_engine := true; pl_done := true; pl_returned := false;
     pl_emitted := [1; 2; 3]%nat; pl_sent := [1%nat]; pl_given_up := []; pl_published := [] |}.

Lemma shutdown_finishes_witness :
  exists s', steps 1 [P_take; P_send 1; P_leave; P_give_up 0; P_return] demo_state = Some s' /\
    (5 + weight s' <= weight demo_state)%nat /\ pl_returned s' = true /\
    pl_published s' = [1%nat] /\ pl_ch s' = [3%nat].
Proof.
  eexists. split; [vm_compute; reflexivity|].
  match goal with |- (5 + weight ?s' <= _)%nat /\ _ =>
    destruct (shutdown_finishes 1 [P_take; P_send 1; P_leave; P_give_up 0; P_return] demo_state s')
      as (H1 & H2 & _);
      [reflexivity|reflexivity|by repeat constructor|vm_compute; reflexivity|split; [exact H1|]]
  end.
  split; [|split; reflexivity]. apply H2. intros l Hl. reflexivity.
Defined.

Definition demo_labels : list Label :=
  [P_emit (at_send false 1%nat); P_send 0; P_emit (at_send true 2%nat); P_take;
   P_emit (at_send false 3%nat); P_send 1].

Lemma events_are_accounted_for_witness :
  exists s, steps 1 demo_labels new_pipeline = Some s /\
    pl_published s = [1%nat] /\ lost_events s = [] /\
    pl_emitted s ≡ₚ pl_published s ++ pl_ch s ++ lost_events s ++ waiting_events s.
Proof.
  eexists. split; [vm_compute; reflexivity|].
  match goal with |- pl_published ?s = _ /\ _ =>
    destruct (events_are_accounted_for 1 demo_labels s) as (H1 & _ & _ & _ & H2)
  end; [vm_compute; reflexivity|].
  split; [reflexivity|]. split; [|exact H1]. apply H2; [reflexivity|by repeat constructor].
Defined.
