(* ===== verification/Delivery.v ===== *)
(** * From the tasks to the server (internal/engine, internal/output, cmd/monitorbeat)

    [Pipeline], [Engine], [Wiring] and [Retention] put together: the running
    agent is the channel with its tasks, the engine with its outputs, and the
    machine they write to. What every event the engine takes becomes at an HTTP
    output, whatever the other outputs and the network do. *)
From stdpp Require Import pretty.
From S2P Require Import Prelude GoTime FileSystem Configs FileOutput HttpOutput HttpPublish HttpSpec Engine Wiring Pipeline Retention.

(** ** Which files an output touches *)

(** Only files in [P] have changed, and no failure has come up. *)
Record touches (P : Path -> Prop) (fs fs' : FS) : Prop := {
  to_faults : fs_faults fs = [] -> fs_faults fs' = [];
  to_frame : forall q, ~ P q -> files fs' !! q = files fs !! q
}.

#[export] Instance touches_refl P : Reflexive (touches P).
Proof. intros fs. by split. Qed.

#[export] Instance touches_trans P : Transitive (touches P).
Proof. intros a b c [F1 G1] [F2 G2]. split; [auto|]. intros q Hq. by rewrite G2, G1. Qed.

Lemma syscall_touches {A} P (act : _ -> result (_ * A)) fs :
  (forall m m' a, act m = Ok (m', a) -> forall q, ~ P q -> m' !! q = m !! q) ->
  touches P fs (snd (syscall act fs)).
Proof.
  intros H. unfold syscall. split.
  - intros E. rewrite E. simpl. case_match; [case_match|]; simpl; by rewrite E.
  - intros q Hq. repeat case_match; simpl; try done. by eapply H.
Qed.

Create HintDb touches.

Section calls.
Context (P : Path -> Prop).

Lemma open_touches p fs : P p -> touches P fs (snd (fs_open p fs)).
Proof.
  intros Hp. apply syscall_touches. intros m m' a E q Hq. simplify_eq. case_match; [done|].
  apply lookup_insert_ne. by intros ->.
Qed.

Lemma size_touches p fs : touches P fs (snd (fs_size p fs)).
Proof. apply syscall_touches. intros. by simplify_eq. Qed.

Lemma stat_touches p fs : touches P fs (snd (fs_stat p fs)).
Proof. apply syscall_touches. intros. by case_match; simplify_eq. Qed.

Lemma close_touches fs : touches P fs (snd (fs_close fs)).
Proof. apply syscall_touches. intros. by simplify_eq. Qed.

Lemma append_touches p l fs : P p -> touches P fs (snd (fs_append p l fs)).
Proof.
  intros Hp. apply syscall_touches. intros m m' a E q Hq. simplify_eq.
  apply lookup_insert_ne. by intros ->.
Qed.

Lemma rename_touches src dst fs : P src -> P dst -> touches P fs (snd (fs_rename src dst fs)).
Proof.
  intros H1 H2. apply syscall_touches. intros m m' a E q Hq. case_match; simplify_eq.
  rewrite lookup_insert_ne, lookup_delete_ne; [done|by intros ->|by intros ->].
Qed.
End calls.

#[export] Hint Resolve open_touches size_touches stat_touches close_touches append_touches
  rename_touches : touches.

(** Follow a method through its system calls: each is named by the equation the
    case analysis leaves, and touches what it may. *)
Ltac through_calls P :=
  repeat match goal with
  | |- touches _ ?fs ?fs => reflexivity
  | |- context [match ?t with (_, _) => _ end] =>
      lazymatch type of t with
      | (_ * FS)%type =>
          let fs := lazymatch t with ?f ?fs => fs end in
          assert (touches P fs (snd t)) by (eauto with touches);
          let r := fresh "r" in let fs' := fresh "fs" in
          destruct t as [r fs']; cbn [fst snd] in *
      end
  | |- context [match ?r with Ok _ => _ | Err _ => _ end] => destruct r; cbn [fst snd] in *
  | |- context [match ?h with NoFile => _ | OpenFile => _ | ClosedFile => _ end] => destruct h
  | |- context [if ?b then _ else _] => destruct b; cbn [fst snd] in *
  end.

Ltac chained :=
  repeat match goal with
  | |- touches _ ?a ?a => reflexivity
  | H : touches ?P ?a ?b |- touches ?P ?a _ => transitivity b; [exact H|]
  end.

Lemma touches_mono (P Q : Path -> Prop) fs fs' :
  (forall q, P q -> Q q) -> touches P fs fs' -> touches Q fs fs'.
Proof. intros HPQ [H1 H2]. split; [done|]. intros q Hq. apply H2. auto. Qed.

(** *** The rotating file *)
Definition file_paths (f : File) (q : Path) : Prop := q = fo_path f \/ q = backup_path f.

(** What a method leaves: the same path, and only the output's files touched. *)
Definition file_step (f : File) (fs : FS) (r : result unit * File * FS) : Prop :=
  fo_path (snd (fst r)) = fo_path f /\ touches (file_paths f) fs (snd r).

Lemma file_paths_own f : file_paths f (fo_path f).
Proof. by left. Qed.

Lemma file_paths_backup f : file_paths f (backup_path f).
Proof. by right. Qed.
#[export] Hint Resolve file_paths_own file_paths_backup : touches.

Lemma file_open_step f fs : file_step f fs (FileOutput.open f fs).
Proof.
  unfold file_step, FileOutput.open.
  through_calls (file_paths f); simpl; split; try done; chained.
Qed.

Lemma file_step_trans f f1 fs fs1 r :
  fo_path f1 = fo_path f -> touches (file_paths f) fs fs1 -> file_step f1 fs1 r -> file_step f fs r.
Proof.
  intros E H1 [E2 H2]. split; [congruence|]. etrans; [exact H1|].
  assert (file_paths f = file_paths f1) as -> by (unfold file_paths, backup_path; by rewrite E).
  done.
Qed.

Lemma file_rotate_step f fs : file_step f fs (FileOutput.rotate f fs).
Proof.
  unfold FileOutput.rotate. destruct (fo_f f).
  - through_calls (file_paths f). eapply file_step_trans; [done|eassumption|apply file_open_step].
  - unfold with_f.
    assert (touches (file_paths f) fs (snd (fs_close fs))) as H1 by auto with touches.
    destruct (fs_close fs) as [r1 fs1]. simpl in *.
    assert (touches (file_paths f) fs1 (snd (fs_rename (fo_path f) (backup_path f) fs1))) as H2
      by auto with touches.
    change (backup_path (with_handle ClosedFile (fo_written f) f)) with (backup_path f).
    destruct (fs_rename (fo_path f) (backup_path f) fs1) as [r2 fs2]. simpl in H2.
    by eapply file_step_trans; [|etrans; [exact H1|exact H2]|apply file_open_step].
  - through_calls (file_paths f). eapply file_step_trans; [done|eassumption|apply file_open_step].
Qed.

Section file.
Context {Event : Type} (encode : Event -> result string).

Lemma write_line_step l f fs : file_step f fs (write_line l f fs).
Proof.
  unfold write_line. destruct (fo_f f); [by split| |by split].
  assert (touches (file_paths f) fs (snd (fs_append (fo_path f) l fs))) as H1 by auto with touches.
  destruct (fs_append (fo_path f) l fs) as [[n|e] fs1]; simpl in *; [|by split].
  case_match; [|by split].
  match goal with |- context [rotate ?f' fs1] => pose proof (file_rotate_step f' fs1) as Hr end.
  destruct (rotate _ fs1) as [[r f2] fs2]. simpl in *. by eapply file_step_trans; [|exact H1|exact Hr].
Qed.

Lemma file_publish_step ev f fs : file_step f fs (FileOutput.Publish encode ev f fs).
Proof.
  unfold FileOutput.Publish. destruct (encode ev) as [b|e]; [|by split].
  pose proof (file_open_step f fs) as [E H].
  destruct (fo_f f); [|apply write_line_step..].
  destruct (FileOutput.open f fs) as [[[[]|e] f1] fs1]; simpl in *; [|by split].
  by eapply file_step_trans; [|exact H|apply write_line_step].
Qed.
End file.

(** *** The fallback file *)
Definition http_paths (cfg : HTTPOutputConfig) : Path -> Prop :=
  own_file (FallbackPath cfg) (Z.to_nat (FallbackMaxBackups cfg)).

Definition http_step (h : HTTPOutput) (fs : FS) (r : result unit * HTTPOutput * FS) : Prop :=
  h_cfg (snd (fst r)) = h_cfg h /\ touches (http_paths (h_cfg h)) fs (snd r).

Lemma shift_backups_touches p n k fs :
  (k <= n)%nat -> touches (own_file p n) fs (snd (shift_backups p k fs)).
Proof.
  revert fs. induction k as [|k IH]; intros fs Hk; [done|]. cbn [shift_backups].
  assert (forall i, 1 <= i <= Z.of_nat n + 1 -> own_file p n (backup_name p i)) as Ho
    by (intros i Hi; right; by exists i).
  assert (own_file p n (backup_name p (Z.of_nat (S k)))) by (apply Ho; lia).
  assert (own_file p n (backup_name p (Z.of_nat (S k) + 1))) by (apply Ho; lia).
  assert (touches (own_file p n) fs (snd (fs_stat (backup_name p (Z.of_nat (S k))) fs))) as H1
    by auto with touches.
  destruct (fs_stat _ fs) as [[[]|e] fs1]; simpl in H1; [|etrans; [exact H1|apply IH; lia]].
  assert (touches (own_file p n) fs1 (snd (fs_rename (backup_name p (Z.of_nat (S k)))
    (backup_name p (Z.of_nat (S k) + 1)) fs1))) as H2 by auto with touches.
  destruct (fs_rename _ _ fs1) as [[[]|e] fs2]; simpl in H2.
  - etrans; [exact H1|]. etrans; [exact H2|apply IH; lia].
  - by etrans.
Qed.

Lemma http_paths_own cfg : http_paths cfg (FallbackPath cfg).
Proof. by left. Qed.
Lemma http_paths_first cfg : http_paths cfg (FallbackPath cfg +:+ ".1").
Proof. right. exists 1. split; [lia|done]. Qed.
#[export] Hint Resolve http_paths_own http_paths_first : touches.

Lemma rotateFallback_step h fs : http_step h fs (rotateFallback h fs).
Proof.
  unfold rotateFallback. set (hf := if fbFile h then _ else (h, fs)).
  assert (h_cfg hf.1 = h_cfg h /\ touches (http_paths (h_cfg h)) fs hf.2) as [Hc H1].
  { unfold hf. destruct (fbFile h); [|done].
    assert (touches (http_paths (h_cfg h)) fs (snd (fs_close fs))) by auto with touches.
    by destruct (fs_close fs). }
  destruct hf as [h1 fs1]. simpl in Hc, H1. unfold http_step. rewrite Hc.
  set (p := FallbackPath (h_cfg h)). set (n := Z.to_nat (FallbackMaxBackups (h_cfg h))).
  pose proof (shift_backups_touches p n n fs1 (Nat.le_refl n)) as H2. fold (http_paths (h_cfg h)) in H2.
  destruct (shift_backups p n fs1) as [[[]|e] fs2]; simpl in H2 |- *; [|split; [done|by etrans]].
  assert (touches (http_paths (h_cfg h)) fs2 (snd (fs_rename p (p +:+ ".1") fs2))) as H3
    by (unfold p; auto with touches).
  destruct (fs_rename p _ fs2) as [[[]|e] fs3]; simpl in H3 |- *; [|case_decide];
    (split; [done|]); simpl; (etrans; [exact H1|]; by etrans).
Qed.

Lemma open_fallback_step h fs : http_step h fs (open_fallback h fs).
Proof.
  unfold http_step, open_fallback. destruct (fbFile h); [by split|].
  through_calls (http_paths (h_cfg h)); simpl; split; try done; chained.
Qed.

Lemma writeFallback_step body h fs : http_step h fs (writeFallback body h fs).
Proof.
  unfold writeFallback. case_decide; [by split|].
  pose proof (open_fallback_step h fs) as [Hc H1].
  destruct (open_fallback h fs) as [[[[]|e] h1] fs1]; simpl in *; [|by split].
  assert (touches (http_paths (h_cfg h)) fs1
    (snd (fs_append (FallbackPath (h_cfg h)) (body +:+ newline) fs1))) as H2 by auto with touches.
  destruct (fs_append _ _ fs1) as [[n|e] fs2]; simpl in H2; [|split; [done|by etrans]].
  case_match; [|split; [done|by etrans]].
  match goal with |- context [rotateFallback ?h' fs2] => pose proof (rotateFallback_step h' fs2) as [Hc3 H3] end.
  unfold http_paths in H3. simpl in Hc3, H3. rewrite Hc in Hc3, H3. fold (http_paths (h_cfg h)) in H3.
  destruct (rotateFallback _ fs2) as [[[[]|e] h3] fs3]; simpl in *;
    (split; [done|]); simpl; (etrans; [exact H1|]; by etrans).
Qed.

(** ** The machine under the engine *)
Section delivery.
Context {R : MapRange} {F J : Type}.
Context (render : F -> result string) (one : F).
Context (marshal_event : Event F J -> result string).
Context (marshal_record : gmap string (Cell F J) -> result string).
Context (valid : string -> string -> bool).
#[local] Existing Instance output_ops.
Abbreviation ops := (output_ops render one marshal_event marshal_record valid).
Abbreviation publish_one :=
  (publish_output render one marshal_event marshal_record valid).
Abbreviation fate := (fate_of render one marshal_event marshal_record).
Abbreviation kept := (kept_entries render one marshal_event marshal_record).
Abbreviation format := (formatBody render one marshal_event marshal_record).

(** The files an output writes, renames or creates. *)
Definition writes (o : Output) : Path -> Prop :=
  match o with
  | O_Console => fun _ => False
  | O_File f => file_paths f
  | O_HTTP h => http_paths (h_cfg h)
  end.

Lemma publish_touches ev o m :
  let '(_, o', m') := publish_one ev o m in
  writes o' = writes o /\ touches (writes o) (mc_fs m) (mc_fs m') /\ net_grows (mc_net m) (mc_net m').
Proof.
  destruct o as [|f|h]; simpl.
  - unfold console_publish, write_stdout. by repeat case_match; simplify_eq.
  - unfold on_file. pose proof (file_publish_step marshal_event ev f (mc_fs m)) as [E H].
    destruct (FileOutput.Publish _ _ _ _) as [[r f'] fs']. simpl in *. split_and!; [|done|done].
    unfold file_paths, backup_path. by rewrite E.
  - unfold HttpPublish.Publish. destruct (closed h); simpl; [done|].
    destruct (format _ ev) as [[body ct]|e]; simpl; [|done].
    unfold trySend. set (rq := request_of _ body ct).
    pose proof (attempts_grow (valid (rq_method rq) (rq_url rq)) rq
      (Z.to_nat (RetryMax (h_cfg h) + 1)) 0 (mc_net m)) as Hg.
    destruct (attempts _ rq _ 0 (mc_net m)) as [[] net']; simpl in Hg |- *; [by split_and!|].
    pose proof (writeFallback_step body h (mc_fs m)) as [E H].
    destruct (writeFallback body h (mc_fs m)) as [[r h'] fs']. simpl in *. by rewrite E.
Qed.

Section tracked.
Context (cfg : HTTPOutputConfig).
Abbreviation n := (Z.to_nat (FallbackMaxBackups cfg)).

(** An output that keeps off the files of the one we follow. *)
Definition apart (o : Output) : Prop := forall q, http_paths cfg q -> ~ writes o q.

(** No failure of a system call is to come. *)
Definition sound (m : Machine) (fm : Files) : Prop := mc_fs m = on_files fm.

Lemma broadcast_apart ev os m fm :
  Forall apart os -> sound m fm ->
  exists os' errs m' fm', broadcast (Ops := ops) ev os m = (os', errs, m') /\
    Forall apart os' /\ length os' = length os /\ sound m' fm' /\
    net_grows (mc_net m) (mc_net m') /\ forall q, http_paths cfg q -> fm' !! q = fm !! q.
Proof.
  intros Ha. revert m fm. induction Ha as [|o os Ho Hos IH]; intros m fm Hm; simpl.
  { exists [], [], m, fm. by split_and!. }
  pose proof (publish_touches ev o m) as Ht.
  destruct (publish_one ev o m) as [[r o'] m1]. destruct Ht as (Hw & [Hf Hfr] & Hn).
  unfold sound in *. rewrite Hm in Hf, Hfr.
  assert (mc_fs m1 = on_files (files (mc_fs m1))) as Hm1.
  { specialize (Hf eq_refl). destruct (mc_fs m1) as [ff fl]. simpl in *. by subst. }
  destruct (IH m1 _ Hm1) as (os' & errs & m' & fm' & E & Ha' & Hl & Hm' & Hn' & Hq).
  simpl in E. rewrite E. eexists (o' :: os'), _, m', fm'. split_and!; [done| |by simpl; f_equal|done|by etrans|].
  - constructor; [|done]. unfold apart. by rewrite Hw.
  - intros q Hq'. rewrite Hq by done. simpl in Hfr. apply Hfr. by apply Ho.
Qed.

(** What has become of the events taken so far at the output we follow, its
    files having started as [fm0]. *)
Definition delivered (fm0 : Files) (evs : list (Event F J)) (os : list Output) (m : Machine)
    (j : nat) : Prop :=
  exists pre h post fm, os = pre ++ O_HTTP h :: post /\ length pre = j /\
    Forall apart pre /\ Forall apart post /\ sound m fm /\
    exists fates, Forall2 (fate cfg (mc_net m)) evs fates /\ StronglySorted lt (accepted fates) /\
      keeps_log cfg (kept cfg evs fates) fm0 h fm.

Lemma kept_snoc evs fates ev f :
  length evs = length fates ->
  kept cfg (evs ++ [ev]) (fates ++ [f]) = kept cfg evs fates ++ kept cfg [ev] [f].
Proof. intros H. unfold kept_entries. by rewrite zip_with_app, omap_app. Qed.

Lemma broadcast_app ev xs ys m os1 errs1 m1 os2 errs2 m2 :
  broadcast (Ops := ops) ev xs m = (os1, errs1, m1) ->
  broadcast (Ops := ops) ev ys m1 = (os2, errs2, m2) ->
  broadcast (Ops := ops) ev (xs ++ ys) m = (os1 ++ os2, errs1 ++ errs2, m2).
Proof.
  revert m os1 errs1. induction xs as [|x xs IH]; intros m os1 errs1 H1 H2; simpl in *.
  { by simplify_eq. }
  destruct (publish_one ev x m) as [[r x'] m'].
  destruct (broadcast ev xs m') as [[os errs] m''] eqn:E. simplify_eq.
  simpl in IH. rewrite (IH m' os errs E H2). by destruct r.
Qed.
(** Old requests are below the new ones. *)
Lemma accepted_snoc net evs fates f :
  Forall2 (fate cfg net) evs fates -> StronglySorted lt (accepted fates) ->
  (forall k, f = F_accepted k -> (length (n_sent net) <= k)%nat) ->
  StronglySorted lt (accepted (fates ++ [f])).
Proof.
  intros Hf Hs Hk. unfold accepted. rewrite omap_app. destruct f as [k| |]; simpl;
    [|by rewrite app_nil_r..].
  apply StronglySorted_snoc; [done|]. intros k' (f & Hin & Hf')%list_elem_of_omap.
  destruct f as [k2| |]; simplify_eq.
  apply list_elem_of_lookup_1 in Hin as [i Hi].
  destruct (Forall2_lookup_r _ _ _ _ _ Hf Hi) as (ev & _ & body & ct & _ & Hlk & _).
  apply lookup_lt_Some in Hlk. specialize (Hk k eq_refl). lia.
Qed.

(** One event: the outputs before ours, ours, those after it. *)
Lemma broadcast_delivers fm0 evs os m j ev :
  FallbackPath cfg <> EmptyString -> delivered fm0 evs os m j ->
  let '(os', _, m') := broadcast (Ops := ops) ev os m in delivered fm0 (evs ++ [ev]) os' m' j.
Proof.
  intros Hp (pre & h & post & fm & -> & Hj & Hpre & Hpost & Hm & fates & Hf & Hs & Hk).
  destruct (broadcast_apart ev pre m fm Hpre Hm)
    as (pre' & e1 & m1 & fm1 & B1 & Ha1 & Hl1 & Hm1 & Hn1 & Hq1).
  pose proof (keeping_frame cfg h fm fm1 Hq1 (proj1 Hk)) as K1.
  destruct (Publish_fate render one marshal_event marshal_record valid cfg ev h fm1 (mc_net m1)
    (proj1 K1) Hp) as (r & h' & fm2 & net2 & f & P & Hn2 & Hf2 & Hk2 & K2).
  set (m2 := {| mc_fs := on_files fm2; mc_net := net2; mc_out := mc_out m1 |}).
  destruct (broadcast_apart ev post m2 fm2 Hpost eq_refl)
    as (post' & e3 & m3 & fm3 & B3 & Ha3 & Hl3 & Hm3 & Hn3 & Hq3).
  pose proof (keeping_frame cfg h' fm2 fm3 Hq3 (proj1 K2)) as K3.
  assert (broadcast (Ops := ops) ev (O_HTTP h :: post) m1 =
    (O_HTTP h' :: post', match r with Err e => e :: e3 | Ok _ => e3 end, m3)) as B2.
  { unfold sound in Hm1. unfold world in P. simpl. rewrite Hm1, P. simpl. fold m2.
    simpl in B3. by rewrite B3. }
  rewrite (broadcast_app ev pre _ m _ _ _ _ _ _ B1 B2).
  assert (net_grows (mc_net m) (mc_net m3)) as Hn by (etrans; [exact Hn1|]; by etrans).
  exists pre', h', post', fm3. split_and!; [done|by rewrite Hl1|done|done|done|].
  exists (fates ++ [f]). split_and!.
  - apply Forall2_app.
    + eapply Forall2_impl; [exact Hf|]. intros x y. by apply fate_of_grows.
    + constructor; [|done]. exact (fate_of_grows _ _ _ _ _ net2 _ _ _ Hn3 Hf2).
  - apply (accepted_snoc (mc_net m) evs); [done|done|]. intros k E. specialize (Hk2 k E).
    pose proof (prefix_length _ _ (ng_sent _ _ Hn1)). lia.
  - rewrite kept_snoc by by eapply Forall2_length.
    pose proof (keeps_log_trans cfg _ _ _ _ _ _ _ Hk K1) as K. rewrite app_nil_r in K.
    pose proof (keeps_log_trans cfg _ _ _ _ _ _ _ K2 K3) as K'. rewrite app_nil_r in K'.
    by eapply keeps_log_trans.
Qed.

(** ** The running agent: the channel, the engine, the machine *)
Section running.
Context (heartbeat : string -> Duration -> Time -> Event F J) (cap : nat).

Record Running := {
  rn_pipe : Pipeline (E := Event F J);
  rn_engine : Engine (O := Output);
  rn_machine : Machine;
  rn_taken : list (Event F J)   (* what the engine has handed to the outputs *)
}.

(** A step of the channel, of which taking an event is a turn of the engine's
    loop, or a tick of the engine's heartbeat. *)
Inductive Move :=
| M_pipe (l : Label (E := Event F J))
| M_heartbeat (now : Time).

Definition handed_out (ev : Event F J) (pl : Pipeline) (a : Running) : Running :=
  let '(e, _, m) := publish_to_all (Ops := ops) ev (rn_engine a) (rn_machine a) in
  {| rn_pipe := pl; rn_engine := e; rn_machine := m; rn_taken := rn_taken a ++ [ev] |}.

Definition move (mv : Move) (a : Running) : option Running :=
  match mv with
  | M_pipe l =>
      match step cap l (rn_pipe a) with
      | None => None
      | Some pl =>
          match l, pl_ch (rn_pipe a) with
          | P_take, ev :: _ => Some (handed_out ev pl a)
          | _, _ => Some {| rn_pipe := pl; rn_engine := rn_engine a; rn_machine := rn_machine a;
                            rn_taken := rn_taken a |}
          end
      end
  | M_heartbeat now =>
      let e := rn_engine a in
      if pl_engine (rn_pipe a) && (0 <? e_heartbeatInterval e) then
        Some (handed_out (heartbeat (e_version e) (Sub now (e_startTime e)) now) (rn_pipe a) a)
      else None
  end.

Definition moves : list Move -> Running -> option Running := run_steps move.

Definition started (e : Engine) (m : Machine) : Running :=
  {| rn_pipe := new_pipeline; rn_engine := e; rn_machine := m; rn_taken := [] |}.

(** Every event is accounted for in the channel, those taken from it were
    handed out in that order, and all that was handed out has its fate. *)
Definition agent_ok (fm0 : Files) (j : nat) (a : Running) : Prop :=
  accounted cap (rn_pipe a) /\ pl_published (rn_pipe a) `sublist_of` rn_taken a /\
  delivered fm0 (rn_taken a) (e_outputs (rn_engine a)) (rn_machine a) j.

Lemma handed_out_ok fm0 j ev pl a :
  FallbackPath cfg <> EmptyString -> accounted cap pl ->
  pl_published pl `sublist_of` rn_taken a ++ [ev] -> agent_ok fm0 j a ->
  agent_ok fm0 j (handed_out ev pl a).
Proof.
  intros Hp Hpl Hs (_ & _ & Hd). unfold handed_out, publish_to_all.
  pose proof (broadcast_delivers fm0 _ _ _ j ev Hp Hd) as H.
  destruct (broadcast ev _ _) as [[os errs] m']. by split_and!.
Qed.

Lemma move_ok fm0 j mv a a' :
  FallbackPath cfg <> EmptyString -> agent_ok fm0 j a -> move mv a = Some a' -> agent_ok fm0 j a'.
Proof.
  intros Hp (Hacc & Hs & Hd) Hm. destruct mv as [l|now]; simpl in Hm.
  - destruct (step cap l (rn_pipe a)) as [pl|] eqn:El; [|done].
    pose proof (step_accounted cap l _ _ Hacc El) as Hacc'.
    unfold step in El. destruct (pl_returned (rn_pipe a)); [done|].
    destruct l; simpl in Hm, El; unfold task_sends, task_gives_up in El;
      try (simplify_eq; split_and!; repeat case_match; by simplify_eq).
    destruct (pl_engine (rn_pipe a)); [|done]. destruct (pl_ch (rn_pipe a)) as [|ev ch]; [done|].
    simplify_eq. apply handed_out_ok; [done|done| |done].
    simpl. by apply sublist_app.
  - case_match; [|done]. simplify_eq. apply handed_out_ok; [done|done| |done].
    by apply sublist_inserts_r.
Qed.

(** A move by which a reload reaches a running task. *)
Definition move_drops_job (mv : Move) : bool :=
  match mv with M_pipe l => drops_job l | M_heartbeat _ => false end.

Lemma move_undropped mv a a' :
  move_drops_job mv = false -> undropped (rn_pipe a) -> move mv a = Some a' ->
  undropped (rn_pipe a').
Proof.
  intros Hl Hu Hm. destruct mv as [l|now]; simpl in Hm.
  - destruct (step cap l (rn_pipe a)) as [pl|] eqn:El; [|done].
    pose proof (step_undropped cap l _ _ Hl Hu El) as Hu'.
    assert (rn_pipe a' = pl) as ->; [|done].
    unfold handed_out in Hm. repeat case_match; by simplify_eq.
  - unfold handed_out in Hm. repeat case_match; by simplify_eq.
Qed.

(** C13: an agent one of whose outputs posts to a server with a fallback file, while
    the other outputs keep off its files and no system call fails, loses
    nothing that can be formatted, whatever the tasks, the network and the
    heartbeat do and however the steps interleave: until the end is signalled
    every event a task came up with has been handed to the outputs, is in the
    channel, is about to be sent or belonged to a job that a reload dropped while
    its task ran (none when no reload does); and of the events and heartbeats
    handed out each was accepted by the server - one request each, in order - or
    is in the fallback file, in order, after what was there before - of which
    entries are given up only when all the backups are full - or has no body. *)
Theorem agent_delivers ls e m fm0 pre post a :
  FallbackPath cfg <> EmptyString ->
  e_outputs e = pre ++ O_HTTP (NewHTTPOutput cfg) :: post -> Forall apart pre -> Forall apart post ->
  mc_fs m = on_files fm0 ->
  (exists k, full_upto (FallbackPath cfg) n (wrap64 (FallbackMaxSize cfg * 1024 * 1024)) k fm0) ->
  moves ls (started e m) = Some a ->
  pl_emitted (rn_pipe a) ≡ₚ pl_published (rn_pipe a) ++ pl_ch (rn_pipe a) ++
    lost_events (rn_pipe a) ++ waiting_events (rn_pipe a) /\
  (pl_done (rn_pipe a) = false ->
   Forall (fun x => sd_cancelled x = true) (pl_given_up (rn_pipe a)) /\
   (Forall (fun mv => move_drops_job mv = false) ls -> lost_events (rn_pipe a) = [])) /\
  pl_published (rn_pipe a) `sublist_of` rn_taken a /\
  exists h fates gone fm,
    e_outputs (rn_engine a) !! length pre = Some (O_HTTP h) /\ h_cfg h = cfg /\
    mc_fs (rn_machine a) = on_files fm /\
    Forall2 (fate cfg (mc_net (rn_machine a))) (rn_taken a) fates /\
    StronglySorted lt (accepted fates) /\
    gone ++ fallback_log (FallbackPath cfg) n fm =
      fallback_log (FallbackPath cfg) n fm0 ++ kept cfg (rn_taken a) fates /\
    (gone = [] \/ all_full cfg fm).
Proof.
  intros Hp He Hpre Hpost Hm Hfull Hmv.
  assert (keeping cfg (NewHTTPOutput cfg) fm0) as Hk by by split.
  assert (agent_ok fm0 (length pre) (started e m)) as H0.
  { split; [apply new_accounted|]. split; [constructor|].
    exists pre, (NewHTTPOutput cfg), post, fm0. split_and!; try done.
    exists []. split_and!; [constructor|constructor|by apply keeps_log_refl]. }
  destruct (run_steps_preserves move (agent_ok fm0 (length pre)) ls _ _
    (fun mv s s' => move_ok fm0 (length pre) mv s s' Hp) H0 Hmv)
    as ([Hfifo Hall Hd _] & Hs & pre' & h & post' & fm & Ho & Hl & _ & _ & Hfm & fates & Hf & Hso & K).
  split_and!; [| |done|].
  - rewrite Hall, Hfifo. by rewrite <-app_assoc.
  - intros Hn. split; [by apply Hd|]. intros Hls. unfold lost_events.
    destruct (run_steps_preserves_on move (fun a => undropped (rn_pipe a)) _ ls (started e m) a
      move_undropped Hls new_undropped Hmv) as [_ Hg]. by rewrite Hg.
  - destruct K as (Hkp & (gone & Hg & Hor) & _). exists h, fates, gone, fm.
    split_and!; [|apply (kp_cfg _ _ _ Hkp)|done..].
    rewrite Ho, list_lookup_middle; [done|by rewrite Hl].
Qed.
End running.
End tracked.
End delivery.

(** ** A concrete run: a console, a server that refuses for a while, a file *)
Section demo.
#[local] Existing Instance in_key_order.

Definition demo_event (t : Z) : Event Z string :=
  {| ev_type := "ping_event"; ev_millis := t;
     ev_data := Some {| metrics := {["rtt" := t]}; dimensions := {["hostname" := "h"]};
                        processes := None; connections := None; exceptions := None |};
     ev_raw := "{}" |}.

Definition demo_heartbeat (version : string) (up : Duration) (now : Time) : Event Z string :=
  {| ev_type := "heartbeat_event"; ev_millis := now / Millisecond;
     ev_data := Some {| metrics := ∅; dimensions := ∅; processes := None; connections := None;
                        exceptions := None |};
     ev_raw := version |}.

Definition demo_outputs : list Output :=
  [O_Console; O_HTTP (NewHTTPOutput HttpOutput.demo_cfg); O_File (NewFile "/var/log/m.log")].

Definition demo_engine : Engine (O := Output) :=
  {| e_capacity := 2; e_version := "1.0"; e_heartbeatInterval := 30 * Second; e_startTime := 0;
     e_outputs := demo_outputs |}.

(** The first event is refused four times, the following ones are accepted. *)
Definition demo_machine : Machine :=
  {| mc_fs := on_files ∅;
     mc_net := {| n_answer := fun n => if decide (n < 4)%nat then Ok 503 else Ok 204;
                  n_done := fun _ => false; n_sent := []; n_slept := [] |};
     mc_out := {| so_lines := []; so_faults := [Some "EPIPE"] |} |}.

Definition demo_moves : list (Move (F := Z) (J := string)) :=
  [M_pipe (P_emit (at_send true (demo_event 1000))); M_pipe (P_emit (at_send false (demo_event 2000)));
   M_pipe (P_send 0); M_pipe P_take; M_heartbeat (30 * Second); M_pipe (P_send 0); M_pipe P_take;
   M_pipe (P_emit (at_send false (demo_event 3000)))].

Definition demo_render (z : Z) : result string := Ok (pretty z).
Definition demo_agent : option (Running (F := Z) (J := string)) :=
  moves demo_render 1 (fun ev => Ok (ev_raw ev)) (fun _ => Err "unused"%string) (fun _ _ => true)
    demo_heartbeat 2 demo_moves (started demo_engine demo_machine).

(** The first event is in the fallback file; its four requests, the heartbeat's
    and the second event's were sent. *)
Lemma demo_agent_run :
  (fun a => (length (n_sent (mc_net (rn_machine a))),
             length <$> (files (mc_fs (rn_machine a)) !! FallbackPath HttpOutput.demo_cfg),
             so_lines (mc_out (rn_machine a)), length (pl_waiting (rn_pipe a)))) <$> demo_agent =
  Some (6%nat, Some 1%nat, ["1.0" +:+ newline; "{}" +:+ newline], 1%nat).
Proof. vm_compute. reflexivity. Qed.

Lemma agent_delivers_witness : exists a, demo_agent = Some a /\
  exists h fates gone fm,
    e_outputs (rn_engine a) !! 1%nat = Some (O_HTTP h) /\ h_cfg h = HttpOutput.demo_cfg /\
    mc_fs (rn_machine a) = on_files fm /\
    Forall2 (fate_of demo_render 1 (fun ev => Ok (ev_raw ev)) (fun _ => Err "unused"%string)
      HttpOutput.demo_cfg (mc_net (rn_machine a))) (rn_taken a) fates /\
    StronglySorted lt (accepted fates) /\
    gone ++ fallback_log "/var/lib/m/fb.jsonl" 2 fm =
      [] ++ kept_entries demo_render 1 (fun ev => Ok (ev_raw ev)) (fun _ => Err "unused"%string)
        HttpOutput.demo_cfg (rn_taken a) fates /\
    (gone = [] \/ all_full HttpOutput.demo_cfg fm).
Proof.
  destruct demo_agent as [a|] eqn:E; [|vm_compute in E; discriminate].
  exists a. split; [reflexivity|].
  refine (proj2 (proj2 (proj2 (agent_delivers demo_render 1 (fun ev => Ok (ev_raw ev))
    (fun _ => Err "unused"%string) (fun _ _ => true) HttpOutput.demo_cfg demo_heartbeat 2 demo_moves
    demo_engine demo_machine ∅ [O_Console] [O_File (NewFile "/var/log/m.log")] a _ _ _ _ _ _ E)))).
  - discriminate.
  - reflexivity.
  - repeat constructor. intros q _ [].
  - repeat constructor. intros q [->|(i & _ & ->)] [H|H]; discriminate H.
  - reflexivity.
  - exists O. split; [lia|]. split; [intros; lia|]. intros i _. reflexivity.
Defined.
End demo.
