(* ===== verification/MailHtml.v ===== *)
(** * The HTML of an alert mail (the template of web/smtp/sender.go)

    The template with the escaping html/template chooses for each action from
    where it stands: text between tags, and the address of a link. A reader of
    HTML - tags, text, character references - shows what a mail program makes of
    it. The text of a float64 is the argument [Sprint]. *)
From Stdlib Require Import Ascii String.
From S2P Require Import Prelude GoTime LabelsJson GoFloat GoStrings.

(** ** Data *)
Record labelKV := { kv_Key : Text; kv_Val : Text }.

Record emailData := {
  RuleName : Text;
  ed_Hostname : Text;
  Expr : Text;
  ed_Labels : list labelKV;
  ed_Value : float64;
  StateLabel : Text;
  ed_Time : Text;
  WebURL : Text
}.

(** ** Escaping *)

(** U+FFFD *)
Definition replacement : Text := [chr 239; chr 191; chr 189].

(** [htmlReplacementTable]; every other byte stays. *)
Definition html_escape_byte (c : ascii) : Text :=
  if byte c =? 0 then replacement
  else if byte c =? 34 then text "&#34;"
  else if byte c =? 38 then text "&amp;"
  else if byte c =? 39 then text "&#39;"
  else if byte c =? 43 then text "&#43;"
  else if byte c =? 60 then text "&lt;"
  else if byte c =? 62 then text "&gt;"
  else [c].

Definition html_escape (s : Text) : Text := s ≫= html_escape_byte.

(** [strings.EqualFold] with an ASCII word: letters of either case, and the
    long s. *)
Fixpoint fold_case (s : Text) : Text :=
  match s with
  | [] => []
  | a :: s1 =>
      match s1 with
      | b :: s2 =>
          if (byte a =? 197) && (byte b =? 191) then "s"%char :: fold_case s2
          else (if (65 <=? byte a) && (byte a <=? 90) then chr (byte a + 32) else a) :: fold_case s1
      | [] => [if (65 <=? byte a) && (byte a <=? 90) then chr (byte a + 32) else a]
      end
  end.

(** [isSafeURL] *)
Definition isSafeURL (s : Text) : bool :=
  match split2 ":" s with
  | Some (protocol, _) =>
      if bool_decide ("/"%char ∈ protocol) then true
      else bool_decide (fold_case protocol ∈ [text "http"; text "https"; text "mailto"])
  | None => true
  end.

Definition url_filter (s : Text) : Text := if isSafeURL s then s else text "#ZgotmplZ".

(** [processURLOnto] when normalizing: reserved and unreserved characters and
    percent escapes stay. *)
Definition url_kept (c : ascii) : bool :=
  bool_decide (c ∈ text "!#$&*+,/:;=?@[]-._~") ||
  ((97 <=? byte c) && (byte c <=? 122)) || ((65 <=? byte c) && (byte c <=? 90)) ||
  ((48 <=? byte c) && (byte c <=? 57)).

Definition is_hex (c : ascii) : bool := match hex_val c with Some _ => true | None => false end.

Definition url_escape_byte (c : ascii) (rest : Text) : Text :=
  if url_kept c then [c]
  else if (byte c =? 37) &&
          match rest with h :: l :: _ => is_hex h && is_hex l | _ => false end then [c]
  else ["%"%char; hex_digit (byte c / 16); hex_digit (byte c mod 16)].

Fixpoint url_normalize (s : Text) : Text :=
  match s with
  | [] => []
  | c :: s' => url_escape_byte c s' ++ url_normalize s'
  end.

(** The address of a link, inside double quotes. *)
Definition href (s : Text) : Text := html_escape (url_normalize (url_filter s)).

(** ** The template *)

(** Literal text of the template: an apostrophe stands for a double quote. *)
Definition dq : ascii := "034"%char.
Definition nl : ascii := "010"%char.
Definition html (s : string) : Text :=
  (fun c => if decide (c = "'"%char) then dq else c) <$> text s.

Section template.
Context (Sprint : float64 -> Text).

(** One row of the table, up to its value. *)
Definition row_head (name : string) (cell : string) : Text :=
  html "  <tr><td style='font-weight:bold;color:#555;'>" ++ html name ++ html "</td>" ++ html cell.
Definition row_end : Text := html "</td></tr>" ++ [nl].

Definition tmpl_label (l : labelKV) : Text :=
  html "<div style='font-family:monospace;'>" ++ html_escape (kv_Key l) ++ html "=" ++
  html_escape (kv_Val l) ++ html "</div>".

Definition tmpl_link (url : Text) : Text :=
  match url with
  | [] => []
  | _ => html "<p style='font-family:sans-serif;font-size:13px;color:#888;'>请到 <a href='" ++
         href url ++ html "'>" ++ html_escape url ++ html "</a> 确认此告警。</p>"
  end.

Definition Execute (d : emailData) : Text :=
  [nl] ++ html "<h2>MonitorBeat 告警通知</h2>" ++ [nl] ++
  html "<table border='0' cellpadding='6' cellspacing='0' style='border-collapse:collapse;font-family:sans-serif;'>" ++
  [nl] ++
  row_head "规则" "<td>" ++ html_escape (RuleName d) ++ row_end ++
  row_head "主机" "<td>" ++ html_escape (ed_Hostname d) ++ row_end ++
  row_head "表达式" "<td style='font-family:monospace;'>" ++ html_escape (Expr d) ++ row_end ++
  row_head "实例" "<td>" ++ (ed_Labels d ≫= tmpl_label) ++ row_end ++
  row_head "值" "<td>" ++ html_escape (Sprint (ed_Value d)) ++ row_end ++
  row_head "状态" "<td>" ++ html_escape (StateLabel d) ++ row_end ++
  row_head "时间" "<td>" ++ html_escape (ed_Time d) ++ row_end ++
  html "</table>" ++ [nl] ++ tmpl_link (WebURL d) ++ [nl; nl].
End template.

(** ** Reading HTML *)

(** A tag up to the first [>] outside double quotes. *)
Fixpoint read_tag (quoted : bool) (s : Text) : option (Text * Text) :=
  match s with
  | [] => None
  | c :: s' =>
      if decide (c = ">"%char /\ quoted = false) then Some ([], s')
      else '(t, r) ← read_tag (if decide (c = dq) then negb quoted else quoted) s'; Some (c :: t, r)
  end.

(** Text up to the next tag. *)
Fixpoint read_text (s : Text) : Text * Text :=
  match s with
  | [] => ([], [])
  | c :: s' => if decide (c = "<"%char) then ([], s) else let '(t, r) := read_text s' in (c :: t, r)
  end.

(** A page: the text before the first tag, and every tag with the text after it. *)
Abbreviation Page := (Text * list (Text * Text))%type.

Fixpoint read_page (fuel : nat) (s : Text) : option Page :=
  match fuel with
  | O => None
  | S n =>
      let '(t, r) := read_text s in
      match r with
      | [] => Some (t, [])
      | _ :: r' => '(tag, r) ← read_tag false r'; '(t1, more) ← read_page n r; Some (t, (tag, t1) :: more)
      end
  end.

(** Character references. *)
Definition references : list (Text * ascii) :=
  [(text "amp;", "&"%char); (text "lt;", "<"%char); (text "gt;", ">"%char); (text "#34;", dq);
   (text "#39;", "'"%char); (text "#43;", "+"%char)].

Fixpoint match_reference (refs : list (Text * ascii)) (s : Text) : option (ascii * Text) :=
  match refs with
  | [] => None
  | (r, c) :: refs' =>
      match strip_prefix r s with Some rest => Some (c, rest) | None => match_reference refs' s end
  end.

Fixpoint unescape (fuel : nat) (s : Text) : Text :=
  match fuel, s with
  | S n, c :: s' =>
      if decide (c = "&"%char) then
        match match_reference references s' with
        | Some (a, rest) => a :: unescape n rest
        | None => c :: unescape n s'
        end
      else c :: unescape n s'
  | _, _ => []
  end.

Definition shown_text (s : Text) : Text := unescape (List.length s) s.

(** What is on the screen, and where. *)
Definition shown_page (p : Page) : Page := (shown_text p.1, prod_map id shown_text <$> p.2).

(** ** The page of a mail *)
Section layout.
Context (Sprint : float64 -> Text).

(** The texts of a mail, with [v] done to what comes from outside. *)
Definition row (v : Text) (name : string) (cell : string) (after : Text) : list (Text * Text) :=
  [(html "tr", []); (html "td style='font-weight:bold;color:#555;'", html name); (html "/td", []);
   (html cell, v); (html "/td", []); (html "/tr", after)].

Definition label_tags (v : Text -> Text) (l : labelKV) : list (Text * Text) :=
  [(html "div style='font-family:monospace;'", v (kv_Key l ++ html "=" ++ kv_Val l)); (html "/div", [])].

Definition link_tags (v : Text -> Text) (url : Text) : list (Text * Text) :=
  match url with
  | [] => [(html "/table", [nl; nl; nl])]
  | _ => [(html "/table", [nl]);
          (html "p style='font-family:sans-serif;font-size:13px;color:#888;'", html "请到 ");
          (html "a href='" ++ href url ++ html "'", v url); (html "/a", html " 确认此告警。");
          (html "/p", [nl; nl])]
  end.

Definition next_row : Text := nl :: html "  ".

Definition layout (v : Text -> Text) (d : emailData) : Page :=
  ([nl], [(html "h2", html "MonitorBeat 告警通知"); (html "/h2", [nl]);
    (html "table border='0' cellpadding='6' cellspacing='0' style='border-collapse:collapse;font-family:sans-serif;'",
     next_row)] ++
   row (v (RuleName d)) "规则" "td" next_row ++
   row (v (ed_Hostname d)) "主机" "td" next_row ++
   row (v (Expr d)) "表达式" "td style='font-family:monospace;'" next_row ++
   [(html "tr", []); (html "td style='font-weight:bold;color:#555;'", html "实例"); (html "/td", []);
    (html "td", [])] ++ (ed_Labels d ≫= label_tags v) ++ [(html "/td", []); (html "/tr", next_row)] ++
   row (v (Sprint (ed_Value d))) "值" "td" next_row ++
   row (v (StateLabel d)) "状态" "td" next_row ++
   row (v (ed_Time d)) "时间" "td" [nl] ++
   link_tags v (WebURL d)).

Fixpoint print_tags (ts : list (Text * Text)) : Text :=
  match ts with
  | [] => []
  | (tag, t) :: ts' => "<"%char :: tag ++ ">"%char :: t ++ print_tags ts'
  end.

Definition print_page (p : Page) : Text := p.1 ++ print_tags p.2.

Lemma print_tags_app a b : print_tags (a ++ b) = print_tags a ++ print_tags b.
Proof.
  induction a as [|[tag t] a IH]; [done|]. simpl. by rewrite IH, <- !app_assoc, <- app_comm_cons, <- app_assoc.
Qed.

Lemma html_escape_app a b : html_escape (a ++ b) = html_escape a ++ html_escape b.
Proof. apply bind_app. Qed.

Lemma print_labels ls : print_tags (ls ≫= label_tags html_escape) = ls ≫= tmpl_label.
Proof.
  induction ls as [|l ls IH]; [done|]. rewrite !bind_cons, print_tags_app, IH. f_equal.
  unfold label_tags, tmpl_label. cbn [print_tags]. rewrite !html_escape_app.
  change (html_escape (html "=")) with (html "="). rewrite app_nil_l, <- !app_assoc. reflexivity.
Qed.

Ltac reassociate := cbn [print_tags app]; repeat (progress rewrite <- ?app_assoc; cbn [app]).

Lemma Execute_layout d : Execute Sprint d = print_page (layout html_escape d).
Proof.
  unfold layout, print_page, Execute. cbn [fst snd]. rewrite !print_tags_app, print_labels.
  unfold row, row_head, row_end, tmpl_link, link_tags.
  destruct d as [r h e ls val st t u]. cbn [RuleName ed_Hostname Expr ed_Labels ed_Value StateLabel ed_Time WebURL].
  generalize (ls ≫= tmpl_label) (html_escape r) (html_escape h) (html_escape e)
    (html_escape (Sprint val)) (html_escape st) (html_escape t). intros.
  destruct u as [|c u].
  - reassociate. reflexivity.
  - generalize (href (c :: u)) (html_escape (c :: u)). intros.
    reassociate. reflexivity.
Qed.
End layout.

(** ** What the reader makes of it *)

(** A text without tags, a tag that ends where it should. *)
Definition tagless (t : Text) : Prop := "<"%char ∉ t.
Definition closed_tag (tag : Text) : Prop := forall s, read_tag false (tag ++ ">"%char :: s) = Some (tag, s).

Lemma read_text_tagless t s : tagless t -> read_text (t ++ "<"%char :: s) = (t, "<"%char :: s).
Proof.
  intros Ht. induction t as [|c t IH]; [done|]. apply not_elem_of_cons in Ht as [Hc Ht]. simpl.
  rewrite decide_False by congruence. by rewrite IH.
Qed.

Lemma read_text_end t : tagless t -> read_text t = (t, []).
Proof.
  intros Ht. induction t as [|c t IH]; [done|]. apply not_elem_of_cons in Ht as [Hc Ht]. simpl.
  rewrite decide_False by congruence. by rewrite IH.
Qed.

Lemma read_print ts t n :
  (List.length ts < n)%nat -> tagless t -> Forall (fun x => closed_tag x.1 /\ tagless x.2) ts ->
  read_page n (t ++ print_tags ts) = Some (t, ts).
Proof.
  revert t n. induction ts as [|[tag t1] ts IH]; intros t [|n] Hn Ht Hts; simpl in Hn; try lia.
  - simpl. by rewrite app_nil_r, read_text_end.
  - apply Forall_cons in Hts as [[Htag Ht1] Hts]. cbn [read_page print_tags fst snd] in *.
    rewrite read_text_tagless by done. rewrite Htag. cbn [mbind option_bind].
    rewrite IH by (done || lia). done.
Qed.

(** *** Tags: where the quotes are *)
Fixpoint quotes (quoted : bool) (s : Text) : option bool :=
  match s with
  | [] => Some quoted
  | c :: s' =>
      if decide (c = ">"%char /\ quoted = false) then None
      else quotes (if decide (c = dq) then negb quoted else quoted) s'
  end.

Lemma read_tag_quotes q tag s :
  quotes q tag = Some false -> read_tag q (tag ++ ">"%char :: s) = Some (tag, s).
Proof.
  revert q. induction tag as [|c tag IH]; intros q H; cbn [quotes] in H; cbn [read_tag app].
  - simplify_eq. by rewrite decide_True.
  - destruct (decide (c = ">"%char /\ q = false)); [done|]. by rewrite IH.
Qed.

Lemma quotes_app q a b : quotes q (a ++ b) = (q' ← quotes q a; quotes q' b).
Proof.
  revert q. induction a as [|c a IH]; intros q; [done|]. cbn [quotes app].
  by destruct (decide _).
Qed.

Lemma quotes_inside s : dq ∉ s -> quotes true s = Some true.
Proof.
  intros H. induction s as [|c s IH]; [done|]. apply not_elem_of_cons in H as [Hc H]. cbn [quotes].
  rewrite decide_False by (by intros []). rewrite decide_False by done. by apply IH.
Qed.

(** *** Escaped text *)
Ltac by_byte c := destruct c as [[] [] [] [] [] [] [] []]; vm_compute.

Lemma html_escape_byte_plain c : bool_decide ("<"%char ∈ html_escape_byte c) = false /\
  bool_decide (dq ∈ html_escape_byte c) = false.
Proof. by_byte c; split; reflexivity. Qed.

Lemma html_escape_no (x : ascii) s :
  (forall c, bool_decide (x ∈ html_escape_byte c) = false) -> x ∉ html_escape s.
Proof.
  intros H. unfold html_escape. intros (c & Hc & _)%list_elem_of_bind.
  specialize (H c). by apply bool_decide_eq_false in H.
Qed.

Lemma html_escape_tagless s : tagless (html_escape s).
Proof. apply html_escape_no. intros c. apply html_escape_byte_plain. Qed.

Lemma html_escape_unquoted s : dq ∉ html_escape s.
Proof. apply html_escape_no. intros c. apply html_escape_byte_plain. Qed.

(** A byte as it is shown: NUL has no place in HTML. *)
Definition printable (s : Text) : Text := s ≫= (fun c => if byte c =? 0 then replacement else [c]).

Definition turns (c : ascii) : nat := if byte c =? 0 then 3%nat else 1%nat.

Lemma byte_is c n : (byte c =? n) = true -> c = chr n.
Proof. intros <-%Z.eqb_eq. by_byte c; reflexivity. Qed.

Lemma unescape_byte c n s :
  unescape (turns c + n) (html_escape_byte c ++ s) =
    (if byte c =? 0 then replacement else [c]) ++ unescape n s.
Proof.
  unfold html_escape_byte, turns.
  destruct (byte c =? 0) eqn:E0; [reflexivity|].
  do 6 (case_match; [match goal with E : (byte c =? _) = true |- _ => apply byte_is in E as -> end; reflexivity|]).
  simpl. destruct (decide (c = "&"%char)) as [->|]; [done|reflexivity].
Qed.

Lemma turns_length c : (turns c <= List.length (html_escape_byte c))%nat.
Proof. by_byte c; lia. Qed.

Lemma unescape_nil n : unescape n [] = [].
Proof. by destruct n. Qed.

Lemma unescape_html_escape s n :
  (List.length (html_escape s) <= n)%nat -> unescape n (html_escape s) = printable s.
Proof.
  revert n. induction s as [|c s IH]; intros n Hn; [apply unescape_nil|].
  unfold html_escape, printable in *. rewrite !bind_cons in *. rewrite length_app in Hn.
  pose proof (turns_length c).
  replace n with (turns c + (n - turns c))%nat by lia. rewrite unescape_byte. f_equal. apply IH. lia.
Qed.

(** Reading back what was escaped. *)
Lemma shown_escaped s : shown_text (html_escape s) = printable s.
Proof. by apply unescape_html_escape. Qed.

Section mail_page.
Context (Sprint : float64 -> Text).

Ltac static_tag := intros ?; apply read_tag_quotes; vm_compute; reflexivity.
Ltac static_text := apply (bool_decide_unpack _); exact I.

Definition good_tags (ts : list (Text * Text)) : Prop :=
  Forall (fun x => closed_tag x.1 /\ tagless x.2) ts.

Lemma row_good v name cell after :
  tagless v -> closed_tag (html cell) -> tagless (html name) -> tagless after ->
  good_tags (row v name cell after).
Proof.
  intros Hv Hc Hn Ha. unfold row. repeat apply Forall_cons_2; try done; cbn [fst snd].
  all: split; first [assumption|static_tag|static_text].
Qed.

Lemma labels_good ls : good_tags (ls ≫= label_tags html_escape).
Proof.
  induction ls as [|l ls IH]; [constructor|]. rewrite bind_cons. apply Forall_app_2; [|done].
  repeat apply Forall_cons_2; try done; cbn [fst snd];
    (split; [static_tag|first [apply html_escape_tagless|static_text]]).
Qed.

Lemma link_good url : good_tags (link_tags html_escape url).
Proof.
  unfold link_tags. destruct url as [|c url].
  - repeat apply Forall_cons_2; [split; [static_tag|static_text]|done].
  - set (u := c :: url). repeat apply Forall_cons_2; try done; cbn [fst snd].
    3: { split; [|apply html_escape_tagless]. intros s. apply read_tag_quotes.
         change (html "'") with [dq]. change (html "a href='") with (html "a href=" ++ [dq]).
         rewrite <- app_assoc. rewrite quotes_app. change (quotes false (html "a href=")) with (Some false).
         cbn [mbind option_bind app]. cbn [quotes]. rewrite decide_False by (by intros [? _]).
         rewrite decide_True by done. rewrite quotes_app.
         unfold href. by rewrite quotes_inside by apply html_escape_unquoted. }
    all: split; [static_tag|static_text].
Qed.

Lemma layout_good d : good_tags (layout Sprint html_escape d).2.
Proof.
  unfold layout, good_tags. cbn [snd]. repeat apply Forall_app_2.
  - repeat apply Forall_cons_2; try done; cbn [fst snd]; (split; [static_tag|static_text]).
  - apply row_good; [apply html_escape_tagless|static_tag|static_text..].
  - apply row_good; [apply html_escape_tagless|static_tag|static_text..].
  - apply row_good; [apply html_escape_tagless|static_tag|static_text..].
  - repeat apply Forall_cons_2; try done; cbn [fst snd]; (split; [static_tag|static_text]).
  - apply labels_good.
  - repeat apply Forall_cons_2; try done; cbn [fst snd]; (split; [static_tag|static_text]).
  - apply row_good; [apply html_escape_tagless|static_tag|static_text..].
  - apply row_good; [apply html_escape_tagless|static_tag|static_text..].
  - apply row_good; [apply html_escape_tagless|static_tag|static_text..].
  - apply link_good.
Qed.

Lemma label_shown ls :
  prod_map id shown_text <$> (ls ≫= label_tags html_escape) = ls ≫= label_tags printable.
Proof.
  induction ls as [|l ls IH]; [done|]. rewrite !bind_cons, fmap_app, IH. f_equal.
  unfold label_tags. cbn [fmap list_fmap prod_map fst snd id]. by rewrite shown_escaped.
Qed.

(** The page shows the values themselves. *)
Lemma layout_shown d : shown_page (layout Sprint html_escape d) = layout Sprint printable d.
Proof.
  unfold shown_page, layout. cbn [fst snd]. rewrite !fmap_app, label_shown.
  unfold row, link_tags. cbn [fmap list_fmap prod_map fst snd id].
  rewrite !shown_escaped.
  f_equal. destruct (WebURL d); cbn [fmap list_fmap prod_map fst snd id];
    rewrite ?shown_escaped; reflexivity.
Qed.

Lemma length_print ts : (List.length ts <= List.length (print_tags ts))%nat.
Proof.
  induction ts as [|[tag t] ts IH]; [done|]. simpl. rewrite length_app. simpl. rewrite length_app. lia.
Qed.

(** A body is read back as the page of its layout. *)
Lemma Execute_read d :
  read_page (S (List.length (Execute Sprint d))) (Execute Sprint d) =
    Some (layout Sprint html_escape d).
Proof.
  rewrite Execute_layout. unfold print_page.
  rewrite read_print; [by destruct (layout Sprint html_escape d)| |static_text|apply layout_good].
  rewrite length_app. pose proof (length_print (layout Sprint html_escape d).2). lia.
Qed.
End mail_page.
