(* ===== verification/MailWire.v ===== *)
(** * A mail on the wire (net/smtp, net/textproto) and on the screen

    [SendMail] writes the message through the dot writer of net/textproto: a
    line feed without a carriage return gets one, a dot that begins a line is
    doubled, and a line with a dot ends the data. The receiver undoes the dots
    but not the line ends, and a mail program takes every kind of line end in a
    page for a line feed. *)
From Stdlib Require Import Ascii String.
From S2P Require Import Prelude GoTime LabelsJson GoFloat GoStrings MailHtml.

Definition cr : ascii := "013"%char.

(** ** The dot writer *)
Inductive Wstate := W_begin | W_beginLine | W_cr | W_data.

(** One byte: what is written, and the next state. *)
Definition dot_byte (st : Wstate) (c : ascii) : Text * Wstate :=
  let data (pre : Text) :=
    if decide (c = cr) then (pre ++ [c], W_cr)
    else if decide (c = nl) then (pre ++ [cr; c], W_beginLine)
    else (pre ++ [c], W_data) in
  match st with
  | W_begin | W_beginLine => data (if decide (c = "."%char) then [c] else [])
  | W_data => data []
  | W_cr => ([c], if decide (c = nl) then W_beginLine else W_data)
  end.

Fixpoint dot_write (st : Wstate) (s : Text) : Text * Wstate :=
  match s with
  | [] => ([], st)
  | c :: s' =>
      let '(out, st1) := dot_byte st c in
      let '(rest, st2) := dot_write st1 s' in (out ++ rest, st2)
  end.

Definition dot_close (st : Wstate) : Text :=
  match st with
  | W_beginLine => ["."%char; cr; nl]
  | W_cr => [nl; "."%char; cr; nl]
  | W_begin | W_data => [cr; nl; "."%char; cr; nl]
  end.

(** The data of the dialogue. *)
Definition transmitted (msg : Text) : Text :=
  let '(out, st) := dot_write W_begin msg in out ++ dot_close st.

(** ** The receiver *)
Inductive Rstate := R_line | R_dot | R_dotCR | R_data | R_cr.

(** The message up to the line with the dot; what has no such line is no message. *)
Fixpoint receive (st : Rstate) (s : Text) : option Text :=
  match s with
  | [] => None
  | c :: s' =>
      let next := if decide (c = cr) then R_cr else R_data in
      match st with
      | R_line => if decide (c = "."%char) then receive R_dot s' else (c ::.) <$> receive next s'
      | R_dot => if decide (c = cr) then receive R_dotCR s' else (c ::.) <$> receive R_data s'
      | R_dotCR => if decide (c = nl) then Some [] else (fun r => cr :: c :: r) <$> receive next s'
      | R_data => (c ::.) <$> receive next s'
      | R_cr => (c ::.) <$> receive (if decide (c = nl) then R_line else next) s'
      end
  end.

Definition received (msg : Text) : option Text := receive R_line (transmitted msg).

(** What arrives of a text, [after] the writer's state after a carriage return. *)
Fixpoint carry (after : bool) (s : Text) : Text :=
  match s with
  | [] => []
  | c :: s' =>
      if decide (c = nl) then (if after then [c] else [cr; c]) ++ carry false s'
      else c :: carry (if decide (c = cr) then negb after else false) s'
  end.

(** The line end the writer adds to an unfinished line. *)
Definition last_line (st : Wstate) : Text :=
  match st with W_beginLine => [] | W_cr => [nl] | W_begin | W_data => [cr; nl] end.

Section wire.

(** The receiver's state while the writer is in its own. *)
Definition in_step (w : Wstate) (r : Rstate) : Prop :=
  match w with
  | W_begin | W_beginLine => r = R_line
  | W_cr => r = R_cr
  | W_data => r = R_data \/ r = R_cr
  end.

Definition after_cr (w : Wstate) : bool := match w with W_cr => true | _ => false end.

Lemma receive_close w r : in_step w r -> receive r (dot_close w) = Some (last_line w).
Proof. destruct w; simpl; [intros ->..|intros [-> | ->]]; reflexivity. Qed.

Lemma dot_write_cons w c s :
  dot_write w (c :: s) =
    ((dot_byte w c).1 ++ (dot_write (dot_byte w c).2 s).1, (dot_write (dot_byte w c).2 s).2).
Proof.
  cbn [dot_write]. destruct (dot_byte w c) as [out w1]. cbn [fst snd]. by destruct (dot_write w1 s).
Qed.

(** One byte of the writer, as the receiver takes it. *)
Lemma receive_byte w r c :
  in_step w r -> exists r', in_step (dot_byte w c).2 r' /\
    forall s, receive r ((dot_byte w c).1 ++ s) =
      ((if decide (c = nl) then (if after_cr w then [c] else [cr; c]) else [c]) ++.) <$> receive r' s.
Proof.
  intros Hr.
  assert (forall r1, in_step W_data r1 -> exists r', in_step (dot_byte W_data c).2 r' /\
    forall s, receive r1 ((dot_byte W_data c).1 ++ s) =
      ((if decide (c = nl) then [cr; c] else [c]) ++.) <$> receive r' s) as Hdata.
  { intros r1 H1. unfold dot_byte. destruct (decide (c = cr)) as [->|Hcr]; [exists R_cr|].
    - split; [done|]. intros s. by destruct H1 as [-> | ->].
    - destruct (decide (c = nl)) as [->|Hnl]; [exists R_line|exists R_data].
      + split; [done|]. intros s. destruct H1 as [-> | ->]; simpl; by destruct (receive _ s).
      + split; [by left|]. intros s. destruct H1 as [-> | ->]; simpl; by rewrite ?(decide_False (P := c = cr)), ?(decide_False (P := c = nl)) by done. }
  assert (w = W_begin \/ w = W_beginLine -> exists r', in_step (dot_byte w c).2 r' /\
    forall s, receive R_line ((dot_byte w c).1 ++ s) =
      ((if decide (c = nl) then [cr; c] else [c]) ++.) <$> receive r' s) as Hline.
  { intros Hw. assert (dot_byte w c = dot_byte W_beginLine c) as -> by by destruct Hw as [-> | ->].
    unfold dot_byte. destruct (decide (c = "."%char)) as [->|Hdot].
    - exists R_data. split; [by left|]. intros s. reflexivity.
    - destruct (decide (c = cr)) as [->|Hcr]; [exists R_cr; split; [done|]; intros s; reflexivity|].
      destruct (decide (c = nl)) as [->|Hnl].
      + exists R_line. split; [done|]. intros s. simpl. by destruct (receive _ s).
      + exists R_data. split; [by left|]. intros s. simpl.
        by rewrite (decide_False (P := c = "."%char)), (decide_False (P := c = cr)) by done. }
  destruct w; simpl in Hr; subst; [by apply Hline; left|by apply Hline; right| |by apply Hdata].
  unfold dot_byte. simpl. destruct (decide (c = nl)) as [->|Hnl]; [by exists R_line|].
  destruct (decide (c = cr)) as [->|Hcr]; [exists R_cr|exists R_data].
  - split; [by right|]. intros s. reflexivity.
  - split; [by left|]. intros s. simpl.
    by rewrite ?(decide_False (P := c = nl)), ?(decide_False (P := c = cr)) by done.
Qed.

Lemma after_cr_byte w c :
  after_cr (dot_byte w c).2 =
    if decide (c = nl) then false else if decide (c = cr) then negb (after_cr w) else false.
Proof.
  destruct w; unfold dot_byte; simpl; repeat case_decide; subst; try done.
Qed.

Lemma receive_write w r s :
  in_step w r ->
  receive r ((dot_write w s).1 ++ dot_close (dot_write w s).2) =
    Some (carry (after_cr w) s ++ last_line (dot_write w s).2).
Proof.
  revert w r. induction s as [|c s IH]; intros w r Hr; [by apply receive_close|].
  rewrite dot_write_cons. cbn [fst snd]. rewrite <- app_assoc.
  destruct (receive_byte w r c Hr) as (r' & Hr' & ->). rewrite (IH _ _ Hr'), after_cr_byte.
  cbn [carry fmap option_map option_fmap]. repeat case_decide; simpl; rewrite <- ?app_assoc; try done.
Qed.

(** The receiver gets the message with the writer's line ends. *)
Theorem received_message msg : received msg = Some (carry false msg ++ last_line (dot_write W_begin msg).2).
Proof.
  unfold received, transmitted. pose proof (receive_write W_begin R_line msg eq_refl) as H.
  by destruct (dot_write W_begin msg).
Qed.

(** *** Pieces of a message *)
Lemma carry_plain a s : cr ∉ a -> nl ∉ a -> a <> [] -> forall b, carry b (a ++ s) = a ++ carry false s.
Proof.
  intros Hc Hn Ha. destruct a as [|x a]; [done|]. clear Ha.
  revert x Hc Hn. induction a as [|y a IH]; intros x Hc Hn b;
    apply not_elem_of_cons in Hc as [Hc Hc'], Hn as [Hn Hn'];
    cbn [app carry]; rewrite !(decide_False (P := x = _)) by congruence; [done|].
  f_equal. exact (IH y Hc' Hn' false).
Qed.

Lemma carry_crlf s : carry false ([cr; nl] ++ s) = [cr; nl] ++ carry false s.
Proof. reflexivity. Qed.
End wire.

(** ** Line ends in HTML *)

(** The reader of a page takes CR LF and CR for LF. *)
Fixpoint newlines (after : bool) (s : Text) : Text :=
  match s with
  | [] => []
  | c :: s' =>
      if decide (c = nl) then (if after then [] else [nl]) ++ newlines false s'
      else if decide (c = cr) then nl :: newlines true s'
      else c :: newlines false s'
  end.

Definition page_text (body : Text) : Text := newlines false body.

(** A text on its way from the message to the page, after these two states. *)
Definition lining (written read : bool) (s : Text) : Text := newlines read (carry written s).

Definition lined (s : Text) : Text := lining false false s.

(** A value that is shown: its line ends are line feeds, and it has no NUL. *)
Definition as_shown (s : Text) : Text := printable (lined s).

Section lines.
Context (w r : bool).

Lemma lining_byte c s : c <> cr -> c <> nl -> lining w r (c :: s) = c :: lined s.
Proof.
  intros Hc Hn. unfold lined, lining. cbn [carry]. rewrite !(decide_False (P := c = _)) by done.
  cbn [newlines]. by rewrite !(decide_False (P := c = _)) by done.
Qed.
End lines.

Lemma lined_static a s : cr ∉ a -> lined (a ++ s) = a ++ lined s.
Proof.
  intros Ha. induction a as [|c a IH]; [done|]. apply not_elem_of_cons in Ha as [Hc Ha].
  destruct (decide (c = nl)) as [->|Hn].
  - cbn [app]. rewrite <- IH by done. reflexivity.
  - cbn [app]. by rewrite <- IH, <- (lining_byte false false) by done.
Qed.

Lemma lining_static w r a s : cr ∉ a -> nl ∉ a -> a <> [] -> lining w r (a ++ s) = a ++ lined s.
Proof.
  intros Hc Hn Ha. destruct a as [|c a]; [done|].
  apply not_elem_of_cons in Hc as [Hc Hc'], Hn as [Hn Hn']. cbn [app].
  by rewrite lining_byte, lined_static by done.
Qed.

Lemma lining_nl w r s :
  lining w r (nl :: s) = (if w && r then [] else [nl]) ++ lined s.
Proof. destruct w, r; reflexivity. Qed.

Lemma lining_cr w r s : lining w r (cr :: s) = nl :: lining (negb w) true s.
Proof. reflexivity. Qed.

(** What follows a value begins a line of its own only by itself. *)
Lemma lining_value w r v c s :
  c <> cr -> c <> nl -> lining w r (v ++ c :: s) = lining w r v ++ c :: lined s.
Proof.
  intros Hc Hn. revert w r. induction v as [|x v IH]; intros w r.
  { cbn [app]. rewrite (lining_byte w r c s Hc Hn). by destruct w, r. }
  cbn [app]. destruct (decide (x = nl)) as [->|Hxn].
  - rewrite !lining_nl, <- app_assoc. f_equal. apply IH.
  - destruct (decide (x = cr)) as [->|Hxc].
    + rewrite !lining_cr, IH. done.
    + rewrite !lining_byte by done. unfold lined at 1. by rewrite IH.
Qed.

Lemma html_escape_byte_line c :
  c <> cr -> c <> nl ->
  bool_decide ((cr ∉ html_escape_byte c) /\ (nl ∉ html_escape_byte c) /\ html_escape_byte c <> []) = true.
Proof. by_byte c; (reflexivity || intros; congruence). Qed.

Lemma html_escape_cons c s : html_escape (c :: s) = html_escape_byte c ++ html_escape s.
Proof. reflexivity. Qed.

Lemma lining_escape w r v : lining w r (html_escape v) = html_escape (lining w r v).
Proof.
  revert w r. induction v as [|c v IH]; intros w r; [reflexivity|]. rewrite html_escape_cons.
  destruct (decide (c = nl)) as [->|Hn].
  - change (html_escape_byte nl ++ html_escape v) with (nl :: html_escape v).
    rewrite !lining_nl, html_escape_app. f_equal; [by destruct (w && r)|apply IH].
  - destruct (decide (c = cr)) as [->|Hc].
    + change (html_escape_byte cr ++ html_escape v) with (cr :: html_escape v).
      rewrite !lining_cr, html_escape_cons, IH. done.
    + pose proof (html_escape_byte_line c Hc Hn) as (H1 & H2 & H3)%bool_decide_eq_true.
      rewrite lining_static, lining_byte, html_escape_cons by done. f_equal. apply IH.
Qed.

(** A text without carriage returns arrives as it is. *)
Lemma lined_id s : cr ∉ s -> lined s = s.
Proof. intros H. pose proof (lined_static s [] H) as E. by rewrite !app_nil_r in E. Qed.

Lemma as_shown_id s : cr ∉ s -> chr 0 ∉ s -> as_shown s = s.
Proof.
  intros Hc H0. unfold as_shown. rewrite lined_id by done. clear Hc. unfold printable.
  induction s as [|c s IH]; [done|]. apply not_elem_of_cons in H0 as [Hc H0]. rewrite bind_cons, IH by done.
  destruct (byte c =? 0) eqn:E; [|done]. apply byte_is in E. congruence.
Qed.

(** ** The page of a mail *)
Section page.
Context (Sprint : float64 -> Text).

Definition lined_data (d : emailData) : emailData :=
  {| RuleName := lined (RuleName d); ed_Hostname := lined (ed_Hostname d); Expr := lined (Expr d);
     ed_Labels := (fun l => {| kv_Key := lined (kv_Key l); kv_Val := lined (kv_Val l) |}) <$> ed_Labels d;
     ed_Value := ed_Value d; StateLabel := lined (StateLabel d); ed_Time := lined (ed_Time d);
     WebURL := WebURL d |}.

Lemma lined_value v s c :
  c <> cr -> c <> nl -> lined (html_escape v ++ c :: s) = html_escape (lined v) ++ c :: lined s.
Proof. intros Hc Hn. unfold lined at 1. rewrite lining_value by done. by rewrite lining_escape. Qed.
Ltac no_cr := apply (bool_decide_unpack _); vm_compute; exact I.

Lemma lined_row v X :
  lined (html_escape v ++ row_end ++ X) = html_escape (lined v) ++ row_end ++ lined X.
Proof.
  change (row_end ++ X) with ("<"%char :: drop 1 row_end ++ X).
  rewrite lined_value by done. by rewrite lined_static by no_cr.
Qed.

Lemma lined_label l X :
  lined (tmpl_label l ++ X) =
    tmpl_label {| kv_Key := lined (kv_Key l); kv_Val := lined (kv_Val l) |} ++ lined X.
Proof.
  unfold tmpl_label. cbn [kv_Key kv_Val]. rewrite <- !app_assoc. rewrite lined_static by no_cr. do 2 f_equal.
  change (html "=" ++ html_escape (kv_Val l) ++ html "</div>" ++ X) with
    ("="%char :: html_escape (kv_Val l) ++ "<"%char :: drop 1 (html "</div>") ++ X).
  rewrite !lined_value by done. by rewrite lined_static by no_cr.
Qed.

Lemma lined_labels ls X :
  lined ((ls ≫= tmpl_label) ++ X) =
    (((fun l => {| kv_Key := lined (kv_Key l); kv_Val := lined (kv_Val l) |}) <$> ls) ≫= tmpl_label) ++ lined X.
Proof.
  induction ls as [|l ls IH]; [done|]. rewrite fmap_cons, !bind_cons, <- !app_assoc, lined_label. by rewrite IH.
Qed.

Lemma row_head_static name cell X :
  cr ∉ row_head name cell -> lined (row_head name cell ++ X) = row_head name cell ++ lined X.
Proof. apply lined_static. Qed.

(** The page of the data that arrives. *)
Lemma lined_Execute d :
  WebURL d = [] -> lined (Execute Sprint d) = Execute (fun x => lined (Sprint x)) (lined_data d).
Proof.
  intros Hu. unfold Execute. cbn [lined_data RuleName ed_Hostname Expr ed_Labels ed_Value StateLabel ed_Time WebURL].
  rewrite Hu. cbn [tmpl_link]. rewrite !app_nil_l.
  do 5 (rewrite lined_static by no_cr; f_equal).
  do 3 (rewrite row_head_static by no_cr; rewrite lined_row; do 3 f_equal).
  rewrite row_head_static by no_cr. rewrite lined_labels. do 2 f_equal.
  rewrite lined_static by no_cr. f_equal.
  do 3 (rewrite row_head_static by no_cr; rewrite lined_row; do 3 f_equal).
Qed.

Lemma label_lined ls :
  ((fun l => {| kv_Key := lined (kv_Key l); kv_Val := lined (kv_Val l) |}) <$> ls) ≫= label_tags printable =
  ls ≫= label_tags as_shown.
Proof.
  induction ls as [|l ls IH]; [done|]. rewrite fmap_cons, !bind_cons, IH. f_equal.
  unfold label_tags, as_shown. cbn [kv_Key kv_Val]. do 3 f_equal.
  change (html "=" ++ kv_Val l) with ("="%char :: kv_Val l).
  unfold lined at 3. by rewrite lining_value by done.
Qed.

(** A page ends in a line feed. *)
Lemma Execute_finished d : WebURL d = [] -> exists b, Execute Sprint d = b ++ [nl].
Proof.
  intros Hu. unfold Execute. rewrite Hu. cbn [tmpl_link]. rewrite app_nil_l, !app_assoc.
  change [nl; nl] with ([nl] ++ [nl]). rewrite app_assoc. by eexists.
Qed.

(** What is on the screen. *)
Lemma layout_lined d :
  WebURL d = [] ->
  layout (fun x => lined (Sprint x)) printable (lined_data d) = layout Sprint as_shown d.
Proof.
  intros Hu. unfold layout. cbn [lined_data RuleName ed_Hostname Expr ed_Labels ed_Value StateLabel ed_Time WebURL].
  rewrite Hu, label_lined. reflexivity.
Qed.
End page.

(** The body's last line is finished, so nothing is added to it. *)
Lemma dot_write_nl st s : (dot_write st (s ++ [nl])).2 = W_beginLine.
Proof.
  revert st. induction s as [|c s IH]; intros st; [by destruct st|]. cbn [app].
  rewrite dot_write_cons. apply IH.
Qed.
