(* ===== verification/Mail.v ===== *)
(** * Alert mails and the web server's configuration (web/smtp, web/config)

    A mail is the headers built here and the page of [MailHtml]; its way to the
    receiver is [MailWire]'s; the answers of the SMTP dialogue and the text of a
    float64 are arguments. The file reads a message back the way a mail program
    does. *)
From Stdlib Require Import Ascii String.
From stdpp Require Import pretty.
From S2P Require Import Prelude GoTime LabelsJson GoFloat GoStrings MailHtml MailWire.

(** ** web/config/config.go *)
Record VictoriaMetrics := { vm_URL : string; vm_Timeout : Duration }.

Record SMTPConfig := {
  smtp_Host : string;
  smtp_Port : Z;
  Username : string;
  Password : string;
  From : string;
  To : list string;
  Insecure : bool
}.

Record WebConfig := {
  Listen : string;
  DBPath : string;
  web_VM : VictoriaMetrics;
  EvalInterval : Duration;
  SMTP : SMTPConfig;
  TTL : Duration;
  CleanInterval : Duration;
  UIDir : string
}.

Definition text_default (d s : string) : string := if decide (s = EmptyString) then d else s.
Definition positive_default (d n : Z) : Z := if n <=? 0 then d else n.

(** The error is always nil. *)
Definition clean_web (c : WebConfig) : WebConfig :=
  {| Listen := text_default "0.0.0.0:8080" (Listen c);
     DBPath := text_default "./data/monitorweb.db" (DBPath c);
     web_VM := {| vm_URL := text_default "http://127.0.0.1:8428" (vm_URL (web_VM c));
                  vm_Timeout := positive_default (10 * Second) (vm_Timeout (web_VM c)) |};
     EvalInterval := positive_default (60 * Second) (EvalInterval c);
     SMTP := SMTP c;
     TTL := positive_default (90 * Second) (TTL c);
     CleanInterval := positive_default (60 * Second) (CleanInterval c);
     UIDir := text_default "./web/ui/dist" (UIDir c) |}.

Definition load_web (Unmarshal : string -> result WebConfig) (path : string)
    (raw : result string) : result WebConfig :=
  match raw with
  | Err e => Err ("read config " +:+ path +:+ ": " +:+ e)
  | Ok raw =>
      match Unmarshal raw with
      | Err e => Err ("unmarshal config: " +:+ e)
      | Ok cfg => Ok (clean_web cfg)
      end
  end.

(** ** web/smtp/sender.go *)

(** [${NAME}] stands for the variable, if it is set. *)
Definition resolvePassword (env : Text -> Text) (pw : Text) : Text :=
  if HasPrefix pw (text "${") && HasSuffix pw (text "}") then
    match env (take (List.length pw - 3) (drop 2 pw)) with [] => pw | v => v end
  else pw.

Record Mailer := { ml_cfg : SMTPConfig; ml_webURL : Text }.

(** The link of the body is never set. *)
Definition NewMailer (env : Text -> Text) (cfg : SMTPConfig) : Mailer :=
  {| ml_cfg := {| smtp_Host := smtp_Host cfg; smtp_Port := smtp_Port cfg; Username := Username cfg;
                  Password := str (resolvePassword env (text (Password cfg))); From := From cfg;
                  To := To cfg; Insecure := Insecure cfg |};
     ml_webURL := [] |}.

Definition hostnameOrUnknown (host : Text) : Text :=
  match host with [] => text "(unknown)" | _ => host end.

Section mail.
Context {R : MapRange}.
(** [fmt.Sprint] of the value *)
Context (Sprint : float64 -> Text).

(** What [renderBody] hands to the template. *)
Definition email_data (name expr : Text) (hostname : Text) (labels : gmap string string)
    (value : float64) (recovered : bool) (now : Text) (webURL : Text) : emailData :=
  let keys := sort_strings (range labels).*1 in
  {| RuleName := name; ed_Hostname := hostnameOrUnknown hostname; Expr := expr;
     ed_Labels := (fun k => {| kv_Key := text k; kv_Val := text (default EmptyString (labels !! k)) |})
                    <$> keys;
     ed_Value := value; StateLabel := if recovered then text "已恢复" else text "告警中";
     ed_Time := now; WebURL := webURL |}.

(** Executing the template into a buffer does not fail. *)
Definition renderBody (name expr : Text) (hostname : Text) (labels : gmap string string)
    (value : float64) (recovered : bool) (now : Text) (webURL : Text) : result Text :=
  Ok (Execute Sprint (email_data name expr hostname labels value recovered now webURL)).

Definition crlf : Text := ["013"; "010"]%char.

Definition header (name value : Text) : Text := name ++ text ": " ++ value ++ crlf.

Definition subject_of (name hostname : Text) (recovered : bool) : Text :=
  text "[MONITOR] " ++ (if recovered then text "RECOVERED" else text "FIRING") ++ text ": " ++
  name ++ text " @ " ++ hostnameOrUnknown hostname.

Definition join_to (to : list string) : Text := join ","%char (text <$> to).

Definition message (cfg : SMTPConfig) (subject body : Text) : Text :=
  header (text "From") (text (From cfg)) ++ header (text "To") (join_to (To cfg)) ++
  header (text "Subject") subject ++ header (text "MIME-Version") (text "1.0") ++
  header (text "Content-Type") (text "text/html; charset=UTF-8") ++ crlf ++ body.

(** [SendMail]: what the dialogue with this address, plain authentication,
    sender and recipients answers to this message. *)
Definition SendAlert
    (SendMail : string -> string * string * string -> string -> list string -> Text -> result unit)
    (m : Mailer) (name expr hostname : Text) (labels : gmap string string)
    (value : float64) (recovered : bool) (now : Text) : result unit :=
  let cfg := ml_cfg m in
  if bool_decide (smtp_Host cfg = EmptyString) || bool_decide (To cfg = []) then Ok tt
  else
    match renderBody name expr hostname labels value recovered now (ml_webURL m) with
    | Err e => Err ("render email: " +:+ e)
    | Ok body =>
        SendMail (smtp_Host cfg +:+ ":" +:+ pretty (smtp_Port cfg))
          (Username cfg, Password cfg, smtp_Host cfg) (From cfg) (To cfg)
          (message cfg (subject_of name hostname recovered) body)
    end.
End mail.

(** ** Reading a message *)

(** Up to the next line end, and what follows it. *)
Fixpoint read_line (s : Text) : option (Text * Text) :=
  match s with
  | [] => None
  | c :: s1 =>
      if decide (c = "013"%char /\ head s1 = Some "010"%char) then Some ([], drop 1 s1)
      else '(l, r) ← read_line s1; Some (c :: l, r)
  end.

(** name: value *)
Definition read_header (l : Text) : option (Text * Text) :=
  '(name, v) ← split2 ":" l; Some (name, default v (strip_prefix (text " ") v)).

(** The headers up to the empty line, and the body. *)
Fixpoint read_message (fuel : nat) (s : Text) : option (list (Text * Text) * Text) :=
  match fuel with
  | O => None
  | S n =>
      '(l, r) ← read_line s;
      if decide (l = []) then Some ([], r)
      else h ← read_header l; '(hs, body) ← read_message n r; Some (h :: hs, body)
  end.

(** No line end of any kind. *)
Definition one_line (s : Text) : Prop := (cr ∉ s) /\ (nl ∉ s).

(** A literal has no such byte. *)
Ltac plain_text := apply (bool_decide_unpack _); exact I.

Section reading.

Lemma read_line_crlf l r : one_line l -> read_line (l ++ crlf ++ r) = Some (l, r).
Proof.
  induction l as [|c l IH]; intros [Hc Hn]; [done|].
  apply not_elem_of_cons in Hc as [Hc Hc'], Hn as [_ Hn]. cbn [app read_line].
  rewrite decide_False by (intros [E _]; by apply Hc). by rewrite IH.
Qed.

Lemma read_header_line name v :
  ":"%char ∉ name -> read_header (name ++ text ": " ++ v) = Some (name, v).
Proof. intros H. unfold read_header. change (text ": " ++ v) with (":"%char :: " "%char :: v). by rewrite split2_app. Qed.

Lemma one_line_app a b : one_line (a ++ b) <-> one_line a /\ one_line b.
Proof. unfold one_line. rewrite !not_elem_of_app. tauto. Qed.

Lemma read_message_header n name v r :
  ":"%char ∉ name -> one_line name -> one_line v ->
  read_message (S n) (header name v ++ r) =
    ('(hs, body) ← read_message n r; Some ((name, v) :: hs, body)).
Proof.
  intros Hc Hn Hv. unfold header. rewrite <- !app_assoc.
  replace (name ++ text ": " ++ v ++ crlf ++ r) with ((name ++ text ": " ++ v) ++ crlf ++ r)
    by by rewrite <- !app_assoc.
  cbn [read_message]. rewrite read_line_crlf.
  2:{ rewrite !one_line_app. split_and!; [done|plain_text|done]. }
  cbn [mbind option_bind]. rewrite decide_False by (by destruct name).
  by rewrite read_header_line.
Qed.

(** A header goes through the wire as it is. *)
Lemma carry_header name v s :
  name <> [] -> one_line name -> one_line v -> carry false (header name v ++ s) = header name v ++ carry false s.
Proof.
  intros Hne Hn Hv. unfold header. rewrite <- !app_assoc.
  replace (name ++ text ": " ++ v ++ crlf ++ s) with ((name ++ text ": " ++ v) ++ crlf ++ s)
    by by rewrite <- !app_assoc.
  rewrite carry_plain; [by rewrite <- !app_assoc| | |by destruct name].
  - enough (one_line (name ++ text ": " ++ v)) by apply H. rewrite !one_line_app.
    split_and!; [done|plain_text|done].
  - enough (one_line (name ++ text ": " ++ v)) by apply H. rewrite !one_line_app.
    split_and!; [done|plain_text|done].
Qed.

(** What a mail program shows of a message. *)
Definition shown_headers (cfg : SMTPConfig) (subject : Text) : list (Text * Text) :=
  [(text "From", text (From cfg)); (text "To", join_to (To cfg)); (text "Subject", subject);
   (text "MIME-Version", text "1.0"); (text "Content-Type", text "text/html; charset=UTF-8")].

Lemma read_built_message n cfg subject body :
  one_line (text (From cfg)) -> one_line (join_to (To cfg)) ->
  read_message (S (S (S n))) (message cfg subject body) =
    ('(hs, b) ← read_message (S n) (header (text "Subject") subject ++
        header (text "MIME-Version") (text "1.0") ++
        header (text "Content-Type") (text "text/html; charset=UTF-8") ++ crlf ++ body);
     Some ((text "From", text (From cfg)) :: (text "To", join_to (To cfg)) :: hs, b)).
Proof.
  intros H1 H2. unfold message.
  rewrite read_message_header by (done || plain_text).
  rewrite read_message_header by (done || plain_text).
  by destruct (read_message _ _) as [[hs b]|].
Qed.

Lemma read_rest n subject body :
  one_line subject ->
  read_message (S (S (S (S n)))) (header (text "Subject") subject ++
      header (text "MIME-Version") (text "1.0") ++
      header (text "Content-Type") (text "text/html; charset=UTF-8") ++ crlf ++ body) =
    Some ([(text "Subject", subject); (text "MIME-Version", text "1.0");
           (text "Content-Type", text "text/html; charset=UTF-8")], body).
Proof.
  intros H. rewrite read_message_header by (done || plain_text).
  rewrite read_message_header by plain_text. rewrite read_message_header by plain_text. done.
Qed.

Lemma subject_one_line name hostname recovered :
  one_line name -> one_line hostname -> one_line (subject_of name hostname recovered).
Proof.
  intros H1 H2. unfold subject_of. rewrite !one_line_app. split_and!; try plain_text; [|done|].
  - destruct recovered; plain_text.
  - destruct hostname; [plain_text|done].
Qed.
End reading.

(** ** What is sent *)
Section sending.
Context {R : MapRange}.
Context (Sprint : float64 -> Text).

(** What is received of a message with a finished body. *)
Lemma received_body cfg subject body :
  one_line (text (From cfg)) -> one_line (join_to (To cfg)) -> one_line subject ->
  received (message cfg subject (body ++ [nl])) =
    Some (message cfg subject (carry false (body ++ [nl]))).
Proof.
  intros H1 H2 H3. rewrite received_message. f_equal. unfold message.
  replace (dot_write W_begin _).2 with W_beginLine.
  2:{ symmetry. rewrite !app_assoc. apply dot_write_nl. }
  rewrite app_nil_r. do 5 (rewrite carry_header by (done || plain_text); f_equal).
Qed.

(** C40: a configured mailer hands the SMTP client one message for the
    configured recipients, with the password resolved from the environment.
    What arrives of it after the dialogue is read by a mail program as five
    headers - sender, recipients, a subject that names the state, the rule and the
    host, and the two of the format - and a page: the table of the template, no
    other tag, with the rule's name, the host, the expression, every label in
    order, the value, the state and the time shown as they are, up to the form
    of their line ends and to NUL - as long as the sender, the recipients, the
    rule's name and the host name have no line end. *)
Theorem mail_reads_as_meant SendMail env cfg name expr hostname labels value recovered now :
  let m := NewMailer env cfg in
  smtp_Host cfg <> EmptyString -> To cfg <> [] ->
  one_line (text (From cfg)) -> one_line (join_to (To cfg)) -> one_line name -> one_line hostname ->
  exists msg got body page,
    SendAlert Sprint SendMail m name expr hostname labels value recovered now =
      SendMail (smtp_Host cfg +:+ ":" +:+ pretty (smtp_Port cfg))%string
        (Username cfg, str (resolvePassword env (text (Password cfg))), smtp_Host cfg)
        (From cfg) (To cfg) msg /\
    received msg = Some got /\
    read_message 6 got = Some (shown_headers cfg (subject_of name hostname recovered), body) /\
    read_page (S (List.length (page_text body))) (page_text body) = Some page /\
    shown_page page =
      layout Sprint as_shown (email_data name expr hostname labels value recovered now []).
Proof.
  cbn zeta. intros Hh Ht H1 H2 H3 H4. unfold SendAlert.
  cbn [NewMailer ml_cfg ml_webURL smtp_Host To From smtp_Port Username Password].
  rewrite !bool_decide_eq_false_2 by done. cbn [orb renderBody].
  set (d := email_data _ _ _ _ _ _ _ _).
  destruct (Execute_finished Sprint d eq_refl) as [b Hb].
  eexists _, _, _, _. split_and!; [reflexivity|rewrite Hb; apply received_body; [done|done|by apply subject_one_line]| | |].
  - rewrite read_built_message by done. by rewrite read_rest by by apply subject_one_line.
  - rewrite <- Hb. change (page_text (carry false (Execute Sprint d))) with (lined (Execute Sprint d)).
    rewrite lined_Execute by done. apply Execute_read.
  - rewrite layout_shown. by apply layout_lined.
Qed.

(** A line end in a rule's name - a line feed is enough - is not refused or removed on
    the way: the rest of the name arrives as a header of its own, here one more
    recipient. *)
Theorem rule_name_adds_header cfg eol before bcc hostname recovered body :
  one_line (text (From cfg)) -> one_line (join_to (To cfg)) ->
  one_line before -> one_line bcc -> one_line hostname -> eol = crlf \/ eol = [nl] ->
  exists got, received (message cfg
      (subject_of (before ++ eol ++ text "Bcc: " ++ bcc) hostname recovered) (body ++ [nl])) = Some got /\
  read_message 7 got =
    Some ([(text "From", text (From cfg)); (text "To", join_to (To cfg));
           (text "Subject", text "[MONITOR] " ++
              (if recovered then text "RECOVERED" else text "FIRING") ++ text ": " ++ before);
           (text "Bcc", bcc ++ text " @ " ++ hostnameOrUnknown hostname);
           (text "MIME-Version", text "1.0");
           (text "Content-Type", text "text/html; charset=UTF-8")], carry false (body ++ [nl])).
Proof.
  intros H1 H2 H3 H4 H5 Heol.
  set (st := if recovered then _ else _).
  set (sub := text "[MONITOR] " ++ st ++ text ": " ++ before).
  set (other := bcc ++ text " @ " ++ hostnameOrUnknown hostname).
  assert (one_line sub) as Hs.
  { unfold sub. rewrite !one_line_app. split_and!; [plain_text| |plain_text|done]. destruct recovered; plain_text. }
  assert (one_line other) as Ho.
  { unfold other. rewrite !one_line_app. split_and!; [done|plain_text|]. destruct hostname; [plain_text|done]. }
  eexists. split; [apply received_message|].
  replace (dot_write W_begin _).2 with W_beginLine
    by (symmetry; unfold message; rewrite !app_assoc; apply dot_write_nl).
  rewrite app_nil_r. unfold message.
  set (rest := header (text "MIME-Version") _ ++ _).
  assert (carry false (header (text "Subject") (subject_of (before ++ eol ++ text "Bcc: " ++ bcc) hostname recovered) ++ rest) =
    header (text "Subject") sub ++ header (text "Bcc") other ++ carry false rest) as E.
  { unfold header at 1, subject_of. fold st.
    replace ((text "Subject" ++ _) ++ rest) with
      ((text "Subject" ++ text ": " ++ sub) ++ eol ++ header (text "Bcc") other ++ rest)
      by (unfold sub, other, header; by rewrite <- !app_assoc).
    assert (one_line (text "Subject" ++ text ": " ++ sub)) as [Hc Hn]
      by (rewrite !one_line_app; split_and!; [plain_text|plain_text|done]).
    rewrite carry_plain by done.
    replace (carry false (eol ++ _)) with (crlf ++ carry false (header (text "Bcc") other ++ rest))
      by by destruct Heol as [-> | ->].
    rewrite carry_header by (done || plain_text). unfold header at 2. by rewrite <- !app_assoc. }
  do 2 rewrite carry_header by (done || plain_text). rewrite E.
  unfold rest. do 2 rewrite carry_header by (done || plain_text).
  do 6 rewrite read_message_header by (done || plain_text). reflexivity.
Qed.
End sending.

(** ** The configuration *)

(** Cleaning twice is cleaning once; every duration is positive afterwards. *)
Lemma clean_web_lawful c :
  clean_web (clean_web c) = clean_web c /\
  Forall (fun d => 0 < d) [vm_Timeout (web_VM (clean_web c)); EvalInterval (clean_web c);
                           TTL (clean_web c); CleanInterval (clean_web c)].
Proof.
  assert (forall d s, d <> EmptyString -> text_default d (text_default d s) = text_default d s) as Ht
    by (intros d s Hd; unfold text_default; by repeat case_decide).
  assert (forall d n, 0 < d -> positive_default d (positive_default d n) = positive_default d n /\
      0 < positive_default d n) as Hp.
  { intros d n Hd. unfold positive_default. destruct (Z.leb_spec n 0); destruct (Z.leb_spec d 0);
      destruct (Z.leb_spec n 0); split; lia. }
  split.
  - unfold clean_web. simpl. rewrite !Ht by done.
    by rewrite !(fun d n H => proj1 (Hp d n H)) by done.
  - repeat constructor; simpl; by apply Hp.
Qed.

(** ** A concrete mail *)
Definition demo_smtp : SMTPConfig :=
  {| smtp_Host := "smtp.example.org"; smtp_Port := 587; Username := "alerts"; Password := "${SMTP_PW}";
     From := "alerts@example.org"; To := ["ops@example.org"; "dev@example.org"]%string;
     Insecure := false |}.

Definition demo_sprint (x : float64) : Text := text "1e+06".

Lemma mail_reads_as_meant_witness :
  exists msg got body page,
    SendAlert (R := in_key_order) demo_sprint
      (fun _ _ _ _ _ => Err "connection refused"%string)
      (NewMailer (fun _ => text "secret") demo_smtp) (text "disk <b>full</b>") (text "disk > 90")
      (text "web-1") {["mount" := "/a&b"]} (float_of 93) false (text "2024-05-01 12:00:00") =
      Err "connection refused"%string /\
    received msg = Some got /\
    read_message 6 got =
      Some (shown_headers demo_smtp (subject_of (text "disk <b>full</b>") (text "web-1") false), body) /\
    read_page (S (List.length (page_text body))) (page_text body) = Some page /\
    shown_page page = layout demo_sprint as_shown
      (email_data (R := in_key_order) (text "disk <b>full</b>") (text "disk > 90") (text "web-1")
         {["mount" := "/a&b"]} (float_of 93) false (text "2024-05-01 12:00:00") []).
Proof.
  apply (mail_reads_as_meant (R := in_key_order) demo_sprint
    (fun _ _ _ _ _ => Err "connection refused"%string) (fun _ => text "secret") demo_smtp
    (text "disk <b>full</b>") (text "disk > 90") (text "web-1") {["mount" := "/a&b"]} (float_of 93) false
    (text "2024-05-01 12:00:00")); try discriminate; try plain_text; reflexivity.
Defined.

Lemma rule_name_adds_header_witness :
  exists got, received (message demo_smtp
      (subject_of (text "disk" ++ [nl] ++ text "Bcc: " ++ text "x@evil.example,") (text "web-1") false)
      (text "body" ++ [nl])) = Some got /\
  read_message 7 got =
    Some ([(text "From", text "alerts@example.org"); (text "To", text "ops@example.org,dev@example.org");
           (text "Subject", text "[MONITOR] FIRING: disk");
           (text "Bcc", text "x@evil.example, @ web-1");
           (text "MIME-Version", text "1.0");
           (text "Content-Type", text "text/html; charset=UTF-8")], text "body" ++ [cr; nl]).
Proof. apply (rule_name_adds_header demo_smtp [nl] (text "disk")); first [plain_text | by right]. Defined.
