(* ===== verification/CivilTime.v ===== *)
(** * Calendar dates and the RFC 3339 text of an instant

    What the program uses of Go's [time.Format] and [time.Parse] with the layout
    [time.RFC3339], for instants in UTC: seconds to a civil date and back, the text,
    and the reader, which also takes numeric zones and fractions of a second. At the
    end: [Parse] reads back what [Format] wrote, and the order of the texts (byte by
    byte, as SQLite compares them) is the order of the instants. *)
From Stdlib Require Import Ascii String.
From S2P Require Import Prelude GoTime LabelsJson GoStrings.

(** Divisions by constants, for [lia]. *)
#[local] Ltac Zify.zify_post_hook ::= Z.to_euclidean_division_equations.

(** ** The calendar *)
Definition is_leap (y : Z) : bool :=
  (y mod 4 =? 0) && (negb (y mod 100 =? 0) || (y mod 400 =? 0)).

Definition month_starts : list Z := [0; 31; 59; 90; 120; 151; 181; 212; 243; 273; 304; 334; 365].

(** Days of a year before its month [m], from 1 to 13. *)
Definition days_before (leap : bool) (m : Z) : Z :=
  nth (Z.to_nat (m - 1)) month_starts 0 + if leap && (2 <? m) then 1 else 0.

Definition daysIn (m y : Z) : Z := days_before (is_leap y) (m + 1) - days_before (is_leap y) m.

(** Days from January 1 of year 1 to January 1 of year [y], and to the epoch. *)
Definition year_days (y : Z) : Z :=
  365 * (y - 1) + (y - 1) / 4 - (y - 1) / 100 + (y - 1) / 400.

Definition epoch_days : Z := 719162.

Definition unix_day (y m d : Z) : Z :=
  year_days y + days_before (is_leap y) m + (d - 1) - epoch_days.

(** The year of a day and the day's index in it, by cycles of 400, 100, 4 and 1
    years; the last day of a 400 or 4 year cycle would start a fifth part. *)
Definition year_of (n : Z) : Z * Z :=
  let d := n + epoch_days in
  let n400 := d / 146097 in
  let d := d mod 146097 in
  let n100 := d / 36524 - d / 36524 / 4 in
  let d := d - 36524 * n100 in
  let n4 := d / 1461 in
  let d := d mod 1461 in
  let n1 := d / 365 - d / 365 / 4 in
  (1 + 400 * n400 + 100 * n100 + 4 * n4 + n1, d - 365 * n1).

Definition month_of (leap : bool) (yday : Z) : Z :=
  1 + Z.of_nat (List.length (filter (fun m => days_before leap m <= yday) (seqZ 2 11))).

Record Civil := {
  c_year : Z; c_month : Z; c_day : Z; c_hour : Z; c_minute : Z; c_second : Z
}.

Definition civil_of (s : Z) : Civil :=
  let '(y, yday) := year_of (s / 86400) in
  let m := month_of (is_leap y) yday in
  let r := s mod 86400 in
  {| c_year := y; c_month := m; c_day := yday - days_before (is_leap y) m + 1;
     c_hour := r / 3600; c_minute := r / 60 mod 60; c_second := r mod 60 |}.

(** [time.Date(year, month, day, hour, min, sec, 0, time.UTC).Unix()] *)
Definition Date (c : Civil) : Z :=
  unix_day (c_year c) (c_month c) (c_day c) * 86400
  + (c_hour c * 60 + c_minute c) * 60 + c_second c.

Definition valid_civil (c : Civil) : Prop :=
  1 <= c_month c <= 12 /\ 1 <= c_day c <= daysIn (c_month c) (c_year c) /\
  0 <= c_hour c < 24 /\ 0 <= c_minute c < 60 /\ 0 <= c_second c < 60.

#[export] Instance valid_civil_dec c : Decision (valid_civil c).
Proof. unfold valid_civil. apply _. Defined.

(** ** Writing *)

(** The last [w] decimal digits of [n]. *)
Fixpoint dec (w : nat) (n : Z) : Text :=
  match w with
  | O => []
  | S w' => dec w' (n / 10) ++ [chr (48 + n mod 10)]
  end.

Fixpoint ndigits (fuel : nat) (n : Z) : nat :=
  match fuel with
  | O => 1
  | S f => if n <? 10 then 1 else S (ndigits f (n / 10))
  end.

(** [appendInt(b, x, width)]: zero-padded, longer when the number is. *)
Definition appendInt (x : Z) (width : nat) : Text :=
  let u := Z.abs x in
  (if x <? 0 then ["-"%char] else []) ++ dec (Nat.max width (ndigits (Z.to_nat (Z.log2 u)) u)) u.

(** [t.UTC().Format(time.RFC3339)] *)
Definition Format (t : Time) : Text :=
  let c := civil_of (t / Second) in
  appendInt (c_year c) 4 ++ "-"%char :: dec 2 (c_month c) ++ "-"%char :: dec 2 (c_day c)
  ++ "T"%char :: dec 2 (c_hour c) ++ ":"%char :: dec 2 (c_minute c)
  ++ ":"%char :: dec 2 (c_second c) ++ ["Z"%char].

(** ** Reading: [time.Parse(time.RFC3339, s)], [None] for an error *)
Definition digit (c : ascii) : option Z :=
  if (48 <=? byte c) && (byte c <=? 57) then Some (byte c - 48) else None.

(** [getnum(s, fixed)]: one or two digits, exactly two when [fixed]. *)
Definition getnum (fixed : bool) (s : Text) : option (Z * Text) :=
  match s with
  | [] => None
  | a :: s1 =>
      x ← digit a;
      match s1 with
      | [] => if fixed then None else Some (x, [])
      | b :: s2 =>
          match digit b with
          | Some y => Some (10 * x + y, s2)
          | None => if fixed then None else Some (x, s1)
          end
      end
  end.

(** A number field with its range check. *)
Definition field (fixed : bool) (lo hi : Z) (s : Text) : option (Z * Text) :=
  '(x, s) ← getnum fixed s;
  if (lo <=? x) && (x <=? hi) then Some (x, s) else None.

(** A literal byte of the layout. *)
Definition lit (c : ascii) (s : Text) : option Text :=
  match s with a :: s' => if decide (a = c) then Some s' else None | [] => None end.

Definition year_field (s : Text) : option (Z * Text) :=
  '(hi, s) ← getnum true s; '(lo, s) ← getnum true s; Some (100 * hi + lo, s).

Fixpoint digit_run (s : Text) : list Z * Text :=
  match s with
  | a :: s' =>
      match digit a with
      | Some x => let '(xs, r) := digit_run s' in (x :: xs, r)
      | None => ([], s)
      end
  | [] => ([], [])
  end.

(** A fraction: the first nine digits count, in nanoseconds. *)
Definition nanos (ds : list Z) : Z :=
  let ds := take 9 ds in
  foldl (fun acc d => 10 * acc + d) 0 ds * 10 ^ (9 - Z.of_nat (List.length ds)).

Definition fraction (s : Text) : Z * Text :=
  match s with
  | c :: s' =>
      if (byte c =? 46) || (byte c =? 44) then
        match digit_run s' with
        | ([], _) => (0, s)
        | (ds, r) => (nanos ds, r)
        end
      else (0, s)
  | [] => (0, [])
  end.

(** The zone, [Z] or [+hh:mm] or [-hh:mm], in seconds east of UTC. *)
Definition zone (s : Text) : option (Z * Text) :=
  match s with
  | "Z"%char :: s' => Some (0, s')
  | sg :: s1 =>
      '(hr, s2) ← field true 0 24 s1;
      s3 ← lit ":" s2;
      '(mm, s4) ← field true 0 60 s3;
      if decide (sg = "+"%char) then Some ((hr * 60 + mm) * 60, s4)
      else if decide (sg = "-"%char) then Some (- ((hr * 60 + mm) * 60), s4) else None
  | [] => None
  end.

Definition Parse (s : Text) : option Time :=
  '(y, s) ← year_field s; s ← lit "-" s;
  '(mo, s) ← field true 1 12 s; s ← lit "-" s;
  '(d, s) ← getnum true s; s ← lit "T" s;
  '(h, s) ← field false 0 23 s; s ← lit ":" s;
  '(mi, s) ← field true 0 59 s; s ← lit ":" s;
  '(se, s) ← field true 0 59 s;
  let '(ns, s) := fraction s in
  '(off, s) ← zone s;
  match s with
  | [] =>
      if (1 <=? d) && (d <=? daysIn mo y) then
        Some ((Date {| c_year := y; c_month := mo; c_day := d; c_hour := h;
                       c_minute := mi; c_second := se |} - off) * Second + ns)
      else None
  | _ :: _ => None
  end.

Example format_reads : str (Format (1709210096 * Second + 5)) = "2024-02-29T12:34:56Z"%string.
Proof. vm_compute. reflexivity. Qed.

Example parse_zone :
  Parse (text "2024-02-29T20:34:56.25+08:00") = Some (1709210096 * Second + 250 * Millisecond).
Proof. vm_compute. reflexivity. Qed.

Example format_zero_time : str (Format zero_time) = "0001-01-01T00:00:00Z"%string.
Proof. vm_compute. reflexivity. Qed.

(** ** Days and dates *)
Section calendar.
(** The four divisions of [year_days] are exact on a year written in cycles. *)
Lemma year_days_cycles a b c e :
  0 <= b <= 3 -> 0 <= c <= 24 -> 0 <= e <= 3 ->
  year_days (1 + 400 * a + 100 * b + 4 * c + e) = 146097 * a + 36524 * b + 1461 * c + 365 * e.
Proof. intros. unfold year_days. lia. Qed.

Lemma is_leap_cycles a b c e :
  0 <= b <= 3 -> 0 <= c <= 24 -> 0 <= e <= 3 ->
  is_leap (1 + 400 * a + 100 * b + 4 * c + e) = (e =? 3) && ((negb (c =? 24)) || (b =? 3)).
Proof.
  intros. unfold is_leap. apply Bool.eq_iff_eq_true.
  rewrite !andb_true_iff, !orb_true_iff, !negb_true_iff, !Z.eqb_eq, !Z.eqb_neq. lia.
Qed.

Lemma year_days_next y : year_days (y + 1) = year_days y + 365 + if is_leap y then 1 else 0.
Proof.
  unfold year_days, is_leap.
  destruct (Z.eqb_spec (y mod 4) 0), (Z.eqb_spec (y mod 100) 0), (Z.eqb_spec (y mod 400) 0);
    simpl; lia.
Qed.

Lemma year_days_mono y z : y <= z -> year_days y <= year_days z.
Proof. unfold year_days. lia. Qed.

Lemma year_of_spec n :
  let '(y, yday) := year_of n in
  year_days y + yday - epoch_days = n /\ 0 <= yday < 365 + if is_leap y then 1 else 0.
Proof.
  unfold year_of. cbv zeta.
  set (d := n + epoch_days). set (d1 := d mod 146097). set (a := d / 146097).
  set (b := d1 / 36524 - d1 / 36524 / 4). set (d2 := d1 - 36524 * b).
  set (c := d2 / 1461). set (d3 := d2 mod 1461). set (e := d3 / 365 - d3 / 365 / 4).
  assert (0 <= d1 < 146097) by (unfold d1; lia).
  assert (0 <= b <= 3) by (unfold b; lia).
  assert (0 <= d2 < 36524 + if b =? 3 then 1 else 0)
    by (destruct (Z.eqb_spec b 3); unfold d2, b in *; lia).
  assert (0 <= c <= 24) by (destruct (b =? 3); unfold c; lia).
  assert (0 <= d3 < 1460 + if negb (c =? 24) || (b =? 3) then 1 else 0).
  { destruct (Z.eqb_spec b 3), (Z.eqb_spec c 24); unfold d3, c in *; simpl; lia. }
  assert (0 <= e <= 3) by (unfold e; lia).
  rewrite year_days_cycles, is_leap_cycles by done. split.
  - unfold d3, d2, d1, c, a in *. lia.
  - destruct (Z.eqb_spec e 3); simpl;
      destruct (negb (c =? 24) || (b =? 3)); unfold e in *; lia.
Qed.

(** The tables, day by day. *)
Definition month_ok (leap : bool) (yday : Z) : bool :=
  let m := month_of leap yday in
  (1 <=? m) && (m <=? 12) && (days_before leap m <=? yday) && (yday <? days_before leap (m + 1)).

Lemma month_table (leap : bool) :
  forallb (month_ok leap) (seqZ 0 (365 + (if leap then 1 else 0))) = true.
Proof. destruct leap; vm_compute; reflexivity. Qed.

Lemma month_of_spec (leap : bool) yday :
  0 <= yday < 365 + (if leap then 1 else 0) ->
  1 <= month_of leap yday <= 12 /\
  days_before leap (month_of leap yday) <= yday < days_before leap (month_of leap yday + 1).
Proof.
  intros H. pose proof (proj1 (forallb_forall _ _) (month_table leap) yday) as Hm.
  unfold month_ok in Hm. rewrite !andb_true_iff, !Z.leb_le, Z.ltb_lt in Hm.
  destruct Hm as [[[? ?] ?] ?]; [|done].
  apply list_elem_of_In, elem_of_seqZ. lia.
Qed.

Lemma months_increase leap m m' :
  1 <= m -> m < m' -> m' <= 13 -> days_before leap (m + 1) <= days_before leap m'.
Proof.
  intros. assert (m ∈ seqZ 1 12) as Hm by (apply elem_of_seqZ; lia).
  assert (m' ∈ seqZ 1 13) as Hm' by (apply elem_of_seqZ; lia).
  assert (forallb (fun m => forallb (fun m' => negb (m <? m') ||
      (days_before leap (m + 1) <=? days_before leap m')) (seqZ 1 13)) (seqZ 1 12) = true) as Ht
    by (destruct leap; vm_compute; reflexivity).
  rewrite forallb_forall in Ht. specialize (Ht m (proj1 (list_elem_of_In _ _) Hm)). cbv beta in Ht.
  rewrite forallb_forall in Ht. specialize (Ht m' (proj1 (list_elem_of_In _ _) Hm')).
  rewrite orb_true_iff, negb_true_iff, Z.ltb_ge, Z.leb_le in Ht. lia.
Qed.

Lemma days_before_year (leap : bool) m :
  1 <= m <= 12 -> 0 <= days_before leap m /\
  days_before leap (m + 1) <= 365 + if leap then 1 else 0.
Proof.
  intros Hm. split.
  - destruct (decide (m = 1)) as [->|]; [by destruct leap|].
    pose proof (months_increase leap 1 m).
    assert (days_before leap (1 + 1) = 31) by (by destruct leap). lia.
  - pose proof (months_increase leap m 13).
    assert (days_before leap 13 = 365 + if leap then 1 else 0) by (by destruct leap). lia.
Qed.

Lemma civil_of_valid s : valid_civil (civil_of s).
Proof.
  unfold valid_civil, civil_of, daysIn. pose proof (year_of_spec (s / 86400)) as H.
  destruct (year_of _) as [y yday]. destruct H as [_ H].
  pose proof (month_of_spec (is_leap y) yday H). simpl. lia.
Qed.

Lemma Date_civil_of s : Date (civil_of s) = s.
Proof.
  unfold Date, civil_of, unix_day. pose proof (year_of_spec (s / 86400)) as H.
  destruct (year_of _) as [y yday]. destruct H as [H _]. simpl. lia.
Qed.
End calendar.

(** ** The order of texts

    [text_compare] is the byte-wise comparison of SQLite's default collation. *)
Definition then_compare (c d : comparison) : comparison :=
  match c with Eq => d | _ => c end.

Fixpoint text_compare (s t : Text) : comparison :=
  match s, t with
  | [], [] => Eq
  | [], _ :: _ => Lt
  | _ :: _, [] => Gt
  | a :: s', b :: t' => then_compare (byte a ?= byte b) (text_compare s' t')
  end.

Definition civil_compare (c d : Civil) : comparison :=
  then_compare (c_year c ?= c_year d)
    (then_compare (c_month c ?= c_month d)
      (then_compare (c_day c ?= c_day d)
        (then_compare (c_hour c ?= c_hour d)
          (then_compare (c_minute c ?= c_minute d) (c_second c ?= c_second d))))).

Section order.
Lemma text_compare_app p q s t :
  List.length p = List.length q ->
  text_compare (p ++ s) (q ++ t) = then_compare (text_compare p q) (text_compare s t).
Proof.
  revert q. induction p as [|a p IH]; intros [|b q] Hl; simplify_eq/=; [done|].
  rewrite IH by done. by destruct (byte a ?= byte b).
Qed.

Lemma text_compare_cons a s t : text_compare (a :: s) (a :: t) = text_compare s t.
Proof. simpl. by rewrite Z.compare_refl. Qed.

(** Numbers of two places compare by the first place, then by the second. *)
Lemma compare_radix k a b a' b' :
  0 <= b < k -> 0 <= b' < k ->
  (a * k + b ?= a' * k + b') = then_compare (a ?= a') (b ?= b').
Proof.
  intros. destruct (Z.compare_spec a a') as [->| |]; simpl.
  - destruct (Z.compare_spec b b'); [apply Z.compare_eq_iff|apply Z.compare_lt_iff|
      apply Z.compare_gt_iff]; lia.
  - apply Z.compare_lt_iff. nia.
  - apply Z.compare_gt_iff. nia.
Qed.

Lemma byte_chr n : 0 <= n < 256 -> byte (chr n) = n.
Proof.
  intros H. unfold byte, chr. rewrite N_ascii_embedding; lia.
Qed.

Lemma length_dec w n : List.length (dec w n) = w.
Proof. revert n. induction w; intros; simpl; [done|]. rewrite length_app, IHw. simpl. lia. Qed.

Lemma dec_compare w a b :
  0 <= a < 10 ^ Z.of_nat w -> 0 <= b < 10 ^ Z.of_nat w ->
  text_compare (dec w a) (dec w b) = (a ?= b).
Proof.
  revert a b. induction w as [|w IH]; intros a b Ha Hb.
  { simpl in *. symmetry. apply Z.compare_eq_iff. lia. }
  rewrite Nat2Z.inj_succ, Z.pow_succ_r in Ha, Hb by lia.
  simpl. rewrite text_compare_app by (by rewrite !length_dec).
  rewrite IH by lia. simpl. rewrite !byte_chr, Z.add_compare_mono_l by lia.
  pose proof (compare_radix 10 (a / 10) (a mod 10) (b / 10) (b mod 10)) as Hr.
  replace (a / 10 * 10 + a mod 10) with a in Hr by lia.
  replace (b / 10 * 10 + b mod 10) with b in Hr by lia.
  rewrite Hr by lia. by destruct (a mod 10 ?= b mod 10).
Qed.

(** The days of a later year, or of a later month, come later. *)
Lemma unix_day_compare y m d y' m' d' :
  1 <= m <= 12 -> 1 <= d <= daysIn m y -> 1 <= m' <= 12 -> 1 <= d' <= daysIn m' y' ->
  (unix_day y m d ?= unix_day y' m' d') =
    then_compare (y ?= y') (then_compare (m ?= m') (d ?= d')).
Proof.
  assert (forall y m d y' m' d', 1 <= m <= 12 -> 1 <= d <= daysIn m y -> 1 <= m' <= 12 ->
    1 <= d' <= daysIn m' y' -> y < y' -> unix_day y m d < unix_day y' m' d') as Hyear.
  { clear. unfold unix_day, daysIn. intros y m d y' m' d' Hm Hd Hm' Hd' Hy.
    pose proof (days_before_year (is_leap y) m Hm). pose proof (days_before_year (is_leap y') m' Hm').
    pose proof (year_days_next y). pose proof (year_days_mono (y + 1) y'). lia. }
  assert (forall y m d m' d', 1 <= m <= 12 -> 1 <= d <= daysIn m y -> 1 <= m' <= 12 ->
    1 <= d' <= daysIn m' y -> m < m' -> unix_day y m d < unix_day y m' d') as Hmonth.
  { clear. unfold unix_day, daysIn. intros y m d m' d' Hm Hd Hm' Hd' Hlt.
    pose proof (months_increase (is_leap y) m m'). lia. }
  intros Hm Hd Hm' Hd'. destruct (Z.compare_spec y y') as [->| |]; simpl.
  - destruct (Z.compare_spec m m') as [->| |]; simpl;
      [|apply Z.compare_lt_iff; by apply Hmonth|apply Z.compare_gt_iff; by apply Hmonth].
    unfold unix_day. destruct (Z.compare_spec d d');
      [apply Z.compare_eq_iff|apply Z.compare_lt_iff|apply Z.compare_gt_iff]; lia.
  - apply Z.compare_lt_iff. by apply Hyear.
  - apply Z.compare_gt_iff. by apply Hyear.
Qed.

Lemma Date_compare c d :
  valid_civil c -> valid_civil d -> (Date c ?= Date d) = civil_compare c d.
Proof.
  intros (Hm & Hd & Hh & Hi & Hs) (Hm' & Hd' & Hh' & Hi' & Hs'). unfold Date, civil_compare.
  assert (forall n h mi s, n * 86400 + (h * 60 + mi) * 60 + s = ((n * 24 + h) * 60 + mi) * 60 + s)
    as Hregroup by lia.
  rewrite !Hregroup, (compare_radix 60), (compare_radix 60), (compare_radix 24) by done.
  rewrite unix_day_compare by done.
  by destruct (c_year c ?= c_year d), (c_month c ?= c_month d), (c_day c ?= c_day d),
    (c_hour c ?= c_hour d), (c_minute c ?= c_minute d).
Qed.

Lemma daysIn_le m y : 1 <= m <= 12 -> daysIn m y <= 31.
Proof.
  intros Hm. unfold daysIn.
  assert (forall leap, forallb (fun m => days_before leap (m + 1) - days_before leap m <=? 31)
    (seqZ 1 12) = true) as Ht by (intros []; vm_compute; reflexivity).
  specialize (Ht (is_leap y)). rewrite forallb_forall in Ht.
  apply Z.leb_le, (Ht m), list_elem_of_In, elem_of_seqZ. lia.
Qed.

Lemma ndigits_year y : 0 <= y < 10000 -> (ndigits (Z.to_nat (Z.log2 y)) y <= 4)%nat.
Proof.
  intros Hy. assert (forall f n, (ndigits f n <= 1)%nat \/ 10 <= n) as H1.
  { intros [|f] n; simpl; [lia|]. destruct (Z.ltb_spec n 10); lia. }
  generalize (Z.to_nat (Z.log2 y)). intros f.
  do 3 (destruct f as [|f]; simpl; [lia|]; case_match; [lia|];
    match goal with H : (?n <? 10) = false |- _ => apply Z.ltb_ge in H end).
  destruct (H1 f (y / 10 / 10 / 10)) as [?|?]; lia.
Qed.

Lemma appendInt_year y : 0 <= y < 10000 -> appendInt y 4 = dec 4 y.
Proof.
  intros Hy. unfold appendInt. rewrite (Z.abs_eq y) by lia.
  replace (y <? 0) with false by (symmetry; apply Z.ltb_ge; lia). cbn [app].
  f_equal. pose proof (ndigits_year y Hy). lia.
Qed.

Definition year_written (t : Time) : Prop := 0 <= c_year (civil_of (t / Second)) < 10000.

#[export] Instance year_written_dec t : Decision (year_written t).
Proof. unfold year_written. apply _. Defined.

Lemma Format_compare t u :
  year_written t -> year_written u ->
  text_compare (Format t) (Format u) = (t / Second ?= u / Second).
Proof.
  intros Ht Hu. trans (Date (civil_of (t / Second)) ?= Date (civil_of (u / Second)));
    [|by rewrite !Date_civil_of].
  pose proof (civil_of_valid (t / Second)) as Hc. pose proof (civil_of_valid (u / Second)) as Hd.
  rewrite Date_compare by done. unfold year_written, Format in *.
  revert Ht Hu Hc Hd. generalize (civil_of (t / Second)), (civil_of (u / Second)).
  intros c d Hy Hy' (Hm & Hd & Hh & Hi & Hs) (Hm' & Hd' & Hh' & Hi' & Hs'). cbv zeta.
  pose proof (daysIn_le (c_month c) (c_year c) Hm). pose proof (daysIn_le (c_month d) (c_year d) Hm').
  rewrite !appendInt_year by done.
  unfold civil_compare.
  repeat (rewrite text_compare_app by (by rewrite !length_dec);
          rewrite dec_compare by (simpl; lia); try rewrite text_compare_cons).
  simpl. by destruct (c_second c ?= c_second d).
Qed.
End order.

(** ** Reading back *)
Section reading.
Lemma digit_chr x : 0 <= x < 10 -> digit (chr (48 + x)) = Some x.
Proof.
  intros Hx. unfold digit. rewrite byte_chr by lia.
  replace ((48 <=? 48 + x) && (48 + x <=? 57)) with true; [f_equal; lia|].
  symmetry. apply andb_true_iff. rewrite !Z.leb_le. lia.
Qed.

Lemma getnum_dec fixed x s : 0 <= x < 100 -> getnum fixed (dec 2 x ++ s) = Some (x, s).
Proof.
  intros Hx. simpl. rewrite !digit_chr by lia. simpl. do 2 f_equal. lia.
Qed.

Lemma field_dec fixed lo hi x s :
  0 <= lo -> hi < 100 -> lo <= x <= hi -> field fixed lo hi (dec 2 x ++ s) = Some (x, s).
Proof.
  intros. unfold field. rewrite getnum_dec by lia. simpl.
  replace ((lo <=? x) && (x <=? hi)) with true; [done|].
  symmetry. apply andb_true_iff. rewrite !Z.leb_le. lia.
Qed.

Lemma dec_4 y : dec 4 y = dec 2 (y / 100) ++ dec 2 (y mod 100).
Proof. simpl. repeat (f_equal; [|try done]); do 2 f_equal; lia. Qed.

#[local] Opaque dec.

Lemma year_field_dec y s : 0 <= y < 10000 -> year_field (dec 4 y ++ s) = Some (y, s).
Proof.
  intros Hy. unfold year_field. rewrite dec_4, <-(assoc_L app).
  rewrite getnum_dec by lia. simpl. rewrite getnum_dec by lia. simpl. do 2 f_equal. lia.
Qed.

Lemma Parse_civil c :
  valid_civil c -> 0 <= c_year c < 10000 ->
  Parse (dec 4 (c_year c) ++ "-"%char :: dec 2 (c_month c) ++ "-"%char :: dec 2 (c_day c)
    ++ "T"%char :: dec 2 (c_hour c) ++ ":"%char :: dec 2 (c_minute c)
    ++ ":"%char :: dec 2 (c_second c) ++ ["Z"%char]) = Some (Date c * Second).
Proof.
  intros (Hm & Hd & Hh & Hi & Hs) Hy. unfold Parse.
  pose proof (daysIn_le _ (c_year c) Hm).
  rewrite year_field_dec by done. simpl. rewrite field_dec by lia. simpl.
  rewrite getnum_dec by lia. simpl. do 3 (rewrite field_dec by lia; simpl).
  replace ((1 <=? c_day c) && (c_day c <=? daysIn (c_month c) (c_year c))) with true.
  - destruct c; simpl. f_equal. lia.
  - symmetry. apply andb_true_iff. rewrite !Z.leb_le. lia.
Qed.

Lemma Parse_Format t :
  year_written t -> Parse (Format t) = Some (t - t mod Second).
Proof.
  intros Hy. unfold Format. cbv zeta. rewrite appendInt_year by done.
  rewrite Parse_civil by (done || apply civil_of_valid). rewrite Date_civil_of.
  f_equal. apply parse_format.
Qed.

(** Outside those years the text has a sign or a fifth digit, and is not read back. *)
Lemma dec_digits w n : Forall (fun c => is_Some (digit c)) (dec w n).
Proof.
  revert n. induction w as [|w IH]; intros n; [constructor|].
  change (dec (S w) n) with (dec w (n / 10) ++ [chr (48 + n mod 10)]).
  apply Forall_app_2; [done|]. repeat constructor. rewrite digit_chr by lia. eauto.
Qed.

Lemma ndigits_long y : 10000 <= y -> (5 <= ndigits (Z.to_nat (Z.log2 y)) y)%nat.
Proof.
  intros Hy. assert (13 <= Z.log2 y) by (apply Z.log2_le_pow2; lia).
  replace (Z.to_nat (Z.log2 y)) with (4 + (Z.to_nat (Z.log2 y) - 4))%nat by lia. simpl.
  do 4 (case_match; [match goal with H : (?n <? 10) = true |- _ => apply Z.ltb_lt in H end; lia|]).
  destruct (Z.to_nat _ - 4)%nat; simpl; [lia|]. case_match; lia.
Qed.

Lemma getnum_digits a b s x y :
  digit a = Some x -> digit b = Some y -> getnum true (a :: b :: s) = Some (10 * x + y, s).
Proof. intros Ha Hb. simpl. by rewrite Ha, Hb. Qed.

Lemma Parse_long_year y s : 10000 <= y -> Parse (appendInt y 4 ++ s) = None.
Proof.
  intros Hy. unfold appendInt. rewrite (Z.abs_eq y) by lia.
  replace (y <? 0) with false by (symmetry; apply Z.ltb_ge; lia). cbn [app].
  pose proof (ndigits_long y Hy) as Hn. revert Hn.
  generalize (ndigits (Z.to_nat (Z.log2 y)) y). intros n Hn.
  pose proof (dec_digits (Nat.max 4 n) y) as Hd. pose proof (length_dec (Nat.max 4 n) y) as Hl.
  destruct (dec _ y) as [|a [|b [|c [|d [|e ds]]]]]; simpl in Hl; try lia.
  do 5 (apply Forall_cons in Hd as [[? ?] Hd]).
  unfold Parse, year_field. cbn [app].
  erewrite (getnum_digits a b) by eassumption. simpl.
  match goal with H : digit c = _, H' : digit d = _ |- _ => rewrite H, H' end. simpl.
  destruct (decide (e = "-"%char)) as [->|]; [|done].
  match goal with H : digit "-" = _ |- _ => vm_compute in H; discriminate H end.
Qed.

Lemma Parse_Format_iff t :
  Parse (Format t) = if decide (year_written t) then Some (t - t mod Second) else None.
Proof.
  case_decide as Hy; [by apply Parse_Format|]. unfold Format. cbv zeta.
  unfold year_written in Hy. destruct (decide (c_year (civil_of (t / Second)) < 0)).
  - unfold appendInt. by replace (_ <? 0) with true by (symmetry; apply Z.ltb_lt; lia).
  - apply Parse_long_year. lia.
Qed.

Lemma Format_whole t : Format (parse_rfc3339 (format_rfc3339 t)) = Format t.
Proof. unfold Format, parse_rfc3339, format_rfc3339. by rewrite Z.div_mul by done. Qed.

(** The instants with a year of four digits, in seconds. *)
Lemma year_written_bounds t :
  year_written t <-> -62167219200 <= t / Second < 253402300800.
Proof.
  unfold year_written, civil_of. generalize (t / Second). intros s.
  pose proof (year_of_spec (s / 86400)) as H. destruct (year_of _) as [y yday].
  destruct H as [H Hd]. simpl. pose proof (year_days_next y).
  pose proof (year_days_mono 0 y). pose proof (year_days_mono (y + 1) 0).
  pose proof (year_days_mono 10000 y). pose proof (year_days_mono (y + 1) 10000).
  assert (year_days 0 = -366) by done. assert (year_days 10000 = 3652059) by done.
  unfold epoch_days in *. lia.
Qed.
End reading.
