(* ===== verification/TimeText.v ===== *)
(** * The texts of stored times (web/alerts/time.go, the helpers of store.go)

    The type [Time] of the alert package: its JSON form and its database form. The
    second part relates the texts in the database to the seconds by which
    [AlertStore] represents them: the helpers on texts compute what the store's
    definitions compute on seconds, and the database orders the texts as the store
    orders the seconds. *)
From Stdlib Require Import Ascii String.
From S2P Require Import Prelude GoTime LabelsJson GoStrings CivilTime AlertStore.

Inductive time_error :=
| ParseTime (s : Text)       (* alerts: parse time %q: %w *)
| BadText (s : Text)         (* the error of [time.Parse] *)
| CannotScan.                (* alerts: cannot scan %T into Time *)

(** ** time.go *)
Definition NewTime (t : Time) : Time := t.

Definition quoted (s : Text) : Text := dquote :: s ++ [dquote].

Definition MarshalJSON (t : Time) : Text :=
  if IsZero t then text "null" else quoted (Format t).

(** [s[1 : len(s)-1]] when [s] has quotes around it. *)
Definition trim_quotes (s : Text) : Text :=
  match s with
  | c :: (_ :: _) as s' =>
      if decide (c = dquote) then
        match reverse (tail s) with
        | d :: r => if decide (d = dquote) then reverse r else s
        | [] => s
        end
      else s
  | _ => s
  end.

(** The new value of [*t]; an error leaves it alone. *)
Definition UnmarshalJSON (b : Text) : Time + time_error :=
  if decide (b = text "null" \/ b = [dquote; dquote]) then inl zero_time
  else
    let s := trim_quotes b in
    match Parse s with
    | Some parsed => inl parsed
    | None => inr (ParseTime s)
    end.

(** What the driver hands to [Scan]. *)
Inductive driver_value :=
| DNil
| DString (s : Text)
| DTime (t : Time)
| DOther.

Definition Scan (src : driver_value) : Time + time_error :=
  match src with
  | DNil => inl zero_time
  | DString v =>
      if decide (v = []) then inl zero_time
      else match Parse v with
           | Some parsed => inl parsed
           | None => inr (BadText v)
           end
  | DTime v => inl v
  | DOther => inr CannotScan
  end.

Definition Value (t : Time) : driver_value :=
  if IsZero t then DNil else DString (Format t).

(** ** The helpers of store.go, on texts *)
Definition parseRFC3339OrZero (s : Text) : Time :=
  if decide (s = []) then zero_time else default zero_time (Parse s).

Definition parsePtrText (s : option Text) : option Time :=
  match s with
  | None => None
  | Some s => if decide (s = []) then None else NewTime <$> Parse s
  end.

Definition formatPtrText (t : option Time) : option Text := Format <$> t.

(** The text in the database for the second that represents it. *)
Definition stored (s : rfc3339) : Text := Format (parse_rfc3339 s).

(** [ORDER BY triggered_at DESC] on the texts. *)
Definition text_recent_first (a b : HistoryRow) : Prop :=
  text_compare (stored (h_triggered_at b)) (stored (h_triggered_at a)) <> Gt.

Section texts.
Lemma trim_quotes_quoted s : trim_quotes (quoted s) = s.
Proof.
  unfold trim_quotes, quoted. destruct (s ++ [dquote]) as [|c s'] eqn:E; [by destruct s|].
  rewrite decide_True by done. cbn [tail]. rewrite <-E, reverse_snoc, decide_True by done.
  apply reverse_involutive.
Qed.

Lemma quoted_special s : s <> [] -> ~ (quoted s = text "null" \/ quoted s = [dquote; dquote]).
Proof.
  unfold quoted. intros Hs [H|H]; [discriminate H|]. injection H as H.
  destruct s as [|a s]; [done|]. injection H as H1 H2. by destruct s.
Qed.

Lemma Format_nonempty t : Format t <> [].
Proof. unfold Format. cbv zeta. intros H. apply (f_equal List.length) in H.
  rewrite !length_app in H. simpl in H. lia.
Qed.

Lemma zero_whole : zero_time - zero_time mod Second = zero_time.
Proof. done. Qed.

Lemma IsZero_true t : IsZero t = true -> t = zero_time.
Proof. apply Z.eqb_eq. Qed.

Lemma stored_format t : stored (format_rfc3339 t) = Format t.
Proof. apply Format_whole. Qed.

Lemma Parse_stored s : year_written (parse_rfc3339 s) -> Parse (stored s) = Some (parse_rfc3339 s).
Proof.
  intros Hy. unfold stored. rewrite Parse_Format by done. f_equal.
  unfold parse_rfc3339. rewrite Z.mod_mul by done. lia.
Qed.

Lemma stored_compare s s' :
  year_written (parse_rfc3339 s) -> year_written (parse_rfc3339 s') ->
  text_compare (stored s) (stored s') = (s ?= s').
Proof.
  intros Hs Hs'. unfold stored. rewrite Format_compare by done.
  unfold parse_rfc3339. by rewrite !Z.div_mul by done.
Qed.
End texts.

(** C17: A time survives its JSON form and its database form without its fraction of a
    second, the zero time (null, or NULL) included, exactly when its year has four
    digits; for every other time both readers answer with an error, although the
    writers gave none. *)
Theorem time_forms_roundtrip t :
  let back := if decide (year_written t) then Some (t - t mod Second) else None in
  UnmarshalJSON (MarshalJSON t) = from_option inl (inr (ParseTime (Format t))) back /\
  Scan (Value t) = from_option inl (inr (BadText (Format t))) back.
Proof.
  cbv zeta. unfold MarshalJSON, Value, UnmarshalJSON. destruct (IsZero t) eqn:Hz.
  { apply IsZero_true in Hz as ->. split; vm_compute; reflexivity. }
  pose proof (Format_nonempty t) as Hne. split.
  - rewrite decide_False by (by apply quoted_special). cbv zeta.
    rewrite trim_quotes_quoted, Parse_Format_iff. by case_decide.
  - simpl. rewrite decide_False, Parse_Format_iff by done. by case_decide.
Qed.

(** C16: The store may keep seconds for texts: on texts written for years of four
    digits the helpers of store.go compute what the store's definitions compute on
    seconds, and the database orders the texts of the history as the store orders
    their seconds, the latest first. *)
Theorem stored_times_are_seconds s :
  year_written (parse_rfc3339 s) ->
  parseRFC3339OrZero (stored s) = parse_rfc3339 s /\
  parsePtrText (Some (stored s)) = AlertStore.parsePtrTime (Some s) /\
  (forall o, formatPtrText o = stored <$> AlertStore.formatPtrTime o) /\
  (forall a b : HistoryRow,
     year_written (parse_rfc3339 (h_triggered_at a)) ->
     year_written (parse_rfc3339 (h_triggered_at b)) ->
     text_recent_first a b <-> most_recent_first a b).
Proof.
  intros Hy. split_and!.
  - unfold parseRFC3339OrZero. rewrite decide_False by apply Format_nonempty.
    by rewrite Parse_stored.
  - simpl. rewrite decide_False by apply Format_nonempty. by rewrite Parse_stored.
  - intros [t|]; simpl; [|done]. by rewrite stored_format.
  - intros a b Ha Hb. unfold text_recent_first, most_recent_first.
    by rewrite stored_compare by done.
Qed.

Lemma stored_times_are_seconds_witness :
  parsePtrText (Some (text "2024-02-29T12:34:56Z")) = Some (1709210096 * Second).
Proof.
  assert (year_written (parse_rfc3339 1709210096)) as Hy by (vm_compute; split; congruence).
  destruct (stored_times_are_seconds 1709210096 Hy) as (_ & H & _). exact H.
Defined.
