(* ===== verification/Logging.v ===== *)
(** * The logging facade (internal/logging)

    One logger for the process, made by the first message, and its level. The
    handler of log/slog is its level: a record passes it when its level is not
    below. *)
From S2P Require Import Prelude.
From Stdlib Require Import String.

(** slog.Level *)
Definition Level := Z.
Definition LevelDebug : Level := -4.
Definition LevelInfo : Level := 0.
Definition LevelWarn : Level := 4.
Definition LevelError : Level := 8.

Record Log := {
  lg_once : bool;               (* defaultOnce has run *)
  lg_default : option Level;    (* defaultLogger, nil at first *)
  lg_slog : option Level;       (* slog's own default, once it has been replaced *)
  lg_out : list (Level * string)
}.

Definition no_log : Log :=
  {| lg_once := false; lg_default := None; lg_slog := None; lg_out := [] |}.

Definition install (l : Level) (once : bool) (s : Log) : Log :=
  {| lg_once := once; lg_default := Some l; lg_slog := Some l; lg_out := lg_out s |}.

Definition Default (s : Log) : Log := if lg_once s then s else install LevelInfo true s.

Definition SetLevel (l : Level) (s : Log) : Log := install l (lg_once s) s.

(** [Debug], [Info], [Warn] and [Error]. *)
Definition log_at (l : Level) (msg : string) (s : Log) : Log :=
  let s := Default s in
  match lg_default s with
  | Some threshold =>
      if threshold <=? l then
        {| lg_once := lg_once s; lg_default := lg_default s; lg_slog := lg_slog s;
           lg_out := lg_out s ++ [(l, msg)] |}
      else s
  | None => s
  end.

Inductive LogCall := C_set (l : Level) | C_log (l : Level) (msg : string).

Definition log_call (s : Log) (c : LogCall) : Log :=
  match c with C_set l => SetLevel l s | C_log l msg => log_at l msg s end.

Definition log_calls (cs : list LogCall) (s : Log) : Log := foldl log_call s cs.

(** What should pass: every message against the level set last. *)
Fixpoint passing (threshold : Level) (cs : list LogCall) : list (Level * string) :=
  match cs with
  | [] => []
  | C_set l :: cs' => passing l cs'
  | C_log l msg :: cs' =>
      (if threshold <=? l then [(l, msg)] else []) ++ passing threshold cs'
  end.

Lemma log_calls_used threshold cs s :
  lg_once s = true -> lg_default s = Some threshold ->
  lg_out (log_calls cs s) = lg_out s ++ passing threshold cs.
Proof.
  unfold log_calls. revert threshold s. induction cs as [|[l|l msg] cs IH]; intros threshold s Ho Hd;
    [by rewrite app_nil_r|..]; cbn [foldl log_call passing].
  - by rewrite (IH l).
  - unfold log_at, Default. rewrite Ho, Hd. destruct (threshold <=? l).
    + rewrite (IH threshold) by done. simpl. by rewrite <-app_assoc.
    + by rewrite (IH threshold).
Qed.

(** Once a message has been logged, with whatever level, the level set last decides; but
    what was set before the first message is forgotten: it is judged, and those after it up
    to the next setting, at Info. *)
Theorem early_level_is_lost levels l msg cs :
  lg_out (log_calls ((C_set <$> levels) ++ C_log l msg :: cs) no_log)
  = passing LevelInfo (C_log l msg :: cs).
Proof.
  unfold log_calls. rewrite foldl_app. cbn [foldl log_call].
  assert (lg_once (foldl log_call no_log (C_set <$> levels)) = false /\
    lg_out (foldl log_call no_log (C_set <$> levels)) = []) as [Ho Hout].
  { induction levels as [|l' levels IH] using rev_ind; [done|].
    rewrite fmap_app, foldl_app. simpl. done. }
  set (s := foldl log_call no_log (C_set <$> levels)) in *.
  change (foldl log_call (log_at l msg s) cs) with (log_calls cs (log_at l msg s)).
  unfold log_at, Default. rewrite Ho. cbn [install lg_default lg_once lg_slog lg_out passing].
  destruct (LevelInfo <=? l); rewrite (log_calls_used LevelInfo) by done; simpl; by rewrite Hout.
Qed.
