(* ===== verification/AgentMain.v ===== *)
(** * The agent's main program (cmd/monitorbeat/main.go)

    [agent_main] is the whole of [main] up to the point where it waits for a signal:
    the configuration is loaded, cleaned and, with -check, only that; otherwise the
    outputs are wired, the engine, the admin server, both schedulers, the heartbeat
    sender and the reloader start. Afterwards the process lives on ticks of the
    periodic scheduler and reloads of the file ([life]). Files, the YAML decoder and
    the system's answers are arguments. *)
From S2P Require Import Prelude GoTime TreeMap JobQueue Daemon DaemonSpec OneShot Configs FileSystem Engine Wiring Web AgentRegistry Sender Agent AgentSpec.

Section agent_main.
Context {R : MapRange} {F J : Type}.
Context (render : F -> result string) (one : F).
Context (marshal_event : HttpPublish.Event F J -> result string).
Context (marshal_record : gmap string (HttpPublish.Cell F J) -> result string).
Context (valid : string -> string -> bool).
Context (ParseDuration : string -> result Duration).
Context (decode : gmap string Value -> result HttpOutput.HTTPOutputConfig).
Context {SO : Sorter not_after} (compiles : string -> bool).
Context (Unmarshal : string -> result Config).

Definition loadConfig (ReadFile : string -> result string) (path : string) : result Config :=
  match ReadFile path with
  | Err e => Err ("read " +:+ path +:+ ": " +:+ e)
  | Ok raw =>
      match Unmarshal raw with
      | Err e => Err ("unmarshal yaml: " +:+ e)
      | Ok cfg => Ok cfg
      end
  end.

(** [cfg.ConfigPath = path] *)
Definition set_ConfigPath (path : string) (c : Config) : Config :=
  {| CheckInterval := CheckInterval c; EventBufferSize := EventBufferSize c;
     AdminAddr := AdminAddr c; ConfigPath := path; Registry := Registry c; Outputs := Outputs c;
     Basereports := Basereports c; Pings := Pings c; TCPs := TCPs c; UDPs := UDPs c;
     HTTPs := HTTPs c; Keywords := Keywords c; Scripts := Scripts c;
     Exceptionbeats := Exceptionbeats c; Processbeats := Processbeats c;
     SocketSnapshots := SocketSnapshots c; SelfStats := SelfStats c;
     GatherUpBeats := GatherUpBeats c; Dmesgs := Dmesgs c; Metricbeats := Metricbeats c |}.

(** [tasks.RegisteredTypes()]: the keys of the table of builders. *)
Definition RegisteredTypes : list string := (range (Agent.registry compiles)).*1.

(** What the system answers during the start. *)
Record Environment := {
  env_ReadFile : string -> result string;
  env_Listen : string -> result unit;      (* net.Listen of the admin address *)
  env_version : string;
  env_hostname : string;
  env_k8s_node : string;
  env_dial : result (option string);
  env_now : Time;
  env_clock : TaskRef -> Time
}.

Record Flags := { fl_config : string; fl_check : bool }.

(** The running process. *)
Record Process := {
  p_cfg : Config;
  p_engine : Engine (O := Output);
  p_machine : Machine;
  p_admin : option (result unit);          (* none: no address; else what Start answered *)
  p_agent : AgentState;
  p_skipped : list string;
  p_sender : Sender.Sender
}.

Inductive Outcome :=
| Exited (code : Z) (msg : string) (err : error)
| Checked                                  (* "config OK" *)
| Running (p : Process).

Definition agent_main (fl : Flags) (env : Environment) (m : Machine) : Outcome :=
  match loadConfig (env_ReadFile env) (fl_config fl) with
  | Err e => Exited 1 "load config failed" e
  | Ok cfg =>
      match clean_config (set_ConfigPath (fl_config fl) cfg) with
      | Err e => Exited 1 "clean config failed" e
      | Ok cfg =>
          if fl_check fl then Checked
          else
            let eng := NewEngine (GetEventBufferSize cfg) (env_version env) (60 * Second)
                         (env_now env) in
            match wireOutputs render one marshal_event marshal_record valid ParseDuration decode
                    (Outputs cfg) eng m with
            | (Err e, _, _) => Exited 1 "wire outputs failed" e
            | (Ok _, eng, m) =>
                Running
                  {| p_cfg := cfg; p_engine := eng; p_machine := m;
                     p_admin := if decide (AdminAddr cfg = EmptyString) then None
                                else Some (env_Listen env (AdminAddr cfg));
                     p_agent := startup compiles (env_clock env) cfg;
                     p_skipped := snd (buildAllTasks compiles cfg);
                     p_sender := NewSender (Registry cfg) (env_version env) (env_hostname env)
                                   (env_k8s_node env) RegisteredTypes (env_dial env)
                                   (env_now env) |}
            end
      end
  end.

Definition set_agent (a : AgentState) (p : Process) : Process :=
  {| p_cfg := p_cfg p; p_engine := p_engine p; p_machine := p_machine p; p_admin := p_admin p;
     p_agent := a; p_skipped := p_skipped p; p_sender := p_sender p |}.

(** The function given to the reloader: it reads the file the process was
    started with. *)
Definition reload_callback (ReadFile : string -> result string) (at_ : TaskRef -> Time)
    (p : Process) : result Process :=
  let loaded := match loadConfig ReadFile (ConfigPath (p_cfg p)) with
                | Err e => Err e
                | Ok cfg => Ok (set_ConfigPath (ConfigPath (p_cfg p)) cfg)
                end in
  match reload compiles at_ loaded (p_agent p) with
  | Err e => Err e
  | Ok a => Ok (set_agent a p)
  end.

Definition set_sched (d : Daemon) (a : AgentState) : AgentState :=
  {| ag_sched := d; ag_keyword := ag_keyword a; ag_tasks := ag_tasks a |}.

(** What happens while [main] waits. A failed reload is logged. *)
Inductive Happening :=
| H_tick (now : Time)
| H_reload (ReadFile : string -> result string) (at_ : TaskRef -> Time).

Definition live (p : Process) (h : Happening) : Process :=
  match h with
  | H_tick now => set_agent (set_sched (tick now (ag_sched (p_agent p))) (p_agent p)) p
  | H_reload ReadFile at_ =>
      match reload_callback ReadFile at_ p with Err _ => p | Ok p' => p' end
  end.

Definition life (p : Process) (hs : list Happening) : Process := foldl live p hs.

(** After the signal: both schedulers are stopped, then waited for, the admin
    server is shut down and the engine waited for ([Pipeline] has the waiting). *)
Definition shutdown (p : Process) : list TaskRef * Process :=
  let a := p_agent p in
  let kw := os_stop (ag_keyword a) in
  let '(waited, d) := Wait (Daemon.Stop (ag_sched a)) in
  (waited, set_agent {| ag_sched := d; ag_keyword := os_wait kw; ag_tasks := ag_tasks a |} p).
End agent_main.

(** ** The periodic scheduler during the life of the process *)
Section scheduling.
Context {SO : Sorter not_after} (compiles : string -> bool).

Definition job_idents (d : Daemon) : list string :=
  (fun j => ident_of (d_heap d) (j_task j)) <$> d_jobs d.

(** One job for every ident of the tasks [ts], and nothing else. *)
Record scheduled (a : AgentState) (ts : list AnyConfig) : Prop := {
  sc_running : running (ag_sched a);
  sc_next_id : Forall (fun j => (j_id j < d_next_id (ag_sched a))%nat) (d_jobs (ag_sched a));
  sc_refs : Forall (fun j => (j_task j < length (ag_tasks a))%nat) (d_jobs (ag_sched a));
  sc_one : NoDup (job_idents (ag_sched a));
  sc_all : forall i, i ∈ job_idents (ag_sched a) <-> i ∈ (fun t => Ident (any_param t)) <$> ts
}.

Lemma sc_tasks_distinct a ts : scheduled a ts -> NoDup (j_task <$> d_jobs (ag_sched a)).
Proof.
  intros [_ _ _ H _]. unfold job_idents in H.
  rewrite (list_fmap_compose j_task (ident_of (d_heap (ag_sched a)))) in H.
  by apply NoDup_fmap_1 in H.
Qed.

Lemma new_jobs_ids at_ rs n :
  let js := make_jobs at_ rs n in
  NoDup (j_id <$> js) /\ Forall (fun j => (n <= j_id j < n + length rs)%nat) js.
Proof.
  intros js. unfold js. rewrite make_jobs_ids. split; [apply NoDup_seq|].
  apply Forall_forall. intros j (r & _ & _ & _ & H)%elem_of_make_jobs. exact H.
Qed.

Lemma Start_running at_ d :
  d_jobs d = [] ->
  running (Start at_ d) /\
  Forall (fun j => (j_id j < d_next_id (Start at_ d))%nat) (d_jobs (Start at_ d)).
Proof.
  intros Hj. destruct (new_jobs_ids at_ (Values (d_tasks d)) (d_next_id d)) as [Hnd Hlt].
  assert (d_jobs (Start at_ d) ≡ₚ make_jobs at_ (Values (d_tasks d)) (d_next_id d)) as Hp
    by (simpl; by rewrite Push_perm, Hj).
  split; [split|].
  - done.
  - apply Push_sorted.
  - unfold ids. by rewrite Hp.
  - rewrite Hp. eapply Forall_impl; [exact Hlt|]. simpl. lia.
Qed.

(** The idents of the tasks of a kind among the first objects. *)
Lemma elem_of_idents_where (p : AnyConfig -> bool) ts h i :
  i ∈ ident_of (alloc 0 ts h) <$> refs_where p 0 ts <->
  i ∈ (fun t => Ident (any_param t)) <$> filter (fun t => p t = true) ts.
Proof.
  rewrite !list_elem_of_fmap. split.
  - intros (r & -> & [_ (t & Ht & Hp)]%elem_of_refs_where). rewrite Nat.sub_0_r in Ht.
    exists t. split; [|apply list_elem_of_filter; split; [done|by eapply list_elem_of_lookup_2]].
    unfold ident_of, conf_of, alloc. simpl. by rewrite Nat.sub_0_r, Ht.
  - intros (t & -> & [Hp [r Hr]%list_elem_of_lookup]%list_elem_of_filter). exists r.
    split; [|apply elem_of_refs_where; split; [lia|]; exists t; by rewrite Nat.sub_0_r].
    unfold ident_of, conf_of, alloc. simpl. by rewrite Nat.sub_0_r, Hr.
Qed.

Lemma startup_scheduled at_ cfg :
  scheduled (startup compiles at_ cfg)
    (filter (fun t => is_keyword t = false) (fst (buildAllTasks compiles cfg))).
Proof.
  set (ts := fst (buildAllTasks compiles cfg)).
  set (rs := refs_where (fun a => negb (is_keyword a)) 0 ts).
  set (h := alloc 0 ts (fun _ => nobody)).
  destruct (add_all_ready at_ rs (New (Some (global_of cfg)) h) eq_refl) as (_ & _ & Hj0 & _).
  destruct (Start_running at_ _ Hj0) as [Hrun Hid].
  destruct (started_jobs at_ (global_of cfg) h rs) as [Hh Hj].
  destruct (boot_facts compiles at_ cfg) as [Hk Hnd].
  split; [exact Hrun|exact Hid| |exact Hnd|].
  - apply Forall_forall. intros j (t & Ht & _)%Hk. by apply lookup_lt_Some in Ht.
  - intros i. destruct (values_in_order h rs) as (_ & _ & Hin & _).
    assert (job_idents (ag_sched (startup compiles at_ cfg)) ≡ₚ ident_of h <$> Values (put_all (ident_of h) rs ∅))
      as ->.
    { unfold job_idents. change (ag_sched _) with (Start at_ (add_all at_ rs (New (Some (global_of cfg)) h))).
      rewrite Hh, (list_fmap_compose j_task (ident_of h)). by rewrite Hj. }
    rewrite Hin. unfold rs, h. rewrite elem_of_idents_where.
    by erewrite list_filter_iff by (intros t; apply negb_true_iff).
Qed.

Lemma tick_scheduled now a ts :
  scheduled a ts -> scheduled (set_sched (tick now (ag_sched a)) a) ts.
Proof.
  intros [Hrun Hid Hrf Hone Hall].
  pose proof (tick_jobs now _ Hrun) as Hj. destruct (tick_keeps now (ag_sched a)) as (Hh & _ & _).
  assert (job_idents (tick now (ag_sched a)) ≡ₚ job_idents (ag_sched a)) as Hi.
  { unfold job_idents. rewrite Hh, Hj, <-list_fmap_compose. apply reflexive_eq, list_fmap_ext.
    intros. simpl. by rewrite job_step_task. }
  split; simpl.
  - by apply tick_running.
  - rewrite Hj. apply Forall_fmap. eapply Forall_impl; [exact Hid|].
    intros j. simpl. rewrite job_step_id. unfold tick.
    case_decide; [|done]. by destruct (PopUntil now (d_jobs (ag_sched a))) as [[|? ?] ?].
  - rewrite Hj. apply Forall_fmap. eapply Forall_impl; [exact Hrf|].
    intros j. simpl. by rewrite job_step_task.
  - by rewrite Hi.
  - intros i. by rewrite Hi.
Qed.

(** The jobs after a reload, with what keeps them apart. *)
Lemma Reload_running at_ conf tasks d :
  let m := put_all (ident_of (d_heap d)) tasks ∅ in
  let d' := Reload at_ conf tasks d in
  running d -> separate (d_heap d) m (d_jobs d) ->
  Forall (fun j => (j_id j < d_next_id d)%nat) (d_jobs d) ->
  running d' /\ Forall (fun j => (j_id j < d_next_id d')%nat) (d_jobs d') /\
  Forall (fun j => j ∈ d_jobs d \/ j_task j ∈ tasks) (d_jobs d').
Proof.
  intros m d' [Hst Hs Hnd] Hsep Hid.
  pose proof (reload_jobs_spec _ (reload_start tasks d) Hsep) as [H1 _ _ _ _ _].
  simpl in H1. fold m in H1.
  set (rs := Values (rl_maps (foldl reload_job (reload_start tasks d) (d_jobs d)))).
  destruct (new_jobs_ids at_ rs (d_next_id d)) as [Hnd' Hlt].
  assert (d_jobs d' ≡ₚ filter (wanted (d_heap d) m) (d_jobs d) ++ make_jobs at_ rs (d_next_id d))
    as Hp by (unfold d', Reload; simpl; rewrite push_each_perm; by rewrite H1).
  assert (forall j, j ∈ filter (wanted (d_heap d) m) (d_jobs d) -> j ∈ d_jobs d) as Hkept
    by (intros j Hj; by apply list_elem_of_filter in Hj as [_ Hj]).
  split; [split|split].
  - done.
  - unfold d', Reload. simpl. apply push_each_sorted, reload_loop_sorted. constructor.
  - unfold ids. rewrite Hp, fmap_app. apply NoDup_app. split_and!; [|intros i Hi Hi'|done].
    + eapply sublist_NoDup; [exact Hnd|]. apply fmap_sublist, sublist_filter.
    + apply list_elem_of_fmap in Hi as (j & -> & Hj%Hkept).
      apply list_elem_of_fmap in Hi' as (k & Ek & Hk).
      rewrite Forall_forall in Hid, Hlt. specialize (Hid _ Hj). specialize (Hlt _ Hk). simpl in *. lia.
  - rewrite Hp, Forall_app. rewrite Forall_forall in Hid. split.
    + apply Forall_forall. intros j Hj%Hkept%Hid. unfold d', Reload. simpl. lia.
    + eapply Forall_impl; [exact Hlt|]. intros j [_ H]. exact H.
  - rewrite Hp, Forall_app. split; [apply Forall_forall; intros j Hj; left; by apply Hkept|].
    apply Forall_forall. intros j (r & Hr & -> & _)%elem_of_make_jobs. right.
    apply list_elem_of_fmap in Hr as ([i r'] & -> & Hi%elem_of_Iterator).
    apply (left_in_map tasks d Hsep) in Hi as [[[Hi _]|Hi]%put_all_key _]; [exact Hi|].
    by rewrite lookup_empty in Hi.
Qed.

(** The idents of freshly made objects. *)
Lemma alloc_idents base ts h :
  ident_of (alloc base ts h) <$> seq base (length ts) = (fun t => Ident (any_param t)) <$> ts.
Proof.
  apply list_eq. intros k. rewrite !list_lookup_fmap. destruct (ts !! k) as [t|] eqn:Ht; simpl.
  - rewrite lookup_seq_lt by (by eapply lookup_lt_Some). simpl. f_equal.
    unfold ident_of, conf_of, alloc. rewrite decide_False by lia.
    rewrite Nat.add_comm, Nat.add_sub. by rewrite Ht.
  - by rewrite lookup_seq_ge by (by apply lookup_ge_None).
Qed.

Lemma elem_of_put_keys (key : TaskRef -> string) rs i :
  i ∈ (map_to_list (put_all key rs ∅)).*1 <-> i ∈ key <$> rs.
Proof.
  trans (is_Some (put_all key rs ∅ !! i)).
  - rewrite list_elem_of_fmap. split.
    + intros ([i' r] & -> & Hir%elem_of_map_to_list). by exists r.
    + intros [r Hr]. exists (i, r). split; [done|]. by apply elem_of_map_to_list.
  - rewrite put_all_is_Some, lookup_empty. split; [|by left].
    by intros [?|[]].
Qed.

(** The jobs are separate from freshly made objects. *)
Lemma scheduled_separate a ts0 ts :
  scheduled a ts0 ->
  let base := length (ag_tasks a) in
  let h := alloc base ts (d_heap (ag_sched a)) in
  separate h (put_all (ident_of h) (seq base (length ts)) ∅) (d_jobs (ag_sched a)).
Proof.
  intros Ha base h. pose proof (sc_tasks_distinct _ _ Ha) as Hdist.
  destruct Ha as [_ _ Hrf Hone _]. rewrite Forall_forall in Hrf. split; [|exact Hdist|].
  - unfold job_idents in Hone. erewrite list_fmap_ext; [exact Hone|].
    intros i j Hj%list_elem_of_lookup_2%Hrf.
    unfold ident_of, conf_of, h, alloc. by rewrite decide_True.
  - intros i r [[Hi _]|Hi]%put_all_key; [|by rewrite lookup_empty in Hi].
    intros (j & -> & Hj%Hrf)%list_elem_of_fmap. apply elem_of_seq in Hi. simpl in Hj. lia.
Qed.

Lemma reload_scheduled at_ loaded a a' ts0 :
  scheduled a ts0 -> reload compiles at_ (Ok loaded) a = Ok a' ->
  exists cfg, clean_config loaded = Ok cfg /\ ag_keyword a' = ag_keyword a /\
    scheduled a' (fst (buildAllTasks compiles cfg)).
Proof.
  intros Ha Hr. unfold reload in Hr.
  destruct (clean_config loaded) as [cfg|] eqn:Hc; [|done]. injection Hr as <-.
  exists cfg. split; [done|]. split; [done|].
  set (ts := fst (buildAllTasks compiles cfg)). set (base := length (ag_tasks a)).
  match goal with |- context [Reload at_ _ _ ?d] => set (d0 := d) end.
  pose proof (scheduled_separate a ts0 ts Ha : separate (d_heap d0) _ (d_jobs d0))
    as Hsep.
  destruct Ha as [Hrun Hid Hrf _ _]. rewrite Forall_forall in Hrf.
  destruct (Reload_running at_ (global_of cfg) (seq base (length ts)) d0) as (Hrun' & Hid' & Hfrom);
    [destruct Hrun; by split|exact Hsep|exact Hid|].
  pose proof (Reload_idents at_ (global_of cfg) (seq base (length ts)) d0 Hsep) as Hi. cbv zeta in Hi.
  split; cbn [ag_sched ag_tasks]; [done|done| | |].
  - eapply Forall_impl; [exact Hfrom|]. intros j [Hj|Hj]; rewrite length_app.
    + apply Hrf in Hj. simpl in *. lia.
    + apply elem_of_seq in Hj. unfold base in Hj. simpl. lia.
  - unfold job_idents. rewrite Hi. apply NoDup_fst_map_to_list.
  - intros i. unfold job_idents. rewrite Hi, elem_of_put_keys.
    change (d_heap d0) with (alloc base ts (d_heap (ag_sched a))).
    by rewrite alloc_idents.
Qed.
End scheduling.

Section life.
Context {R : MapRange} {F J : Type}.
Context (render : F -> result string) (one : F).
Context (marshal_event : HttpPublish.Event F J -> result string).
Context (marshal_record : gmap string (HttpPublish.Cell F J) -> result string).
Context (valid : string -> string -> bool).
Context (ParseDuration : string -> result Duration).
Context (decode : gmap string Value -> result HttpOutput.HTTPOutputConfig).
Context {SO : Sorter not_after} (compiles : string -> bool).
Context (Unmarshal : string -> result Config).

#[local] Abbreviation main :=
  (agent_main render one marshal_event marshal_record valid ParseDuration decode compiles Unmarshal).
#[local] Abbreviation lives := (life compiles Unmarshal).

(** The configuration a file holds, with the defaults filled in. *)
Definition config_in (ReadFile : string -> result string) (path : string) : result Config :=
  match loadConfig Unmarshal ReadFile path with
  | Err e => Err e
  | Ok cfg => clean_config (set_ConfigPath path cfg)
  end.

(** The tasks that should be on the periodic scheduler: those of the last file that
    could be read, parsed and cleaned. *)
Fixpoint in_force (path : string) (ts : list AnyConfig) (hs : list Happening) : list AnyConfig :=
  match hs with
  | [] => ts
  | H_tick _ :: hs' => in_force path ts hs'
  | H_reload ReadFile _ :: hs' =>
      in_force path (match config_in ReadFile path with
                     | Ok cfg => fst (buildAllTasks compiles cfg)
                     | Err _ => ts
                     end) hs'
  end.

Lemma clean_ConfigPath c c' : clean_config c = Ok c' -> ConfigPath c' = ConfigPath c.
Proof. unfold clean_config. intros H. repeat (case_match; [|done]). by injection H as <-. Qed.

Lemma main_running fl env m p :
  main fl env m = Running p ->
  fl_check fl = false /\ config_in (env_ReadFile env) (fl_config fl) = Ok (p_cfg p) /\
  ConfigPath (p_cfg p) = fl_config fl /\
  p_agent p = startup compiles (env_clock env) (p_cfg p).
Proof.
  unfold agent_main, config_in. destruct (loadConfig _ _ _) as [cfg0|]; [|done].
  destruct (clean_config _) as [cfg|] eqn:Hc; [|done]. destruct (fl_check fl); [done|].
  destruct (wireOutputs _ _ _ _ _ _ _ _ _ _) as [[[?|?] ?] ?]; [|done].
  intros [= <-]. simpl. split_and!; try done. by rewrite (clean_ConfigPath _ _ Hc).
Qed.

Lemma live_scheduled p h ts :
  scheduled (p_agent p) ts ->
  let p' := live compiles Unmarshal p h in
  scheduled (p_agent p') (in_force (ConfigPath (p_cfg p)) ts [h]) /\
  p_cfg p' = p_cfg p /\ ag_keyword (p_agent p') = ag_keyword (p_agent p).
Proof.
  intros Hs. destruct h as [now|ReadFile at_]; simpl.
  - split; [|done]. by apply tick_scheduled.
  - unfold reload_callback, config_in. destruct (loadConfig _ _ _) as [cfg0|]; [|done].
    destruct (reload _ _ _ _) as [a|] eqn:Hr.
    + destruct (reload_scheduled compiles _ _ _ _ _ Hs Hr) as (cfg & -> & Hk & Ha). done.
    + unfold reload in Hr. by destruct (clean_config _).
Qed.

Lemma life_scheduled p hs ts :
  scheduled (p_agent p) ts ->
  scheduled (p_agent (lives p hs)) (in_force (ConfigPath (p_cfg p)) ts hs) /\
  ag_keyword (p_agent (lives p hs)) = ag_keyword (p_agent p).
Proof.
  revert p ts. induction hs as [|h hs IH]; intros p ts Hs; [done|].
  destruct (live_scheduled p h ts Hs) as (Hs' & Hc & Hk).
  destruct (IH _ _ Hs') as [Hs'' Hk']. rewrite Hc in Hs''. split; [|by rewrite <-Hk].
  by destruct h.
Qed.

Lemma put_all_adds h rs s :
  os_tasks (foldl (fun s r => os_add h r s) s rs) = put_all (ident_of h) rs (os_tasks s) /\
  os_started (foldl (fun s r => os_add h r s) s rs) = os_started s.
Proof. revert s. induction rs as [|r rs IH]; intros s; [done|]. apply (IH (os_add h r s)). Qed.


(** C10: From the start, through any ticks of the periodic scheduler and any attempts to
    reload, in whatever state the file is then, the periodic scheduler has exactly one
    job, in time order, for every ident of the tasks in force - after the start those
    that are not keyword tasks, after a reload all tasks of the last file that could
    be read, parsed and cleaned - and the keyword scheduler runs one task for every
    ident of the keyword tasks of the first file, whatever the later ones say. *)
Theorem tasks_stay_scheduled fl env m p hs :
  main fl env m = Running p ->
  let first := fst (buildAllTasks compiles (p_cfg p)) in
  let a := p_agent (lives p hs) in
  scheduled a (in_force (fl_config fl) (filter (fun t => is_keyword t = false) first) hs) /\
  let h := d_heap (ag_sched (p_agent p)) in
  NoDup (ident_of h <$> os_started (ag_keyword a)) /\
  forall i, i ∈ ident_of h <$> os_started (ag_keyword a) <->
    i ∈ (fun t => Ident (any_param t)) <$> filter (fun t => is_keyword t = true) first.
Proof.
  intros Hm first a. destruct (main_running _ _ _ _ Hm) as (_ & _ & Hpath & Hp).
  pose proof (startup_scheduled compiles (env_clock env) (p_cfg p)) as Hs.
  rewrite <-Hp in Hs. destruct (life_scheduled p hs _ Hs) as [Hl Hk]. rewrite Hpath in Hl.
  split; [exact Hl|]. unfold a. rewrite Hk, Hp.
  set (h := alloc 0 first (fun _ => nobody)).
  set (rs := refs_where is_keyword 0 first).
  destruct (started_jobs (env_clock env) (global_of (p_cfg p)) h
    (refs_where (fun a => negb (is_keyword a)) 0 first)) as [Hh _].
  change (d_heap (ag_sched (startup compiles (env_clock env) (p_cfg p))) = h) in Hh.
  cbv zeta. rewrite Hh. cbn [startup ag_keyword].
  destruct (put_all_adds h rs (os_new None)) as [Ht Hst].
  unfold keyword_start. cbn [os_started]. fold first h rs. rewrite Ht, Hst. cbn [os_new os_started os_tasks app].
  destruct (values_in_order h rs) as (_ & Hnd & Hin & _).
  split; [exact Hnd|]. intros i. rewrite Hin. apply elem_of_idents_where.
Qed.

(** [-check] says that the configuration is OK exactly when the same start without
    it gets past loading and cleaning: it runs, or it still exits because an output
    cannot be set up, which [-check] does not try. *)
Theorem check_covers_loading path env m :
  main {| fl_config := path; fl_check := true |} env m = Checked <->
  (exists p, main {| fl_config := path; fl_check := false |} env m = Running p) \/
  (exists e, main {| fl_config := path; fl_check := false |} env m =
     Exited 1 "wire outputs failed" e).
Proof.
  unfold agent_main. simpl.
  destruct (loadConfig _ _ _) as [cfg0|e]; [|by split; [|intros [[? ?]|[? ?]]]].
  destruct (clean_config _) as [cfg|e]; [|by split; [|intros [[? ?]|[? ?]]]].
  destruct (wireOutputs _ _ _ _ _ _ _ _ _ _) as [[[?|e] ?] ?]; split; try done; intros _.
  - left. by eexists.
  - right. by eexists.
Qed.
End life.

(** ** A run with the configuration of [AgentSpec] *)
Definition demo_env : Environment :=
  {| env_ReadFile := fun _ => Ok "agent"%string; env_Listen := fun _ => Ok tt;
     env_version := "dev"; env_hostname := "node1"; env_k8s_node := EmptyString;
     env_dial := Ok None; env_now := 0; env_clock := fun _ => 0 |}.

Definition demo_machine : Machine :=
  {| mc_fs := {| files := ∅; fs_faults := [] |};
     mc_net := {| HttpOutput.n_answer := fun _ => Ok 200; HttpOutput.n_done := fun _ => false;
                  HttpOutput.n_sent := []; HttpOutput.n_slept := [] |};
     mc_out := {| so_lines := []; so_faults := [] |} |}.

Definition demo_flags : Flags := {| fl_config := "agent.yaml"; fl_check := false |}.

Lemma tasks_stay_scheduled_witness : exists p,
  "keyword:1"%string ∈ job_idents (ag_sched (p_agent
    (life (fun _ => true) (fun _ => Ok demo_config) p
      [H_tick Second; H_reload (fun _ => Ok "agent"%string) (fun _ => Second); H_tick (2 * Second)]))).
Proof.
  assert (exists p, agent_main (R := in_key_order) (F := unit) (J := unit) (fun _ => Ok EmptyString) tt
    (fun _ => Ok EmptyString) (fun _ => Ok EmptyString) (fun _ _ => true) (fun _ => Ok 0)
    (fun _ => Err "none"%string) (fun _ => true) (fun _ => Ok demo_config) demo_flags demo_env
    demo_machine = Running p) as [p Hp] by (eexists; reflexivity).
  exists p.
  destruct (tasks_stay_scheduled _ _ _ _ _ _ _ _ _ demo_flags demo_env demo_machine p
    [H_tick Second; H_reload (fun _ => Ok "agent"%string) (fun _ => Second); H_tick (2 * Second)] Hp)
    as ([_ _ _ _ Hall] & _).
  apply Hall. vm_compute. right. left.
Defined.
