(* ===== verification/AgentSettings.v ===== *)
(** * Which configuration a task works with (tasks/*/, scheduler/daemon/scheduler.go)

    A collector's object has two references to its configuration: the one in its
    [BaseTask], which the scheduler asks for ident and period and a reload
    overwrites, and the field cfg of its own [Gather], set by [New], which [Run]
    reads and nothing writes. [own_cfg] is the second. *)
From S2P Require Import Prelude GoTime TreeMap JobQueue Daemon DaemonSpec OneShot Configs FileSystem Engine Wiring Web AgentRegistry Sender Agent AgentSpec AgentMain.

Lemma NoDup_key {A B} (f : A -> B) xs x y :
  NoDup (f <$> xs) -> x ∈ xs -> y ∈ xs -> f x = f y -> x = y.
Proof.
  induction xs as [|z xs IH]; [by intros _ ?%elem_of_nil|]. rewrite fmap_cons, NoDup_cons.
  intros [Hz Hnd] [->|Hx]%elem_of_cons [->|Hy]%elem_of_cons E; [done|..|by apply IH];
    exfalso; apply Hz; [rewrite E|rewrite <-E]; by apply list_elem_of_fmap_2.
Qed.

(** The field cfg of the object made [r]-th. *)
Definition own_cfg (a : AgentState) (r : TaskRef) : option AnyConfig := ag_tasks a !! r.

Section settings.
Context {SO : Sorter not_after} (compiles : string -> bool).

(** The periodic scheduler has a job for the ident, of an object made from [t]. *)
Definition works_with (i : string) (t : AnyConfig) (a : AgentState) : Prop :=
  exists j, j ∈ d_jobs (ag_sched a) /\ ident_of (d_heap (ag_sched a)) (j_task j) = i /\
    own_cfg a (j_task j) = Some t.

Lemma startup_works at_ cfg i :
  i ∈ job_idents (ag_sched (startup compiles at_ cfg)) ->
  exists t, t ∈ fst (buildAllTasks compiles cfg) /\ Ident (any_param t) = i /\
    works_with i t (startup compiles at_ cfg).
Proof.
  set (ts := fst (buildAllTasks compiles cfg)).
  pose proof (startup_scheduled compiles at_ cfg) as [_ _ Hrf _ _].
  intros (j & -> & Hj)%list_elem_of_fmap. rewrite Forall_forall in Hrf.
  specialize (Hrf j Hj). simpl in Hrf. fold ts in Hrf.
  destruct (lookup_lt_is_Some_2 _ _ Hrf) as [t Ht].
  destruct (started_jobs at_ (global_of cfg) (alloc 0 ts (fun _ => nobody))
    (refs_where (fun a => negb (is_keyword a)) 0 ts)) as [Hh _].
  exists t. split; [by eapply list_elem_of_lookup_2|].
  assert (ident_of (d_heap (ag_sched (startup compiles at_ cfg))) (j_task j) = Ident (any_param t)) as Hi.
  { change (d_heap (ag_sched (startup compiles at_ cfg))) with
      (d_heap (Start at_ (add_all at_ (refs_where (fun a => negb (is_keyword a)) 0 ts)
         (New (Some (global_of cfg)) (alloc 0 ts (fun _ => nobody)))))).
    rewrite Hh. unfold ident_of, conf_of, alloc. rewrite decide_False by lia.
    by rewrite Nat.sub_0_r, Ht. }
  split; [done|]. exists j. done.
Qed.

Lemma tick_works i t now a :
  running (ag_sched a) -> works_with i t a -> works_with i t (set_sched (tick now (ag_sched a)) a).
Proof.
  intros Hr (j & Hj & Hi & Ho). exists (job_step (d_heap (ag_sched a)) now j). simpl.
  destruct (tick_keeps now (ag_sched a)) as (-> & _). rewrite job_step_task. split; [|done].
  rewrite (tick_jobs now _ Hr). by apply list_elem_of_fmap_2.
Qed.

(** A reload whose file has a task with the ident keeps the job and its object. *)
Lemma reload_works i t at_ loaded cfg a a' ts0 :
  scheduled a ts0 -> clean_config loaded = Ok cfg -> reload compiles at_ (Ok loaded) a = Ok a' ->
  i ∈ (fun t => Ident (any_param t)) <$> fst (buildAllTasks compiles cfg) ->
  works_with i t a -> works_with i t a'.
Proof.
  intros Ha Hc Hr Hi (j & Hj & Hji & Ho). unfold reload in Hr. rewrite Hc in Hr. injection Hr as <-.
  set (ts := fst (buildAllTasks compiles cfg)) in *. set (base := length (ag_tasks a)).
  pose proof (scheduled_separate a ts0 ts Ha) as Hsep. cbv zeta in Hsep. fold base in Hsep.
  match goal with |- context [Reload at_ _ _ ?d] => set (d0 := d) end.
  set (h := alloc base ts (d_heap (ag_sched a))) in *.
  assert ((j_task j < base)%nat) as Hlt by by apply lookup_lt_Some in Ho.
  assert (ident_of h (j_task j) = i) as Hid.
  { rewrite <-Hji. unfold ident_of, conf_of, h, alloc. by rewrite decide_True. }
  assert (wanted h (put_all (ident_of h) (seq base (length ts)) ∅) j) as Hw.
  { unfold wanted. rewrite Hid, put_all_is_Some. left. unfold h. by rewrite alloc_idents. }
  pose proof (Reload_keeps_schedule at_ (global_of cfg) (seq base (length ts)) d0 Hsep)
    as (_ & Hkeep & _).
  destruct (Hkeep j Hj Hw) as (Hj' & r & Hm & Hheap).
  exists j. cbn [ag_sched ag_tasks]. split; [exact Hj'|]. split.
  - unfold ident_of, conf_of. rewrite Hheap. change (d_heap d0) with h in Hm.
    apply put_all_ident in Hm. by rewrite Hid in Hm.
  - unfold own_cfg in *. simpl. by rewrite lookup_app_l.
Qed.
End settings.

Section life.
Context {R : MapRange} {F J : Type}.
Context (render : F -> result string) (one : F).
Context (marshal_event : HttpPublish.Event F J -> result string).
Context (marshal_record : gmap string (HttpPublish.Cell F J) -> result string).
Context (valid : string -> string -> bool).
Context (ParseDuration : string -> result Duration).
Context (decode : gmap string Value -> result HttpOutput.HTTPOutputConfig).
Context {SO : Sorter not_after} (compiles : string -> bool).
Context (Unmarshal : string -> result Config).

#[local] Abbreviation main :=
  (agent_main render one marshal_event marshal_record valid ParseDuration decode compiles Unmarshal).
#[local] Abbreviation lives := (life compiles Unmarshal).

(** Every file that a reload could take has a task with the ident. *)
Definition stays_wanted (i path : string) (hs : list Happening) : Prop :=
  forall ReadFile at_ cfg, H_reload ReadFile at_ ∈ hs -> config_in Unmarshal ReadFile path = Ok cfg ->
    i ∈ (fun t => Ident (any_param t)) <$> fst (buildAllTasks compiles cfg).

Lemma live_works i t ts p h :
  scheduled (p_agent p) ts -> stays_wanted i (ConfigPath (p_cfg p)) [h] ->
  works_with i t (p_agent p) -> works_with i t (p_agent (live compiles Unmarshal p h)).
Proof.
  intros Hs Hw Ht. destruct h as [now|ReadFile at_]; simpl.
  - apply tick_works; [apply Hs|done].
  - assert (forall cfg, config_in Unmarshal ReadFile (ConfigPath (p_cfg p)) = Ok cfg ->
      i ∈ (fun t => Ident (any_param t)) <$> fst (buildAllTasks compiles cfg)) as Hi.
    { intros cfg. by apply (Hw ReadFile at_ cfg), list_elem_of_singleton. }
    unfold reload_callback. unfold config_in in Hi.
    destruct (loadConfig _ _ _) as [cfg0|]; [|done].
    destruct (reload _ _ _ _) as [a|] eqn:Hr; [|done]. simpl.
    destruct (reload_scheduled compiles _ _ _ _ _ Hs Hr) as (cfg & Hc & _).
    eapply reload_works; [exact Hs|exact Hc|exact Hr|by apply Hi|done].
Qed.

Lemma life_works i t ts p hs :
  scheduled (p_agent p) ts -> stays_wanted i (ConfigPath (p_cfg p)) hs ->
  works_with i t (p_agent p) -> works_with i t (p_agent (lives p hs)).
Proof.
  revert p ts. induction hs as [|h hs IH]; intros p ts Hs Hw Ht; [done|].
  destruct (live_scheduled compiles Unmarshal p h ts Hs) as (Hs' & Hc & _).
  apply (IH (live compiles Unmarshal p h) _ Hs').
  - rewrite Hc. intros ReadFile at_ cfg Hin. apply (Hw ReadFile at_). by right.
  - apply (live_works _ _ ts); [done| |done].
    intros ReadFile at_ cfg E%list_elem_of_singleton. apply (Hw ReadFile at_). rewrite E. by left.
Qed.

(** C33: a reload changes nothing of what a collector does. As long as the files read on
    the way go on to list a task's ident, its job works with the entry of the first file:
    whatever targets, commands or thresholds the later ones give, only the ident and the
    period the scheduler asks for follow them. *)
Theorem settings_stay_those_of_the_start fl env m p hs i :
  main fl env m = Running p -> stays_wanted i (fl_config fl) hs ->
  i ∈ job_idents (ag_sched (p_agent p)) ->
  let a := p_agent (lives p hs) in
  exists t, t ∈ fst (buildAllTasks compiles (p_cfg p)) /\ Ident (any_param t) = i /\
    i ∈ job_idents (ag_sched a) /\
    forall j, j ∈ d_jobs (ag_sched a) -> ident_of (d_heap (ag_sched a)) (j_task j) = i ->
      own_cfg a (j_task j) = Some t.
Proof.
  intros Hm Hw Hi a.
  destruct (main_running _ _ _ _ _ _ _ _ _ _ _ _ _ Hm) as (_ & _ & Hpath & Hp).
  pose proof (startup_scheduled compiles (env_clock env) (p_cfg p)) as Hs.
  rewrite Hp in Hi. destruct (startup_works compiles _ _ _ Hi) as (t & Hin & Hid & Ht).
  rewrite <-Hp in Hs, Ht. rewrite <-Hpath in Hw.
  destruct (life_scheduled compiles Unmarshal p hs _ Hs) as [[_ _ _ Hone _] _]. fold a in Hone.
  destruct (life_works i t _ p hs Hs Hw Ht) as (j & Hj & Hji & Ho). fold a in Hj, Hji, Ho.
  exists t. split_and!; [done|done| |].
  - rewrite <-Hji. by apply (list_elem_of_fmap_2 (fun j => ident_of (d_heap (ag_sched a)) (j_task j))).
  - intros j' Hj' Hji'. rewrite <-Ho. do 2 f_equal. unfold job_idents in Hone.
    apply (NoDup_key _ _ _ _ Hone Hj' Hj). congruence.
Qed.
End life.

(** ** A probe whose target is moved by a reload *)
Definition moved_config : Config :=
  {| CheckInterval := 0; EventBufferSize := 0; AdminAddr := EmptyString;
     ConfigPath := "agent.yaml"; Registry := {| reg_URL := EmptyString; reg_Interval := 0; reg_Timeout := 0 |};
     Outputs := []; Basereports := []; Pings := [];
     TCPs := [{| tcp_base := demo_base 7; tcp_Address := "db2:5432" |}];
     UDPs := []; HTTPs := []; Keywords := []; Scripts := []; Exceptionbeats := []; Processbeats := [];
     SocketSnapshots := []; SelfStats := []; GatherUpBeats := []; Dmesgs := []; Metricbeats := [] |}.

Definition demo_files (text : string) : result Config :=
  Ok (if decide (text = "moved"%string) then moved_config else demo_config).

Definition demo_happenings : list Happening :=
  [H_tick Second; H_reload (fun _ => Ok "moved"%string) (fun _ => Second); H_tick (2 * Second)].

Lemma settings_stay_those_of_the_start_witness : exists p c,
  let a := p_agent (life (fun _ => true) demo_files p demo_happenings) in
  tcp_Address c = "db:5432"%string /\
  exists j, j ∈ d_jobs (ag_sched a) /\ ident_of (d_heap (ag_sched a)) (j_task j) = "tcp:7"%string /\
    own_cfg a (j_task j) = Some (A_TCP c).
Proof.
  assert (exists p, agent_main (R := in_key_order) (F := unit) (J := unit) (fun _ => Ok EmptyString) tt
    (fun _ => Ok EmptyString) (fun _ => Ok EmptyString) (fun _ _ => true) (fun _ => Ok 0)
    (fun _ => Err "none"%string) (fun _ => true) demo_files demo_flags demo_env
    demo_machine = Running p) as [p Hp] by (eexists; reflexivity).
  destruct (settings_stay_those_of_the_start _ _ _ _ _ _ _ _ _ demo_flags demo_env demo_machine p
    demo_happenings "tcp:7" Hp) as (t & Ht & Hid & Hin & Hall).
  - intros ReadFile at_ cfg Hin Hc.
    apply elem_of_cons in Hin as [E|[E|[E|E%elem_of_nil]%elem_of_cons]%elem_of_cons];
      [discriminate E| |discriminate E|destruct E].
    injection E as -> ->. vm_compute in Hc. injection Hc as <-. vm_compute. left.
  - vm_compute in Hp. injection Hp as <-. vm_compute. left.
  - apply list_elem_of_fmap in Hin as (j & Hji & Hj). specialize (Hall j Hj (eq_sym Hji)).
    exists p. vm_compute in Hp. injection Hp as <-.
    vm_compute in Ht. destruct (proj1 (elem_of_cons _ _ _) Ht) as [Et|Ht'];
      [|destruct (proj1 (elem_of_cons _ _ _) Ht') as [Et|Hn]; [|destruct (proj1 (elem_of_nil _) Hn)]].
    + subst t. eexists. split;
        [|exists j; split; [exact Hj|]; split; [symmetry; exact Hji|exact Hall]].
      reflexivity.
    + subst t. vm_compute in Hid. discriminate Hid.
Defined.
