(* ===== verification/Admin.v ===== *)
(** * The admin server (http/admin/admin.go)

    The health check and the routes of the profiler on a mux of their own, and the
    server's start and stop. The profiler's handlers, binding a socket and the
    rendering of the current time in the local zone are libraries. *)
From Stdlib Require Import Ascii String.
From S2P Require Import Prelude GoTime LabelsJson Web GoStrings QueryApi.

(** ** The mux *)
Inductive AdminRoute :=
| A_health | A_index | A_cmdline | A_profile | A_symbol | A_trace
| A_redirect (path : Text)
| A_not_found.

Definition admin_patterns : list (Text * AdminRoute) :=
  [(text "/healthz", A_health);
   (text "/debug/pprof/", A_index);
   (text "/debug/pprof/cmdline", A_cmdline);
   (text "/debug/pprof/profile", A_profile);
   (text "/debug/pprof/symbol", A_symbol);
   (text "/debug/pprof/trace", A_trace)].

(** The longest pattern that covers the path. *)
Definition admin_best (path : Text) : option (Text * AdminRoute) :=
  foldl (fun acc p =>
    if path_matches p.1 path then
      match acc with
      | Some q => if (List.length q.1 <? List.length p.1)%nat then Some p else acc
      | None => Some p
      end
    else acc) None admin_patterns.

Definition admin_route (path : Text) : AdminRoute :=
  match admin_best path with
  | Some (_, r) => r
  | None =>
      match admin_best (path ++ [slash]) with
      | Some (pat, _) => if decide (pat = path ++ [slash]) then A_redirect pat else A_not_found
      | None => A_not_found
      end
  end.

(** ** The server *)
Record Server := {
  sv_addr : string;
  sv_version : string;
  sv_listening : bool;      (* s.ln is set *)
  sv_serving : nat;         (* the goroutines of s.wg *)
  sv_closed : bool          (* the http.Server was shut down *)
}.

Definition NewAdmin (addr version : string) : Server :=
  {| sv_addr := addr; sv_version := version; sv_listening := false; sv_serving := 0;
     sv_closed := false |}.

Definition StartAdmin (Listen : string -> result unit) (s : Server) : result unit * Server :=
  match Listen (sv_addr s) with
  | Err e => (Err e, s)
  | Ok _ =>
      (Ok tt, {| sv_addr := sv_addr s; sv_version := sv_version s; sv_listening := true;
                 sv_serving := S (sv_serving s); sv_closed := sv_closed s |})
  end.

(** [Serve] returns once the server is shut down, and its goroutine ends: the steps
    of the goroutines while [Stop] waits for them. *)
Definition serve_ends (s : Server) : option Server :=
  match sv_closed s, sv_serving s with
  | true, S n => Some {| sv_addr := sv_addr s; sv_version := sv_version s;
                         sv_listening := sv_listening s; sv_serving := n; sv_closed := true |}
  | _, _ => None
  end.

Fixpoint wait_serving (fuel : nat) (s : Server) : Server :=
  match fuel with
  | O => s
  | S f => match serve_ends s with Some s' => wait_serving f s' | None => s end
  end.

(** [Shutdown], whose error is only logged, and [wg.Wait]. *)
Definition StopAdmin (s : Server) : Server :=
  wait_serving (sv_serving s)
    {| sv_addr := sv_addr s; sv_version := sv_version s; sv_listening := sv_listening s;
       sv_serving := sv_serving s; sv_closed := true |}.

(** The body: [timestamp] is the text of [time.Now()]. *)
Definition health_members (s : Server) (timestamp : string) : gmap string string :=
  <["version" := sv_version s]> (<["status" := "ok"]> {["timestamp" := timestamp]})%string.

Definition handleHealth {R : MapRange} (s : Server) (timestamp : string) : Reply string :=
  R_json (encodeLabels (health_members s timestamp)).

(** ** Facts *)
Section facts.
Context {R : MapRange}.

Lemma wait_serving_zero n s :
  sv_closed s = true -> sv_serving s = n -> sv_serving (wait_serving n s) = 0%nat.
Proof.
  revert s. induction n as [|n IH]; intros s Hc Hn; simpl; [done|].
  unfold serve_ends. rewrite Hc, Hn. by apply IH.
Qed.

(** [Stop] returns: no goroutine is left, whether or not [Start] could bind. *)
Lemma StopAdmin_returns s : sv_serving (StopAdmin s) = 0%nat.
Proof. by apply wait_serving_zero. Qed.

(** The health check says ok and the version. *)
Lemma health_reads_back s timestamp :
  ascii_text (sv_version s) -> ascii_text timestamp ->
  exists body, handleHealth s timestamp = R_json body /\
    decodeLabels body !! "status"%string = Some "ok"%string /\
    decodeLabels body !! "version"%string = Some (sv_version s).
Proof.
  intros Hv Ht. eexists. split; [reflexivity|]. rewrite decode_encode_labels.
  - unfold health_members. by rewrite lookup_insert_ne, !lookup_insert_eq by done.
  - unfold ascii_labels, health_members.
    apply map_Forall_insert_2; [by split; [repeat constructor|]|].
    apply map_Forall_insert_2; [by split; repeat constructor|].
    apply map_Forall_singleton. by split; [repeat constructor|].
Qed.

(** The profiler's pages: everything below /debug/pprof/ but its four named
    commands is the index; without the slash one is sent there. *)
Lemma admin_routes :
  admin_route (text "/debug/pprof/heap") = A_index /\
  admin_route (text "/debug/pprof/trace") = A_trace /\
  admin_route (text "/debug/pprof") = A_redirect (text "/debug/pprof/") /\
  admin_route (text "/healthz") = A_health /\ admin_route (text "/healthz/") = A_not_found.
Proof. vm_compute. by split_and!. Qed.

End facts.
