(* ===== verification/ProcSource.v ===== *)
(** * Sources of the host's identity (internal/host/procsource.go)

    The interface [Source] as a class with its law, and its three implementations:
    the file and the HTTP source are not implemented yet and answer so, the static
    source is filled from memory and tells its readers on a channel of one. *)
From Stdlib Require Import String.
From S2P Require Import Prelude.

Record Info := { HostID : string; CloudID : string; InnerIP : string }.

Definition no_info : Info :=
  {| HostID := EmptyString; CloudID := EmptyString; InnerIP := EmptyString |}.

Definition ErrNotImplemented : error := "procsource: not implemented in P0 stub".

(** The channel of [Notify]: [None] for nil, else the number of notifications that
    wait in it. *)
Class Source (S : Type) := {
  src_Start : S -> option error * S;
  src_Stop : S -> S;
  src_Reload : S -> option error * S;
  src_GetHostID : S -> string;
  src_GetInfo : S -> Info * option error;
  src_Notify : S -> option nat
}.

(** The host id is the one of the snapshot, and neither starting, stopping nor
    reloading changes it. *)
Class LawfulSource (S : Type) `{Source S} := {
  law_host_id : forall s, src_GetHostID s = HostID (fst (src_GetInfo s));
  law_start : forall s, src_GetInfo (snd (src_Start s)) = src_GetInfo s;
  law_stop : forall s, src_GetInfo (src_Stop s) = src_GetInfo s;
  law_reload : forall s, src_GetInfo (snd (src_Reload s)) = src_GetInfo s
}.

(** ** The sources that are not implemented *)
Record FileSource := { fs_path : string; fs_info : Info }.
Definition NewFileSource (path : string) : FileSource := {| fs_path := path; fs_info := no_info |}.

#[export] Instance file_source : Source FileSource :=
  {| src_Start := fun s => (Some ErrNotImplemented, s);
     src_Stop := fun s => s;
     src_Reload := fun s => (Some ErrNotImplemented, s);
     src_GetHostID := fun s => HostID (fs_info s);
     src_GetInfo := fun s => (fs_info s, Some ErrNotImplemented);
     src_Notify := fun _ => None |}.

Record HTTPSource := { hs_endpoint : string; hs_info : Info }.
Definition NewHTTPSource (endpoint : string) : HTTPSource :=
  {| hs_endpoint := endpoint; hs_info := no_info |}.

#[export] Instance http_source : Source HTTPSource :=
  {| src_Start := fun s => (Some ErrNotImplemented, s);
     src_Stop := fun s => s;
     src_Reload := fun s => (Some ErrNotImplemented, s);
     src_GetHostID := fun s => HostID (hs_info s);
     src_GetInfo := fun s => (hs_info s, Some ErrNotImplemented);
     src_Notify := fun _ => None |}.

(** ** The static source *)
Record StaticSource := { ss_info : Info; ss_notif : nat }.
Definition NewStaticSource (info : Info) : StaticSource := {| ss_info := info; ss_notif := 0 |}.

#[export] Instance static_source : Source StaticSource :=
  {| src_Start := fun s => (None, s);
     src_Stop := fun s => s;
     src_Reload := fun s => (None, s);
     src_GetHostID := fun s => HostID (ss_info s);
     src_GetInfo := fun s => (ss_info s, None);
     src_Notify := fun s => Some (ss_notif s) |}.

(** The select with a default: a full channel keeps the notification it has. *)
Definition SetInfo (info : Info) (s : StaticSource) : StaticSource :=
  {| ss_info := info; ss_notif := if (ss_notif s <? 1)%nat then S (ss_notif s) else ss_notif s |}.

(** A reader's receive, if there is something to receive. *)
Definition receive (s : StaticSource) : option StaticSource :=
  match ss_notif s with
  | O => None
  | S n => Some {| ss_info := ss_info s; ss_notif := n |}
  end.

#[export] Instance file_lawful : LawfulSource FileSource.
Proof. by split. Qed.
#[export] Instance http_lawful : LawfulSource HTTPSource.
Proof. by split. Qed.
#[export] Instance static_lawful : LawfulSource StaticSource.
Proof. by split. Qed.

(** ** A reader that follows the channel sees the last update *)
Section static.
Inductive SourceOp := Op_set (info : Info) | Op_receive.

(** A receive on an empty channel would block: the reader skips it. [seen] is what
    the reader read after its last receive. *)
Definition source_step (st : StaticSource * Info) (op : SourceOp) : StaticSource * Info :=
  match op with
  | Op_set info => (SetInfo info st.1, st.2)
  | Op_receive =>
      match receive st.1 with
      | Some s => (s, fst (src_GetInfo s))
      | None => st
      end
  end.

Definition source_run (info : Info) (ops : list SourceOp) : StaticSource * Info :=
  foldl source_step (NewStaticSource info, info) ops.

(** Either a notification waits, exactly one, or the reader is up to date. *)
Lemma no_update_is_lost info ops :
  let '(s, seen) := source_run info ops in
  (ss_notif s = 1%nat) \/ (ss_notif s = 0%nat /\ seen = ss_info s).
Proof.
  unfold source_run.
  assert (forall st, (ss_notif st.1 = 1%nat \/ (ss_notif st.1 = 0%nat /\ st.2 = ss_info st.1)) ->
    let st' := foldl source_step st ops in
    ss_notif st'.1 = 1%nat \/ (ss_notif st'.1 = 0%nat /\ st'.2 = ss_info st'.1)) as H.
  { induction ops as [|op ops IH]; intros st Hst; [exact Hst|]. simpl. apply IH.
    destruct op as [i|]; simpl; [left; by destruct Hst as [->|[-> _]]|].
    unfold receive. destruct Hst as [Hn|[Hn ?]]; rewrite Hn; simpl; right; by rewrite ?Hn. }
  specialize (H (NewStaticSource info, info)). destruct (foldl _ _ _) as [s seen].
  apply H. by right.
Qed.
End static.
