(* ===== verification/KeywordSched.v ===== *)
(** * The keyword scheduler's goroutines (scheduler/keyword/scheduler.go)

    The scheduler with the goroutines it starts: each runs one task until the task
    returns or panics. [os_view] is what [OneShot] keeps of it, and the operations
    commute with that view; the goroutines' steps are the relation [kw_step]. *)
From stdpp Require Import pretty.
From S2P Require Import Prelude GoTime TreeMap JobQueue Daemon OneShot.

Record Scheduler := {
  kw_status : Status;
  kw_config : option GlobalConf;
  kw_tasks : treemap TaskRef;
  kw_started : list TaskRef;      (* Run was called, in this order *)
  kw_running : list TaskRef;      (* goroutines counted by s.wg *)
  kw_ctx : bool;                  (* s.cancel is set *)
  kw_cancelled : bool             (* s.ctx is done *)
}.

Definition NewScheduler : Scheduler :=
  {| kw_status := StatusReady; kw_config := None; kw_tasks := ∅; kw_started := [];
     kw_running := []; kw_ctx := false; kw_cancelled := false |}.

Definition Add (h : Heap) (r : TaskRef) (s : Scheduler) : Scheduler :=
  {| kw_status := kw_status s; kw_config := kw_config s;
     kw_tasks := <[ident_of h r := r]> (kw_tasks s); kw_started := kw_started s;
     kw_running := kw_running s; kw_ctx := kw_ctx s; kw_cancelled := kw_cancelled s |}.

Definition IsDaemon : bool := false.

Definition Count (s : Scheduler) : nat := size (kw_tasks s).

(** The context of [Start] is fresh, derived from the caller's; the tasks are read
    under the lock, then started. *)
Definition Start (parent_done : bool) (s : Scheduler) : Scheduler :=
  {| kw_status := StatusRunning; kw_config := kw_config s; kw_tasks := kw_tasks s;
     kw_started := kw_started s ++ Values (kw_tasks s);
     kw_running := kw_running s ++ Values (kw_tasks s); kw_ctx := true;
     kw_cancelled := parent_done |}.

Definition Stop (s : Scheduler) : Scheduler :=
  {| kw_status := StatusFinished; kw_config := kw_config s; kw_tasks := kw_tasks s;
     kw_started := kw_started s; kw_running := kw_running s; kw_ctx := kw_ctx s;
     kw_cancelled := if kw_ctx s then true else kw_cancelled s |}.

(** [Wait] returns once the group is empty. *)
Definition Wait (s : Scheduler) : option Scheduler :=
  match kw_running s with
  | [] => Some {| kw_status := StatusFinished; kw_config := kw_config s; kw_tasks := kw_tasks s;
                  kw_started := kw_started s; kw_running := []; kw_ctx := kw_ctx s;
                  kw_cancelled := kw_cancelled s |}
  | _ :: _ => None
  end.

Definition Reload (h : Heap) (conf : GlobalConf) (tasks : list TaskRef) (s : Scheduler) : Scheduler :=
  {| kw_status := kw_status s; kw_config := Some conf;
     kw_tasks := put_all (ident_of h) tasks ∅; kw_started := kw_started s;
     kw_running := kw_running s; kw_ctx := kw_ctx s; kw_cancelled := kw_cancelled s |}.

(** [runTask]: a goroutine ends when its task returns or panics - the panic is
    recovered and logged -, and the group counts it down. *)
Definition goroutine_ends (i : nat) (s : Scheduler) : option Scheduler :=
  match kw_running s !! i with
  | None => None
  | Some _ =>
      Some {| kw_status := kw_status s; kw_config := kw_config s; kw_tasks := kw_tasks s;
              kw_started := kw_started s;
              kw_running := take i (kw_running s) ++ drop (S i) (kw_running s);
              kw_ctx := kw_ctx s; kw_cancelled := kw_cancelled s |}
  end.

(** ** Refinement of [OneShot] *)
Definition os_view (s : Scheduler) : OneShot :=
  {| os_status := kw_status s; os_config := kw_config s; os_tasks := kw_tasks s;
     os_started := kw_started s; os_cancelled := kw_cancelled s |}.

Section facts.
Lemma view_New : os_view NewScheduler = os_new None.
Proof. done. Qed.
Lemma view_Add h r s : os_view (Add h r s) = os_add h r (os_view s).
Proof. done. Qed.
Lemma view_Count s : Count s = os_count (os_view s).
Proof. done. Qed.
Lemma view_Start s : kw_cancelled s = false -> os_view (Start false s) = keyword_start (os_view s).
Proof. intros H. unfold os_view, keyword_start. simpl. by rewrite H. Qed.
Lemma view_Stop s : kw_ctx s = true -> os_view (Stop s) = os_stop (os_view s).
Proof. intros H. unfold os_view, os_stop. simpl. by rewrite H. Qed.
Lemma view_Wait s s' : Wait s = Some s' -> os_view s' = os_wait (os_view s).
Proof. unfold Wait. destruct (kw_running s); [|done]. by intros [= <-]. Qed.
Lemma view_Reload h c ts s : os_view (Reload h c ts s) = os_reload h c ts (os_view s).
Proof. done. Qed.
Lemma view_ends i s s' : goroutine_ends i s = Some s' -> os_view s' = os_view s.
Proof. unfold goroutine_ends. destruct (kw_running s !! i); [|done]. by intros [= <-]. Qed.

Lemma ends_shorter i s s' :
  goroutine_ends i s = Some s' -> (length (kw_running s') < length (kw_running s))%nat.
Proof.
  unfold goroutine_ends. destruct (kw_running s !! i) eqn:Hi; [|done]. intros [= <-]. simpl.
  apply lookup_lt_Some in Hi. rewrite length_app, length_take, length_drop. lia.
Qed.

(** What happens to a started scheduler. *)
Inductive Happens :=
| K_add (r : TaskRef)
| K_reload (conf : GlobalConf) (tasks : list TaskRef)
| K_stop
| K_end (i : nat).

Definition kw_step (h : Heap) (l : Happens) (s : Scheduler) : option Scheduler :=
  match l with
  | K_add r => Some (Add h r s)
  | K_reload conf tasks => Some (Reload h conf tasks s)
  | K_stop => Some (Stop s)
  | K_end i => goroutine_ends i s
  end.

Definition is_end (l : Happens) : bool := match l with K_end _ => true | _ => false end.

Definition ends (ls : list Happens) : nat := length (filter (fun l => is_end l = true) ls).

Lemma kw_step_goroutines h l s s' :
  kw_step h l s = Some s' ->
  kw_started s' = kw_started s /\ kw_running s' ⊆+ kw_running s /\
  (length (kw_running s') + ends [l] = length (kw_running s))%nat.
Proof.
  intros Hs. destruct l as [r|c ts| |i]; simpl in Hs; try (simplify_eq; simpl; unfold ends;
    rewrite filter_cons_False by done; simpl; split_and!; [done|done|lia]).
  unfold goroutine_ends in Hs. destruct (kw_running s !! i) as [r|] eqn:Hi; simplify_eq. simpl.
  split; [done|]. unfold ends. rewrite filter_cons_True by done. simpl. split.
  - rewrite <-(take_drop_middle _ _ _ Hi) at 3. by apply submseteq_skips_l, submseteq_cons.
  - apply lookup_lt_Some in Hi. rewrite length_app, length_take, length_drop. lia.
Qed.

Lemma kw_steps_goroutines h ls s s' :
  run_steps (kw_step h) ls s = Some s' ->
  kw_started s' = kw_started s /\ kw_running s' ⊆+ kw_running s /\
  (length (kw_running s') + ends ls = length (kw_running s))%nat.
Proof.
  revert s. induction ls as [|l ls IH]; intros s Hr; simpl in Hr.
  { simplify_eq. unfold ends. simpl. split_and!; [done|done|lia]. }
  destruct (kw_step h l s) as [s1|] eqn:E; [|done].
  apply kw_step_goroutines in E as (H1 & H2 & H3). apply IH in Hr as (-> & H2' & H3').
  split; [done|]. split; [by etrans|]. unfold ends in *. rewrite filter_cons in *.
  destruct (decide (is_end l = true)); simpl in *; lia.
Qed.
End facts.

(** A started keyword scheduler has one goroutine per ident of its tasks. Whatever
    happens afterwards - adding a task, replacing the task list by a reload,
    stopping -, no task is started and none is taken away: only the end of a task
    removes its goroutine, and [Wait] returns exactly when as many have ended as were
    started. *)
Theorem keyword_goroutines h tasks ls s :
  let s0 := Start false (foldl (fun s r => Add h r s) NewScheduler tasks) in
  run_steps (kw_step h) ls s0 = Some s ->
  in_ident_order h tasks (kw_started s0) /\
  kw_started s = kw_started s0 /\ kw_running s ⊆+ kw_started s /\
  (is_Some (Wait s) <-> ends ls = length (kw_started s0)).
Proof.
  intros s0 Hr. assert (forall s, kw_tasks (foldl (fun s r => Add h r s) s tasks) =
      put_all (ident_of h) tasks (kw_tasks s) /\
    kw_started (foldl (fun s r => Add h r s) s tasks) = kw_started s /\
    kw_running (foldl (fun s r => Add h r s) s tasks) = kw_running s) as Hadds.
  { clear. induction tasks as [|r rs IH]; intros s; [done|]. apply (IH (Add h r s)). }
  destruct (Hadds NewScheduler) as (Ht & Hs & Hg).
  assert (kw_started s0 = Values (put_all (ident_of h) tasks ∅)) as H0
    by (unfold s0; simpl; by rewrite Ht, Hs).
  assert (kw_running s0 = kw_started s0) as H1 by (unfold s0; simpl; by rewrite Hs, Hg).
  apply kw_steps_goroutines in Hr as (Hst & Hsub & Hlen). rewrite H1 in Hsub, Hlen.
  split_and!; [rewrite H0; apply values_in_order|done|by rewrite Hst|].
  clearbody s0. unfold Wait. destruct (kw_running s) as [|r rs]; simpl in Hlen; split.
  - intros _. lia.
  - by eexists.
  - by intros [].
  - lia.
Qed.

Definition demo_objects : Heap := fun r =>
  {| t_cfg := {| GetTaskID := 0; GetIdent := pretty r; GetPeriod := 0 |};
     t_gcfg := None |}.

Lemma keyword_goroutines_witness : exists s,
  run_steps (kw_step demo_objects)
    [K_reload {| GetCheckInterval := 0 |} [7%nat]; K_stop; K_end 1; K_end 0]
    (Start false (foldl (fun s r => Add demo_objects r s) NewScheduler [3%nat; 4%nat])) = Some s /\
  is_Some (Wait s).
Proof.
  match goal with |- context [run_steps ?f ?ls ?s0] =>
    let r := eval vm_compute in (run_steps f ls s0) in
    match r with Some ?s => exists s end end.
  split; [vm_compute; reflexivity|].
  apply (keyword_goroutines demo_objects [3%nat; 4%nat]
    [K_reload {| GetCheckInterval := 0 |} [7%nat]; K_stop; K_end 1; K_end 0]);
    vm_compute; reflexivity.
Defined.
