(* ===== verification/Lifecycle.v ===== *)
(** * The interfaces of define/task.go and define/scheduler.go, tasks/task_base.go

    What a scheduler asks of a task and the program of a scheduler, as classes
    of operations with their laws. Every task embeds [BaseTask]; the schedulers
    are [Daemon], [OneShot] and [KeywordSched], and [BaseScheduler] is the
    default they share. The header's remark on waiting comes from here: a task's
    [Wait] waits for what [Track] has started, and nothing calls [Track]. *)
From S2P Require Import Prelude GoTime TreeMap JobQueue Daemon OneShot KeywordSched.

(** ** tasks/task_base.go *)
Record BaseTask := {
  bt_status : Status;
  bt_wg : nat;                  (* the counter of the wait group *)
  bt_cfg : option TaskConf;
  bt_gcfg : option GlobalConf
}.

(** The zero value, which embedding starts from. *)
Definition zero_task : BaseTask :=
  {| bt_status := StatusReady; bt_wg := 0; bt_cfg := None; bt_gcfg := None |}.

Definition bt_GetTaskID (b : BaseTask) : Z :=
  match bt_cfg b with None => 0 | Some c => GetTaskID c end.

Definition bt_SetStatus (s : Status) (b : BaseTask) : BaseTask :=
  {| bt_status := s; bt_wg := bt_wg b; bt_cfg := bt_cfg b; bt_gcfg := bt_gcfg b |}.

Definition bt_SetConfig (c : TaskConf) (b : BaseTask) : BaseTask :=
  {| bt_status := bt_status b; bt_wg := bt_wg b; bt_cfg := Some c; bt_gcfg := bt_gcfg b |}.

Definition bt_SetGlobalConfig (g : option GlobalConf) (b : BaseTask) : BaseTask :=
  {| bt_status := bt_status b; bt_wg := bt_wg b; bt_cfg := bt_cfg b; bt_gcfg := g |}.

Definition bt_Reload (b : BaseTask) : BaseTask := b.
Definition bt_Stop (b : BaseTask) : BaseTask := b.

(** [Track]: the counter goes up, and down when the function has ended, by
    return or panic. *)
Definition with_wg (n : nat) (b : BaseTask) : BaseTask :=
  {| bt_status := bt_status b; bt_wg := n; bt_cfg := bt_cfg b; bt_gcfg := bt_gcfg b |}.
Definition bt_Track (b : BaseTask) : BaseTask := with_wg (S (bt_wg b)) b.
Definition bt_tracked_ends (b : BaseTask) : option BaseTask :=
  match bt_wg b with O => None | S n => Some (with_wg n b) end.

(** Whether [Wait] returns. *)
Definition bt_Wait (b : BaseTask) : bool := bool_decide (bt_wg b = 0%nat).

(** ** define/task.go *)
Class TaskOps (T : Type) := {
  task_GetTaskID : T -> Z;
  task_GetStatus : T -> Status;
  task_SetConfig : TaskConf -> T -> T;
  task_GetConfig : T -> option TaskConf;
  task_SetGlobalConfig : option GlobalConf -> T -> T;
  task_GetGlobalConfig : T -> option GlobalConf;
  task_Reload : T -> T;
  task_Wait : T -> bool;
  task_Stop : T -> T
}.

(** What the schedulers rely on. *)
Class TaskLaws (T : Type) {Ops : TaskOps T} := {
  get_set_config : forall c t, task_GetConfig (task_SetConfig c t) = Some c;
  get_set_global : forall g t, task_GetGlobalConfig (task_SetGlobalConfig g t) = g;
  config_set_global : forall g t, task_GetConfig (task_SetGlobalConfig g t) = task_GetConfig t;
  global_set_config : forall c t, task_GetGlobalConfig (task_SetConfig c t) = task_GetGlobalConfig t;
  config_reload : forall t, task_GetConfig (task_Reload t) = task_GetConfig t;
  global_reload : forall t, task_GetGlobalConfig (task_Reload t) = task_GetGlobalConfig t;
  id_of_config : forall c t, task_GetConfig t = Some c -> task_GetTaskID t = GetTaskID c
}.

#[export] Instance base_task_ops : TaskOps BaseTask :=
  {| task_GetTaskID := bt_GetTaskID; task_GetStatus := bt_status; task_SetConfig := bt_SetConfig;
     task_GetConfig := bt_cfg; task_SetGlobalConfig := bt_SetGlobalConfig;
     task_GetGlobalConfig := bt_gcfg; task_Reload := bt_Reload; task_Wait := bt_Wait;
     task_Stop := bt_Stop |}.

#[export] Instance base_task_laws : TaskLaws BaseTask.
Proof. split; try done. intros c t E. simpl in *. unfold bt_GetTaskID. by rewrite E. Qed.

(** A task type: [BaseTask] embedded beside fields of its own - the typed
    configuration [Run] works with, and state. Every method but [Run] is
    promoted. *)
Record Gather (Own : Type) := { g_base : BaseTask; g_own : Own }.
Arguments g_base {Own}. Arguments g_own {Own}.

Definition on_base {Own} (f : BaseTask -> BaseTask) (g : Gather Own) : Gather Own :=
  {| g_base := f (g_base g); g_own := g_own g |}.

(** The constructors of the tasks: [SetConfig], [SetStatus]. *)
Definition new_gather {Own} (c : TaskConf) (own : Own) : Gather Own :=
  {| g_base := bt_SetStatus StatusReady (bt_SetConfig c zero_task); g_own := own |}.

#[export] Instance gather_ops Own : TaskOps (Gather Own) :=
  {| task_GetTaskID g := task_GetTaskID (g_base g); task_GetStatus g := task_GetStatus (g_base g);
     task_SetConfig c := on_base (task_SetConfig c); task_GetConfig g := task_GetConfig (g_base g);
     task_SetGlobalConfig c := on_base (task_SetGlobalConfig c);
     task_GetGlobalConfig g := task_GetGlobalConfig (g_base g);
     task_Reload := on_base task_Reload; task_Wait g := task_Wait (g_base g);
     task_Stop := on_base task_Stop |}.

#[export] Instance gather_laws Own : TaskLaws (Gather Own).
Proof.
  split; try done. intros c [b o] E. simpl in *. unfold bt_GetTaskID. by rewrite E.
Qed.

(** ** What the program does with a task *)
Section task_life.
Context {T : Type} `{TaskLaws T}.

(** The calls the schedulers and the reload make, besides starting [Run]. *)
Inductive Call :=
| C_SetConfig (c : TaskConf)
| C_SetGlobalConfig (g : option GlobalConf)
| C_Reload
| C_Stop.

Definition call (l : Call) (t : T) : T :=
  match l with
  | C_SetConfig c => task_SetConfig c t
  | C_SetGlobalConfig g => task_SetGlobalConfig g t
  | C_Reload => task_Reload t
  | C_Stop => task_Stop t
  end.

Definition calls (ls : list Call) (t : T) : T := foldl (fun t l => call l t) t ls.

(** [reloadJobFromTask] followed by [job.Reload]: the kept task has the
    configurations of the rebuilt one. *)
Definition reload_through (from : T) (kept : T) : option T :=
  match task_GetConfig from with
  | Some c => Some (calls [C_SetGlobalConfig (task_GetGlobalConfig from); C_SetConfig c; C_Reload] kept)
  | None => None
  end.

Lemma reload_through_config from kept t :
  reload_through from kept = Some t ->
  task_GetConfig t = task_GetConfig from /\ task_GetGlobalConfig t = task_GetGlobalConfig from.
Proof using H.
  unfold reload_through. destruct (task_GetConfig from) as [c|]; [|done].
  intros [= <-]. simpl.
  rewrite config_reload, get_set_config, global_reload, global_set_config, get_set_global. done.
Qed.
End task_life.
Arguments call {T _} l t. Arguments calls {T _} ls t.

(** The interface's view is what [Daemon] keeps of a task object. *)
Definition obj_of (c0 : TaskConf) (b : BaseTask) : TaskObj :=
  {| t_cfg := default c0 (bt_cfg b); t_gcfg := bt_gcfg b |}.

Lemma reload_refines_heap c0 (from kept t : BaseTask) (h : Heap) (j : Job) (r : TaskRef) :
  h r = obj_of c0 from -> reload_through from kept = Some t ->
  reloadJobFromTask j r h (j_task j) = obj_of c0 t.
Proof.
  unfold reload_through, reloadJobFromTask, obj_of. intros Hr. simpl.
  destruct (bt_cfg from) as [c|]; [|done].
  intros [= <-]. unfold SetConfig, SetGlobalConfig. rewrite Hr. simpl.
  by rewrite !functions.fn_lookup_insert.
Qed.

(** Calls leave the counter and the status of a task alone. *)
Lemma calls_untouched {Own} ls (g : Gather Own) :
  bt_wg (g_base (calls ls g)) = bt_wg (g_base g) /\
  bt_status (g_base (calls ls g)) = bt_status (g_base g) /\ g_own (calls ls g) = g_own g.
Proof.
  revert g. induction ls as [|l ls IH]; intros g; [done|]. simpl.
  destruct (IH (call l g)) as (-> & -> & ->). by destruct l.
Qed.

(** A task of the program is made by its constructor and then only called by
    the schedulers: it stays [StatusReady], whether it runs or not, and waiting
    for it returns at once; what [Run] works with is what the constructor got. *)
Theorem task_never_waits {Own} c (own : Own) ls :
  task_Wait (calls ls (new_gather c own)) = true /\
  task_GetStatus (calls ls (new_gather c own)) = StatusReady /\
  g_own (calls ls (new_gather c own)) = own.
Proof.
  destruct (calls_untouched ls (new_gather c own)) as (Hw & Hs & Ho). simpl.
  split_and!; [|exact Hs|exact Ho]. unfold bt_Wait. by rewrite Hw.
Qed.

(** With [Track], [Wait] would return exactly when every tracked function has
    ended. *)
Inductive Tracked := K_track | K_ends.

Definition track_step (l : Tracked) (b : BaseTask) : option BaseTask :=
  match l with K_track => Some (bt_Track b) | K_ends => bt_tracked_ends b end.

Definition count_of (p : Tracked -> bool) (ls : list Tracked) : nat :=
  List.length (filter (fun l => p l = true) ls).

Lemma tracked_counts ls b b' :
  run_steps track_step ls b = Some b' ->
  (bt_wg b' + count_of (fun l => match l with K_ends => true | _ => false end) ls =
   bt_wg b + count_of (fun l => match l with K_track => true | _ => false end) ls)%nat.
Proof.
  revert b. induction ls as [|[] ls IH]; intros b Hr; simpl in Hr; [by simplify_eq|..];
    unfold count_of in *; rewrite !filter_cons; simpl.
  - rewrite (IH _ Hr). simpl. lia.
  - unfold bt_tracked_ends in Hr. destruct (bt_wg b) eqn:E; [done|].
    specialize (IH _ Hr). simpl in IH. lia.
Qed.

Theorem Wait_returns_when_all_ended ls b :
  run_steps track_step ls zero_task = Some b ->
  bt_Wait b = true <->
    count_of (fun l => match l with K_ends => true | _ => false end) ls =
    count_of (fun l => match l with K_track => true | _ => false end) ls.
Proof.
  intros Hr. pose proof (tracked_counts _ _ _ Hr) as Hc. simpl in Hc.
  unfold bt_Wait. rewrite bool_decide_eq_true. lia.
Qed.

(** ** define/scheduler.go *)
Record BaseScheduler := { bs_Status : Status; bs_Config : option GlobalConf }.

Definition bs_Stop (s : BaseScheduler) : BaseScheduler :=
  {| bs_Status := StatusFinished; bs_Config := bs_Config s |}.
Definition bs_Wait (s : BaseScheduler) : BaseScheduler :=
  {| bs_Status := StatusFinished; bs_Config := bs_Config s |}.
Definition bs_IsDaemon : bool := true.
Definition bs_Count : nat := 0%nat.
Definition bs_Start (s : BaseScheduler) : result unit * BaseScheduler :=
  (Ok tt, {| bs_Status := StatusRunning; bs_Config := bs_Config s |}).
Definition bs_Reload (conf : GlobalConf) (s : BaseScheduler) : result unit * BaseScheduler :=
  (Ok tt, {| bs_Status := bs_Status s; bs_Config := Some conf |}).

(** The interface. [sc_Wait] is [None] while it blocks; the clock is when each
    task is added or its job made. *)
Class SchedulerOps (S : Type) := {
  sc_ident : S -> TaskRef -> string;
  sc_tasks : S -> treemap TaskRef;
  sc_base : S -> BaseScheduler;
  sc_Add : Time -> TaskRef -> S -> S;
  sc_Start : (TaskRef -> Time) -> S -> S;
  sc_IsDaemon : bool;
  sc_Count : S -> nat;
  sc_Stop : S -> S;
  sc_Wait : S -> option S;
  sc_Reload : (TaskRef -> Time) -> GlobalConf -> list TaskRef -> S -> S
}.

Definition sc_GetStatus {S} `{SchedulerOps S} (s : S) : Status := bs_Status (sc_base s).

(** What [main] and the reload rely on. *)
Class SchedulerLaws (S : Type) {Ops : SchedulerOps S} := {
  count_tasks : forall s, sc_Count s = size (sc_tasks s);
  add_tasks : forall now r s, sc_tasks (sc_Add now r s) = <[sc_ident s r := r]> (sc_tasks s);
  add_ident : forall now r s, sc_ident (sc_Add now r s) = sc_ident s;
  add_status : forall now r s, sc_base (sc_Add now r s) = sc_base s;
  start_status : forall at_ s, sc_base (sc_Start at_ s) = snd (bs_Start (sc_base s));
  start_tasks : forall at_ s, sc_tasks (sc_Start at_ s) = sc_tasks s;
  stop_status : forall s, sc_base (sc_Stop s) = bs_Stop (sc_base s);
  stop_tasks : forall s, sc_tasks (sc_Stop s) = sc_tasks s;
  wait_status : forall s s', sc_Wait s = Some s' -> sc_base s' = bs_Wait (sc_base s);
  wait_tasks : forall s s', sc_Wait s = Some s' -> sc_tasks s' = sc_tasks s;
  reload_status : forall at_ conf ts s, sc_base (sc_Reload at_ conf ts s) = snd (bs_Reload conf (sc_base s));
  reload_tasks : forall at_ conf ts s, sc_tasks (sc_Reload at_ conf ts s) = put_all (sc_ident s) ts ∅
}.

(** *** The periodic scheduler. Its loop has ended when [Wait] goes on, and no
    task makes it wait ([task_never_waits]). *)
Section daemon_instance.
Context {SO : Sorter not_after}.

#[export] Instance daemon_ops : SchedulerOps Daemon :=
  {| sc_ident d := ident_of (d_heap d); sc_tasks := d_tasks;
     sc_base d := {| bs_Status := d_status d; bs_Config := d_config d |};
     sc_Add := AddTask; sc_Start := Daemon.Start; sc_IsDaemon := bs_IsDaemon; sc_Count := Daemon.Count;
     sc_Stop := Daemon.Stop; sc_Wait d := Some (snd (Daemon.Wait d)); sc_Reload := Daemon.Reload |}.

#[export] Instance daemon_laws : SchedulerLaws Daemon.
Proof.
  split; try done; intros; simpl in *.
  - unfold AddTask. by case_decide.
  - unfold AddTask. by case_decide.
  - unfold AddTask. by case_decide.
  - simplify_eq. unfold Daemon.Wait. by destruct (PopAll (d_jobs s)).
  - simplify_eq. unfold Daemon.Wait. by destruct (PopAll (d_jobs s)).
Qed.
End daemon_instance.

(** *** The other two work on the task objects the program holds. *)
Record WithTasks (S : Type) := { wt_heap : Heap; wt_sched : S }.
Arguments wt_heap {S}. Arguments wt_sched {S}.

Definition on_sched {S} (f : Heap -> S -> S) (w : WithTasks S) : WithTasks S :=
  {| wt_heap := wt_heap w; wt_sched := f (wt_heap w) (wt_sched w) |}.

(** [Start] of the checker, before its goroutine has run anything. *)
Definition checker_start (s : OneShot) : OneShot :=
  {| os_status := StatusRunning; os_config := os_config s; os_tasks := os_tasks s;
     os_started := os_started s; os_cancelled := os_cancelled s |}.

Lemma checker_run_start done_ s : checker_run done_ (checker_start s) = checker_run done_ s.
Proof. done. Qed.

#[export] Instance checker_ops : SchedulerOps (WithTasks OneShot) :=
  {| sc_ident w := ident_of (wt_heap w); sc_tasks w := os_tasks (wt_sched w);
     sc_base w := {| bs_Status := os_status (wt_sched w); bs_Config := os_config (wt_sched w) |};
     sc_Add _ r := on_sched (fun h => os_add h r); sc_Start _ := on_sched (fun _ => checker_start);
     sc_IsDaemon := false; sc_Count w := os_count (wt_sched w); sc_Stop := on_sched (fun _ => os_stop);
     sc_Wait w := Some (on_sched (fun _ => os_wait) w);
     sc_Reload _ conf ts := on_sched (fun h => os_reload h conf ts) |}.

#[export] Instance checker_laws : SchedulerLaws (WithTasks OneShot).
Proof. split; try done; intros; by simplify_eq/=. Qed.

#[export] Instance keyword_ops : SchedulerOps (WithTasks KeywordSched.Scheduler) :=
  {| sc_ident w := ident_of (wt_heap w); sc_tasks w := kw_tasks (wt_sched w);
     sc_base w := {| bs_Status := kw_status (wt_sched w); bs_Config := kw_config (wt_sched w) |};
     sc_Add _ r := on_sched (fun h => KeywordSched.Add h r);
     sc_Start _ := on_sched (fun _ => KeywordSched.Start false);
     sc_IsDaemon := KeywordSched.IsDaemon; sc_Count w := KeywordSched.Count (wt_sched w);
     sc_Stop := on_sched (fun _ => KeywordSched.Stop);
     sc_Wait w := s ← KeywordSched.Wait (wt_sched w); Some {| wt_heap := wt_heap w; wt_sched := s |};
     sc_Reload _ conf ts := on_sched (fun h => KeywordSched.Reload h conf ts) |}.

Lemma kw_Wait_inv s s' : KeywordSched.Wait s = Some s' ->
  kw_status s' = StatusFinished /\ kw_config s' = kw_config s /\ kw_tasks s' = kw_tasks s.
Proof. unfold KeywordSched.Wait. destruct (kw_running s); [|done]. by intros [= <-]. Qed.

#[export] Instance keyword_laws : SchedulerLaws (WithTasks KeywordSched.Scheduler).
Proof.
  split; try done; intros s s' Hw; simpl in Hw;
    destruct (KeywordSched.Wait (wt_sched s)) as [k|] eqn:E; simplify_eq/=;
    destruct (kw_Wait_inv _ _ E) as (H1 & H2 & H3); [|done].
  unfold bs_Wait. simpl. by rewrite H1, H2.
Qed.

(** ** What the program does with a scheduler, against the interface *)
Section scheduler_life.
Context {S : Type} `{SchedulerLaws S}.

(** Adding in turn, then starting. *)
Definition schedule (at_ : TaskRef -> Time) (ts : list TaskRef) (s : S) : S :=
  sc_Start at_ (foldl (fun s r => sc_Add (at_ r) r s) s ts).

Definition reloads (rs : list ((TaskRef -> Time) * GlobalConf * list TaskRef)) (s : S) : S :=
  foldl (fun s x => sc_Reload x.1.1 x.1.2 x.2 s) s rs.

(** [Stop], then [Wait]. *)
Definition end_of (s : S) : option S := sc_Wait (sc_Stop s).

Lemma adds_tasks at_ ts s :
  let s' := foldl (fun s r => sc_Add (at_ r) r s) s ts in
  sc_tasks s' = put_all (sc_ident s) ts (sc_tasks s) /\ sc_base s' = sc_base s.
Proof using H.
  revert s. induction ts as [|r ts IH]; intros s; simpl; [done|].
  destruct (IH (sc_Add (at_ r) r s)) as [Ht Hb].
  by rewrite Ht, Hb, add_ident, add_tasks, add_status.
Qed.

Lemma reloads_keep rs s :
  bs_Status (sc_base (reloads rs s)) = bs_Status (sc_base s) /\
  match last rs with
  | None => reloads rs s = s
  | Some x => bs_Config (sc_base (reloads rs s)) = Some x.1.2 /\
      exists s1, sc_tasks (reloads rs s) = put_all (sc_ident s1) x.2 ∅
  end.
Proof using H.
  induction rs as [|x rs IH] using rev_ind; [done|].
  destruct IH as [IH _]. unfold reloads in *. rewrite foldl_app, last_snoc. simpl.
  rewrite !reload_status, reload_tasks. simpl. split_and!; [done|done|eauto].
Qed.

(** Through the life of any scheduler - tasks added, started, reloaded any number
    of times, stopped and waited for - its status goes from what it was to
    running to finished, its tasks are one per ident of those added or of those
    of the last reload, and its configuration is the last reload's. *)
Theorem scheduler_life at_ ts rs s s' :
  sc_tasks s = ∅ -> end_of (reloads rs (schedule at_ ts s)) = Some s' ->
  sc_GetStatus (schedule at_ ts s) = StatusRunning /\
  sc_GetStatus (reloads rs (schedule at_ ts s)) = StatusRunning /\
  sc_GetStatus s' = StatusFinished /\
  (exists key, sc_tasks s' = put_all key (match last rs with Some x => x.2 | None => ts end) ∅) /\
  bs_Config (sc_base s') = match last rs with Some x => Some x.1.2 | None => bs_Config (sc_base s) end.
Proof using H.
  intros He Hend. unfold end_of in Hend.
  pose proof (wait_status _ _ Hend) as Hw. pose proof (wait_tasks _ _ Hend) as Ht.
  rewrite stop_status in Hw. rewrite stop_tasks in Ht.
  destruct (adds_tasks at_ ts s) as [Ha Hb].
  assert (sc_base (schedule at_ ts s) = snd (bs_Start (sc_base s))) as Hs
    by (unfold schedule; by rewrite start_status, Hb).
  destruct (reloads_keep rs (schedule at_ ts s)) as [Hr Hl]. rewrite Hs in Hr.
  unfold sc_GetStatus. rewrite Hs, Hr, Hw, Ht. split_and!; try done.
  - destruct (last rs) as [x|].
    + destruct Hl as (_ & s1 & ->). by eexists.
    + rewrite Hl. unfold schedule. rewrite start_tasks, Ha, He. by eexists.
  - destruct (last rs) as [x|]; [by destruct Hl as [Hc _]|]. simpl. rewrite Hl, Hs. done.
Qed.
End scheduler_life.
