(* ===== verification/AlertLoop.v ===== *)
(** * The evaluator's loop (web/alerts/evaluator.go: NewEvaluator, Start, Stop, loop)

    The evaluator evaluates all rules at once and then at every tick of a ticker
    whose channel holds one tick. The file ends with the time it takes until a series
    that stays is reported, from the ticker's interval, the rule's duration and the
    length of an evaluation. *)
From S2P Require Import Prelude GoTime LabelsJson Fingerprint AlertStore Evaluator AlertSpec AlertEffects AlertGuarantees.
From Stdlib Require Import String.

(** One turn of the loop: what VictoriaMetrics answers during it, and the time that
    passes after its last reading of the clock. *)
Record Round := {
  rd_vm : string -> result (list Vector);
  rd_rest : Duration
}.

Section loop.
Context {R : MapRange}.
Context (e : Evaluator) (interval : Duration).

(** The clock moves on to [t], or stays when [t] has passed. *)
Definition wait_until (t : Time) : M unit := fun w =>
  (tt, {| w_db := w_db w; w_now := Z.max t (w_now w); w_ticks := w_ticks w;
          w_turns := w_turns w; w_mail := w_mail w |}).

Definition pass (d : Duration) : M unit := fun w => wait_until (w_now w + d) w.

Definition turn (r : Round) : M unit := evaluate e (rd_vm r) ;;; pass (rd_rest r).

(** The next receive from the channel of a ticker made at [base], by a loop that is
    free at [f] and has received the [j]-th tick last: a tick that came meanwhile is
    in the channel, later ones were dropped. *)
Definition next_tick (base : Time) (j : Z) (f : Time) : Z * Time :=
  if base + (j + 1) * interval <=? f then ((f - base) / interval, f)
  else (j + 1, base + (j + 1) * interval).

Fixpoint tick_loop (base : Time) (j : Z) (rounds : list Round) : M unit :=
  match rounds with
  | [] => ret tt
  | r :: rounds' => fun w =>
      let '(j', t) := next_tick base j (w_now w) in
      (wait_until t ;;; turn r ;;; tick_loop base j' rounds') w
  end.

(** [loop], until the context ends between two rounds; [Stop] ends it. *)
Definition evaluator_loop (rounds : list Round) : M unit :=
  match rounds with
  | [] => ret tt
  | r :: rounds' => turn r ;;; (fun w => tick_loop (w_now w) 0 rounds' w)
  end.

(** ** Rounds of an evaluator that is not disturbed *)
Context {HO : Sorter most_recent_first}.

Definition is_enabled (rule : AlertRule) (w : World) : Prop :=
  exists id r, alert_rules (w_db w) !! id = Some r /\ r_enabled r = 1 /\ rule = scan_rule id r [].

(** Kept by every step of an evaluation. *)
Record under_way (rules : gmap Z RuleRow) (t0 : Time) (w : World) : Prop := {
  uw_ready : ready w;
  uw_rules : alert_rules (w_db w) = rules;
  uw_now : t0 <= w_now w
}.

Lemma under_way_stable rid rules t0 : stable (evaluating rid) (under_way rules t0).
Proof.
  intros w w' Hs [[Hw Hf] Hr Ht].
  assert (sound w') as Hw' by (by eapply sound_stable_evaluating).
  destruct Hs as [| |q db id (? & _ & Hq) Hex|m _].
  - split; [by split|done|]. simpl. destruct Hw as [_ [[_ Hds] _]].
    destruct (w_ticks w) as [|d ds]; simpl; [lia|]. apply Forall_cons in Hds as [? _]. lia.
  - rewrite no_turn in Hw' |- * by done. by split; [split|..].
  - split; [by split| |done]. simpl.
    rewrite <-Hr. destruct q; simpl in Hq, Hex; try done;
      repeat case_match; by simplify_eq/=.
  - by split; [split|..].
Qed.

Lemma evaluateRule_under_way vm rule rules t0 w :
  ascii_answer (vm (rule_Expr rule)) -> under_way rules t0 w ->
  under_way rules t0 (exec (evaluateRule e vm rule) w).
Proof.
  intros Ha Hw. destruct (evaluateRule_evals e vm rule Ha w) as [Hs _]; [apply Hw|].
  eapply stable_steps; [apply under_way_stable|exact Hs|exact Hw].
Qed.

Lemma others_untouched vm rules0 rid fp xs t0 w :
  (forall expr, ascii_answer (vm expr)) -> under_way rules0 t0 w ->
  (forall x, x ∈ xs -> rule_ID x <> rid) ->
  let w' := exec (loop (evaluateRule e vm) xs) w in
  under_way rules0 (w_now w) w' /\ untouched rid fp w w'.
Proof.
  intros Ha Hw Hne. cbv zeta. revert w t0 Hw. induction xs as [|x xs IH]; intros w t0 [Hw Hr Ht].
  { split; [by split|done]. }
  rewrite exec_loop_cons.
  destruct (evaluateRule_under_way vm x rules0 (w_now w) w) as [Hw1 Hr1 Ht1]; [done|by split|].
  destruct (IH) with (w := exec (evaluateRule e vm x) w) (t0 := w_now w) as [[Hw2 Hr2 Ht2] Hu];
    [intros y Hy; apply Hne; by right|by split|].
  split; [split; [done|done|lia]|]. eapply untouched_trans; [|exact Hu].
  apply (evaluateRule_frame e); [apply Hw|by apply ready_alone|done|]. intros E. by apply (Hne x); [left|].
Qed.

(** The enabled rules, with every id once. *)
Lemma enabled_rules rule w :
  ready w -> is_enabled rule w ->
  exists pre post, GetEnabledRules w = (Ok (pre ++ rule :: post), w) /\
    (forall x, x ∈ pre ++ post -> rule_ID x <> rule_ID rule).
Proof.
  intros [_ Hf] (id & r & Hr & He & ->). unfold GetEnabledRules. rewrite db_query_ok by done.
  set (rows := filter _ (rules_by_id (alert_rules (w_db w)))).
  assert (NoDup rows.*1) as Hnd.
  { unfold rows. eapply sublist_NoDup; [|apply fmap_sublist, sublist_filter].
    unfold rules_by_id. rewrite sort_perm. apply NoDup_fst_map_to_list. }
  assert ((id, r) ∈ rows) as (pre & post & E)%list_elem_of_split.
  { apply list_elem_of_filter. split; [done|]. unfold rules_by_id. rewrite sort_perm.
    by apply elem_of_map_to_list. }
  rewrite E in *. exists ((fun row => scan_rule row.1 row.2 []) <$> pre),
    ((fun row => scan_rule row.1 row.2 []) <$> post). rewrite fmap_app. split; [done|].
  intros x Hx. rewrite <-fmap_app in Hx. apply list_elem_of_fmap in Hx as ([id' r'] & -> & Hx).
  simpl. intros ->. rewrite fmap_app in Hnd. simpl in Hnd.
  apply NoDup_app in Hnd as (_ & H1 & [H2 _]%NoDup_cons).
  apply elem_of_app in Hx as [Hx|Hx]; [apply (H1 id); [|by left]|apply H2];
    by apply (list_elem_of_fmap_2 fst _ (id, r')).
Qed.

(** One evaluation of all rules, seen from one instance that is present. *)
Lemma evaluate_present vm rule rules t0 fp w :
  under_way rules t0 w -> is_enabled rule w -> (forall expr, ascii_answer (vm expr)) ->
  present_in rule fp vm ->
  let w' := exec (evaluate e vm) w in
  exists now i' evs, w_now w <= now <= w_now w' /\
    transition (rule_Duration rule) now (fun tn => now <= tn) true
      (view (row (rule_ID rule) fp w)) i' evs /\
    observed (rule_ID rule) fp w w' i' (mailed e evs) evs /\ under_way rules (w_now w) w'.
Proof.
  intros Hw He Ha (results & Hvm & Hres & v & Hin & Hv) w'.
  destruct (enabled_rules rule w (uw_ready _ _ _ Hw) He) as (pre & post & E & Hne).
  assert (w' = exec (loop (evaluateRule e vm) (pre ++ rule :: post)) w) as ->
    by (unfold w', evaluate, exec, bind; by rewrite E).
  rewrite exec_loop_app, exec_loop_cons.
  destruct (others_untouched vm rules (rule_ID rule) fp pre t0 w Ha Hw) as [Hw1 Hu1].
  { intros x Hx. apply Hne, elem_of_app. by left. }
  set (w1 := exec (loop _ pre) w) in *.
  destruct (evaluateRule_ready e vm rule results w1 (uw_ready _ _ _ Hw1) Hvm Hres)
    as (Hw2 & Hle & Hle2 & Hfp).
  destruct (Hfp fp) as (i' & evs & hs & Htr & Hob).
  rewrite Hin in Htr. apply evaluated_number in Htr as [Htr ->]; [|done].
  assert (under_way rules (w_now w1) (exec (evaluateRule e vm rule) w1)) as Hu2.
  { apply evaluateRule_under_way; [done|]. destruct Hw1. by split. }
  set (w2 := exec (evaluateRule e vm rule) w1) in *.
  destruct (others_untouched vm rules (rule_ID rule) fp post (w_now w1) w2 Ha Hu2) as [Hw3 Hu3].
  { intros x Hx. apply Hne, elem_of_app. by right. }
  exists (fst (Now w1)), i', evs. destruct Hw1 as [_ _ Ht1], Hw3 as [Hr3 Hru3 Ht3].
  split; [lia|]. split.
  { destruct Hu1 as [<- _]. exact Htr. }
  split; [|split; [done|done|lia]].
  eapply observed_untouched; [|exact Hu3]. by eapply untouched_observed.
Qed.

(** ** How long a present series waits *)
Context (D : Duration).

(** Every turn takes at most [D], from its start to its return. *)
Fixpoint turns_within (base : Time) (j : Z) (rounds : list Round) (w : World) : Prop :=
  match rounds with
  | [] => True
  | r :: rounds' =>
      let '(j', t) := next_tick base j (w_now w) in
      let w1 := exec (wait_until t) w in
      let w2 := exec (turn r) w1 in
      w_now w2 <= w_now w1 + D /\ turns_within base j' rounds' w2
  end.

Context (rule : AlertRule) (fp : string).

Definition good_round (r : Round) : Prop :=
  (forall expr, ascii_answer (rd_vm r expr)) /\ present_in rule fp (rd_vm r) /\ 0 <= rd_rest r.

(** The one event of [w'] after [w]. *)
Definition fired (w w' : World) : Prop :=
  history_events (rule_ID rule) fp w' = history_events (rule_ID rule) fp w ++ ["firing"%string] /\
  mail_events (rule_ID rule) fp w' =
    mail_events (rule_ID rule) fp w ++ mailed e ["firing"%string] /\
  exists since, in_phase (view (row (rule_ID rule) fp w')) = Firing since.

Lemma wait_under_way rules t0 t w :
  under_way rules t0 w -> under_way rules (w_now w) (exec (wait_until t) w).
Proof.
  intros [[[Hdb [[Ht Hds] Hts]] Hf] Hr H0].
  split; [split; [split; [done|split; [split|]]|]|..]; try done; simpl in *; lia.
Qed.

Lemma turn_present r rules t0 w :
  under_way rules t0 w -> is_enabled rule w -> good_round r ->
  let w' := exec (turn r) w in
  exists now i' evs, w_now w <= now <= w_now w' /\
    transition (rule_Duration rule) now (fun tn => now <= tn) true
      (view (row (rule_ID rule) fp w)) i' evs /\
    observed (rule_ID rule) fp w w' i' (mailed e evs) evs /\ under_way rules (w_now w) w' /\
    is_enabled rule w'.
Proof.
  intros Hw He (Ha & Hp & Hrest) w'.
  destruct (evaluate_present (rd_vm r) rule rules t0 fp w Hw He Ha Hp)
    as (now & i' & evs & Hnow & Htr & Hob & Hu).
  assert (w' = exec (pass (rd_rest r)) (exec (evaluate e (rd_vm r)) w)) as Ew
    by (unfold w', turn; by run).
  set (w1 := exec (evaluate e (rd_vm r)) w) in *.
  pose proof (wait_under_way rules (w_now w) (w_now w1 + rd_rest r) w1 Hu : under_way rules (w_now w1) _)
    as Hu'.
  change (exec (wait_until (w_now w1 + rd_rest r)) w1) with (exec (pass (rd_rest r)) w1) in Hu'.
  rewrite <-Ew in Hu'. exists now, i', evs. destruct Hu' as [Hr' Hru' Ht'].
  split; [lia|]. split; [exact Htr|]. split; [|split].
  - rewrite Ew. destruct Hob as [H1 H2 H3]. by split.
  - destruct Hu. split; [done|done|lia].
  - destruct He as (id & row & Hid & ? & ?). exists id, row. split; [|done].
    by rewrite Hru', <-(uw_rules _ _ _ Hw).
Qed.

(** A tick comes within an interval, and the ticker stays in step. *)
Lemma next_tick_soon base j f :
  0 < interval -> base + j * interval <= f ->
  let '(j', t) := next_tick base j f in
  Z.max t f <= f + interval /\ base + j' * interval <= Z.max t f.
Proof.
  intros Hi Hj. unfold next_tick. destruct (Z.leb_spec (base + (j + 1) * interval) f).
  - pose proof (Z.mul_div_le (f - base) interval Hi). nia.
  - nia.
Qed.

(** One turn of the loop, from waiting for the tick to the end of the turn. *)
Lemma loop_turn base j r rules t0 w :
  0 < interval -> base + j * interval <= w_now w ->
  under_way rules t0 w -> is_enabled rule w -> good_round r ->
  let '(j', t) := next_tick base j (w_now w) in
  let w1 := exec (wait_until t) w in let w2 := exec (turn r) w1 in
  w_now w1 <= w_now w + interval /\ base + j' * interval <= w_now w2 /\
  under_way rules (w_now w) w2 /\ is_enabled rule w2 /\
  exists now i' evs, w_now w1 <= now <= w_now w2 /\
    transition (rule_Duration rule) now (fun tn => now <= tn) true
      (view (row (rule_ID rule) fp w)) i' evs /\
    observed (rule_ID rule) fp w w2 i' (mailed e evs) evs.
Proof.
  intros Hi Hj Hw He Hr. pose proof (next_tick_soon base j (w_now w) Hi Hj) as Hn.
  destruct (next_tick base j (w_now w)) as [j' t]. cbv zeta.
  pose proof (wait_under_way rules t0 t w Hw) as Hw1. set (w1 := exec (wait_until t) w) in *.
  assert (w_now w1 = Z.max t (w_now w)) as E by done.
  destruct (turn_present r rules (w_now w) w1 Hw1 He Hr) as (now & i' & evs & Hnow & Htr & Hob & Hw2 & He2).
  split; [lia|]. split; [lia|].
  split; [destruct Hw2; split; [done|done|lia]|]. split; [done|].
  exists now, i', evs. split; [lia|]. split; [exact Htr|].
  destruct Hob as [H1 H2 H3]. by split.
Qed.

Definition fires_by (bound : Time) (base : Time) (j : Z) (rounds : list Round) (w : World) : Prop :=
  exists k, (k <= List.length rounds)%nat /\
    let w' := exec (tick_loop base j (take k rounds)) w in w_now w' <= bound /\ fired w w'.

Lemma exec_tick_loop base j r rounds w :
  exec (tick_loop base j (r :: rounds)) w =
  let '(j', t) := next_tick base j (w_now w) in
  exec (tick_loop base j' rounds) (exec (turn r) (exec (wait_until t) w)).
Proof.
  unfold exec at 1. simpl. destruct (next_tick _ _ _) as [j' t].
  change (exec (wait_until t ;;; turn r ;;; tick_loop base j' rounds) w =
    exec (tick_loop base j' rounds) (exec (turn r) (exec (wait_until t) w))).
  by rewrite !exec_seq.
Qed.

(** A first turn that fires. *)
Lemma fires_at_once bound base j r rounds w :
  (let '(j', t) := next_tick base j (w_now w) in
   let w2 := exec (turn r) (exec (wait_until t) w) in w_now w2 <= bound /\ fired w w2) ->
  fires_by bound base j (r :: rounds) w.
Proof.
  intros H. exists 1%nat. split; [simpl; lia|]. cbv zeta. simpl take. rewrite exec_tick_loop.
  by destruct (next_tick _ _ _) as [j' t].
Qed.

(** A first turn without an event. *)
Lemma fires_later bound base j r rounds w :
  (let '(j', t) := next_tick base j (w_now w) in
   let w2 := exec (turn r) (exec (wait_until t) w) in
   mail_events (rule_ID rule) fp w2 = mail_events (rule_ID rule) fp w /\
   history_events (rule_ID rule) fp w2 = history_events (rule_ID rule) fp w /\
   fires_by bound base j' rounds w2) ->
  fires_by bound base j (r :: rounds) w.
Proof.
  intros H. destruct (next_tick base j (w_now w)) as [j' t] eqn:E. cbv zeta in H.
  destruct H as (Hm & Hh & k & Hk & Hb & Hf1 & Hf2 & Hf3). exists (S k).
  split; [simpl; lia|]. cbv zeta. simpl take. rewrite exec_tick_loop, E.
  split; [done|]. unfold fired. rewrite Hf1, Hf2, Hh, Hm. by split_and!.
Qed.

Context (interval_pos : 0 < interval) (D_nonneg : 0 <= D).
Context (dur_nonneg : 0 <= rule_Duration rule) (dur_fits : fits64 (rule_Duration rule * Second)).

Let wait : Duration := rule_Duration rule * Second.

Lemma pending_turn now i i' evs since :
  transition (rule_Duration rule) now (fun tn => now <= tn) true i i' evs ->
  in_phase i = Pending (Some since) ->
  (now < since + wait /\ evs = [] /\ in_phase i' = Pending (Some since)) \/
  (evs = ["firing"%string] /\ exists s, in_phase i' = Firing s).
Proof using dur_fits.
  intros Htr Hp. inversion Htr as [| |? s Hs Hlt|? s tn Hs Hge| | | | | | |]; subst;
    simplify_eq/=; try congruence; rewrite Hp in Hs; simplify_eq/=; [left|right; by eauto].
  split; [|done]. unfold wait. rewrite dur_mul_exact in Hlt by done. destruct dur_fits.
  unfold Sub, minInt64, maxInt64 in *. lia.
Qed.

Lemma inactive_turn now i i' evs :
  0 <= now -> transition (rule_Duration rule) now (fun tn => now <= tn) true i i' evs ->
  in_phase i = Inactive ->
  (evs = [] /\ exists since, since <= now /\ in_phase i' = Pending (Some since)) \/
  (evs = ["firing"%string] /\ exists s, in_phase i' = Firing s).
Proof.
  clear dur_nonneg dur_fits interval_pos D_nonneg.
  intros Hnow Htr Hp. inversion Htr; subst; simplify_eq/=; try congruence; [left|right; by eauto].
  split; [done|]. destruct (stamp_positive now Hnow) as (s & -> & ?). exists s. split; [lia|done].
Qed.

Lemma pending_fires rounds base j since rules t0 w :
  base + j * interval <= w_now w ->
  under_way rules t0 w -> is_enabled rule w -> Forall good_round rounds ->
  turns_within base j rounds w ->
  in_phase (view (row (rule_ID rule) fp w)) = Pending (Some since) ->
  let bound := Z.max (w_now w) (since + wait + D) + interval + D in
  bound <= w_now (exec (tick_loop base j rounds) w) ->
  fires_by bound base j rounds w.
Proof using interval_pos D_nonneg dur_nonneg dur_fits.
  revert base j t0 w. induction rounds as [|r rounds IH]; intros base j t0 w Hj Hw He Hgood Hin Hp bound Hend.
  { unfold exec in Hend. simpl in Hend. unfold bound in *. lia. }
  apply Forall_cons in Hgood as [Hr Hgood]. rewrite exec_tick_loop in Hend.
  pose proof (loop_turn base j r rules t0 w interval_pos Hj Hw He Hr) as Ht.
  simpl turns_within in Hin.
  destruct (next_tick base j (w_now w)) as [j' t] eqn:En. cbv zeta in Ht, Hin.
  set (w1 := exec (wait_until t) w) in *. set (w2 := exec (turn r) w1) in *.
  destruct Hin as [HD Hin]. change (w_now w2 <= w_now w1 + D) in HD.
  destruct Ht as (Hw1 & Hj' & Hw2 & He2 & now & i' & evs & Hnow & Htr & [Hv Hm Hh]).
  destruct (pending_turn _ _ _ _ _ Htr Hp) as [(Hnot & -> & Hp')|[-> Hp']].
  - apply fires_later. rewrite En. cbv zeta. fold w1 w2.
    rewrite Hm, Hh, mailed_nil, !app_nil_r. split; [done|]. split; [done|].
    destruct (IH base j' (w_now w) w2) as (k & Hk & Hb & Hf); try done.
    + by rewrite Hv.
    + unfold bound in Hend. lia.
    + exists k. split; [done|]. split; [|done]. unfold bound. lia.
  - apply fires_at_once. rewrite En. cbv zeta. fold w1 w2. split; [unfold bound; lia|].
    split; [done|]. split; [done|]. by rewrite Hv.
Qed.
End loop.

(** C4: An evaluator that is waiting for its next tick reports a series that stays from
    now on, and that has no active instance yet, within the rule's duration, two
    intervals and three times the longest evaluation: before that bound one of its
    turns ends after which exactly one firing event - the first - has been recorded
    and mailed and the instance is firing - for every rule that stays enabled,
    whatever the other rules do and whatever VictoriaMetrics answers to them, as
    long as the loop goes on that long, no driver call fails, no request comes in
    between, and the series has a number for its value. *)
Theorem alert_latency {R : MapRange} {HO : Sorter most_recent_first} e interval D rule fp
    base j rounds w :
  0 < interval -> 0 <= D -> 0 <= rule_Duration rule -> fits64 (rule_Duration rule * Second) ->
  base + j * interval <= w_now w ->
  ready w -> is_enabled rule w -> Forall (good_round rule fp) rounds ->
  turns_within e interval D base j rounds w ->
  in_phase (view (row (rule_ID rule) fp w)) = Inactive ->
  let bound := w_now w + rule_Duration rule * Second + 2 * interval + 3 * D in
  bound <= w_now (exec (tick_loop e interval base j rounds) w) ->
  fires_by e interval rule fp bound base j rounds w.
Proof.
  intros Hi HD Hd Hfit Hj Hw He Hgood Hin Hp bound Hend.
  assert (under_way (alert_rules (w_db w)) (w_now w) w) as Hu by done.
  assert (0 <= rule_Duration rule * Second) by (durations; lia).
  destruct rounds as [|r rounds]; [unfold exec, bound in Hend; simpl in Hend; lia|].
  apply Forall_cons in Hgood as [Hr Hgood]. rewrite exec_tick_loop in Hend.
  pose proof (loop_turn e interval rule fp base j r _ _ w Hi Hj Hu He Hr) as Ht.
  simpl turns_within in Hin. destruct (next_tick interval base j (w_now w)) as [j' t] eqn:En.
  cbv zeta in Ht, Hin.
  set (w1 := exec (wait_until t) w) in *. set (w2 := exec (turn e r) w1) in *.
  destruct Hin as [HD1 Hin]. change (w_now w2 <= w_now w1 + D) in HD1.
  destruct Ht as (Hw1 & Hj' & Hw2 & He2 & now & i' & evs & Hnow & Htr & [Hv Hm Hh]).
  destruct (proj1 (proj2 (proj1 Hw))) as [Hpos _].
  assert (w_now w <= w_now w1) by (change (w_now w <= Z.max t (w_now w)); lia).
  destruct (inactive_turn rule now _ _ _ ltac:(lia) Htr Hp) as [(-> & since & Hs & Hp')|[-> Hp']].
  - apply fires_later. rewrite En. cbv zeta. fold w1 w2.
    rewrite Hm, Hh, mailed_nil, !app_nil_r. split; [done|]. split; [done|].
    destruct (pending_fires e interval D rule fp Hi HD Hd Hfit rounds base j' since _ _ w2 Hj' Hw2 He2 Hgood Hin)
      as (k & Hk & Hb & Hf).
    + by rewrite Hv.
    + unfold bound in Hend. lia.
    + exists k. split; [done|]. split; [|done]. unfold bound. lia.
  - apply fires_at_once. rewrite En. cbv zeta. fold w1 w2. split; [unfold bound; lia|].
    split; [done|]. split; [done|]. by rewrite Hv.
Qed.

(** The ticker of a started evaluator is made when its first evaluation returns. *)
Lemma evaluator_loop_started {R : MapRange} e interval r rounds w :
  let w1 := exec (turn e r) w in
  exec (evaluator_loop e interval (r :: rounds)) w = exec (tick_loop e interval (w_now w1) 0 rounds) w1 /\
  w_now w1 + 0 * interval <= w_now w1.
Proof. cbv zeta. split; [|lia]. unfold evaluator_loop. by rewrite exec_seq. Qed.

(** ** A rule with a minute's duration, evaluated every minute *)
#[local] Existing Instance in_key_order.

Definition minute_rule : AlertRule :=
  {| rule_ID := 1; rule_Name := "down"; rule_Enabled := true; rule_Expr := "up == 0";
     rule_Duration := 60; rule_Description := EmptyString; rule_CreatedAt := zero_time;
     rule_UpdatedAt := zero_time; rule_States := [] |}.

Definition demo_idle : World := exec (run_calls demo_mailer [Create minute_rule]) demo_start.

(** The rule as the evaluator reads it. *)
Definition minute_rule_read : AlertRule :=
  match alert_rules (w_db demo_idle) !! 1 with Some r => scan_rule 1 r [] | None => minute_rule end.

Definition demo_rounds : list Round := replicate 6 {| rd_vm := demo_vm; rd_rest := Second |}.

Lemma alert_latency_witness :
  fires_by demo_mailer Minute minute_rule_read demo_fp (w_now demo_idle + 60 * Second + 2 * Minute + 3 * (40 * Second))
    (w_now demo_idle) 0 demo_rounds demo_idle.
Proof.
  apply (alert_latency demo_mailer Minute (40 * Second) minute_rule_read demo_fp).
  - reflexivity.
  - discriminate.
  - discriminate.
  - split; vm_compute; discriminate.
  - lia.
  - split; [|vm_compute; reflexivity].
    apply run_calls_sound; [|apply demo_start_sound]. by constructor.
  - eexists 1, _. split; [vm_compute; reflexivity|]. split; [reflexivity|]. vm_compute. reflexivity.
  - apply Forall_replicate. split; [intros expr; exact demo_ascii|]. split; [|discriminate].
    pose proof (demo_present minute_rule_read 1) as Hp. by inversion Hp.
  - vm_compute. repeat split; discriminate.
  - vm_compute. reflexivity.
  - vm_compute. discriminate.
Defined.
