(* ===== verification/WebMain.v ===== *)
(** * The web server's main program (cmd/monitorweb/main.go)

    Start-up from the configuration to the listening server, on a disk of SQLite files,
    its clean-up loop and its end. Both stores share one file: the alert store drops
    its tables and makes them anew, the registry's table is kept if it is there. *)
From Stdlib Require Import Ascii String.
From S2P Require Import Prelude GoTime LabelsJson GoStrings Fingerprint AlertStore Evaluator AlertSpec AlertEffects AlertGuarantees AlertLoop.
From S2P Require AgentRegistry Mail.

(** What a database file holds; a new one is empty. *)
Record Database := {
  dbf_alerts : DB;
  dbf_agents : gmap string AgentRegistry.AgentRow
}.

Definition new_file : Database := {| dbf_alerts := empty_db; dbf_agents := ∅ |}.

Abbreviation Disk := (gmap string Database).

(** What the system answers; the failures of the two stores' statements are lists. *)
Record WebEnv := {
  we_ReadFile : string -> result string;
  we_Unmarshal : string -> result Mail.WebConfig;
  we_Getenv : Text -> Text;
  we_MkdirAll : Text -> result unit;
  we_Open : string -> result unit;
  we_Pragma : string -> result unit;
  we_now : Time;
  we_ticks : list Z;
  we_alert_faults : list (option error);
  we_registry_faults : list (option error)
}.

Record WebServer := {
  ws_cfg : Mail.WebConfig;
  ws_alerts : World;                       (* the alert store, the clock, sent mails *)
  ws_registry : AgentRegistry.RegDB;
  ws_mailer : option Mail.Mailer;
  ws_evaluator : Evaluator;
  ws_evaluating : bool                     (* the evaluator's context is alive *)
}.

Inductive WebOutcome :=
| W_exit (msg : string) (err : error) (disk : Disk)
| W_serving (s : WebServer) (disk : Disk).

(** [openSQLite]: the directory, the handle, write-ahead logging and the busy timeout.
    The file is there once the first statement has run. *)
Definition openSQLite (env : WebEnv) (path : string) (disk : Disk) : result Database * Disk :=
  match we_MkdirAll env (Dir (text path)) with
  | Err e => (Err e, disk)
  | Ok _ =>
      match we_Open env path with
      | Err e => (Err e, disk)
      | Ok _ =>
          match we_Pragma env "PRAGMA journal_mode=WAL" with
          | Err e => (Err e, disk)
          | Ok _ =>
              let db := default new_file (disk !! path) in
              let disk := <[path := db]> disk in
              match we_Pragma env "PRAGMA busy_timeout=5000" with
              | Err e => (Err e, disk)
              | Ok _ => (Ok db, disk)
              end
          end
      end
  end.

(** [smtp.New] when a host is configured; else the sender is nil. *)
Definition email_sender (env : WebEnv) (cfg : Mail.WebConfig) : option Mail.Mailer :=
  if decide (Mail.smtp_Host (Mail.SMTP cfg) = EmptyString) then None
  else Some (Mail.NewMailer (we_Getenv env) (Mail.SMTP cfg)).

Definition NewEvaluator (mailer : option Mail.Mailer) : Evaluator :=
  {| ev_email := match mailer with Some _ => true | None => false end |}.

Definition web_main (env : WebEnv) (configPath : string) (disk : Disk) : WebOutcome :=
  match Mail.load_web (we_Unmarshal env) configPath (we_ReadFile env configPath) with
  | Err e => W_exit "load config failed" e disk
  | Ok cfg =>
      let path := Mail.DBPath cfg in
      match openSQLite env path disk with
      | (Err e, disk) => W_exit "open database" e disk
      | (Ok db, disk) =>
          let w := {| w_db := dbf_alerts db; w_now := we_now env; w_ticks := we_ticks env;
                      w_turns := undisturbed <$> we_alert_faults env; w_mail := [] |} in
          let '(r, w) := NewStore w in
          let disk := <[path := {| dbf_alerts := w_db w; dbf_agents := dbf_agents db |}]> disk in
          match r with
          | Err e => W_exit "init alert store" e disk
          | Ok _ =>
              let '(r, reg) := AgentRegistry.migrate
                {| AgentRegistry.rg_agents := dbf_agents db;
                   AgentRegistry.rg_faults := we_registry_faults env |} in
              match r with
              | Err e => W_exit "init registry store" e disk
              | Ok _ =>
                  let mailer := email_sender env cfg in
                  W_serving {| ws_cfg := cfg; ws_alerts := w; ws_registry := reg;
                               ws_mailer := mailer; ws_evaluator := NewEvaluator mailer;
                               ws_evaluating := true |} disk
              end
          end
      end
  end.

(** The file while the server runs and after it: every statement is committed. *)
Definition file_of (s : WebServer) : Database :=
  {| dbf_alerts := w_db (ws_alerts s); dbf_agents := AgentRegistry.rg_agents (ws_registry s) |}.

(** The end by a signal: the evaluator's context is cancelled, the HTTP server is shut
    down, the database closed. *)
Definition web_stop (s : WebServer) (disk : Disk) : WebServer * Disk :=
  ({| ws_cfg := ws_cfg s; ws_alerts := ws_alerts s; ws_registry := ws_registry s;
      ws_mailer := ws_mailer s; ws_evaluator := ws_evaluator s; ws_evaluating := false |},
   <[Mail.DBPath (ws_cfg s) := file_of s]> disk).

(** The goroutine of [ListenAndServe]: any error but the one of a shutdown ends the
    process at once. *)
Definition ErrServerClosed : error := "http: Server closed".

Definition listen_ends (err : option error) (s : WebServer) (disk : Disk) : option WebOutcome :=
  match err with
  | None => None
  | Some e =>
      if decide (e = ErrServerClosed) then None
      else Some (W_exit "monitorweb exited" e (<[Mail.DBPath (ws_cfg s) := file_of s]> disk))
  end.

(** [CleanLoop]: a statement at every tick, its error dropped; a clean-up takes as long
    as the entries say. *)
Fixpoint CleanLoop (ttl interval : Duration) (base : Time) (j : Z) (f : Time)
    (durations : list Duration) (db : AgentRegistry.RegDB) : AgentRegistry.RegDB :=
  match durations with
  | [] => db
  | d :: durations' =>
      let '(j', t) := next_tick interval base j f in
      CleanLoop ttl interval base j' (Z.max t f + d) durations'
        (snd (AgentRegistry.CleanStale ttl (Z.max t f) db))
  end.

(** Handlers, evaluations and clean-ups of a running server. *)
Inductive Activity :=
| Act_alert (c : call)
| Act_agent (change : AgentRegistry.RegDB -> AgentRegistry.RegDB).

Section serving.
Context {R : MapRange} {HO : Sorter most_recent_first}.

Definition act (s : WebServer) (a : Activity) : WebServer :=
  match a with
  | Act_alert c =>
      {| ws_cfg := ws_cfg s; ws_alerts := exec (run_call (ws_evaluator s) c) (ws_alerts s);
         ws_registry := ws_registry s; ws_mailer := ws_mailer s; ws_evaluator := ws_evaluator s;
         ws_evaluating := ws_evaluating s |}
  | Act_agent change =>
      {| ws_cfg := ws_cfg s; ws_alerts := ws_alerts s; ws_registry := change (ws_registry s);
         ws_mailer := ws_mailer s; ws_evaluator := ws_evaluator s;
         ws_evaluating := ws_evaluating s |}
  end.

Definition serve (s : WebServer) (acts : list Activity) : WebServer := foldl act s acts.

(** ** Without rules nothing is reported *)
Definition silent (x : effect) : Prop :=
  match x with Statement (InsertRule _ _ _ _ _ _ _) => False | Statement _ => True
  | Notification _ => False end.

(** No rule, and no other goroutine about to insert one. *)
Definition quiet (ms : list AlertStore.Mail) (w : World) : Prop :=
  alert_rules (w_db w) = ∅ /\ w_mail w = ms /\
  Forall (fun t => Forall (fun q => silent (Statement q)) (t_others t)) (w_turns w).

Lemma silent_stmt q db db' id :
  silent (Statement q) -> exec_stmt q db = Ok (db', id) -> alert_rules db = ∅ -> alert_rules db' = ∅.
Proof.
  intros Hq Hex Hr. destruct q; simpl in Hq, Hex; try done; simplify_eq/=; try done.
  - rewrite (proj2 (eq_None_not_Some _)) in Hex; [by simplify_eq|]. rewrite Hr, lookup_empty. by intros [].
  - by rewrite Hr, delete_empty.
  - by destruct (is_nan _); simplify_eq.
  - by destruct (is_nan _); simplify_eq.
Qed.

Lemma silent_others qs db :
  Forall (fun q => silent (Statement q)) qs -> alert_rules db = ∅ -> alert_rules (run_others qs db) = ∅.
Proof.
  intros Hqs. revert db. induction Hqs as [|q qs Hq _ IH]; intros db Hr; [done|]. simpl. apply IH.
  destruct (exec_stmt q db) as [[db' id]|] eqn:Hex; [|done]. by eapply silent_stmt.
Qed.

Lemma quiet_stable ms : stable silent (quiet ms).
Proof.
  intros w w' Hs (Hr & Hm & Hts). destruct Hs as [| |q db id Hq Hex|m []]; try done.
  - unfold quiet, take_turn. simpl. destruct Hts as [|t ts Hqs Hts]; simpl; [done|].
    by split; [apply silent_others|].
  - split; [by eapply silent_stmt|done].
Qed.

Definition no_rule (c : call) : Prop := match c with Create _ => False | _ => True end.

Ltac quiet_next ms := eapply (does_bind silent (quiet ms) (quiet_stable ms));
  [first [apply does_Now | by apply does_exec | apply does_any_query, quiet_stable]|intros ? ?].

Lemma run_call_quiet e ms c :
  no_rule c -> does silent (quiet ms) (run_call e c) (fun _ => True).
Proof.
  intros Hc. pose proof (quiet_stable ms) as Hst.
  assert (forall A (m : M A), does silent (quiet ms) m (fun _ => True) ->
    does silent (quiet ms) (m ;;; ret tt) (fun _ => True)) as Hunit.
  { intros A m Hm. eapply does_bind; [done|exact Hm|]. intros ? _. by apply does_ret. }
  destruct c; simpl; try done; try apply Hunit.
  - unfold NewStore, migrate. eapply (does_bind _ _ Hst _ _ (fun _ => True));
      [quiet_next ms; by apply does_ret|]. intros ? _. by apply does_ret.
  - unfold evaluate. eapply (does_bind _ _ Hst _ _ (fun rs => rs = Ok [] \/ exists e, rs = Err e)).
    + apply does_query; [done|by right; eexists|]. intros w [Hr _]. left. by rewrite Hr.
    + intros [rules|err] Hrs; [|by apply does_ret]. destruct Hrs as [[= ->]|[? ?]]; [|done].
      by apply does_ret.
  - do 2 quiet_next ms. case_match; [|by apply does_ret].
    do 2 quiet_next ms. by apply does_ret.
  - quiet_next ms. case_match; [|by apply does_ret]. do 2 quiet_next ms. by apply does_ret.
  - do 2 quiet_next ms. by apply does_ret.
  - quiet_next ms. by apply does_ret.
  - unfold ListRules.
    eapply (does_bind _ _ Hst _ _ (fun rs => rs = Ok [] \/ exists e, rs = Err e)).
    + apply does_query; [done|by right; eexists|]. intros w [Hr _]. left. by rewrite Hr.
    + intros [rules|err] Hrs; [|by apply does_ret]. destruct Hrs as [[= ->]|[? ?]]; [|done].
      simpl. eapply (does_bind _ _ Hst _ _ (fun _ => True)); [by apply does_ret|].
      intros ? _. by apply does_ret.
  - unfold ListHistory. quiet_next ms. case_match; [|by apply does_ret].
    cbv zeta. quiet_next ms. by apply does_ret.
Qed.

Lemma calls_quiet e ms cs w :
  Forall no_rule cs -> quiet ms w -> quiet ms (exec (run_calls e cs) w).
Proof.
  intros Hcs. apply exec_loop_inv. intros c w1 Hc Hw. rewrite Forall_forall in Hcs.
  destruct (run_call_quiet e ms c (Hcs c Hc) w1 Hw) as [Hs _].
  by eapply stable_steps; [apply quiet_stable|..].
Qed.

(** ** Start-up *)
Lemma NewStore_drops w :
  fst (NewStore w) = Ok tt ->
  w_db (exec NewStore w) = empty_db /\ w_mail (exec NewStore w) = w_mail w /\
  w_turns (exec NewStore w) = tail (w_turns w).
Proof.
  unfold NewStore, migrate, exec, bind, db_exec. destruct (next_fault w); [done|]. done.
Qed.

Lemma undisturbed_alone faults : Forall (fun t => t_others t = []) (tail (undisturbed <$> faults)).
Proof.
  destruct faults as [|f fs]; [constructor|]. simpl. apply Forall_fmap, Forall_forall. done.
Qed.

Lemma registry_migrate_keeps db :
  AgentRegistry.rg_agents (snd (AgentRegistry.migrate db)) = AgentRegistry.rg_agents db.
Proof.
  unfold AgentRegistry.migrate, AgentRegistry.statement. by destruct (mjoin _).
Qed.

Lemma serve_cfg s acts : ws_cfg (serve s acts) = ws_cfg s.
Proof.
  revert s. induction acts as [|[c|f] acts IH]; intros s; [done|..].
  - apply (IH (act s (Act_alert c))).
  - apply (IH (act s (Act_agent f))).
Qed.

Lemma web_main_serving env path disk s disk' :
  web_main env path disk = W_serving s disk' ->
  (w_db (ws_alerts s) = empty_db /\ w_mail (ws_alerts s) = [] /\ alone (ws_alerts s)) /\
  AgentRegistry.rg_agents (ws_registry s) =
    dbf_agents (default new_file (disk !! Mail.DBPath (ws_cfg s))) /\
  disk' = <[Mail.DBPath (ws_cfg s) := file_of s]> disk.
Proof.
  unfold web_main. destruct (Mail.load_web _ _ _) as [cfg|]; [|done]. cbv zeta.
  unfold openSQLite. destruct (we_MkdirAll _ _); [|done]. destruct (we_Open _ _); [|done].
  destruct (we_Pragma _ "PRAGMA journal_mode=WAL"); [|done].
  destruct (we_Pragma _ _); [|done].
  set (db := default new_file (disk !! Mail.DBPath cfg)).
  match goal with |- context [NewStore ?w] => pose proof (NewStore_drops w) as Hn; set (w0 := w) in * end.
  unfold exec in Hn. destruct (NewStore w0) as [[[]|] w]; [|done].
  destruct (Hn eq_refl) as (Hdb & Hm & Hts). simpl in Hdb, Hm, Hts.
  match goal with |- context [AgentRegistry.migrate ?r] => pose proof (registry_migrate_keeps r) as Hk end.
  destruct (AgentRegistry.migrate _) as [[[]|] reg]; [|done]. simpl in Hk.
  intros [= <- <-]. simpl. split_and!; [done|done| |done|].
  { unfold alone. rewrite Hts. apply undisturbed_alone. }
  unfold file_of. simpl. by rewrite Hk, insert_insert_eq.
Qed.
End serving.

(** C15: A server started on the database that another one left, whatever that one did,
    knows the agents that were registered, and no rule: every rule, every alert state
    and the whole history are gone, and until a rule is created again no call and no
    evaluation, with whatever failures of the driver, sends a mail. *)
Theorem restart_forgets_rules {R : MapRange} {HO : Sorter most_recent_first}
    s0 disk0 acts env path s1 disk1 :
  let '(s, disk) := web_stop (serve s0 acts) disk0 in
  web_main env path disk = W_serving s1 disk1 ->
  Mail.DBPath (ws_cfg s1) = Mail.DBPath (ws_cfg s0) ->
  AgentRegistry.rg_agents (ws_registry s1) = AgentRegistry.rg_agents (ws_registry s) /\
  w_db (ws_alerts s1) = empty_db /\
  forall cs, Forall no_rule cs ->
    let w := exec (run_calls (ws_evaluator s1) cs) (ws_alerts s1) in
    alert_rules (w_db w) = ∅ /\ w_mail w = [].
Proof.
  simpl. intros H1 Hpath.
  destruct (web_main_serving _ _ _ _ _ H1) as ((Hdb & Hm & Hal) & Hag & _).
  split; [|split; [done|]].
  - rewrite Hag, Hpath, serve_cfg, lookup_insert_eq. done.
  - intros cs Hcs. destruct (calls_quiet (ws_evaluator s1) [] cs (ws_alerts s1)) as (Hr & Hms & _); [done| |done].
    split; [by rewrite Hdb|]. split; [done|].
    eapply Forall_impl; [exact Hal|]. intros t E. simpl in E. by rewrite E.
Qed.

(** A start that fails at the registry's table has dropped the alerts already. *)
Lemma failed_start_drops_alerts env path disk e disk' :
  web_main env path disk = W_exit "init registry store" e disk' ->
  exists file db, disk' !! file = Some db /\ dbf_alerts db = empty_db.
Proof.
  unfold web_main. destruct (Mail.load_web _ _ _) as [cfg|]; [|done]. cbv zeta.
  destruct (openSQLite _ _ _) as [[db|] disk1]; [|done].
  match goal with |- context [NewStore ?w] => pose proof (NewStore_drops w) as Hn; set (w0 := w) in * end.
  unfold exec in Hn. destruct (NewStore w0) as [[[]|] w]; [|done].
  destruct (Hn eq_refl) as [Hdb _]. simpl in Hdb.
  destruct (AgentRegistry.migrate _) as [[[]|] reg]; [done|]. intros [= _ <-].
  exists (Mail.DBPath cfg). eexists. split; [apply lookup_insert_eq|done].
Qed.

(** ** A server with one rule and one agent, started again *)
#[local] Existing Instance in_key_order.

Definition demo_web_cfg : Mail.WebConfig :=
  {| Mail.Listen := EmptyString; Mail.DBPath := "/var/lib/monitorweb.db";
     Mail.web_VM := {| Mail.vm_URL := EmptyString; Mail.vm_Timeout := 0 |}; Mail.EvalInterval := 0;
     Mail.SMTP := {| Mail.smtp_Host := "smtp"; Mail.smtp_Port := 25; Mail.Username := EmptyString;
       Mail.Password := EmptyString; Mail.From := "a@b"; Mail.To := []; Mail.Insecure := false |};
     Mail.TTL := 0; Mail.CleanInterval := 0; Mail.UIDir := EmptyString |}.

Definition demo_web_env : WebEnv :=
  {| we_ReadFile := fun _ => Ok "web"%string; we_Unmarshal := fun _ => Ok demo_web_cfg;
     we_Getenv := fun _ => []; we_MkdirAll := fun _ => Ok tt; we_Open := fun _ => Ok tt;
     we_Pragma := fun _ => Ok tt; we_now := 1700000000 * Second;
     we_ticks := replicate 40 (10 * Second); we_alert_faults := []; we_registry_faults := [] |}.

Definition demo_server : WebServer :=
  match web_main demo_web_env "web.yaml" ∅ with
  | W_serving s _ => s
  | W_exit _ _ _ =>
      {| ws_cfg := demo_web_cfg; ws_alerts := demo_start;
         ws_registry := {| AgentRegistry.rg_agents := ∅; AgentRegistry.rg_faults := [] |};
         ws_mailer := None; ws_evaluator := demo_mailer; ws_evaluating := false |}
  end.

Definition demo_info : AgentRegistry.AgentInfo :=
  {| AgentRegistry.Hostname := "web1"; AgentRegistry.Version := "dev"; AgentRegistry.Tasks := None;
     AgentRegistry.IP := EmptyString; AgentRegistry.K8sNode := EmptyString;
     AgentRegistry.StartTime := 0; AgentRegistry.LastSeen := 0; AgentRegistry.Online := false |}.

Definition demo_acts : list Activity :=
  [Act_alert (Create demo_rule);
   Act_agent (fun db => snd (AgentRegistry.Heartbeat 0 demo_info db));
   Act_alert (Tick demo_vm)].

Lemma restart_forgets_rules_witness : exists s1 disk1,
  web_main demo_web_env "web.yaml" (snd (web_stop (serve demo_server demo_acts) ∅)) = W_serving s1 disk1 /\
  is_Some (AgentRegistry.rg_agents (ws_registry s1) !! "web1"%string) /\
  w_db (ws_alerts s1) = empty_db.
Proof.
  destruct (web_main demo_web_env "web.yaml" (snd (web_stop (serve demo_server demo_acts) ∅)))
    as [msg err d|s1 disk1] eqn:E; [vm_compute in E; discriminate E|].
  exists s1, disk1. split; [reflexivity|].
  assert (Mail.DBPath (ws_cfg s1) = Mail.DBPath (ws_cfg demo_server)) as Hp.
  { assert (match web_main demo_web_env "web.yaml" (snd (web_stop (serve demo_server demo_acts) ∅))
      with W_serving s _ => Mail.DBPath (ws_cfg s) | _ => EmptyString end
      = Mail.DBPath (ws_cfg demo_server)) as H by (vm_compute; reflexivity).
    rewrite E in H. exact H. }
  destruct (restart_forgets_rules demo_server ∅ demo_acts demo_web_env "web.yaml" s1 disk1 E Hp)
    as (Ha & Hd & _).
  split; [|exact Hd]. rewrite Ha. vm_compute. by eexists.
Defined.
